(** * pico-filesystem: path names, the UART character device, the flash
    filesystem constructor and the media functions of the SD card

    A shallow embedding of
    - [src/pfs/pname.c]            (module [Pname]),
    - [src/device/pfs_dev_uart.c]  (module [Uart]),
    - [src/flash/pfs_ffs.c]        (module [Ffs]),
    - [src/sdcard/ff_disk.c]       (module [Disk]),
    followed by the properties proved about them. *)

From Stdlib Require Import ZArith Ascii List Lia Bool.
From stdpp Require Import base option list gmap fin_sets strings.

(* ===================================================================== *)
(** * Part I: the code *)
(* ===================================================================== *)

(** ** Stateful code that can go wrong

    A C function is a function from the state before the call to its
    result and the state after it, or to [None] where the C code has no
    defined behaviour. *)

Module StateErr.

Definition M (S A : Type) : Type := S -> option (A * S).

Definition ret {S A} (a : A) : M S A := fun s => Some (a, s).
Definition undef {S A} : M S A := fun _ => None.
Definition bind {S A B} (m : M S A) (f : A -> M S B) : M S B :=
  fun s => match m s with
           | Some (a, s') => f a s'
           | None => None
           end.
Definition get {S} : M S S := fun s => Some (s, s).
Definition put {S} (s : S) : M S unit := fun _ => Some (tt, s).

End StateErr.

Import StateErr.

Notation "'let*' x ':=' m 'in' k" := (bind m (fun x => k))
  (at level 10, x name, m at level 100, k at level 200, only parsing).
Notation "m >> k" := (bind m (fun _ => k))
  (at level 90, right associativity, only parsing).

(** ** src/pfs/pname.c *)

Module Pname.

(** Addresses of [PNAME] nodes; [NULL] is address 0. *)
Definition ptr := nat.
Definition NULL : ptr := 0.

(** [typedef struct s_pname { prev; next; name; len; } PNAME;]

    [name] is a [const char *]: it is modelled by the bytes found at that
    address, from the pointer on, so that [name[i]] is [nth i name NUL].
    Bytes behind the end of the list read as NUL. *)
Record PNAME := mkPNAME {
  prev : ptr;
  next : ptr;
  name : list ascii;
  len  : nat
}.

Definition NUL : ascii := Ascii.zero.
Definition slash : ascii := "/"%char.
Definition backslash : ascii := ascii_of_nat 92.
Definition dot : ascii := "."%char.

(** [STATIC char rootdir = '/';] seen through [&rootdir]. *)
Definition rootdir : list ascii := [slash].

(** The heap of [PNAME] nodes, and the number of calls of [pfs_malloc] made
    so far. *)
Record heap := mkHeap {
  nodes  : gmap ptr PNAME;
  nalloc : nat
}.

(** Computations on the heap.  [None] is undefined behaviour: an access to
    a node that is not allocated, a write outside an allocated block, or a
    loop that does not end. *)
Definition M (A : Type) : Type := StateErr.M heap A.

Definition get_heap : M heap := get.

Definition load (p : ptr) : M PNAME :=
  fun h => match nodes h !! p with
           | Some n => Some (n, h)
           | None => None
           end.

Definition store (p : ptr) (n : PNAME) : M unit :=
  fun h => match nodes h !! p with
           | Some _ => Some (tt, mkHeap (<[p := n]> (nodes h)) (nalloc h))
           | None => None
           end.

(** [p->prev], [p->next], [p->name], [p->len] read. *)
Definition get_prev (p : ptr) : M ptr := let* n := load p in ret (prev n).
Definition get_next (p : ptr) : M ptr := let* n := load p in ret (next n).
Definition get_name (p : ptr) : M (list ascii) := let* n := load p in ret (name n).
Definition get_len (p : ptr) : M nat := let* n := load p in ret (len n).

(** [p->prev = v], [p->next = v], [p->name = v], [p->len = v]. *)
Definition set_prev (p v : ptr) : M unit :=
  let* n := load p in store p (mkPNAME v (next n) (name n) (len n)).
Definition set_next (p v : ptr) : M unit :=
  let* n := load p in store p (mkPNAME (prev n) v (name n) (len n)).
Definition set_name (p : ptr) (v : list ascii) : M unit :=
  let* n := load p in store p (mkPNAME (prev n) (next n) v (len n)).
Definition set_len (p : ptr) (v : nat) : M unit :=
  let* n := load p in store p (mkPNAME (prev n) (next n) (name n) v).

(** The contents of a node just obtained from [pfs_malloc]; the code
    writes every field before it reads it. *)
Definition uninit : PNAME := mkPNAME NULL NULL [] 0.

Section Allocator.

(** [pfs_malloc_ok n]: whether the call number [n] of [pfs_malloc]
    finds memory. *)
Variable pfs_malloc_ok : nat -> bool.

(** What a block of bytes obtained from [pfs_malloc] holds before it is
    written, byte by byte. *)
Variable heap_junk : nat -> ascii.

(** [pfs_malloc (sizeof (PNAME))] *)
Definition pfs_malloc : M ptr :=
  fun h =>
    if pfs_malloc_ok (nalloc h) then
      let p := fresh ({[NULL]} ∪ dom (nodes h)) in
      Some (p, mkHeap (<[p := uninit]> (nodes h)) (S (nalloc h)))
    else Some (NULL, mkHeap (nodes h) (S (nalloc h))).

(** [pfs_malloc (n)] for a block of [n] bytes, which the caller owns:
    [None] is the NULL pointer. *)
Definition pfs_malloc_bytes (n : nat) : M (option (list ascii)) :=
  fun h =>
    if pfs_malloc_ok (nalloc h) then
      Some (Some (map heap_junk (seq 0 n)), mkHeap (nodes h) (S (nalloc h)))
    else Some (None, mkHeap (nodes h) (S (nalloc h))).

(** [pfs_free (p)] *)
Definition pfs_free (p : ptr) : M unit :=
  fun h =>
    if p =? NULL then Some (tt, h)
    else match nodes h !! p with
         | Some _ => Some (tt, mkHeap (delete p (nodes h)) (nalloc h))
         | None => None
         end.

(** The loop of [pname_clean]:
    [while (( pe1 != pn ) && ( pe1 != NULL )) { pe2 = pe1->next; pfs_free (pe1); pe1 = pe2; }] *)
Fixpoint clean_loop (fuel : nat) (pn pe1 : ptr) : M unit :=
  match fuel with
  | O => undef
  | S fuel' =>
      if negb (pe1 =? pn) && negb (pe1 =? NULL) then
        let* pe2 := get_next pe1 in
        pfs_free pe1 >>
        clean_loop fuel' pn pe2
      else ret tt
  end.

(** Every turn of the loop frees a node, so that one turn more than there
    are nodes is enough. *)
Definition pname_clean (pn : ptr) : M unit :=
  let* pe1 := get_next pn in
  let* h := get_heap in
  clean_loop (S (size (nodes h))) pn pe1 >>
  set_prev pn pn >>
  set_next pn pn.

Definition pname_delete (pn : ptr) : M unit :=
  pname_clean pn >>
  pfs_free pn.

Definition pname_link (pn pe : ptr) : M unit :=
  let* pnprev := get_prev pn in
  set_prev pe pnprev >>                       (* pe->prev = pn->prev; *)
  set_next pe pn >>                           (* pe->next = pn; *)
  let* pnprev := get_prev pn in
  set_next pnprev pe >>                       (* pn->prev->next = pe; *)
  set_prev pn pe.                             (* pn->prev = pe; *)

Definition pname_unlink (pe : ptr) : M ptr :=
  let* pep := get_prev pe in
  let* pen := get_next pe in
  set_next pep pen >>
  set_prev pen pep >>
  set_prev pe NULL >>
  set_next pe NULL >>
  ret pe.

(** ['/'] or ['\\'] *)
Definition is_sep (c : ascii) : bool :=
  Ascii.eqb c slash || Ascii.eqb c backslash.

(** [strlen]: the bytes before the first NUL.  What follows the NUL in the
    list is the memory behind the string. *)
Fixpoint strlen (s : list ascii) : nat :=
  match s with
  | [] => 0
  | c :: s' => if Ascii.eqb c NUL then 0 else S (strlen s')
  end.

(** [while (( *ps1 == '/' ) || ( *ps1 == '\\' )) ++ps1;]
    [mem] is the memory from [ps1] on. *)
Fixpoint skip_seps (mem : list ascii) (ps1 : nat) : nat :=
  match mem with
  | [] => ps1
  | c :: mem' => if is_sep c then skip_seps mem' (S ps1) else ps1
  end.

(** [while (( *ps2 != '/' ) && ( *ps2 != '\\' ) && ( ps2 < pend )) ++ps2;]
    [mem] is the memory from [ps2] on. *)
Fixpoint seg_end (mem : list ascii) (ps2 pend : nat) : nat :=
  match mem with
  | [] => ps2
  | c :: mem' =>
      if negb (is_sep c) && (ps2 <? pend) then seg_end mem' (S ps2) pend
      else ps2
  end.

(** The [while ( true )] loop of [pname_scan]; [m] is the memory at
    [pn->name], and [ps1], [ps2] and [pend] are offsets into it. *)
Fixpoint scan_loop (fuel : nat) (pn : ptr) (m : list ascii) (pend ps1 : nat)
  : M bool :=
  match fuel with
  | O => undef
  | S fuel' =>
      let ps1 := skip_seps (drop ps1 m) ps1 in
      if pend <=? ps1 then ret true
      else
        let ps2 := seg_end (drop ps1 m) ps1 pend in
        if (ps1 + 1 <? ps2) || negb (Ascii.eqb (nth ps1 m NUL) dot) then
          let* pe := pfs_malloc in
          if pe =? NULL then ret false
          else
            set_name pe (drop ps1 m) >>
            set_len pe (ps2 - ps1) >>
            pname_link pn pe >>
            scan_loop fuel' pn m pend (ps2 + 1)
        else scan_loop fuel' pn m pend (ps2 + 1)
  end.

(** [ps1] grows by two at least in every turn that does not leave the
    loop, so that [pn->len] turns and one are enough. *)
Definition pname_scan (pn : ptr) : M bool :=
  let* m := get_name pn in
  let* l := get_len pn in
  let pend := l in
  if is_sep (nth 0 m NUL) then
    let* pe := pfs_malloc in
    if pe =? NULL then ret false
    else
      set_name pe rootdir >>
      set_len pe 1 >>
      pname_link pn pe >>
      scan_loop (S l) pn m pend 1
  else scan_loop (S l) pn m pend 0.

Definition pname_create (psPath : list ascii) : M ptr :=
  let* pn := pfs_malloc in
  if pn =? NULL then ret NULL
  else
    set_prev pn pn >>
    set_next pn pn >>
    set_name pn psPath >>
    set_len pn (strlen psPath) >>
    let* ok := pname_scan pn in
    if negb ok then pname_delete pn >> ret NULL
    else ret pn.

(** The loop of [pname_join]. *)
Fixpoint join_loop (fuel : nat) (pn1 pn2 : ptr) : M unit :=
  match fuel with
  | O => undef
  | S fuel' =>
      let* pn2next := get_next pn2 in
      if negb (pn2next =? pn2) && negb (pn2next =? NULL) then
        let pe2 := pn2next in
        pname_unlink pe2 >>
        let* pe2len := get_len pe2 in
        let* pe2name := get_name pe2 in
        (if (pe2len =? 2) && Ascii.eqb (nth 0 pe2name NUL) dot
                          && Ascii.eqb (nth 1 pe2name NUL) dot then
           let* pe1 := get_prev pn1 in
           let* ascend :=
             (if negb (pe1 =? pn1) then
                let* pe1name := get_name pe1 in
                ret (negb (Ascii.eqb (nth 0 pe1name NUL) slash))
              else ret false) in
           (if ascend : bool then pname_unlink pe1 >> pfs_free pe1
            else ret tt) >>
           pfs_free pe2
         else
           (if Ascii.eqb (nth 0 pe2name NUL) slash then pname_clean pn1
            else ret tt) >>
           pname_link pn1 pe2) >>
        join_loop fuel' pn1 pn2
      else ret tt
  end.

(** Every turn takes a node off [pn2]'s list. *)
Definition pname_join (pn1 pn2 : ptr) : M unit :=
  let* h := get_heap in
  join_loop (S (size (nodes h))) pn1 pn2.

(** [*ps = c] for [ps] at offset [i] of the block [buf]. *)
Definition poke (buf : list ascii) (i : nat) (c : ascii) : M (list ascii) :=
  if i <? length buf then ret (<[i := c]> buf) else undef.

(** [strncpy (ps, src, n)]: [n] bytes are written, those of [src] up to
    its NUL and NULs from there. *)
Fixpoint strncpy (buf : list ascii) (i : nat) (src : list ascii) (n : nat)
  : M (list ascii) :=
  match n with
  | O => ret buf
  | S n' =>
      let c := nth 0 src NUL in
      let* buf' := poke buf i c in
      strncpy buf' (S i) (if Ascii.eqb c NUL then [] else drop 1 src) n'
  end.

(** The first loop of [pname_mkname]. *)
Fixpoint nlen_loop (fuel : nat) (pn pe : ptr) (nlen : nat) : M nat :=
  match fuel with
  | O => undef
  | S fuel' =>
      if negb (pe =? pn) && negb (pe =? NULL) then
        let* pelen := get_len pe in
        let* penext := get_next pe in
        nlen_loop fuel' pn penext (nlen + (pelen + 1))
      else ret nlen
  end.

(** The second loop of [pname_mkname]; [ps] is an offset into [psName]. *)
Fixpoint copy_loop (fuel : nat) (pn pe : ptr) (psName : list ascii) (ps : nat)
  : M (list ascii * nat) :=
  match fuel with
  | O => undef
  | S fuel' =>
      if negb (pe =? pn) && negb (pe =? NULL) then
        let* pename := get_name pe in
        let* r :=
          (if negb (Ascii.eqb (nth 0 pename NUL) slash) then
             let* buf1 := poke psName ps slash in
             let* pelen := get_len pe in
             let* buf2 := strncpy buf1 (ps + 1) pename pelen in
             ret (buf2, ps + 1 + pelen)
           else ret (psName, ps)) in
        let* penext := get_next pe in
        copy_loop fuel' pn penext (fst r) (snd r)
      else ret (psName, ps)
  end.

(** The walks end at the sentinel after as many turns as the list has
    nodes. *)
Definition pname_mkname (pn : ptr) : M (option (list ascii)) :=
  let* h := get_heap in
  let fuel := S (size (nodes h)) in
  let* pe := get_next pn in
  let* nlen := nlen_loop fuel pn pe 0 in
  let* psName := pfs_malloc_bytes (nlen + 1) in
  match psName with
  | None => ret None
  | Some psName =>
      let* pe := get_next pn in
      let* r := copy_loop fuel pn pe psName 0 in
      let* r :=
        (if snd r =? 0 then
           let* buf := poke (fst r) (snd r) slash in
           ret (buf, snd r + 1)
         else ret r) in
      let* buf := poke (fst r) (snd r) NUL in
      ret (Some buf)
  end.

Definition pname_append (psPath1 psPath2 : list ascii)
  : M (option (list ascii)) :=
  let* pn1 := pname_create psPath1 in
  if pn1 =? NULL then ret None
  else
    let* pn2 := pname_create psPath2 in
    if pn2 =? NULL then pname_delete pn1 >> ret None
    else
      pname_join pn1 pn2 >>
      let* ps := pname_mkname pn1 in
      pname_delete pn1 >>
      pname_delete pn2 >>
      ret ps.

End Allocator.

(** The string a [char *] denotes: the bytes before the first NUL. *)
Definition cstring (buf : list ascii) : list ascii := take (strlen buf) buf.

(** A string of the source text as the bytes of a C string, without its
    NUL. *)
Definition chars (s : string) : list ascii := String.list_ascii_of_string s.

End Pname.

(** ** src/device/pfs_dev_uart.c *)

Module Uart.
Local Open Scope Z_scope.

(** [#define NDATA 512] *)
Definition NDATA : Z := 512.

(** [NUM_UARTS], of the SDK: the Pico has two UARTs. *)
Definition NUM_UARTS : Z := 2.

(** The value of an [int] expression, and of an [unsigned int] one. *)
Definition wrap_int (z : Z) : Z := (z + 2147483648) mod 4294967296 - 2147483648.
Definition wrap_uint (z : Z) : Z := z mod 4294967296.

(** What the code sees of a UART of the Pico: the bytes that wait in the
    receive FIFO, the bytes sent so far, the RTS bit of the control
    register, the receive bit of the interrupt mask, and the calls of the
    SDK that set it up. *)
Inductive uart_call : Type :=
  | call_uart_init (baud : Z)
  | call_uart_set_hw_flow (cts rts : bool)
  | call_hw_clear_bits_ifls
  | call_uart_set_baudrate (baud : Z)
  | call_uart_set_format (data_bits stop_bits parity : Z)
  | call_uart_set_irq_enables (rx_has_data tx_needs_data : bool)
  | call_uart_deinit.

Record uart_hw := mkHw {
  rx_fifo   : list Z;
  tx_out    : list Z;
  cr_rts    : bool;
  imsc_rxim : bool;
  hw_calls  : list uart_call
}.

(** [struct pfs_dev_uart].  [uart] is the number of the UART that
    [uart_get_instance] gave; [data] is [char data[NDATA]], a [char] being
    a number from 0 to 255 as on the ARM of the Pico.  The field [open]
    always holds [uart_open], and the critical section [ucs] guards
    against the interrupt handler: both are left out, a call being
    modelled as running from its start to its end. *)
Record pfs_dev_uart := mkDev {
  uart : Z;
  mode : Z;
  tout : Z;
  rptr : Z;
  wptr : Z;
  data : list Z
}.

Definition set_uart (v : Z) (d : pfs_dev_uart) : pfs_dev_uart :=
  mkDev v (mode d) (tout d) (rptr d) (wptr d) (data d).
Definition set_mode (v : Z) (d : pfs_dev_uart) : pfs_dev_uart :=
  mkDev (uart d) v (tout d) (rptr d) (wptr d) (data d).
Definition set_tout (v : Z) (d : pfs_dev_uart) : pfs_dev_uart :=
  mkDev (uart d) (mode d) v (rptr d) (wptr d) (data d).
Definition set_rptr (v : Z) (d : pfs_dev_uart) : pfs_dev_uart :=
  mkDev (uart d) (mode d) (tout d) v (wptr d) (data d).
Definition set_wptr (v : Z) (d : pfs_dev_uart) : pfs_dev_uart :=
  mkDev (uart d) (mode d) (tout d) (rptr d) v (data d).
Definition set_data (v : list Z) (d : pfs_dev_uart) : pfs_dev_uart :=
  mkDev (uart d) (mode d) (tout d) (rptr d) (wptr d) v.

Definition set_rx_tx (rx tx : list Z) (h : uart_hw) : uart_hw :=
  mkHw rx tx (cr_rts h) (imsc_rxim h) (hw_calls h).
Definition set_rts_rxim (b : bool) (h : uart_hw) : uart_hw :=
  mkHw (rx_fifo h) (tx_out h) b b (hw_calls h).
Definition add_call (c : uart_call) (h : uart_hw) : uart_hw :=
  mkHw (rx_fifo h) (tx_out h) (cr_rts h) (imsc_rxim h) (hw_calls h ++ [c]).

(** [a[i]] and [a[i] = c]: no defined behaviour outside the array. *)
Definition array_get (a : list Z) (i : Z) : option Z :=
  if 0 <=? i then a !! Z.to_nat i else None.

Definition array_set (a : list Z) (i : Z) (c : Z) : option (list Z) :=
  if (0 <=? i) && (i <? Z.of_nat (length a)) then Some (<[Z.to_nat i := c]> a)
  else None.

(** [typedef struct { baud; parity; data; stop; tx; rx; cts; rts; }
    SERIAL_CONFIG;], as the code uses it. *)
Record SERIAL_CONFIG := mkSC {
  sc_baud   : Z;
  sc_parity : Z;
  sc_data   : Z;
  sc_stop   : Z;
  sc_tx     : Z;
  sc_rx     : Z;
  sc_cts    : Z;
  sc_rts    : Z
}.

Definition set_sc_baud (v : Z) (sc : SERIAL_CONFIG) : SERIAL_CONFIG :=
  mkSC v (sc_parity sc) (sc_data sc) (sc_stop sc) (sc_tx sc) (sc_rx sc) (sc_cts sc) (sc_rts sc).

(** The requests of [uart_ioctl].  Modelled from the spec: the numbers of
    [IOC_RQ_MODE], [IOC_RQ_PURGE], [IOC_RQ_COUNT], [IOC_RQ_TOUT] and
    [IOC_RQ_SCFG] are in a header that is not at hand; they are the labels
    of one [switch], so no two of them are equal. *)
Inductive ioctl_request : Type :=
  | IOC_RQ_MODE
  | IOC_RQ_PURGE
  | IOC_RQ_COUNT
  | IOC_RQ_TOUT
  | IOC_RQ_SCFG
  | IOC_RQ_other (request : Z).

(** What [argp] points to. *)
Inductive ioctl_arg : Type :=
  | arg_int (v : Z)
  | arg_config (sc : SERIAL_CONFIG).

(** [uart_pin_valid] *)
Definition uart_pin_valid (uid func pin : Z) : bool :=
  if (pin <? 0) || (29 <? pin) then false
  else
    let pin := pin - func in
    if uid =? 0 then
      if (pin =? 0) || (pin =? 12) || (pin =? 16) || (pin =? 28) then true else false
    else if uid =? 1 then
      if (pin =? 4) || (pin =? 8) || (pin =? 20) || (pin =? 24) then true else false
    else false.

(** The calls of the SDK that are for no UART in particular. *)
Inductive sdk_call : Type :=
  | call_gpio_set_function (pin : Z)
  | call_irq_set_exclusive_handler (uid : Z)
  | call_irq_set_enabled (uid : Z) (enabled : bool).

(** The state of the module: the table [uart_dev], the devices allocated,
    the two UARTs, the calls made for pins and interrupts, and the number
    of calls of [pfs_malloc] made so far. *)
Record world := mkWorld {
  uart_dev : Z -> Pname.ptr;
  devs     : gmap Pname.ptr pfs_dev_uart;
  uarts    : Z -> uart_hw;
  sdk      : list sdk_call;
  nmalloc  : nat
}.

Definition W (A : Type) : Type := StateErr.M world A.

Definition fun_set {A} (f : Z -> A) (i : Z) (v : A) : Z -> A :=
  fun j => if j =? i then v else f j.

(** [uart_dev[uid]], read and written. *)
Definition get_uart_dev (uid : Z) : W Pname.ptr :=
  fun w => if (0 <=? uid) && (uid <? NUM_UARTS) then Some (uart_dev w uid, w) else None.

Definition set_uart_dev (uid : Z) (p : Pname.ptr) : W unit :=
  fun w =>
    if (0 <=? uid) && (uid <? NUM_UARTS) then
      Some (tt, mkWorld (fun_set (uart_dev w) uid p) (devs w) (uarts w) (sdk w) (nmalloc w))
    else None.

(** [*pud], read and written. *)
Definition load_dev (p : Pname.ptr) : W pfs_dev_uart :=
  fun w => match devs w !! p with Some d => Some (d, w) | None => None end.

Definition store_dev (p : Pname.ptr) (d : pfs_dev_uart) : W unit :=
  fun w =>
    match devs w !! p with
    | Some _ => Some (tt, mkWorld (uart_dev w) (<[p := d]> (devs w)) (uarts w) (sdk w) (nmalloc w))
    | None => None
    end.

(** A call of the SDK, for a UART or for none. *)
Definition on_uart (inst : Z) (f : uart_hw -> uart_hw) : W unit :=
  fun w =>
    Some (tt, mkWorld (uart_dev w) (devs w) (fun_set (uarts w) inst (f (uarts w inst)))
                (sdk w) (nmalloc w)).

Definition call (c : sdk_call) : W unit :=
  fun w => Some (tt, mkWorld (uart_dev w) (devs w) (uarts w) (sdk w ++ [c]) (nmalloc w)).

(** [pfs_free] *)
Definition pfs_free_dev (p : Pname.ptr) : W unit :=
  fun w =>
    if (p =? Pname.NULL)%nat then Some (tt, w)
    else match devs w !! p with
         | Some _ => Some (tt, mkWorld (uart_dev w) (delete p (devs w)) (uarts w)
                                 (sdk w) (nmalloc w))
         | None => None
         end.

Section Sdk.

(** The bits of the mode word, [EINVAL], and the parities: constants of
    headers that are not at hand. *)
Variables IOC_MD_ECHO IOC_MD_NBLOCK IOC_MD_ANY IOC_MD_CHR IOC_MD_TLF IOC_MD_CR : Z.
Variable EINVAL : Z.
Variables UART_PARITY_NONE UART_PARITY_EVEN UART_PARITY_ODD : Z.

(** [pfs_error (err)], of the core of the filesystem: the value it
    returns. *)
Variable pfs_error : Z -> Z.

(** [uart_init (uart, baud)] and [uart_set_baudrate (uart, baud)], of the
    SDK: the baud rate set, 0 when none can be. *)
Variable uart_init : Z -> Z -> Z.
Variable uart_set_baudrate : Z -> Z -> Z.

(** [pfs_malloc_ok n]: whether the call number [n] of [pfs_malloc] finds
    memory; [heap_junk n i]: what the block it gives holds at first. *)
Variable pfs_malloc_ok : nat -> bool.
Variable heap_junk : nat -> nat -> Z.

(** What the caller of [uopen] finds as its result when [uopen] reaches
    its closing brace: there is no [return] there. *)
Variable uopen_end : bool.

(** [x & FLAG], as a condition. *)
Definition has_flag (x flag : Z) : bool := negb (Z.land x flag =? 0).

(** The loop of [uart_input]: it ends when the write index is at [wend],
    or when the FIFO [rx] is empty.

    [pud->wptr = (++pud->wptr) & ( NDATA - 1 );] changes [wptr] twice
    without a sequence point; it is taken as compilers take it. *)
Fixpoint input_loop (wend : Z) (rx : list Z) (d : pfs_dev_uart) (tx : list Z)
  : option (pfs_dev_uart * list Z * list Z) :=
  match rx with
  | [] => Some (d, rx, tx)
  | c :: rx' =>
      if wptr d =? wend then Some (d, rx, tx)
      else
        match array_set (data d) (wptr d) c with
        | None => None
        | Some data' =>
            let tx' := if has_flag (mode d) IOC_MD_ECHO then tx ++ [c] else tx in
            input_loop wend rx'
              (set_wptr (Z.land (wrap_int (wptr d + 1)) (NDATA - 1)) (set_data data' d))
              tx'
        end
  end.

(** [uart_input (pud)], [h] being the UART [pud->uart]. *)
Definition uart_input (d : pfs_dev_uart) (h : uart_hw)
  : option (pfs_dev_uart * uart_hw) :=
  let wend := Z.land (wrap_int (rptr d - 1)) (NDATA - 1) in
  match input_loop wend (rx_fifo h) d (tx_out h) with
  | None => None
  | Some (d', rx', tx') =>
      let h' := set_rx_tx rx' tx' h in
      if wptr d' =? wend then Some (d', set_rts_rxim false h') else Some (d', h')
  end.

(** What goes on around a call of [uart_read]: the clock, in
    microseconds, and what is still to come: every look at the clock
    finds that some time has passed and that some bytes have reached the
    FIFO.  When nothing is to come any more the clock is never read again:
    a wait that needs it has no end. *)
Record environment := mkEnv {
  now    : Z;
  script : list (Z * list Z)
}.

(** [time_reached (tend)]; [None] is [at_the_end_of_time]. *)
Definition time_reached (tend : option Z) (t : Z) : bool :=
  match tend with
  | Some e => e <=? t
  | None => false
  end.

(** [while ( pud->rptr == pud->wptr ) { if ( time_reached (tend) ) break;
    uart_input (pud); }] *)
Fixpoint wait_loop (tend : option Z) (script : list (Z * list Z))
  (d : pfs_dev_uart) (h : uart_hw) (now : Z)
  : option (pfs_dev_uart * uart_hw * environment) :=
  if negb (rptr d =? wptr d) then Some (d, h, mkEnv now script)
  else
    match script with
    | [] => None
    | (dt, arrived) :: script' =>
        let now' := now + dt in
        let h' := set_rx_tx (rx_fifo h ++ arrived) (tx_out h) h in
        if time_reached tend now' then Some (d, h', mkEnv now' script')
        else
          match uart_input d h' with
          | None => None
          | Some (d', h'') => wait_loop tend script' d' h'' now'
          end
    end.

(** The result of [uart_read]: [nread], the buffer of the caller, and the
    state. *)
Record read_result := mkRead {
  rd_nread  : Z;
  rd_buffer : list Z;
  rd_dev    : pfs_dev_uart;
  rd_hw     : uart_hw;
  rd_env    : environment
}.

(** [while (length > 0) ...] of [uart_read], [n] being [length];
    [bptr] is [buffer + nread] at the start of every turn. *)
Fixpoint read_loop (n : nat) (tend : option Z) (d : pfs_dev_uart) (h : uart_hw)
  (e : environment) (nread : Z) (buffer : list Z) : option read_result :=
  match n with
  | O => Some (mkRead nread buffer d h e)
  | S n' =>
      if (rptr d =? wptr d) &&
         (has_flag (mode d) IOC_MD_NBLOCK ||
          (has_flag (mode d) IOC_MD_ANY && (0 <? nread)))
      then Some (mkRead nread buffer d h e)
      else
        match wait_loop tend (script e) d h (now e) with
        | None => None
        | Some (d1, h1, e1) =>
            if rptr d1 =? wptr d1 then Some (mkRead nread buffer d1 h1 e1)
            else
              match array_get (data d1) (rptr d1) with
              | None => None
              | Some c =>
                  match array_set buffer nread c with
                  | None => None
                  | Some buffer1 =>
                      let d2 := set_rptr (Z.land (wrap_int (rptr d1 + 1)) (NDATA - 1)) d1 in
                      if has_flag (mode d2) IOC_MD_CHR && (c =? Z.land (mode d2) 255)
                      then
                        let buffer2 :=
                          if has_flag (mode d2) IOC_MD_TLF then <[Z.to_nat nread := 10]> buffer1
                          else buffer1 in
                        Some (mkRead (nread + 1) buffer2 d2 h1 e1)
                      else read_loop n' tend d2 h1 e1 (nread + 1) buffer1
                  end
              end
        end
  end.

(** [uart_read (fd, buffer, length)], [d] being [fd->pfs] and [h] its
    UART. *)
Definition uart_read (d : pfs_dev_uart) (h : uart_hw) (e : environment)
  (buffer : list Z) (length : Z) : option read_result :=
  let tend := if 0 <? tout d then Some (now e + tout d) else None in
  match uart_input d h with
  | None => None
  | Some (d1, h1) =>
      match read_loop (Z.to_nat length) tend d1 h1 e 0 buffer with
      | None => None
      | Some r =>
          Some (mkRead (rd_nread r) (rd_buffer r) (rd_dev r)
                  (set_rts_rxim true (rd_hw r)) (rd_env r))
      end
  end.

(** [uart_write (fd, buffer, length)]: [uart_write_blocking] sends
    [length] bytes, which have to be there. *)
Definition uart_write (d : pfs_dev_uart) (h : uart_hw) (buffer : list Z) (length : Z)
  : option (Z * uart_hw) :=
  if (0 <=? length) && (length <=? Z.of_nat (List.length buffer)) then
    Some (length, set_rx_tx (rx_fifo h) (tx_out h ++ take (Z.to_nat length) buffer) h)
  else None.

(** [uart_ioctl (fd, request, argp)]: the value returned, what [argp]
    points to afterwards, and the state. *)
Definition uart_ioctl (d : pfs_dev_uart) (h : uart_hw) (request : ioctl_request)
  (argp : ioctl_arg) : option (Z * ioctl_arg * pfs_dev_uart * uart_hw) :=
  match request, argp with
  | IOC_RQ_MODE, arg_int v => Some (0, argp, set_mode v d, h)
  | IOC_RQ_PURGE, _ => Some (0, argp, set_wptr 0 (set_rptr 0 d), h)
  | IOC_RQ_COUNT, arg_int _ =>
      Some (0, arg_int (Z.land (wrap_int (wptr d - rptr d)) (NDATA - 1)), d, h)
  | IOC_RQ_TOUT, arg_int v => Some (0, argp, set_tout (wrap_uint v) d, h)
  | IOC_RQ_SCFG, arg_config sc =>
      if (sc_data sc <? 5) || (8 <? sc_data sc) then Some (pfs_error EINVAL, argp, d, h)
      else if (sc_stop sc <? 1) || (2 <? sc_stop sc) then Some (pfs_error EINVAL, argp, d, h)
      else if negb (sc_parity sc =? UART_PARITY_NONE) &&
              negb (sc_parity sc =? UART_PARITY_EVEN) &&
              negb (sc_parity sc =? UART_PARITY_ODD)
      then Some (pfs_error EINVAL, argp, d, h)
      else
        let '(sc', h1) :=
          if negb (sc_baud sc =? 0) then
            (set_sc_baud (uart_set_baudrate (uart d) (sc_baud sc)) sc,
             add_call (call_uart_set_baudrate (sc_baud sc)) h)
          else (sc, h) in
        Some (0, arg_config sc', d,
              add_call (call_uart_set_format (sc_data sc) (sc_stop sc) (sc_parity sc)) h1)
  | IOC_RQ_other _, _ => Some (pfs_error EINVAL, argp, d, h)
  | _, _ => None
  end.

(** [if ( pin >= 0 ) { if ( ! uart_pin_valid (uid, func, pin) ) return
    false; gpio_set_function (pin, GPIO_FUNC_UART); }]: [false] is the
    [return false]. *)
Definition claim_pin (uid func pin : Z) : W bool :=
  if 0 <=? pin then
    if negb (uart_pin_valid uid func pin) then ret false
    else call (call_gpio_set_function pin) >> ret true
  else ret true.

(** The same for [sc->cts], with its calls of [uart_set_hw_flow]. *)
Definition claim_cts (uid pin : Z) : W bool :=
  if 0 <=? pin then
    if negb (uart_pin_valid uid 2 pin) then ret false
    else
      call (call_gpio_set_function pin) >>
      on_uart uid (add_call (call_uart_set_hw_flow true false)) >>
      ret true
  else on_uart uid (add_call (call_uart_set_hw_flow false false)) >> ret true.

(** [uopen (uid, sc)] *)
Definition uopen (uid : Z) (sc : SERIAL_CONFIG) : W bool :=
  let* p := get_uart_dev uid in
  let* pud := load_dev p in
  store_dev p (set_wptr 0 (set_rptr 0 (set_uart uid pud))) >>
  on_uart uid (add_call (call_uart_init (sc_baud sc))) >>
  if uart_init uid (sc_baud sc) =? 0 then ret false
  else
    let* go := claim_pin uid 0 (sc_tx sc) in
    if negb go then ret false
    else
    let* go := claim_pin uid 1 (sc_rx sc) in
    if negb go then ret false
    else
    let* go := claim_cts uid (sc_cts sc) in
    if negb go then ret false
    else
    let* go := claim_pin uid 3 (sc_rts sc) in
    if negb go then ret false
    else
      call (call_irq_set_exclusive_handler (if uid =? 0 then 0 else 1)) >>
      call (call_irq_set_enabled (if uid =? 0 then 0 else 1) true) >>
      on_uart uid (add_call call_hw_clear_bits_ifls) >>
      on_uart uid (set_rts_rxim true) >>
      if (sc_data sc <? 5) || (8 <? sc_data sc) then ret false
      else if (sc_stop sc <? 1) || (2 <? sc_stop sc) then ret false
      else if negb (sc_parity sc =? UART_PARITY_NONE) &&
              negb (sc_parity sc =? UART_PARITY_EVEN) &&
              negb (sc_parity sc =? UART_PARITY_ODD)
      then ret false
      else
        on_uart uid (add_call (call_uart_set_format (sc_data sc) (sc_stop sc) (sc_parity sc))) >>
        on_uart uid (add_call (call_uart_set_irq_enables true false)) >>
        ret uopen_end.

(** [uclose (uid)] *)
Definition uclose (uid : Z) : W unit :=
  if (uid <? 0) || (1 <? uid) then ret tt
  else
    let* p := get_uart_dev uid in
    let* pud := load_dev p in
    on_uart (uart pud) (add_call call_uart_deinit).

(** [pfs_malloc (sizeof (struct pfs_dev_uart))] *)
Definition pfs_malloc_dev : W Pname.ptr :=
  fun w =>
    let k := nmalloc w in
    if pfs_malloc_ok k then
      let p := fresh ({[Pname.NULL]} ∪ dom (devs w)) in
      let d := mkDev (heap_junk k 0) (heap_junk k 1) (heap_junk k 2) (heap_junk k 3)
                 (heap_junk k 4)
                 (map (fun i => heap_junk k (5 + i)) (seq 0 (Z.to_nat NDATA))) in
      Some (p, mkWorld (uart_dev w) (<[p := d]> (devs w)) (uarts w) (sdk w) (S k))
    else Some (Pname.NULL, mkWorld (uart_dev w) (devs w) (uarts w) (sdk w) (S k)).

(** [pfs_dev_uart_create (uid, sc)]: the pointer it returns. *)
Definition pfs_dev_uart_create (uid : Z) (sc : SERIAL_CONFIG) : W Pname.ptr :=
  if (uid <? 0) || (1 <? uid) then ret Pname.NULL
  else
    let* p := get_uart_dev uid in
    if negb (p =? Pname.NULL)%nat then
      uopen uid sc >>
      get_uart_dev uid
    else
      let* q := pfs_malloc_dev in
      set_uart_dev uid q >>
      if (q =? Pname.NULL)%nat then ret Pname.NULL
      else
        let* d := load_dev q in
        store_dev q (set_tout 0 (set_mode (Z.lor IOC_MD_CR IOC_MD_TLF) d)) >>
        let* ok := uopen uid sc in
        if ok then get_uart_dev uid
        else
          uclose uid >>
          (let* q' := get_uart_dev uid in pfs_free_dev q') >>
          set_uart_dev uid Pname.NULL >>
          ret Pname.NULL.

(** [irq_uart0] and [irq_uart1] *)
Definition irq_uart (uid : Z) : W unit :=
  let* p := get_uart_dev uid in
  if negb (p =? Pname.NULL)%nat then
    let* pud := load_dev p in
    fun w =>
      match uart_input pud (uarts w (uart pud)) with
      | None => None
      | Some (pud', h') => (store_dev p pud' >> on_uart (uart pud) (fun _ => h')) w
      end
  else ret tt.

End Sdk.

End Uart.

(** ** src/flash/pfs_ffs.c *)

Module Ffs.

(** The calls of LFS that [pfs_ffs_create] makes. *)
Inductive lfs_call : Type :=
  | call_lfs_mount
  | call_lfs_format.

Section Lfs.

(** LFS is a library of its own: [struct lfs_config], [lfs_t], and the
    flash memory that the functions of the configuration read and write,
    are taken as they come. *)
Variables lfs_config lfs_t flash : Type.

(** [lfs_mount (&base, &cfg)] and [lfs_format (&base, &cfg)]: the value
    returned, [base] and the flash memory afterwards. *)
Variable lfs_mount : lfs_config -> lfs_t -> flash -> Z * lfs_t * flash.
Variable lfs_format : lfs_config -> lfs_t -> flash -> Z * lfs_t * flash.

(** [struct ffs_pfs]; [entry] always holds [&ffs_v_pfs]. *)
Record ffs_pfs := mkFfs {
  base : lfs_t;
  cfg  : lfs_config
}.

(** [pfs_malloc_ok n]: whether the call number [n] of [pfs_malloc] finds
    memory; [heap_junk n]: what the block it gives holds at first. *)
Variable pfs_malloc_ok : nat -> bool.
Variable heap_junk : nat -> ffs_pfs.

(** The state: the filesystems allocated, the flash memory, the calls of
    LFS made so far, and the number of calls of [pfs_malloc]. *)
Record world := mkWorld {
  objs      : gmap Pname.ptr ffs_pfs;
  disk      : flash;
  lfs_calls : list lfs_call;
  nmalloc   : nat
}.

Definition W (A : Type) : Type := StateErr.M world A.

(** [pfs_malloc (sizeof (struct ffs_pfs))] *)
Definition pfs_malloc : W Pname.ptr :=
  fun w =>
    let k := nmalloc w in
    if pfs_malloc_ok k then
      let p := fresh ({[Pname.NULL]} ∪ dom (objs w)) in
      Some (p, mkWorld (<[p := heap_junk k]> (objs w)) (disk w) (lfs_calls w) (S k))
    else Some (Pname.NULL, mkWorld (objs w) (disk w) (lfs_calls w) (S k)).

(** [pfs_free] *)
Definition pfs_free (p : Pname.ptr) : W unit :=
  fun w =>
    if p =? Pname.NULL then Some (tt, w)
    else match objs w !! p with
         | Some _ => Some (tt, mkWorld (delete p (objs w)) (disk w) (lfs_calls w) (nmalloc w))
         | None => None
         end.

(** [memcpy (&ffs->cfg, cfg, sizeof (struct lfs_config));] *)
Definition set_cfg (p : Pname.ptr) (c : lfs_config) : W unit :=
  fun w =>
    match objs w !! p with
    | Some o => Some (tt, mkWorld (<[p := mkFfs (base o) c]> (objs w)) (disk w)
                            (lfs_calls w) (nmalloc w))
    | None => None
    end.

(** A call of LFS on [&ffs->base] and [&ffs->cfg]. *)
Definition lfs (which : lfs_call)
  (f : lfs_config -> lfs_t -> flash -> Z * lfs_t * flash) (p : Pname.ptr) : W Z :=
  fun w =>
    match objs w !! p with
    | Some o =>
        let '(r, b, fl) := f (cfg o) (base o) (disk w) in
        Some (r, mkWorld (<[p := mkFfs b (cfg o)]> (objs w)) fl
                   (lfs_calls w ++ [which]) (nmalloc w))
    | None => None
    end.

(** [pfs_ffs_create (cfg)] *)
Definition pfs_ffs_create (c : lfs_config) : W Pname.ptr :=
  let* ffs := pfs_malloc in
  if ffs =? Pname.NULL then ret Pname.NULL
  else
    set_cfg ffs c >>
    let* r := lfs call_lfs_mount lfs_mount ffs in
    let* r :=
      if (r <? 0)%Z then
        let* r := lfs call_lfs_format lfs_format ffs in
        if (r =? 0)%Z then lfs call_lfs_mount lfs_mount ffs else ret r
      else ret r in
    if (r <? 0)%Z then pfs_free ffs >> ret Pname.NULL
    else ret ffs.

End Lfs.

Arguments mkFfs {lfs_config lfs_t} _ _.
Arguments base {lfs_config lfs_t} _.
Arguments cfg {lfs_config lfs_t} _.
Arguments mkWorld {lfs_config lfs_t flash} _ _ _ _.
Arguments objs {lfs_config lfs_t flash} _.
Arguments disk {lfs_config lfs_t flash} _.
Arguments lfs_calls {lfs_config lfs_t flash} _.
Arguments nmalloc {lfs_config lfs_t flash} _.
Arguments pfs_malloc {lfs_config lfs_t flash} _ _ _.
Arguments pfs_free {lfs_config lfs_t flash} _ _.
Arguments set_cfg {lfs_config lfs_t flash} _ _ _.
Arguments lfs {lfs_config lfs_t flash} _ _ _ _.
Arguments pfs_ffs_create {lfs_config lfs_t flash} _ _ _ _ _ _.

(** A flash memory that is formatted or not, for examples: mounting
    succeeds on a formatted one and fails with [LFS_ERR_CORRUPT] on the
    other; formatting succeeds. *)
Definition toy_mount (c : unit) (b : bool) (formatted : bool) : Z * bool * bool :=
  if formatted then (0%Z, true, formatted) else ((-84)%Z, false, formatted).

Definition toy_format (c : unit) (b : bool) (formatted : bool) : Z * bool * bool :=
  (0%Z, false, true).

End Ffs.

(** ** src/sdcard/ff_disk.c

    The file is compiled with [USE_SPI] defined and [DEBUG] not. *)

Module Disk.
Local Open Scope Z_scope.

(** [DRESULT], of the [diskio.h] of FatFs. *)
Inductive DRESULT : Type :=
  | RES_OK
  | RES_ERROR
  | RES_WRPRT
  | RES_NOTRDY
  | RES_PARERR.

(** The value of a [uint32_t] expression. *)
Definition wrap_u32 (z : Z) : Z := z mod 4294967296.

(** [datetime_t], of the SDK. *)
Record datetime_t := mkDate {
  year  : Z;
  month : Z;
  day   : Z;
  dotw  : Z;
  hour  : Z;
  min   : Z;
  sec   : Z
}.

(** [get_fattime ()], [running] being what [rtc_running ()] returns and
    [dt] what [rtc_get_datetime] gives. *)
Definition get_fattime (running : bool) (dt : datetime_t) : Z :=
  if running then
    if (2000 <=? year dt) && (year dt <=? 2100)
       && (1 <=? month dt) && (month dt <=? 12)
       && (1 <=? day dt) && (day dt <=? 31)
       && (0 <=? hour dt) && (hour dt <=? 23)
       && (0 <=? min dt) && (min dt <=? 59)
       && (0 <=? sec dt) && (sec dt <=? 59)
    then
      let tim := wrap_u32 (Z.shiftl (wrap_u32 (year dt)) 25) in
      let tim := Z.lor tim (wrap_u32 (Z.shiftl (wrap_u32 (month dt)) 21)) in
      let tim := Z.lor tim (wrap_u32 (Z.shiftl (wrap_u32 (day dt)) 16)) in
      let tim := Z.lor tim (wrap_u32 (Z.shiftl (wrap_u32 (hour dt)) 11)) in
      let tim := Z.lor tim (wrap_u32 (Z.shiftl (wrap_u32 (min dt)) 5)) in
      let tim := Z.lor tim (Z.shiftr (wrap_u32 (sec dt)) 1) in
      tim
    else 0
  else 0.

(** [buff[off .. off + length bytes - 1] = bytes]: no defined behaviour
    when that does not lie in the buffer. *)
Definition write_at (buff : list Z) (off : nat) (bytes : list Z) : option (list Z) :=
  if (off + length bytes <=? length buff)%nat then
    Some (take off buff ++ bytes ++ drop (off + length bytes) buff)
  else None.

(** The 512 bytes of [buff] from [off] on. *)
Definition read_at (buff : list Z) (off : nat) : option (list Z) :=
  if (off + 512 <=? length buff)%nat then Some (take 512 (drop off buff))
  else None.

Section SdSpi.

(** The card and its driver, [sd_spi.h]: [sd_spi_init ()],
    [sd_spi_read (lba, buff)] with the bytes it puts at [buff], and
    [sd_spi_write (lba, buff)] with the 512 bytes it finds there. *)
Variable sd_card : Type.
Variable sd_spi_init : sd_card -> bool * sd_card.
Variable sd_spi_read : sd_card -> Z -> bool * list Z * sd_card.
Variable sd_spi_write : sd_card -> Z -> list Z -> bool * sd_card.

(** [STA_NOINIT] and [CTRL_SYNC], of the [diskio.h] of FatFs. *)
Variable STA_NOINIT : Z.
Variable CTRL_SYNC : Z.

(** The statics [lba_base] and [iStat], and the card. *)
Record state := mkState {
  lba_base : Z;
  iStat    : Z;
  card     : sd_card
}.

(** [disk_status (pdrv)] *)
Definition disk_status (s : state) : Z := iStat s.

(** [for (int i = 0; i < count; ++i) ...] of [disk_read]: [n] turns are
    left, [off] is how far [buff] has moved.  The result, the buffer and
    the card; [None] when a write leaves the buffer, or when [++i] leaves
    the [int]s. *)
Fixpoint read_loop (n : nat) (i : Z) (sector : Z) (buff : list Z) (off : nat)
  (c : sd_card) : option (DRESULT * list Z * sd_card) :=
  match n with
  | O => Some (RES_OK, buff, c)
  | S n' =>
      let '(ok, bytes, c') := sd_spi_read c sector in
      match write_at buff off bytes with
      | None => None
      | Some buff' =>
          if negb ok then Some (RES_ERROR, buff', c')
          else if i =? 2147483647 then None
          else read_loop n' (i + 1) (wrap_u32 (sector + 1)) buff' (off + 512) c'
      end
  end.

(** [disk_read (pdrv, buff, sector, count)]; [buff] is [None] for
    NULL. *)
Definition disk_read (buff : option (list Z)) (sector count : Z) (s : state)
  : option (DRESULT * option (list Z) * state) :=
  if negb (Z.land (iStat s) STA_NOINIT =? 0) then Some (RES_NOTRDY, buff, s)
  else
    match buff with
    | None => Some (RES_PARERR, buff, s)
    | Some b =>
        if count =? 0 then Some (RES_PARERR, buff, s)
        else
          match read_loop (Z.to_nat count) 0 (wrap_u32 (sector + lba_base s)) b 0 (card s) with
          | None => None
          | Some (r, b', c') => Some (r, Some b', mkState (lba_base s) (iStat s) c')
          end
    end.

(** The loop of [disk_write]. *)
Fixpoint write_loop (n : nat) (i : Z) (sector : Z) (buff : list Z) (off : nat)
  (c : sd_card) : option (DRESULT * sd_card) :=
  match n with
  | O => Some (RES_OK, c)
  | S n' =>
      match read_at buff off with
      | None => None
      | Some bytes =>
          let '(ok, c') := sd_spi_write c sector bytes in
          if negb ok then Some (RES_ERROR, c')
          else if i =? 2147483647 then None
          else write_loop n' (i + 1) (wrap_u32 (sector + 1)) buff (off + 512) c'
      end
  end.

(** [disk_write (pdrv, buff, sector, count)] *)
Definition disk_write (buff : option (list Z)) (sector count : Z) (s : state)
  : option (DRESULT * state) :=
  if negb (Z.land (iStat s) STA_NOINIT =? 0) then Some (RES_NOTRDY, s)
  else
    match buff with
    | None => Some (RES_PARERR, s)
    | Some b =>
        if count =? 0 then Some (RES_PARERR, s)
        else
          match write_loop (Z.to_nat count) 0 (wrap_u32 (sector + lba_base s)) b 0 (card s) with
          | None => None
          | Some (r, c') => Some (r, mkState (lba_base s) (iStat s) c')
          end
    end.

(** [mbr[i]] *)
Definition byte_at (mbr : list Z) (i : Z) : Z := nth (Z.to_nat i) mbr 0.

(** [( mbr[iPTA + 0x0B] << 24 ) | ( mbr[iPTA + 0x0A] << 16 ) |
    ( mbr[iPTA + 0x09] << 8 ) | mbr[iPTA + 0x08]], as a [uint32_t]. *)
Definition lba_of_entry (mbr : list Z) (iPTA : Z) : Z :=
  wrap_u32
    (Z.lor (Z.lor (Z.lor (Z.shiftl (byte_at mbr (iPTA + 11)) 24)
                         (Z.shiftl (byte_at mbr (iPTA + 10)) 16))
                  (Z.shiftl (byte_at mbr (iPTA + 9)) 8))
           (byte_at mbr (iPTA + 8))).

(** [for (int iPar = 0; iPar < 4; ++iPar) ...] of [disk_initialize]:
    [n] turns are left. *)
Fixpoint partition_loop (n : nat) (iPar : Z) (mbr : list Z) (lba : Z) : Z :=
  match n with
  | O => lba
  | S n' =>
      let iPTA := 446 + Z.shiftl iPar 4 in
      let iType := byte_at mbr (iPTA + 4) in
      let lba' := if (iType =? 12) && (lba =? 0) then lba_of_entry mbr iPTA else lba in
      partition_loop n' (iPar + 1) mbr lba'
  end.

(** [disk_initialize (pdrv)]; [mbr] is what the array of that name
    holds before it is read into. *)
Definition disk_initialize (mbr : list Z) (s : state) : option (Z * state) :=
  let '(ok, c1) := sd_spi_init (card s) in
  if ok then
    match disk_read (Some mbr) 0 1 (mkState 0 0 c1) with
    | None => None
    | Some (r, buff, s1) =>
        match r, buff with
        | RES_OK, Some mbr' =>
            if (byte_at mbr' 510 =? 85) && (byte_at mbr' 511 =? 170) then
              Some (iStat s1, mkState (partition_loop 4 0 mbr' (lba_base s1)) (iStat s1) (card s1))
            else Some (iStat s1, s1)
        | _, _ => Some (STA_NOINIT, mkState (lba_base s1) STA_NOINIT (card s1))
        end
    end
  else Some (STA_NOINIT, mkState (lba_base s) STA_NOINIT c1).

(** [disk_ioctl (pdrv, cmd, buff)] *)
Definition disk_ioctl (cmd : Z) : DRESULT :=
  if cmd =? CTRL_SYNC then RES_OK else RES_PARERR.

End SdSpi.

Arguments mkState {sd_card} _ _ _.
Arguments lba_base {sd_card} _.
Arguments iStat {sd_card} _.
Arguments card {sd_card} _.
Arguments disk_status {sd_card} _.
Arguments read_loop {sd_card} _ _ _ _ _ _ _.
Arguments disk_read {sd_card} _ _ _ _ _ _.
Arguments write_loop {sd_card} _ _ _ _ _ _ _.
Arguments disk_write {sd_card} _ _ _ _ _ _.
Arguments disk_initialize {sd_card} _ _ _ _ _.

End Disk.

(* ===================================================================== *)
(** * Part II: what the lists in the heap stand for *)
(* ===================================================================== *)

Module PnameRepr.
Import Pname.

(** A segment as a node holds it: the bytes at [name], and [len]. *)
Definition seg : Type := list ascii * nat.

(** [dlseg σ l p pp q qp]: the nodes at the addresses of [l], in this
    order, are linked to each other and hold the segments of [l]; [p] is
    the address of the first node and [pp] its [prev], [qp] is the address
    of the last node and [q] its [next].  For no node at all, [p] is [q]
    and [pp] is [qp]. *)
Fixpoint dlseg (σ : gmap ptr PNAME) (l : list (ptr * seg)) (p pp q qp : ptr)
  : Prop :=
  match l with
  | [] => p = q ∧ pp = qp
  | (a, s) :: l' =>
      p = a ∧ ∃ nx, σ !! a = Some (mkPNAME pp nx s.1 s.2) ∧ dlseg σ l' nx a q qp
  end.

(** [is_list σ pn sent l]: [pn] is the sentinel, holding the path and its
    length [sent], of the circular list of the nodes [l]. *)
Definition is_list (σ : gmap ptr PNAME) (pn : ptr) (sent : seg)
  (l : list (ptr * seg)) : Prop :=
  ∃ first last,
    σ !! pn = Some (mkPNAME last first sent.1 sent.2) ∧
    dlseg σ l first pn pn last.

(** [allocs ok n n' b]: the calls of [pfs_malloc] numbered from [n] up to
    [n'] all found memory ([b = true]), or all but the last ([b = false]). *)
Definition allocs (ok : nat -> bool) (n n' : nat) (b : bool) : Prop :=
  if b then n <= n' ∧ forall i, n <= i < n' -> ok i = true
  else n < n' ∧ ok (n' - 1) = false ∧ forall i, n <= i < n' - 1 -> ok i = true.

(** The segments [scan_loop] links when memory does not run out. *)
Fixpoint scan_segs_from (fuel : nat) (m : list ascii) (pend ps1 : nat)
  : list seg :=
  match fuel with
  | O => []
  | S fuel' =>
      let ps1 := skip_seps (drop ps1 m) ps1 in
      if pend <=? ps1 then []
      else
        let ps2 := seg_end (drop ps1 m) ps1 pend in
        if (ps1 + 1 <? ps2) || negb (Ascii.eqb (nth ps1 m NUL) dot) then
          (drop ps1 m, ps2 - ps1) :: scan_segs_from fuel' m pend (ps2 + 1)
        else scan_segs_from fuel' m pend (ps2 + 1)
  end.

(** The segments [pname_scan] links for the path [m]. *)
Definition scan_segs (m : list ascii) : list seg :=
  let l := strlen m in
  if is_sep (nth 0 m NUL) then (rootdir, 1) :: scan_segs_from (S l) m l 1
  else scan_segs_from (S l) m l 0.

(** The tests of [pname_join] on a segment: [len == 2] and the name
    starts with two dots; the name starts with ['/']. *)
Definition is_dotdot (s : seg) : bool :=
  (s.2 =? 2) && Ascii.eqb (nth 0 s.1 NUL) dot && Ascii.eqb (nth 1 s.1 NUL) dot.

Definition is_root (s : seg) : bool := Ascii.eqb (nth 0 s.1 NUL) slash.

(** One turn of the loop of [pname_join], on the segments of the first
    list and the segment taken off the second. *)
Definition join_step (l1 : list seg) (s : seg) : list seg :=
  if is_dotdot s then
    match last l1 with
    | Some s1 => if negb (is_root s1) then removelast l1 else l1
    | None => l1
    end
  else (if is_root s then [] else l1) ++ [s].

Definition join_segs (l1 l2 : list seg) : list seg := fold_left join_step l2 l1.

(** The text of a segment: the [len] bytes at [name]. *)
Definition seg_text (s : seg) : list ascii := take s.2 s.1.

(** The segments the code makes: [len] bytes at [name] lie before the
    NUL that ends the string. *)
Definition seg_ok (s : seg) : Prop := s.2 <= strlen s.1.

(** What the second loop of [pname_mkname] writes: a ['/'] and the text,
    for every segment that does not start with ['/']. *)
Definition mkname_body (l : list seg) : list ascii :=
  concat (map (fun s => if is_root s then [] else slash :: seg_text s) l).

(** The string [pname_mkname] makes. *)
Definition mkname_segs (l : list seg) : list ascii :=
  match mkname_body l with
  | [] => [slash]
  | body => body
  end.

(** [nlen], as the first loop of [pname_mkname] counts it. *)
Definition nlen_segs (l : list seg) : nat :=
  foldr (fun s acc => s.2 + 1 + acc) 0 l.

(** The block [pname_mkname] returns for the segments [segs]. *)
Definition mkname_block (junk : nat -> ascii) (segs : list seg) : list ascii :=
  mkname_segs segs ++
  NUL :: drop (length (mkname_segs segs) + 1) (map junk (seq 0 (nlen_segs segs + 1))).

(** The calls of [pfs_malloc] in a run that finds memory every time: two
    sentinels, a node for every segment, and the string. *)
Definition append_allocs (psPath1 psPath2 : list ascii) : nat :=
  length (scan_segs psPath1) + length (scan_segs psPath2) + 3.

(** A heap with the lists [pname_create] makes of ["/usr"], at 1, and of
    [".."], at 4. *)
Definition heap_usr_dotdot : gmap ptr PNAME :=
  list_to_map
    [ (1, mkPNAME 3 2 (chars "/usr") 4);
      (2, mkPNAME 1 3 rootdir 1);
      (3, mkPNAME 2 1 (chars "usr") 3);
      (4, mkPNAME 5 5 (chars "..") 2);
      (5, mkPNAME 4 4 (chars "..") 2) ].

End PnameRepr.

(* ===================================================================== *)
(** * Part III: the path resolver as the specification words it *)
(* ===================================================================== *)

Module PnameSpec.
Import Pname PnameRepr.

(** A segment of a path, as text. *)
Definition text : Type := list ascii.

(** The root marker, and the segment [..]. *)
Definition root_seg : text := [slash].
Definition dotdot : text := [dot; dot].

(** The pieces of [path] between separators, empty ones too; [cur] is the
    piece being read. *)
Fixpoint spec_split (path : text) (cur : text) : list text :=
  match path with
  | [] => [cur]
  | c :: path' =>
      if is_sep c then cur :: spec_split path' []
      else spec_split path' (cur ++ [c])
  end.

(** A piece is a segment unless it is empty or a single dot. *)
Definition keep_seg (t : text) : bool :=
  negb (bool_decide (t = [])) && negb (bool_decide (t = [dot])).

(** "Decompose each input into an ordered list of non-empty segments split
    on runs of separator characters, discarding single-dot segments; if
    an input begins with a separator, prepend the singleton root
    segment." *)
Definition spec_segments (path : text) : list text :=
  (if is_sep (nth 0 path NUL) then [root_seg] else []) ++
  List.filter keep_seg (spec_split path []).

(** "Relink addition's segments onto base's list in order, applying per
    incoming segment": the root marker clears the base, [..] drops the
    last segment of the base unless there is none or it is the root
    marker, any other segment is appended. *)
Definition spec_join_step (base : list text) (seg : text) : list text :=
  if bool_decide (seg = root_seg) then [seg]
  else if bool_decide (seg = dotdot) then
    match last base with
    | Some t => if bool_decide (t = root_seg) then base else removelast base
    | None => base
    end
  else base ++ [seg].

Definition spec_join (base addition : list text) : list text :=
  fold_left spec_join_step addition base.

(** The segments that are left of [join(base, addition)]. *)
Definition spec_join_paths (base addition : text) : list text :=
  spec_join (spec_segments base) (spec_segments addition).

(** [segs] with ['/'] between them. *)
Fixpoint intercalate (segs : list text) : text :=
  match segs with
  | [] => []
  | [t] => t
  | t :: segs' => t ++ slash :: intercalate segs'
  end.

Definition is_root_seg (t : text) : bool := bool_decide (t = root_seg).

(** "Serialize by concatenating remaining segments with [/] separators,
    emitting a leading [/] only if a root segment is present; an empty
    result serializes to [/]." *)
Definition spec_serialize (segs : list text) : text :=
  let s := (if existsb is_root_seg segs then [slash] else []) ++
           intercalate (List.filter (fun t => negb (is_root_seg t)) segs) in
  match s with
  | [] => [slash]
  | _ => s
  end.

(** What [pname_mkname] does: a ['/'] before every segment that is not the
    root marker, and ["/"] when that writes nothing. *)
Definition serialize (segs : list text) : text :=
  match concat (map (fun t => if is_root_seg t then [] else slash :: t) segs) with
  | [] => [slash]
  | s => s
  end.

(** The size [pname_mkname] asks for, less one. *)
Definition text_nlen (segs : list text) : nat :=
  foldr (fun t acc => length t + 1 + acc) 0 segs.

(** The block [pname_mkname] returns: the string, its NUL, and what the
    block held behind them. *)
Definition text_block (junk : nat -> ascii) (segs : list text) : list ascii :=
  serialize segs ++
  NUL :: drop (length (serialize segs) + 1) (map junk (seq 0 (text_nlen segs + 1))).

(** The first of the calls of [pfs_malloc] numbered [n], [n + 1], ...,
    [n + k - 1] that finds no memory, counted from [n]. *)
Fixpoint first_fail (ok : nat -> bool) (n k : nat) : option nat :=
  match k with
  | O => None
  | S k' => if ok n then S <$> first_fail ok (S n) k' else Some 0
  end.

(** [pname_append], as a function of the paths and of the allocator:
    NULL at the first call of [pfs_malloc] that fails, with every node
    freed; the serialized path when none fails; no defined result when
    no segment is left, for the block is one byte short. *)
Definition append_result (ok : nat -> bool) (junk : nat -> ascii)
  (psPath1 psPath2 : list ascii) (h : heap) : option (option (list ascii) * heap) :=
  let segs1 := spec_segments (cstring psPath1) in
  let segs2 := spec_segments (cstring psPath2) in
  let k := length segs1 + length segs2 + 3 in
  match first_fail ok (nalloc h) k with
  | Some i => Some (None, mkHeap (nodes h) (nalloc h + i + 1))
  | None =>
      match spec_join segs1 segs2 with
      | [] => None
      | segs => Some (Some (text_block junk segs), mkHeap (nodes h) (nalloc h + k))
      end
  end.

(** The separators [l] starts with, and the bytes before its first
    separator, counted. *)
Fixpoint lead_seps (l : text) : nat :=
  match l with
  | [] => 0
  | c :: l' => if is_sep c then S (lead_seps l') else 0
  end.

Fixpoint span_len (l : text) : nat :=
  match l with
  | [] => 0
  | c :: l' => if is_sep c then 0 else S (span_len l')
  end.

(** The segments among the pieces of [l]. *)
Definition pieces (l : text) : list text := List.filter keep_seg (spec_split l []).

(** A text without separator. *)
Definition no_sep (t : text) : Prop := Forall (fun c => is_sep c = false) t.

(** A segment as text: the root marker, or a name without separator. *)
Definition text_wf (t : text) : Prop := t = root_seg ∨ (t ≠ [] ∧ no_sep t).

(** A segment the code makes: its bytes lie in the string, and it starts
    with ['/'] just when it is the root marker. *)
Definition seg_wf (s : seg) : Prop := seg_ok s ∧ text_wf (seg_text s).

(** Two bytes that are the same, or a separator each. *)
Definition sep_equiv (c c' : ascii) : Prop :=
  c = c' ∨ (is_sep c = true ∧ is_sep c' = true).

End PnameSpec.

(* ===================================================================== *)
(** * Part IV: the receive buffer and the pins, as the specification
      words them *)
(* ===================================================================== *)

Module UartSpec.
Import Uart.
Local Open Scope Z_scope.

(** The bytes queued unread: from the read index to the write index,
    around the buffer. *)
Definition pending (d : pfs_dev_uart) : Z := (wptr d - rptr d) mod NDATA.

(** "Full exactly when advancing the write index by one would equal the
    read index." *)
Definition full (d : pfs_dev_uart) : Prop := (wptr d + 1) mod NDATA = rptr d.

(** A device as the code keeps it: both indices in the buffer, of
    [NDATA] bytes. *)
Definition dev_wf (d : pfs_dev_uart) : Prop :=
  0 <= rptr d < NDATA ∧ 0 <= wptr d < NDATA ∧ length (data d) = Z.to_nat NDATA.

(** [n] bytes of the buffer from index [i] on, around the buffer. *)
Fixpoint ring_from (a : list Z) (i : Z) (n : nat) : list Z :=
  match n with
  | O => []
  | S n' => nth (Z.to_nat i) a 0 :: ring_from a ((i + 1) mod NDATA) n'
  end.

(** The bytes queued unread, oldest first. *)
Definition queued (d : pfs_dev_uart) : list Z :=
  ring_from (data d) (rptr d) (Z.to_nat (pending d)).

(** The byte [uart_read] stores for the terminator, [IOC_MD_TLF] being
    the bit of the mode word that asks for a newline. *)
Definition stored_terminator (IOC_MD_TLF m : Z) : Z :=
  if has_flag m IOC_MD_TLF then 10 else Z.land m 255.

(** The byte [uart_read] stores for the byte [c] that it takes out of
    the buffer, [IOC_MD_CHR] being the bit of the mode word that asks
    for a terminator. *)
Definition stored (IOC_MD_CHR IOC_MD_TLF m c : Z) : Z :=
  if has_flag m IOC_MD_CHR && (c =? Z.land m 255) then stored_terminator IOC_MD_TLF m
  else c.

(** The time that passes, and the bytes that reach the FIFO, in the
    looks at the clock [sc]. *)
Definition elapsed (sc : list (Z * list Z)) : Z := foldr Z.add 0 sc.*1.

Definition arrivals (sc : list (Z * list Z)) : list Z := concat sc.*2.

(** The pins [uopen] is asked for, with the function of each, in the
    order in which it takes them: a negative number asks for none. *)
Definition requested (sc : SERIAL_CONFIG) : list (Z * Z) :=
  List.filter (fun fp => 0 <=? fp.2)
    [(0, sc_tx sc); (1, sc_rx sc); (2, sc_cts sc); (3, sc_rts sc)].

(** The requested pins up to the first that is not valid. *)
Fixpoint valid_prefix (uid : Z) (l : list (Z * Z)) : list (Z * Z) :=
  match l with
  | [] => []
  | fp :: l' => if uart_pin_valid uid fp.1 fp.2 then fp :: valid_prefix uid l' else []
  end.

(** Whether every requested pin is valid. *)
Definition all_valid (uid : Z) (sc : SERIAL_CONFIG) : bool :=
  forallb (fun fp => uart_pin_valid uid fp.1 fp.2) (requested sc).

(** The checks of [uopen] on the format. *)
Definition format_valid (UART_PARITY_NONE UART_PARITY_EVEN UART_PARITY_ODD : Z)
  (sc : SERIAL_CONFIG) : bool :=
  (5 <=? sc_data sc) && (sc_data sc <=? 8) &&
  (1 <=? sc_stop sc) && (sc_stop sc <=? 2) &&
  ((sc_parity sc =? UART_PARITY_NONE) || (sc_parity sc =? UART_PARITY_EVEN) ||
   (sc_parity sc =? UART_PARITY_ODD)).

(** One pin: whether [uopen] goes on after it, and what it gives to
    [gpio_set_function]. *)
Definition pin_go (uid func pin : Z) : bool :=
  negb (0 <=? pin) || uart_pin_valid uid func pin.

Definition pin_claimed (uid func pin : Z) : list Z :=
  if (0 <=? pin) && uart_pin_valid uid func pin then [pin] else [].

(** The pins given to [gpio_set_function] in a list of calls. *)
Definition gpio_pins (calls : list sdk_call) : list Z :=
  omap (fun c => match c with call_gpio_set_function pin => Some pin | _ => None end) calls.

(** For examples: a device with nothing in its buffer and the mode word
    [m], a UART with the bytes [rx] in its FIFO, the state before any
    device is created, and the state with a device for UART 0 at
    address 1. *)
Definition dev_empty (m : Z) : pfs_dev_uart :=
  mkDev 0 m 0 0 0 (repeat 0 (Z.to_nat NDATA)).

Definition hw_idle (rx : list Z) : uart_hw := mkHw rx [] true true [].

Definition world_empty : world :=
  mkWorld (fun _ => Pname.NULL) ∅ (fun _ => hw_idle []) [] 0.

Definition world_uart0 : world :=
  mkWorld (fun i => if i =? 0 then 1%nat else Pname.NULL) {[ 1%nat := dev_empty 0 ]}
    (fun _ => hw_idle []) [] 1.

End UartSpec.

(** ** The SD card, for the properties of [ff_disk.c] *)

Module DiskSpec.
Import Disk.
Local Open Scope Z_scope.

(** A card that keeps what is written to it: the sectors, by number.
    Reading and writing always succeed. *)
Definition array_card : Type := Z -> list Z.

Definition array_read (c : array_card) (lba : Z) : bool * list Z * array_card :=
  (true, c lba, c).

Definition array_write (c : array_card) (lba : Z) (bytes : list Z) : bool * array_card :=
  (true, fun i => if i =? lba then bytes else c i).

(** A card that cannot be read. *)
Definition dead_read (c : unit) (lba : Z) : bool * list Z * unit := (false, [], c).

(** A card of which the sectors [bad] cannot be read, that keeps the
    numbers of the sectors it is asked for. *)
Definition faulty_read (bad : Z -> bool) (log : list Z) (lba : Z)
  : bool * list Z * list Z :=
  (negb (bad lba), if bad lba then [] else repeat 0 512, log ++ [lba]).

(** The sectors [first], [first + 1], ..., [n] of them, one after the
    other; the numbers wrap around as a [uint32_t] does. *)
Fixpoint sectors (c : array_card) (first : Z) (n : nat) : list Z :=
  match n with
  | O => []
  | S n' => c first ++ sectors c (wrap_u32 (first + 1)) n'
  end.

(** The card after [n] sectors of [buff], from [off] on, are written from
    [sector] on. *)
Fixpoint written (c : array_card) (sector : Z) (buff : list Z) (off n : nat)
  : array_card :=
  match n with
  | O => c
  | S n' =>
      written (fun i => if i =? sector then take 512 (drop off buff) else c i)
        (wrap_u32 (sector + 1)) buff (off + 512) n'
  end.

(** The four entries of the partition table of [mbr]: the type of each
    and the number of its first sector, the bytes of which come lowest
    first. *)
Definition entry (mbr : list Z) (k : Z) : Z * Z :=
  (byte_at mbr (446 + 16 * k + 4),
   byte_at mbr (446 + 16 * k + 8) + 256 * byte_at mbr (446 + 16 * k + 9) +
   65536 * byte_at mbr (446 + 16 * k + 10) + 16777216 * byte_at mbr (446 + 16 * k + 11)).

Definition entries (mbr : list Z) : list (Z * Z) :=
  [entry mbr 0; entry mbr 1; entry mbr 2; entry mbr 3].

(** The first sector of the first partition of type [0x0C] that does not
    start at sector 0; 0 when there is none. *)
Definition fat32_base (mbr : list Z) : Z :=
  match List.filter (fun e => (e.1 =? 12) && negb (e.2 =? 0)) (entries mbr) with
  | e :: _ => e.2
  | [] => 0
  end.

(** A first sector with a partition table: a partition of type [0x0C]
    from sector 2048 on, in the second entry. *)
Definition mbr_example : list Z :=
  repeat 0 462 ++ [0; 0; 0; 0; 12; 0; 0; 0; 0; 8; 0; 0] ++ repeat 0 36 ++ [85; 170].

End DiskSpec.

Module PnameLists.
Import Pname PnameRepr.

(** ** Running the primitives *)

Lemma run_bind {S A B} (m : StateErr.M S A) (f : A -> StateErr.M S B) s a s' :
  m s = Some (a, s') -> bind m f s = f a s'.
Proof. intros H. unfold bind. by rewrite H. Qed.

Lemma bind_assoc {S A B C} (m : StateErr.M S A) (f : A -> StateErr.M S B)
  (g : B -> StateErr.M S C) s :
  bind (bind m f) g s = bind m (fun x => bind (f x) g) s.
Proof. unfold bind. by destruct (m s) as [[a s']|]. Qed.

Lemma run_get_prev σ n p nd :
  σ !! p = Some nd -> get_prev p (mkHeap σ n) = Some (prev nd, mkHeap σ n).
Proof. intros H. unfold get_prev, bind, load, ret. simpl. by rewrite H. Qed.

Lemma run_get_next σ n p nd :
  σ !! p = Some nd -> get_next p (mkHeap σ n) = Some (next nd, mkHeap σ n).
Proof. intros H. unfold get_next, bind, load, ret. simpl. by rewrite H. Qed.

Lemma run_get_name σ n p nd :
  σ !! p = Some nd -> get_name p (mkHeap σ n) = Some (name nd, mkHeap σ n).
Proof. intros H. unfold get_name, bind, load, ret. simpl. by rewrite H. Qed.

Lemma run_get_len σ n p nd :
  σ !! p = Some nd -> get_len p (mkHeap σ n) = Some (len nd, mkHeap σ n).
Proof. intros H. unfold get_len, bind, load, ret. simpl. by rewrite H. Qed.

Lemma run_set_prev σ n p v nd :
  σ !! p = Some nd ->
  set_prev p v (mkHeap σ n)
  = Some (tt, mkHeap (<[p := mkPNAME v (next nd) (name nd) (len nd)]> σ) n).
Proof. intros H. unfold set_prev, bind, load, store. simpl. rewrite H. simpl. by rewrite H. Qed.

Lemma run_set_next σ n p v nd :
  σ !! p = Some nd ->
  set_next p v (mkHeap σ n)
  = Some (tt, mkHeap (<[p := mkPNAME (prev nd) v (name nd) (len nd)]> σ) n).
Proof. intros H. unfold set_next, bind, load, store. simpl. rewrite H. simpl. by rewrite H. Qed.

Lemma run_set_name σ n p v nd :
  σ !! p = Some nd ->
  set_name p v (mkHeap σ n)
  = Some (tt, mkHeap (<[p := mkPNAME (prev nd) (next nd) v (len nd)]> σ) n).
Proof. intros H. unfold set_name, bind, load, store. simpl. rewrite H. simpl. by rewrite H. Qed.

Lemma run_set_len σ n p v nd :
  σ !! p = Some nd ->
  set_len p v (mkHeap σ n)
  = Some (tt, mkHeap (<[p := mkPNAME (prev nd) (next nd) (name nd) v]> σ) n).
Proof. intros H. unfold set_len, bind, load, store. simpl. rewrite H. simpl. by rewrite H. Qed.

Lemma run_pfs_free σ n p nd :
  p ≠ NULL -> σ !! p = Some nd ->
  pfs_free p (mkHeap σ n) = Some (tt, mkHeap (delete p σ) n).
Proof.
  intros Hp H. unfold pfs_free. simpl.
  destruct (Nat.eqb_spec p NULL) as [->|_]; [done|]. by rewrite H.
Qed.

(** A lookup in a heap built by updates, where the addresses are known to
    differ. *)
Ltac lookup :=
  repeat first
    [ rewrite lookup_insert_eq
    | rewrite lookup_insert_ne by (done || congruence)
    | rewrite lookup_delete_ne by (done || congruence) ];
  first [ reflexivity | eassumption ].

(** One step of a computation whose head is a field access. *)
Ltac step :=
  lazymatch goal with
  | |- bind (get_prev _) _ _ = _ => erewrite run_bind by (eapply run_get_prev; lookup)
  | |- bind (get_next _) _ _ = _ => erewrite run_bind by (eapply run_get_next; lookup)
  | |- bind (get_name _) _ _ = _ => erewrite run_bind by (eapply run_get_name; lookup)
  | |- bind (get_len _) _ _ = _ => erewrite run_bind by (eapply run_get_len; lookup)
  | |- bind (set_prev _ _) _ _ = _ => erewrite run_bind by (eapply run_set_prev; lookup)
  | |- bind (set_next _ _) _ _ = _ => erewrite run_bind by (eapply run_set_next; lookup)
  | |- bind (set_name _ _) _ _ = _ => erewrite run_bind by (eapply run_set_name; lookup)
  | |- bind (set_len _ _) _ _ = _ => erewrite run_bind by (eapply run_set_len; lookup)
  | |- bind (pfs_free _) _ _ = _ =>
      erewrite run_bind by (eapply run_pfs_free; [done || congruence | lookup])
  | |- set_prev _ _ _ = _ => erewrite run_set_prev by lookup
  | |- set_next _ _ _ = _ => erewrite run_set_next by lookup
  | |- pfs_free _ _ = _ => erewrite run_pfs_free by (first [done | congruence | lookup])
  | |- bind (ret _) _ _ = _ => erewrite run_bind by reflexivity
  | |- bind (bind _ _) _ _ = _ => rewrite bind_assoc
  end;
  cbv beta; cbn [prev next name len].

(** ** List segments *)

Lemma dlseg_frame σ σ' l p pp q qp :
  (forall a, a ∈ l.*1 -> σ' !! a = σ !! a) ->
  dlseg σ l p pp q qp -> dlseg σ' l p pp q qp.
Proof.
  revert p pp. induction l as [|[a s] l IH]; intros p pp Hfr; simpl; [done|].
  intros [-> (nx & Ha & Hl)]. split; [done|]. exists nx. split.
  - rewrite Hfr; [done|]. simpl. set_solver.
  - apply IH; [|done]. intros b Hb. apply Hfr. simpl. set_solver.
Qed.

Lemma dlseg_app σ l1 l2 p pp q qp :
  dlseg σ (l1 ++ l2) p pp q qp <->
  exists m mp, dlseg σ l1 p pp m mp ∧ dlseg σ l2 m mp q qp.
Proof.
  revert p pp. induction l1 as [|[a s] l1 IH]; intros p pp; simpl.
  - split.
    + intros H. by exists p, pp.
    + by intros (m & mp & [-> ->] & H).
  - split.
    + intros [-> (nx & Ha & Hl)]. apply IH in Hl as (m & mp & H1 & H2).
      exists m, mp. split; [|done]. split; [done|]. by exists nx.
    + intros (m & mp & [-> (nx & Ha & H1)] & H2). split; [done|].
      exists nx. split; [done|]. apply IH. by exists m, mp.
Qed.

Lemma dlseg_snoc σ l a s p pp q qp :
  dlseg σ (l ++ [(a, s)]) p pp q qp <->
  qp = a ∧ exists lp, dlseg σ l p pp a lp ∧ σ !! a = Some (mkPNAME lp q s.1 s.2).
Proof.
  rewrite dlseg_app. simpl. split.
  - intros (m & mp & H1 & -> & nx & Ha & -> & ->). split; [done|]. by exists mp.
  - intros [-> (lp & H1 & Ha)]. exists a, lp. split; [done|].
    split; [done|]. by exists q.
Qed.

(** The nodes of a segment are allocated. *)
Lemma dlseg_live σ l p pp q qp a :
  dlseg σ l p pp q qp -> a ∈ l.*1 -> is_Some (σ !! a).
Proof.
  revert p pp. induction l as [|[b s] l IH]; intros p pp; simpl.
  - set_solver.
  - intros [-> (nx & Hb & Hl)] [->|Ha]%elem_of_cons; [by eexists|]. by eapply IH.
Qed.

(** As many nodes are allocated as distinct addresses are. *)
Lemma live_size (σ : gmap ptr PNAME) (L : list ptr) :
  NoDup L -> (forall a, a ∈ L -> is_Some (σ !! a)) -> length L <= size σ.
Proof.
  intros Hnd Hlive.
  assert (list_to_set L ⊆ dom σ) as Hsub.
  { intros a Ha. apply elem_of_list_to_set in Ha. apply elem_of_dom. by apply Hlive. }
  apply subseteq_size in Hsub. rewrite size_list_to_set in Hsub by done.
  by rewrite size_dom in Hsub.
Qed.

Lemma is_list_live σ pn sent l a :
  is_list σ pn sent l -> a ∈ pn :: l.*1 -> is_Some (σ !! a).
Proof.
  intros (first & last & Hpn & Hl) [->|Ha]%elem_of_cons; [by eexists|].
  by eapply dlseg_live.
Qed.

Lemma is_list_frame σ σ' pn sent l :
  (forall a, a ∈ pn :: l.*1 -> σ' !! a = σ !! a) ->
  is_list σ pn sent l -> is_list σ' pn sent l.
Proof.
  intros Hfr (first & last & Hpn & Hl). exists first, last. split.
  - rewrite Hfr; [done|]. set_solver.
  - eapply dlseg_frame; [|done]. intros a Ha. apply Hfr. set_solver.
Qed.

(** ** Distinct addresses *)

(** [nodup_facts H L'] for [H : NoDup L] and a rearrangement [L'] of [L]
    that names single addresses first: the addresses differ from each
    other and are none of the lists that follow. *)
Ltac nodup_facts H L' :=
  let Hnd := fresh "Hnd" in
  pose proof H as Hnd;
  rewrite ?fmap_app, ?fmap_cons in Hnd; cbn [fst] in Hnd;
  match type of Hnd with
  | NoDup ?L =>
      let HPerm := fresh "HPerm" in
      assert (L ≡ₚ L') as HPerm by solve_Permutation;
      apply (proj1 (NoDup_Permutation_proper _ _ HPerm)) in Hnd; clear HPerm
  end;
  rewrite ?NoDup_cons, ?not_elem_of_cons, ?not_elem_of_app in Hnd;
  destruct_and! Hnd.

(** ** [pname_link] appends a node *)

Lemma pname_link_spec σ n pn sent l pe nd :
  is_list σ pn sent l -> NoDup (pe :: pn :: l.*1) ->
  σ !! pe = Some nd ->
  exists σ',
    pname_link pn pe (mkHeap σ n) = Some (tt, mkHeap σ' n) ∧
    is_list σ' pn sent (l ++ [(pe, (name nd, len nd))]) ∧
    (forall p, p ∉ pe :: pn :: l.*1 -> σ' !! p = σ !! p).
Proof.
  intros (first & last & Hpn & Hl) Hnd Hnode.
  destruct l as [|[a s] l' _] using rev_ind.
  - destruct Hl as [-> <-]. nodup_facts Hnd (pe :: pn :: @nil ptr).
    eexists. split; [|split].
    + unfold pname_link. do 6 step. reflexivity.
    + exists pe, pe. split; [lookup|]. simpl. split; [done|]. exists pn.
      split; [lookup|done].
    + intros p Hp. rewrite !not_elem_of_cons in Hp. destruct_and! Hp.
      by rewrite !lookup_insert_ne.
  - apply dlseg_snoc in Hl as [-> (lp & Hl & Ha)].
    nodup_facts Hnd (pe :: pn :: a :: l'.*1).
    eexists. split; [|split].
    + unfold pname_link. do 6 step. reflexivity.
    + exists first, pe. split; [lookup|].
      apply dlseg_snoc. split; [done|]. exists a. split; [|lookup].
      apply dlseg_snoc. split; [done|]. exists lp. split; [|lookup].
      eapply dlseg_frame; [|done]. intros b Hb.
      rewrite !lookup_insert_ne by (intros ->; done). done.
    + intros p Hp. rewrite fmap_app in Hp. simpl in Hp.
      rewrite !not_elem_of_cons, not_elem_of_app, not_elem_of_cons in Hp.
      destruct_and! Hp. by rewrite !lookup_insert_ne.
Qed.

(** ** [pname_unlink] takes a node out *)

Lemma pname_unlink_spec σ n pn sent l1 pe s l2 :
  is_list σ pn sent (l1 ++ (pe, s) :: l2) ->
  NoDup (pn :: (l1 ++ (pe, s) :: l2).*1) ->
  exists σ',
    pname_unlink pe (mkHeap σ n) = Some (pe, mkHeap σ' n) ∧
    is_list σ' pn sent (l1 ++ l2) ∧
    σ' !! pe = Some (mkPNAME NULL NULL s.1 s.2) ∧
    (forall p, p ∉ pn :: (l1 ++ (pe, s) :: l2).*1 -> σ' !! p = σ !! p).
Proof.
  intros (first & last & Hpn & Hl) Hnd.
  apply dlseg_app in Hl as (m & mp & Hl1 & Hl2).
  simpl in Hl2. destruct Hl2 as [-> (nx & Hpe & Hl2)].
  destruct l1 as [|[a1 s1] l1' _] using rev_ind;
    destruct l2 as [|[b t] l2'].
  - (* the only node *)
    destruct Hl1 as [-> <-]. destruct Hl2 as [-> <-].
    nodup_facts Hnd (pn :: pe :: @nil ptr).
    eexists. split; [|split; [|split]].
    + unfold pname_unlink. do 6 step. reflexivity.
    + exists pn, pn. split; [lookup|done].
    + lookup.
    + intros p Hp. simpl in Hp. rewrite !not_elem_of_cons in Hp.
      destruct_and! Hp. by rewrite !lookup_insert_ne.
  - (* the first node *)
    destruct Hl1 as [-> <-]. simpl in Hl2. destruct Hl2 as [-> (nx2 & Hb & Hl2)].
    nodup_facts Hnd (pn :: pe :: b :: l2'.*1).
    eexists. split; [|split; [|split]].
    + unfold pname_unlink. do 6 step. reflexivity.
    + exists b, last. split; [lookup|]. simpl. split; [done|]. exists nx2.
      split; [lookup|]. eapply dlseg_frame; [|done]. intros c Hc.
      rewrite !lookup_insert_ne by (intros ->; done). done.
    + lookup.
    + intros p Hp. simpl in Hp. rewrite !not_elem_of_cons in Hp.
      destruct_and! Hp. by rewrite !lookup_insert_ne.
  - (* the last node *)
    destruct Hl2 as [-> <-]. apply dlseg_snoc in Hl1 as [-> (lp & Hl1 & Ha1)].
    nodup_facts Hnd (pn :: a1 :: pe :: l1'.*1).
    eexists. split; [|split; [|split]].
    + unfold pname_unlink. do 6 step. reflexivity.
    + rewrite app_nil_r. exists first, a1. split; [lookup|].
      apply dlseg_snoc. split; [done|]. exists lp. split; [|lookup].
      eapply dlseg_frame; [|done]. intros c Hc.
      rewrite !lookup_insert_ne by (intros ->; done). done.
    + lookup.
    + intros p Hp. rewrite !fmap_app in Hp. simpl in Hp.
      rewrite !not_elem_of_cons, !not_elem_of_app, !not_elem_of_cons in Hp.
      destruct_and! Hp. by rewrite !lookup_insert_ne.
  - (* a node between two others *)
    apply dlseg_snoc in Hl1 as [-> (lp & Hl1 & Ha1)].
    simpl in Hl2. destruct Hl2 as [-> (nx2 & Hb & Hl2)].
    nodup_facts Hnd (pn :: a1 :: pe :: b :: l1'.*1 ++ l2'.*1).
    eexists. split; [|split; [|split]].
    + unfold pname_unlink. do 6 step. reflexivity.
    + exists first, last. split; [lookup|].
      rewrite <- app_assoc. apply dlseg_app. exists a1, lp. split.
      * eapply dlseg_frame; [|done]. intros c Hc.
        rewrite !lookup_insert_ne by (intros ->; done). done.
      * simpl. split; [done|]. exists b. split; [lookup|]. split; [done|].
        exists nx2. split; [lookup|].
        eapply dlseg_frame; [|done]. intros c Hc.
        rewrite !lookup_insert_ne by (intros ->; done). done.
    + lookup.
    + intros p Hp. rewrite !fmap_app in Hp. simpl in Hp.
      rewrite !not_elem_of_cons, !not_elem_of_app, !not_elem_of_cons in Hp.
      destruct_and! Hp. by rewrite !lookup_insert_ne.
Qed.

End PnameLists.

Module PnameMem.
Import Pname PnameRepr PnameLists.

(** ** [pname_clean] and [pname_delete] free the nodes *)

Lemma clean_loop_spec l : forall fuel σ n pn p pp qp,
  dlseg σ l p pp pn qp -> NoDup (l.*1) -> (pn ∉ l.*1) -> (NULL ∉ l.*1) ->
  length l < fuel ->
  exists σ',
    clean_loop fuel pn p (mkHeap σ n) = Some (tt, mkHeap σ' n) ∧
    (forall a, a ∈ l.*1 -> σ' !! a = None) ∧
    (forall a, (a ∉ l.*1) -> σ' !! a = σ !! a).
Proof.
  induction l as [|[a s] l IH]; intros fuel σ n pn p pp qp Hl Hnd Hpn Hnull Hfuel;
    (destruct fuel as [|fuel]; [simpl in Hfuel; lia|]); simpl in Hl.
  - destruct Hl as [-> _]. exists σ. simpl. rewrite Nat.eqb_refl. simpl.
    split; [done|]. set_solver.
  - destruct Hl as [-> (nx & Ha & Hl)]. simpl in Hnd, Hpn, Hnull, Hfuel.
    apply NoDup_cons in Hnd as [Hal Hnd].
    assert (a ≠ pn ∧ a ≠ NULL) as [Hapn Hanull] by set_solver.
    destruct (IH fuel (delete a σ) n pn nx a qp) as (σ' & Hrun & Hfreed & Hframe);
      [|done|set_solver|set_solver|lia|].
    { eapply dlseg_frame; [|done]. intros b Hb.
      rewrite lookup_delete_ne; [done|]. set_solver. }
    exists σ'. split; [|split].
    + cbn [clean_loop].
      destruct (Nat.eqb_spec a pn) as [?|_]; [done|].
      destruct (Nat.eqb_spec a NULL) as [?|_]; [done|]. cbn [negb andb].
      do 2 step. done.
    + intros b [->|Hb]%elem_of_cons; [|by apply Hfreed].
      rewrite Hframe by done. apply lookup_delete_eq.
    + intros b Hb. rewrite Hframe by set_solver.
      apply lookup_delete_ne. set_solver.
Qed.

Lemma pname_clean_spec σ n pn sent l :
  is_list σ pn sent l -> NoDup (pn :: l.*1) -> (NULL ∉ l.*1) ->
  exists σ',
    pname_clean pn (mkHeap σ n) = Some (tt, mkHeap σ' n) ∧
    is_list σ' pn sent [] ∧
    (forall a, a ∈ l.*1 -> σ' !! a = None) ∧
    (forall a, a ∉ pn :: l.*1 -> σ' !! a = σ !! a).
Proof.
  intros (first & last & Hpn & Hl) Hnd Hnull.
  apply NoDup_cons in Hnd as [Hpnl Hnd].
  destruct (clean_loop_spec l (S (size σ)) σ n pn first pn last)
    as (σ1 & Hrun & Hfreed & Hframe); [done..| |].
  { apply Nat.lt_succ_r. rewrite <- (length_fmap fst). apply live_size; [done|].
    intros a Ha. by eapply dlseg_live. }
  assert (σ1 !! pn = Some (mkPNAME last first sent.1 sent.2)) as Hpn1.
  { by rewrite Hframe. }
  eexists. split; [|split; [|split]].
  - unfold pname_clean. step. unfold get_heap.
    erewrite (run_bind get) by reflexivity. cbn [nodes].
    erewrite run_bind by exact Hrun. do 2 step. reflexivity.
  - exists pn, pn. split; [lookup|done].
  - intros a Ha. rewrite !lookup_insert_ne by set_solver. by apply Hfreed.
  - intros a Ha. rewrite !lookup_insert_ne by set_solver. apply Hframe. set_solver.
Qed.

Lemma pname_delete_spec σ n pn sent l :
  is_list σ pn sent l -> NoDup (pn :: l.*1) -> NULL ∉ pn :: l.*1 ->
  exists σ',
    pname_delete pn (mkHeap σ n) = Some (tt, mkHeap σ' n) ∧
    (forall a, a ∈ pn :: l.*1 -> σ' !! a = None) ∧
    (forall a, a ∉ pn :: l.*1 -> σ' !! a = σ !! a).
Proof.
  intros Hl Hnd Hnull.
  destruct (pname_clean_spec σ n pn sent l) as (σ1 & Hrun & Hl1 & Hfreed & Hframe);
    [done|done|set_solver|].
  destruct Hl1 as (f1 & l1 & Hpn1 & _).
  assert (pn ≠ NULL) by set_solver.
  eexists. split; [|split].
  - unfold pname_delete. erewrite run_bind by exact Hrun. step. reflexivity.
  - intros a [->|Ha]%elem_of_cons; [apply lookup_delete_eq|].
    apply NoDup_cons in Hnd as [Hpnl _].
    rewrite lookup_delete_ne by set_solver. by apply Hfreed.
  - intros a Ha. rewrite lookup_delete_ne by set_solver. by apply Hframe.
Qed.

End PnameMem.

Module PnameScan.
Import Pname PnameRepr PnameLists PnameMem.

(** ** Allocation *)

Lemma run_pfs_malloc_ok ok σ n :
  ok n = true ->
  exists p,
    pfs_malloc ok (mkHeap σ n) = Some (p, mkHeap (<[p := uninit]> σ) (S n)) ∧
    p ≠ NULL ∧ σ !! p = None.
Proof.
  intros Hok. exists (fresh ({[NULL]} ∪ dom σ)).
  unfold pfs_malloc. simpl. rewrite Hok. split; [done|].
  pose proof (is_fresh ({[NULL]} ∪ dom σ)) as Hfresh.
  apply not_elem_of_union in Hfresh as [H0 Hdom]. split.
  - intros Heq. apply H0. rewrite Heq. by apply elem_of_singleton.
  - by apply not_elem_of_dom.
Qed.

Lemma run_pfs_malloc_fail ok σ n :
  ok n = false -> pfs_malloc ok (mkHeap σ n) = Some (NULL, mkHeap σ (S n)).
Proof. intros Hok. unfold pfs_malloc. simpl. by rewrite Hok. Qed.

Lemma allocs_refl ok n : allocs ok n n true.
Proof. simpl. split; [done|]. intros i ?. lia. Qed.

Lemma allocs_fail ok n : ok n = false -> allocs ok n (S n) false.
Proof.
  intros H. simpl. split; [lia|]. rewrite Nat.sub_0_r. split; [done|].
  intros i ?. lia.
Qed.

Lemma allocs_step ok n n' b :
  ok n = true -> allocs ok (S n) n' b -> allocs ok n n' b.
Proof.
  intros Hok. destruct b; simpl.
  - intros [Hle H]. split; [lia|]. intros i Hi.
    destruct (decide (i = n)) as [->|]; [done|]. apply H. lia.
  - intros (Hlt & Hlast & H). split; [lia|]. split; [done|]. intros i Hi.
    destruct (decide (i = n)) as [->|]; [done|]. apply H. lia.
Qed.

Lemma allocs_trans ok n1 n2 n3 b :
  allocs ok n1 n2 true -> allocs ok n2 n3 b -> allocs ok n1 n3 b.
Proof.
  simpl. intros [Hle H12]. destruct b; simpl.
  - intros [Hle' H23]. split; [lia|]. intros i Hi.
    destruct (decide (i < n2)); [apply H12|apply H23]; lia.
  - intros (Hlt & Hlast & H23). split; [lia|]. split; [done|]. intros i Hi.
    destruct (decide (i < n2)); [apply H12|apply H23]; lia.
Qed.

(** A node fresh from [pfs_malloc] is given its segment and linked. *)
Lemma link_new_spec {A} σ n pn sent l pe nm k (K : M A) :
  is_list σ pn sent l -> NoDup (pn :: l.*1) -> σ !! pe = None ->
  exists σ',
    (set_name pe nm >> set_len pe k >> pname_link pn pe >> K)
      (mkHeap (<[pe := uninit]> σ) n) = K (mkHeap σ' n) ∧
    is_list σ' pn sent (l ++ [(pe, (nm, k))]) ∧
    NoDup (pn :: (l ++ [(pe, (nm, k))]).*1) ∧
    (forall p, p ∉ pn :: (l ++ [(pe, (nm, k))]).*1 -> σ' !! p = σ !! p).
Proof.
  intros Hl Hnd Hfresh.
  assert (pe ∉ pn :: l.*1) as Hpe.
  { intros Hin. eapply is_list_live in Hin as [x Hx]; [|done]. congruence. }
  assert (NoDup (pe :: pn :: l.*1)) as Hnd' by by apply NoDup_cons.
  set (σ1 := <[pe := mkPNAME NULL NULL nm k]> σ).
  assert (is_list σ1 pn sent l) as Hl1.
  { eapply is_list_frame; [|done]. intros a Ha. unfold σ1.
    apply lookup_insert_ne. intros ->. done. }
  destruct (pname_link_spec σ1 n pn sent l pe (mkPNAME NULL NULL nm k))
    as (σ' & Hrun & Hl' & Hframe); [done|done|apply lookup_insert_eq|].
  exists σ'. split; [|split; [|split]].
  - do 2 step. rewrite !insert_insert_eq. fold σ1.
    erewrite run_bind by exact Hrun. done.
  - done.
  - rewrite fmap_app. simpl.
    assert (pn :: l.*1 ++ [pe] ≡ₚ pe :: pn :: l.*1) as -> by solve_Permutation.
    done.
  - intros p Hp. rewrite fmap_app in Hp. simpl in Hp.
    rewrite not_elem_of_cons, not_elem_of_app, not_elem_of_cons in Hp.
    destruct Hp as (? & ? & ? & _).
    rewrite Hframe by (rewrite !not_elem_of_cons; done).
    unfold σ1. by rewrite lookup_insert_ne.
Qed.

(** ** [pname_scan] *)

Lemma skip_seps_ge mem ps1 : ps1 <= skip_seps mem ps1.
Proof.
  revert ps1. induction mem as [|c mem IH]; intros ps1; simpl; [done|].
  destruct (is_sep c); [|done]. specialize (IH (S ps1)). lia.
Qed.

Lemma seg_end_ge mem ps2 pend : ps2 <= seg_end mem ps2 pend.
Proof.
  revert ps2. induction mem as [|c mem IH]; intros ps2; simpl; [done|].
  destruct (negb (is_sep c) && (ps2 <? pend)); [|done].
  specialize (IH (S ps2)). lia.
Qed.

Lemma scan_loop_spec ok fuel : forall pn m pend ps1 σ n sent l,
  pend - ps1 < fuel ->
  is_list σ pn sent l -> NoDup (pn :: l.*1) -> NULL ∉ pn :: l.*1 ->
  exists b σ' n' l',
    scan_loop ok fuel pn m pend ps1 (mkHeap σ n) = Some (b, mkHeap σ' n') ∧
    is_list σ' pn sent (l ++ l') ∧
    NoDup (pn :: (l ++ l').*1) ∧ (NULL ∉ pn :: (l ++ l').*1) ∧
    (forall a, a ∈ l'.*1 -> σ !! a = None) ∧
    (forall a, a ∉ pn :: (l ++ l').*1 -> σ' !! a = σ !! a) ∧
    allocs ok n n' b ∧
    (b = true -> l'.*2 = scan_segs_from fuel m pend ps1 ∧ n' = n + length l') ∧
    n' <= n + length (scan_segs_from fuel m pend ps1).
Proof.
  induction fuel as [|fuel IH]; intros pn m pend ps1 σ n sent l Hfuel Hl Hnd Hnull;
    [lia|].
  cbn [scan_loop scan_segs_from].
  pose proof (skip_seps_ge (drop ps1 m) ps1) as Hskip.
  set (ps1' := skip_seps (drop ps1 m) ps1) in *.
  pose proof (seg_end_ge (drop ps1' m) ps1' pend) as Hend.
  set (ps2 := seg_end (drop ps1' m) ps1' pend) in *.
  destruct (Nat.leb_spec pend ps1') as [Hle|Hlt].
  { (* the end of the path *)
    exists true, σ, n, []. rewrite app_nil_r.
    split; [done|]. split; [done|]. split; [done|]. split; [done|].
    split; [set_solver|]. split; [done|]. split; [apply allocs_refl|].
    split; [|simpl; lia]. intros _. simpl. split; [done|lia]. }
  assert (pend - (ps2 + 1) < fuel) as Hfuel' by lia.
  destruct ((ps1' + 1 <? ps2) || negb (Ascii.eqb (nth ps1' m NUL) dot)); cycle 1.
  { (* a segment [.] *)
    destruct (IH pn m pend (ps2 + 1) σ n sent l Hfuel' Hl Hnd Hnull)
      as (b & σ' & n' & l' & H). by exists b, σ', n', l'. }
  destruct (ok n) eqn:Hok; cycle 1.
  { (* no memory *)
    exists false, σ, (S n), []. rewrite app_nil_r.
    split.
    { erewrite run_bind by by apply run_pfs_malloc_fail. done. }
    split; [done|]. split; [done|]. split; [done|].
    split; [set_solver|]. split; [done|]. split; [by apply allocs_fail|].
    split; [done|]. simpl. lia. }
  destruct (run_pfs_malloc_ok ok σ n Hok) as (pe & Hrun & Hpenull & Hfresh).
  destruct (link_new_spec σ (S n) pn sent l pe (drop ps1' m) (ps2 - ps1')
              (scan_loop ok fuel pn m pend (ps2 + 1)) Hl Hnd Hfresh)
    as (σ1 & Hlink & Hl1 & Hnd1 & Hframe1).
  assert (NULL ∉ pn :: (l ++ [(pe, (drop ps1' m, ps2 - ps1'))]).*1) as Hnull1.
  { rewrite fmap_app. simpl. rewrite not_elem_of_cons, not_elem_of_app in *.
    rewrite not_elem_of_cons. destruct Hnull as [? ?]. split; [done|].
    split; [done|]. split; [done|]. apply not_elem_of_nil. }
  destruct (IH pn m pend (ps2 + 1) σ1 (S n) sent _ Hfuel' Hl1 Hnd1 Hnull1)
    as (b & σ' & n' & l' & Hrun' & Hl' & Hnd' & Hnull' & Hfresh' & Hframe' & Hallocs & Hb & Hbound).
  exists b, σ', n', ((pe, (drop ps1' m, ps2 - ps1')) :: l').
  rewrite <- app_assoc in Hl', Hnd', Hnull', Hframe'. simpl in Hl', Hnd', Hnull', Hframe'.
  split.
  { erewrite run_bind by exact Hrun.
    destruct (Nat.eqb_spec pe NULL) as [?|_]; [done|].
    rewrite Hlink. exact Hrun'. }
  split; [done|]. split; [done|]. split; [done|]. split; [|split; [|split; [|split]]].
  5: { simpl. lia. }
  - intros a [->|Ha]%elem_of_cons; [done|].
    assert (a ∉ pn :: (l ++ [(pe, (drop ps1' m, ps2 - ps1'))]).*1) as Hout.
    { pose proof Hnd' as Hx. rewrite fmap_app, fmap_cons in Hx. cbn [fst] in Hx.
      apply NoDup_cons in Hx as [Hpn' Hx]. apply NoDup_app in Hx as (_ & Hdisj & Hx).
      apply NoDup_cons in Hx as [Hpe' _].
      rewrite not_elem_of_app, not_elem_of_cons in Hpn'. destruct Hpn' as (_ & _ & Hpn').
      rewrite fmap_app. simpl.
      rewrite not_elem_of_cons, not_elem_of_app, not_elem_of_cons.
      split; [by intros ->|]. split.
      { intros Hin. apply (Hdisj a Hin). apply elem_of_cons. by right. }
      split; [by intros ->|]. apply not_elem_of_nil. }
    rewrite <- Hframe1 by done. by apply Hfresh'.
  - intros a Ha. rewrite Hframe' by done. apply Hframe1.
    rewrite !fmap_app in *. simpl in *.
    rewrite !not_elem_of_cons, !not_elem_of_app, !not_elem_of_cons in *.
    destruct_and! Ha. repeat split; try done. apply not_elem_of_nil.
  - by apply allocs_step.
  - intros ->. destruct Hb as [Hsegs ->]; [done|]. rewrite fmap_cons. cbn [snd length].
    split; [by f_equal|lia].
Qed.

Lemma pname_scan_spec ok σ n pn m :
  is_list σ pn (m, strlen m) [] -> pn ≠ NULL ->
  exists b σ' n' l,
    pname_scan ok pn (mkHeap σ n) = Some (b, mkHeap σ' n') ∧
    is_list σ' pn (m, strlen m) l ∧
    NoDup (pn :: l.*1) ∧ (NULL ∉ pn :: l.*1) ∧
    (forall a, a ∈ l.*1 -> σ !! a = None) ∧
    (forall a, a ∉ pn :: l.*1 -> σ' !! a = σ !! a) ∧
    allocs ok n n' b ∧
    (b = true -> l.*2 = scan_segs m ∧ n' = n + length l) ∧
    n' <= n + length (scan_segs m).
Proof.
  intros Hl Hpn.
  assert (NoDup (pn :: ([] : list (ptr * seg)).*1)) as Hnd0.
  { simpl. apply NoDup_singleton. }
  assert (NULL ∉ pn :: ([] : list (ptr * seg)).*1) as Hnull0.
  { simpl. rewrite not_elem_of_cons. split; [done|apply not_elem_of_nil]. }
  pose proof Hl as (first & last & Hsent & _). simpl in Hsent.
  assert (pname_scan ok pn (mkHeap σ n)
          = (if is_sep (nth 0 m NUL) then
               let* pe := pfs_malloc ok in
               if pe =? NULL then ret false
               else set_name pe rootdir >> set_len pe 1 >> pname_link pn pe >>
                    scan_loop ok (S (strlen m)) pn m (strlen m) 1
             else scan_loop ok (S (strlen m)) pn m (strlen m) 0) (mkHeap σ n))
    as ->.
  { unfold pname_scan. do 2 step. done. }
  unfold scan_segs. cbv zeta.
  destruct (is_sep (nth 0 m NUL)); cycle 1.
  { (* a relative path *)
    destruct (scan_loop_spec ok (S (strlen m)) pn m (strlen m) 0 σ n _ [] ltac:(lia) Hl Hnd0 Hnull0)
      as (b & σ' & n' & l' & H). by exists b, σ', n', l'. }
  destruct (ok n) eqn:Hok; cycle 1.
  { (* no memory for the root segment *)
    exists false, σ, (S n), [].
    split.
    { erewrite run_bind by by apply run_pfs_malloc_fail. done. }
    split; [done|]. split; [done|]. split; [done|].
    split; [set_solver|]. split; [done|]. split; [by apply allocs_fail|].
    split; [done|]. cbn [length]. lia. }
  destruct (run_pfs_malloc_ok ok σ n Hok) as (pe & Hrun & Hpenull & Hfresh).
  destruct (link_new_spec σ (S n) pn _ [] pe rootdir 1
              (scan_loop ok (S (strlen m)) pn m (strlen m) 1) Hl Hnd0 Hfresh)
    as (σ1 & Hlink & Hl1 & Hnd1 & Hframe1).
  simpl in Hl1, Hnd1, Hframe1.
  assert (NULL ∉ pn :: [(pe, (rootdir, 1))].*1) as Hnull1.
  { simpl. rewrite !not_elem_of_cons. split; [done|]. split; [done|].
    apply not_elem_of_nil. }
  destruct (scan_loop_spec ok (S (strlen m)) pn m (strlen m) 1 σ1 (S n) _ _ ltac:(lia) Hl1 Hnd1 Hnull1)
    as (b & σ' & n' & l' & Hrun' & Hl' & Hnd' & Hnull' & Hfresh' & Hframe' & Hallocs & Hb & Hbound).
  simpl in Hl', Hnd', Hnull', Hframe'.
  exists b, σ', n', ((pe, (rootdir, 1)) :: l').
  split.
  { erewrite run_bind by exact Hrun.
    destruct (Nat.eqb_spec pe NULL) as [?|_]; [done|].
    rewrite Hlink. exact Hrun'. }
  split; [done|]. split; [done|]. split; [done|]. split; [|split; [|split; [|split]]].
  5: { cbn [length]. lia. }
  - intros a [->|Ha]%elem_of_cons; [done|].
    assert (a ∉ [pn; pe]) as Hout.
    { nodup_facts Hnd' (pn :: pe :: l'.*1). rewrite !not_elem_of_cons.
      split; [by intros ->|]. split; [by intros ->|]. apply not_elem_of_nil. }
    rewrite <- Hframe1 by done. by apply Hfresh'.
  - intros a Ha. rewrite Hframe' by done. apply Hframe1.
    simpl in Ha. rewrite !not_elem_of_cons in *. destruct_and! Ha.
    repeat split; try done. apply not_elem_of_nil.
  - by apply allocs_step.
  - intros ->. destruct Hb as [Hsegs ->]; [done|]. rewrite fmap_cons. cbn [snd length].
    split; [by f_equal|lia].
Qed.

(** ** [pname_create]

    It gives the list of the path's segments, in nodes that were free
    before, or NULL with the heap as it was. *)
Lemma pname_create_spec ok m σ n :
  exists pn σ' n' b,
    pname_create ok m (mkHeap σ n) = Some (pn, mkHeap σ' n') ∧
    allocs ok n n' b ∧ n' <= n + S (length (scan_segs m)) ∧
    if b then
      pn ≠ NULL ∧
      exists l,
        is_list σ' pn (m, strlen m) l ∧ l.*2 = scan_segs m ∧
        NoDup (pn :: l.*1) ∧ (NULL ∉ pn :: l.*1) ∧
        (forall a, a ∈ pn :: l.*1 -> σ !! a = None) ∧
        (forall a, a ∉ pn :: l.*1 -> σ' !! a = σ !! a) ∧
        n' = n + S (length l)
    else pn = NULL ∧ σ' = σ.
Proof.
  destruct (ok n) eqn:Hok; cycle 1.
  { exists NULL, σ, (S n), false. split.
    { unfold pname_create. erewrite run_bind by by apply run_pfs_malloc_fail. done. }
    split; [by apply allocs_fail|]. split; [lia|done]. }
  destruct (run_pfs_malloc_ok ok σ n Hok) as (pn & Hrun & Hpnnull & Hfresh).
  set (σ1 := <[pn := mkPNAME pn pn m (strlen m)]> σ).
  assert (is_list σ1 pn (m, strlen m) []) as Hl1.
  { exists pn, pn. split; [apply lookup_insert_eq|done]. }
  destruct (pname_scan_spec ok σ1 (S n) pn m Hl1 Hpnnull)
    as (b & σ2 & n2 & l & Hscan & Hl2 & Hnd & Hnull & Hfresh2 & Hframe2 & Hallocs & Hb & Hbound).
  assert (pname_create ok m (mkHeap σ n)
          = (if negb b then pname_delete pn >> ret NULL else ret pn) (mkHeap σ2 n2))
    as ->.
  { unfold pname_create. erewrite run_bind by exact Hrun.
    destruct (Nat.eqb_spec pn NULL) as [?|_]; [done|].
    do 4 step. rewrite !insert_insert_eq. fold σ1.
    erewrite run_bind by exact Hscan. done. }
  assert (forall a, a ∈ pn :: l.*1 -> σ !! a = None) as Hfresh'.
  { intros a [->|Ha]%elem_of_cons; [done|].
    specialize (Hfresh2 a Ha). unfold σ1 in Hfresh2.
    apply lookup_insert_None in Hfresh2. tauto. }
  assert (forall a, a ∉ pn :: l.*1 -> σ2 !! a = σ !! a) as Hframe'.
  { intros a Ha. rewrite Hframe2 by done. unfold σ1.
    apply lookup_insert_ne. intros ->. apply Ha. apply elem_of_cons. by left. }
  destruct b; cbn [negb].
  - exists pn, σ2, n2, true. split; [done|]. split; [by apply allocs_step|].
    split; [lia|]. split; [done|]. exists l. destruct Hb as [Hsegs ->]; [done|].
    repeat split; try done. lia.
  - destruct (pname_delete_spec σ2 n2 pn _ l Hl2 Hnd Hnull)
      as (σ3 & Hdel & Hfreed & Hframe3).
    exists NULL, σ3, n2, false. split.
    { erewrite run_bind by exact Hdel. done. }
    split; [by apply allocs_step|]. split; [lia|]. split; [done|].
    apply map_eq. intros a. destruct (decide (a ∈ pn :: l.*1)) as [Ha|Ha].
    + rewrite Hfreed by done. by rewrite Hfresh'.
    + rewrite Hframe3 by done. by apply Hframe'.
Qed.

End PnameScan.

Module PnameJoin.
Import Pname PnameRepr PnameLists PnameMem PnameScan.

Lemma NoDup_submseteq_mono {A} (l k : list A) : l ⊆+ k -> NoDup k -> NoDup l.
Proof.
  intros [k' Hk]%submseteq_Permutation Hnd. rewrite Hk in Hnd.
  by apply NoDup_app in Hnd as [? _].
Qed.

(** ** One turn of the loop of [pname_join]

    [pe2] is the node taken off the second list; the turn changes the
    first list as [join_step] says and frees the nodes that leave it. *)

Lemma join_body_spec {A} σ n pn1 sent1 l1 pe2 s (K : M A) :
  is_list σ pn1 sent1 l1 ->
  σ !! pe2 = Some (mkPNAME NULL NULL s.1 s.2) ->
  NoDup (pn1 :: pe2 :: l1.*1) -> (NULL ∉ pn1 :: pe2 :: l1.*1) ->
  exists σ' l1',
    ((if is_dotdot s then
        let* pe1 := get_prev pn1 in
        let* ascend :=
          (if negb (pe1 =? pn1) then
             let* pe1name := get_name pe1 in
             ret (negb (Ascii.eqb (nth 0 pe1name NUL) slash))
           else ret false) in
        (if ascend : bool then pname_unlink pe1 >> pfs_free pe1
         else ret tt) >>
        pfs_free pe2
      else
        (if is_root s then pname_clean pn1 else ret tt) >>
        pname_link pn1 pe2) >> K) (mkHeap σ n)
    = K (mkHeap σ' n) ∧
    is_list σ' pn1 sent1 l1' ∧
    l1'.*2 = join_step (l1.*2) s ∧
    l1'.*1 ⊆+ pe2 :: l1.*1 ∧
    (forall a, a ∈ pe2 :: l1.*1 -> (a ∉ l1'.*1) -> σ' !! a = None) ∧
    (forall a, a ∉ pn1 :: pe2 :: l1.*1 -> σ' !! a = σ !! a).
Proof.
  intros Hl1 Hpe2 Hnd Hnull.
  pose proof Hl1 as (f1 & la1 & Hpn1 & Hseg1).
  assert (pe2 ≠ NULL ∧ pn1 ≠ NULL ∧ (NULL ∉ l1.*1)) as (Hpe2null & Hpn1null & Hnull1).
  { rewrite !not_elem_of_cons in Hnull. destruct Hnull as (? & ? & ?). done. }
  unfold join_step.
  destruct (is_dotdot s) eqn:Hdd.
  - (* the segment [..] *)
    destruct l1 as [|[a t] l1a _] using rev_ind.
    + (* nothing to go up from *)
      destruct Hseg1 as [-> <-]. nodup_facts Hnd (pn1 :: pe2 :: @nil ptr).
      exists (delete pe2 σ), []. split; [|split; [|split; [|split; [|split]]]].
      * repeat step. rewrite Nat.eqb_refl. cbn [negb]. repeat step. done.
      * eapply is_list_frame; [|done]. intros b Hb. simpl in Hb.
        apply list_elem_of_singleton in Hb as ->. by apply lookup_delete_ne.
      * done.
      * simpl. solve_submseteq.
      * intros b Hb _. simpl in Hb. apply list_elem_of_singleton in Hb as ->.
        apply lookup_delete_eq.
      * intros b Hb. simpl in Hb. rewrite !not_elem_of_cons in Hb.
        apply lookup_delete_ne. intros <-. tauto.
    + apply dlseg_snoc in Hseg1 as [-> (lp & Hseg1 & Ha)].
      nodup_facts Hnd (pn1 :: pe2 :: a :: l1a.*1).
      rewrite fmap_app. cbn [fmap list_fmap snd]. rewrite last_snoc.
      destruct (is_root t) eqn:Hroot; cbn [negb].
      * (* the last segment is the root *)
        exists (delete pe2 σ), (l1a ++ [(a, t)]).
        split; [|split; [|split; [|split; [|split]]]].
        -- repeat step. destruct (Nat.eqb_spec a pn1) as [?|_]; [done|]. cbn [negb].
           repeat step. unfold is_root in Hroot. rewrite Hroot. cbn [negb].
           repeat step. done.
        -- eapply is_list_frame; [|done]. intros b Hb.
           apply lookup_delete_ne. intros <-. rewrite fmap_app in Hb. simpl in Hb.
           rewrite elem_of_cons, elem_of_app, list_elem_of_singleton in Hb.
           destruct Hb as [?|[?|?]]; done.
        -- by rewrite fmap_app.
        -- rewrite fmap_app. simpl. solve_submseteq.
        -- intros b [->|Hb]%elem_of_cons Hout; [apply lookup_delete_eq|done].
        -- intros b Hb. rewrite !not_elem_of_cons in Hb.
           apply lookup_delete_ne. intros <-. tauto.
      * (* the last segment is dropped *)
        destruct (pname_unlink_spec σ n pn1 sent1 l1a a t [] Hl1)
          as (σb & Hunlink & Hlb & Hab & Hframeb).
        { rewrite fmap_app. simpl. apply NoDup_cons. split.
          - rewrite not_elem_of_app, not_elem_of_cons. split; [done|].
            split; [done|apply not_elem_of_nil].
          - assert (l1a.*1 ++ [a] ≡ₚ a :: l1a.*1) as -> by solve_Permutation.
            by apply NoDup_cons. }
        rewrite app_nil_r in Hlb.
        assert (σb !! pe2 = Some (mkPNAME NULL NULL s.1 s.2)) as Hpe2b.
        { rewrite Hframeb; [done|]. rewrite fmap_app. simpl.
          rewrite not_elem_of_cons, not_elem_of_app, not_elem_of_cons.
          repeat split; [by intros ->|done|by intros ->|apply not_elem_of_nil]. }
        assert (a ≠ NULL) as Hanull.
        { intros ->. apply Hnull1. rewrite fmap_app. simpl.
          apply elem_of_app. right. by apply list_elem_of_singleton. }
        exists (delete pe2 (delete a σb)), l1a.
        split; [|split; [|split; [|split; [|split]]]].
        -- repeat step. destruct (Nat.eqb_spec a pn1) as [?|_]; [done|]. cbn [negb].
           repeat step. unfold is_root in Hroot. rewrite Hroot. cbn [negb].
           repeat step. erewrite run_bind by exact Hunlink. repeat step. done.
        -- eapply is_list_frame; [|done]. intros b Hb.
           rewrite !lookup_delete_ne; [done|..];
             intros <-; apply elem_of_cons in Hb as [?|?]; done.
        -- by rewrite removelast_last.
        -- rewrite fmap_app. simpl. solve_submseteq.
        -- intros b Hb Hout.
           destruct (decide (b = pe2)) as [->|?]; [apply lookup_delete_eq|].
           rewrite lookup_delete_ne by done.
           destruct (decide (b = a)) as [->|?]; [apply lookup_delete_eq|].
           exfalso. rewrite fmap_app in Hb. simpl in Hb.
           rewrite elem_of_cons, elem_of_app, list_elem_of_singleton in Hb.
           destruct Hb as [?|[?|?]]; done.
        -- intros b Hb. rewrite fmap_app in Hb. simpl in Hb.
           rewrite !not_elem_of_cons, not_elem_of_app, not_elem_of_cons in Hb.
           destruct Hb as (? & ? & ? & ? & _).
           rewrite !lookup_delete_ne by done. apply Hframeb.
           rewrite fmap_app. simpl.
           rewrite !not_elem_of_cons, not_elem_of_app, not_elem_of_cons.
           repeat split; try done. apply not_elem_of_nil.
  - (* any other segment is appended *)
    nodup_facts Hnd (pe2 :: pn1 :: l1.*1).
    destruct (is_root s) eqn:Hroot.
    + (* ... to the empty list when it is the root *)
      destruct (pname_clean_spec σ n pn1 sent1 l1 Hl1)
        as (σb & Hclean & Hlb & Hfreed & Hframeb); [by apply NoDup_cons|done|].
      assert (σb !! pe2 = Some (mkPNAME NULL NULL s.1 s.2)) as Hpe2b.
      { rewrite Hframeb; [done|]. rewrite not_elem_of_cons. done. }
      destruct (pname_link_spec σb n pn1 sent1 [] pe2 (mkPNAME NULL NULL s.1 s.2) Hlb)
        as (σc & Hlink & Hlc & Hframec);
        [|exact Hpe2b|].
      { simpl. apply NoDup_cons. split; [|apply NoDup_singleton].
        rewrite not_elem_of_cons. split; [done|apply not_elem_of_nil]. }
      simpl in Hlc, Hframec. destruct s as [nm k]. simpl in Hlc.
      exists σc, [(pe2, (nm, k))]. split; [|split; [|split; [|split; [|split]]]].
      * step. erewrite run_bind by exact Hclean.
        erewrite run_bind by exact Hlink. done.
      * done.
      * done.
      * simpl. solve_submseteq.
      * intros b [->|Hb]%elem_of_cons Hout.
        { exfalso. apply Hout. simpl. by apply list_elem_of_singleton. }
        rewrite Hframec; [by apply Hfreed|].
        rewrite !not_elem_of_cons. repeat split; [by intros ->..|apply not_elem_of_nil].
      * intros b Hb. rewrite !not_elem_of_cons in Hb. destruct Hb as (? & ? & ?).
        rewrite Hframec; [apply Hframeb|].
        -- rewrite not_elem_of_cons. done.
        -- rewrite !not_elem_of_cons. repeat split; try done. apply not_elem_of_nil.
    + destruct (pname_link_spec σ n pn1 sent1 l1 pe2 (mkPNAME NULL NULL s.1 s.2) Hl1)
        as (σc & Hlink & Hlc & Hframec);
        [|exact Hpe2|].
      { apply NoDup_cons. split; [|by apply NoDup_cons].
        rewrite not_elem_of_cons. done. }
      simpl in Hlc. destruct s as [nm k]. simpl in Hlc.
      exists σc, (l1 ++ [(pe2, (nm, k))]). split; [|split; [|split; [|split; [|split]]]].
      * repeat step. erewrite run_bind by exact Hlink. done.
      * done.
      * by rewrite fmap_app.
      * rewrite fmap_app. simpl. solve_submseteq.
      * intros b Hb Hout. exfalso. apply Hout. rewrite fmap_app. simpl.
        apply elem_of_cons in Hb as [->|Hb]; apply elem_of_app; [right|by left].
        by apply list_elem_of_singleton.
      * intros b Hb. apply Hframec. rewrite !not_elem_of_cons in *. tauto.
Qed.

(** ** [pname_join] *)

Lemma join_loop_spec : forall l2 fuel σ n pn1 sent1 l1 pn2 sent2,
  length l2 < fuel ->
  is_list σ pn1 sent1 l1 -> is_list σ pn2 sent2 l2 ->
  NoDup (pn1 :: pn2 :: l1.*1 ++ l2.*1) ->
  (NULL ∉ pn1 :: pn2 :: l1.*1 ++ l2.*1) ->
  exists σ' l1',
    join_loop fuel pn1 pn2 (mkHeap σ n) = Some (tt, mkHeap σ' n) ∧
    is_list σ' pn1 sent1 l1' ∧ is_list σ' pn2 sent2 [] ∧
    l1'.*2 = join_segs (l1.*2) (l2.*2) ∧
    l1'.*1 ⊆+ l1.*1 ++ l2.*1 ∧
    (forall a, a ∈ l1.*1 ++ l2.*1 -> (a ∉ l1'.*1) -> σ' !! a = None) ∧
    (forall a, a ∉ pn1 :: pn2 :: l1.*1 ++ l2.*1 -> σ' !! a = σ !! a).
Proof.
  induction l2 as [|[pe2 s] l2 IH];
    intros fuel σ n pn1 sent1 l1 pn2 sent2 Hfuel Hl1 Hl2 Hnd Hnull;
    (destruct fuel as [|fuel]; [simpl in Hfuel; lia|]).
  - (* the second list is empty *)
    pose proof Hl2 as (f2 & la2 & Hpn2 & [-> <-]).
    exists σ, l1. split; [|split; [|split; [|split; [|split; [|split]]]]].
    + cbn [join_loop]. step. rewrite Nat.eqb_refl. done.
    + done.
    + done.
    + done.
    + simpl. rewrite app_nil_r. done.
    + intros a Ha Hout. simpl in Ha. rewrite app_nil_r in Ha. done.
    + done.
  - (* its first node is taken off *)
    simpl in Hnd, Hnull, Hfuel.
    assert (pn1 :: pn2 :: l1.*1 ++ pe2 :: l2.*1 ≡ₚ pn1 :: pn2 :: pe2 :: l1.*1 ++ l2.*1)
      as HPerm by solve_Permutation.
    rewrite HPerm in Hnd, Hnull.
    assert (forall a, a ∈ l1.*1 -> (a ∉ l2.*1)) as Hdisj.
    { do 3 apply NoDup_cons_1_2 in Hnd. by apply NoDup_app in Hnd as (_ & ? & _). }
    pose proof Hnd as Hfacts.
    rewrite !NoDup_cons, !not_elem_of_cons, !not_elem_of_app in Hfacts.
    destruct Hfacts as ((Hpn1pn2 & Hpn1pe2 & Hpn1l1 & Hpn1l2) &
                        (Hpn2pe2 & Hpn2l1 & Hpn2l2) & (Hpe2l1 & Hpe2l2) & Hnd12).
    pose proof Hnull as Hnulls.
    rewrite !not_elem_of_cons, !not_elem_of_app in Hnulls.
    destruct Hnulls as (Hnpn1 & Hnpn2 & Hnpe2 & Hnl1 & Hnl2).
    apply NoDup_app in Hnd12 as (Hndl1 & _ & Hndl2).
    assert (NoDup (pn2 :: ([] ++ (pe2, s) :: l2).*1)) as Hnd2.
    { simpl. rewrite !NoDup_cons, !not_elem_of_cons. done. }
    destruct (pname_unlink_spec σ n pn2 sent2 [] pe2 s l2 Hl2 Hnd2)
      as (σa & Hunlink & Hl2a & Hpe2a & Hframea).
    simpl in Hl2a, Hframea.
    assert (is_list σa pn1 sent1 l1) as Hl1a.
    { eapply is_list_frame; [|done]. intros a Ha. apply Hframea.
      rewrite !not_elem_of_cons. apply elem_of_cons in Ha as [->|Ha].
      - done.
      - repeat split; [by intros ->..|]. by apply Hdisj. }
    destruct (join_body_spec σa n pn1 sent1 l1 pe2 s (join_loop fuel pn1 pn2) Hl1a Hpe2a)
      as (σb & l1' & Hbody & Hl1b & Hsegs & Hsub & Hfreed & Hframeb).
    { rewrite !NoDup_cons, !not_elem_of_cons. done. }
    { rewrite !not_elem_of_cons. done. }
    assert (forall a, a ∈ l1'.*1 -> a ∈ pe2 :: l1.*1) as Hin'.
    { intros a Ha. eapply elem_of_submseteq; done. }
    assert (is_list σb pn2 sent2 l2) as Hl2b.
    { eapply is_list_frame; [|done]. intros a Ha. apply Hframeb.
      rewrite !not_elem_of_cons. apply elem_of_cons in Ha as [->|Ha].
      - done.
      - repeat split; [by intros ->..|]. intros Ha1. by apply (Hdisj a). }
    assert (pn1 :: pn2 :: l1'.*1 ++ l2.*1 ⊆+ pn1 :: pn2 :: pe2 :: l1.*1 ++ l2.*1) as Hsub'.
    { do 2 apply submseteq_skip. by apply (submseteq_app _ (pe2 :: l1.*1) _ (l2.*1)). }
    destruct (IH fuel σb n pn1 sent1 l1' pn2 sent2 ltac:(lia) Hl1b Hl2b)
      as (σc & l1'' & Hrun & Hl1c & Hl2c & Hsegs' & Hsub'' & Hfreed' & Hframec).
    { by eapply NoDup_submseteq_mono. }
    { intros Hin. apply Hnull. by eapply elem_of_submseteq. }
    exists σc, l1''. split; [|split; [|split; [|split; [|split; [|split]]]]].
    2, 3: done.
    + cbn [join_loop]. pose proof Hl2 as (f2 & la2 & Hpn2 & Hseg2).
      simpl in Hseg2. destruct Hseg2 as [-> _]. step.
      destruct (Nat.eqb_spec pe2 pn2) as [?|_]; [done|].
      destruct (Nat.eqb_spec pe2 NULL) as [?|_]; [done|]. cbn [negb andb].
      erewrite run_bind by exact Hunlink. repeat step.
      fold (is_dotdot s). fold (is_root s). rewrite <- Hrun. exact Hbody.
    + rewrite Hsegs', Hsegs. done.
    + etrans; [exact Hsub''|].
      etrans; [by apply (submseteq_app _ (pe2 :: l1.*1) _ (l2.*1))|].
      simpl. solve_submseteq.
    + intros a Ha Hout.
      assert (a ∈ pe2 :: l1.*1 ++ l2.*1) as Ha'.
      { simpl in Ha. rewrite elem_of_app, elem_of_cons in Ha.
        rewrite elem_of_cons, elem_of_app. tauto. }
      destruct (decide (a ∈ l1'.*1 ++ l2.*1)) as [Hmid|Hmid]; [by apply Hfreed'|].
      rewrite not_elem_of_app in Hmid. destruct Hmid as [Hmid1 Hmid2].
      rewrite Hframec.
      * apply Hfreed; [|done]. rewrite elem_of_cons, elem_of_app in Ha'.
        rewrite elem_of_cons. tauto.
      * rewrite !not_elem_of_cons, not_elem_of_app.
        repeat split; try done; intros ->;
          rewrite elem_of_cons, elem_of_app in Ha'; destruct Ha' as [?|[?|?]]; done.
    + intros a Ha. simpl in Ha. rewrite HPerm in Ha.
      pose proof Ha as Ha'. rewrite !not_elem_of_cons, not_elem_of_app in Ha'.
      destruct Ha' as (? & ? & ? & ? & ?).
      rewrite Hframec, Hframeb, Hframea; [done|..].
      * rewrite !not_elem_of_cons. done.
      * rewrite !not_elem_of_cons. done.
      * intros Hin. apply Ha. by eapply elem_of_submseteq.
Qed.

(** [pname_join] leaves in the first list the segments [join_segs] says,
    empties the second list, and frees every node of either list that is
    not in the first list any more. *)
Lemma pname_join_spec σ n pn1 sent1 l1 pn2 sent2 l2 :
  is_list σ pn1 sent1 l1 -> is_list σ pn2 sent2 l2 ->
  NoDup (pn1 :: pn2 :: l1.*1 ++ l2.*1) ->
  (NULL ∉ pn1 :: pn2 :: l1.*1 ++ l2.*1) ->
  exists σ' l1',
    pname_join pn1 pn2 (mkHeap σ n) = Some (tt, mkHeap σ' n) ∧
    is_list σ' pn1 sent1 l1' ∧ is_list σ' pn2 sent2 [] ∧
    l1'.*2 = join_segs (l1.*2) (l2.*2) ∧
    l1'.*1 ⊆+ l1.*1 ++ l2.*1 ∧
    (forall a, a ∈ l1.*1 ++ l2.*1 -> (a ∉ l1'.*1) -> σ' !! a = None) ∧
    (forall a, a ∉ pn1 :: pn2 :: l1.*1 ++ l2.*1 -> σ' !! a = σ !! a).
Proof.
  intros Hl1 Hl2 Hnd Hnull.
  destruct (join_loop_spec l2 (S (size σ)) σ n pn1 sent1 l1 pn2 sent2) as (σ' & l1' & Hrun & H);
    [|done..|].
  { apply Nat.lt_succ_r. rewrite <- (length_fmap fst). apply live_size.
    - do 2 apply NoDup_cons_1_2 in Hnd. by apply NoDup_app in Hnd as (_ & _ & ?).
    - intros a Ha. eapply is_list_live; [exact Hl2|]. apply elem_of_cons. by right. }
  exists σ', l1'. split; [|done].
  unfold pname_join, get_heap. erewrite (run_bind get) by reflexivity. done.
Qed.

End PnameJoin.

Module PnameMkname.
Import Pname PnameRepr PnameLists PnameMem PnameScan PnameJoin.

(** ** Strings *)

Lemma strlen_le s : strlen s <= length s.
Proof.
  induction s as [|c s IH]; simpl; [done|]. destruct (Ascii.eqb c NUL); lia.
Qed.

Lemma strlen_no_nul s i : i < strlen s -> nth i s NUL ≠ NUL.
Proof.
  revert i. induction s as [|c s IH]; intros i; simpl; [lia|].
  destruct (Ascii.eqb_spec c NUL) as [->|Hc]; [lia|].
  destruct i as [|i]; [done|]. intros Hi. apply IH. lia.
Qed.

Lemma strlen_take_no_nul s k : k <= strlen s -> Forall (fun c => c ≠ NUL) (take k s).
Proof.
  revert k. induction s as [|c s IH]; intros k; simpl.
  - intros _. rewrite take_nil. constructor.
  - destruct (Ascii.eqb_spec c NUL) as [->|Hc].
    + intros Hk. assert (k = 0) as -> by lia. constructor.
    + destruct k as [|k]; [constructor|]. intros Hk. simpl. constructor; [done|].
      apply IH. lia.
Qed.

Lemma strlen_app_nul w r :
  Forall (fun c => c ≠ NUL) w -> strlen (w ++ NUL :: r) = length w.
Proof.
  induction 1 as [|c w Hc _ IH]; simpl; [done|].
  destruct (Ascii.eqb_spec c NUL) as [?|_]; [done|]. by rewrite IH.
Qed.

Lemma cstring_app_nul w r :
  Forall (fun c => c ≠ NUL) w -> cstring (w ++ NUL :: r) = w.
Proof.
  intros Hw. unfold cstring. rewrite strlen_app_nul by done.
  by rewrite take_app_length.
Qed.

Lemma seg_text_length s : seg_ok s -> length (seg_text s) = s.2.
Proof.
  unfold seg_ok, seg_text. intros H. rewrite length_take.
  pose proof (strlen_le s.1). lia.
Qed.

(** ** Writing into the block *)

Lemma run_poke (w r : list ascii) c (s : heap) :
  r ≠ [] ->
  poke (w ++ r) (length w) c s = Some ((w ++ [c]) ++ drop 1 r, s).
Proof.
  intros Hr. unfold poke. destruct r as [|c0 r]; [done|].
  destruct (Nat.ltb_spec (length w) (length (w ++ c0 :: r))) as [_|Hge].
  - unfold StateErr.ret. f_equal. f_equal.
    replace (length w) with (length w + 0) at 1 by lia.
    rewrite insert_app_r. simpl. by rewrite <- app_assoc.
  - rewrite length_app in Hge. simpl in Hge. lia.
Qed.

Lemma run_poke_full (w : list ascii) c (s : heap) :
  poke w (length w) c s = None.
Proof. unfold poke. by rewrite Nat.ltb_irrefl. Qed.

Lemma run_strncpy k : forall (w r src : list ascii) (s : heap),
  k <= strlen src -> k <= length r ->
  strncpy (w ++ r) (length w) src k s = Some ((w ++ take k src) ++ drop k r, s).
Proof.
  induction k as [|k IH]; intros w r src s Hsrc Hr.
  - simpl. rewrite take_0, app_nil_r, drop_0. done.
  - destruct src as [|c src]; [simpl in Hsrc; lia|].
    simpl in Hsrc. destruct (Ascii.eqb_spec c NUL) as [->|Hc]; [lia|].
    cbn [strncpy nth]. destruct r as [|c0 r]; [simpl in Hr; lia|].
    erewrite run_bind by (by apply run_poke).
    destruct (Ascii.eqb_spec c NUL) as [?|_]; [done|].
    replace (S (length w)) with (length (w ++ [c])) by (rewrite length_app; simpl; lia).
    change (drop 1 (c :: src)) with (drop 0 src). change (drop 1 (c0 :: r)) with (drop 0 r).
    rewrite !drop_0. simpl in Hr. rewrite IH by lia.
    simpl. by rewrite <- !app_assoc.
Qed.

(** ** [pname_mkname] *)

Lemma nlen_loop_spec l : forall fuel σ n pn p pp qp acc,
  dlseg σ l p pp pn qp -> (pn ∉ l.*1) -> (NULL ∉ l.*1) -> length l < fuel ->
  nlen_loop fuel pn p acc (mkHeap σ n)
  = Some (acc + nlen_segs (l.*2), mkHeap σ n).
Proof.
  induction l as [|[a s] l IH]; intros fuel σ n pn p pp qp acc Hl Hpn Hnull Hfuel;
    (destruct fuel as [|fuel]; [simpl in Hfuel; lia|]); simpl in Hl.
  - destruct Hl as [-> _]. cbn [nlen_loop]. rewrite Nat.eqb_refl. simpl.
    unfold StateErr.ret. by rewrite Nat.add_0_r.
  - destruct Hl as [-> (nx & Ha & Hl)]. simpl in Hpn, Hnull, Hfuel.
    rewrite not_elem_of_cons in Hpn, Hnull.
    destruct Hpn as [Hpna Hpn]. destruct Hnull as [Hnulla Hnull].
    cbn [nlen_loop].
    destruct (Nat.eqb_spec a pn) as [?|_]; [done|].
    destruct (Nat.eqb_spec a NULL) as [?|_]; [done|]. cbn [negb andb].
    repeat step. erewrite IH; [|done..|lia].
    rewrite fmap_cons. unfold nlen_segs. cbn [foldr snd]. do 2 f_equal. lia.
Qed.

Lemma copy_loop_spec l : forall fuel σ n pn p pp qp w r,
  dlseg σ l p pp pn qp -> (pn ∉ l.*1) -> (NULL ∉ l.*1) -> length l < fuel ->
  Forall seg_ok (l.*2) -> length (mkname_body (l.*2)) <= length r ->
  copy_loop fuel pn p (w ++ r) (length w) (mkHeap σ n)
  = Some (((w ++ mkname_body (l.*2)) ++ drop (length (mkname_body (l.*2))) r,
           length w + length (mkname_body (l.*2))), mkHeap σ n).
Proof.
  induction l as [|[a s] l IH];
    intros fuel σ n pn p pp qp w r Hl Hpn Hnull Hfuel Hok Hlen;
    (destruct fuel as [|fuel]; [simpl in Hfuel; lia|]); simpl in Hl.
  - destruct Hl as [-> _]. cbn [copy_loop]. rewrite Nat.eqb_refl. simpl.
    unfold StateErr.ret. by rewrite app_nil_r, drop_0, Nat.add_0_r.
  - destruct Hl as [-> (nx & Ha & Hl)]. simpl in Hpn, Hnull, Hfuel.
    rewrite not_elem_of_cons in Hpn, Hnull.
    destruct Hpn as [Hpna Hpn]. destruct Hnull as [Hnulla Hnull].
    rewrite fmap_cons in Hok, Hlen |- *. cbn [snd] in Hok, Hlen |- *.
    apply Forall_cons in Hok as [Hs Hok].
    unfold mkname_body in Hlen |- *. cbn [map concat] in Hlen |- *.
    fold (mkname_body (l.*2)) in Hlen |- *.
    cbn [copy_loop].
    destruct (Nat.eqb_spec a pn) as [?|_]; [done|].
    destruct (Nat.eqb_spec a NULL) as [?|_]; [done|]. cbn [negb andb].
    step. fold (is_root s). destruct (is_root s); cbn [negb].
    + (* the root segment writes nothing *)
      repeat step. cbn [fst snd]. simpl in Hlen. by erewrite IH; [|done..|lia|done|done].
    + rewrite length_app in Hlen. cbn [length] in Hlen.
      rewrite bind_assoc.
      destruct r as [|c0 r]; [simpl in Hlen; lia|].
      erewrite run_bind by (by apply run_poke).
      change (drop 1 (c0 :: r)) with (drop 0 r). rewrite drop_0.
      replace (length w + 1) with (length (w ++ [slash]))
        by (rewrite length_app; simpl; lia).
      pose proof (seg_text_length s Hs) as Htext.
      repeat step.
      erewrite run_bind; cycle 1.
      { apply run_strncpy; [exact Hs|]. simpl in Hlen. lia. }
      repeat step. cbn [fst snd]. fold (seg_text s).
      replace (length (w ++ [slash]) + s.2) with (length ((w ++ [slash]) ++ seg_text s))
        by (rewrite !length_app; simpl; lia).
      erewrite IH; [|done..|lia|done|]; cycle 1.
      { rewrite length_drop. simpl in Hlen. lia. }
      rewrite drop_drop, <- !app_assoc. cbn [app length]. rewrite !length_app, Htext.
      cbn [length].
      change (drop (S (s.2 + length (mkname_body (l.*2)))) (c0 :: r))
        with (drop (s.2 + length (mkname_body (l.*2))) r).
      rewrite Htext.
      replace (length w + S (s.2) + length (mkname_body (l.*2)))
        with (length w + S (s.2 + length (mkname_body (l.*2)))) by lia.
      done.
Qed.

Lemma mkname_body_length l :
  Forall seg_ok l -> length (mkname_body l) <= nlen_segs l.
Proof.
  induction 1 as [|s l Hs _ IH]; [done|].
  unfold mkname_body in *. cbn [map concat nlen_segs foldr].
  fold (nlen_segs l). rewrite length_app.
  destruct (is_root s); simpl; [lia|]. rewrite seg_text_length by done. lia.
Qed.

Lemma nlen_segs_pos l : l ≠ [] -> 0 < nlen_segs l.
Proof. destruct l; [done|]. simpl. lia. Qed.

(** What [pname_mkname] leaves in the block: the string, its NUL, and
    what the block held behind them. *)
Lemma pname_mkname_spec ok junk σ n pn sent l :
  is_list σ pn sent l -> NoDup (pn :: l.*1) -> (NULL ∉ l.*1) ->
  Forall seg_ok (l.*2) ->
  pname_mkname ok junk pn (mkHeap σ n)
  = if ok n then
      match l with
      | [] => None
      | _ =>
          Some (Some (mkname_segs (l.*2) ++
                      NUL :: drop (length (mkname_segs (l.*2)) + 1)
                               (map junk (seq 0 (nlen_segs (l.*2) + 1)))),
                mkHeap σ (S n))
      end
    else Some (None, mkHeap σ (S n)).
Proof.
  intros (first & last & Hpn & Hl) Hnd Hnull Hok.
  apply NoDup_cons in Hnd as [Hpnl Hnd].
  assert (length l < S (size σ)) as Hfuel.
  { apply Nat.lt_succ_r. rewrite <- (length_fmap fst). apply live_size; [done|].
    intros a Ha. by eapply dlseg_live. }
  unfold pname_mkname, get_heap. erewrite (run_bind get) by reflexivity.
  cbn [nodes]. step.
  erewrite run_bind by (by eapply nlen_loop_spec).
  cbn [Nat.add].
  unfold bind at 1, pfs_malloc_bytes. cbn [nalloc nodes].
  destruct (ok n); [|done].
  step.
  set (buf0 := map junk (seq 0 (nlen_segs (l.*2) + 1))).
  assert (length buf0 = nlen_segs (l.*2) + 1) as Hbuf0.
  { unfold buf0. by rewrite length_map, length_seq. }
  pose proof (mkname_body_length _ Hok) as Hbody.
  erewrite run_bind; cycle 1.
  { apply (copy_loop_spec l _ σ (S n) pn first pn last [] buf0); try done. lia. }
  cbn [fst snd app length Nat.add].
  unfold mkname_segs.
  destruct (mkname_body (l.*2)) as [|c body] eqn:Hb.
  - (* no segment but the root: ['/'] is written *)
    cbn [length Nat.eqb app]. rewrite drop_0.
    destruct buf0 as [|c0 buf1] eqn:Hbuf; [simpl in Hbuf0; lia|].
    rewrite bind_assoc.
    erewrite run_bind by (by apply (run_poke [] (c0 :: buf1))).
    cbn [app drop snd fst]. step. rewrite drop_0.
    destruct l as [|e l'].
    + (* no segment at all: the block has one byte *)
      simpl in Hbuf0. assert (buf1 = []) as -> by (destruct buf1; [done|simpl in Hbuf0; lia]).
      cbn [fst snd]. change (0 + 1) with (length [slash]).
      unfold bind. by rewrite run_poke_full.
    + assert (buf1 ≠ []) as Hbuf1.
      { intros ->.
        assert (0 < nlen_segs ((e :: l').*2)) by (rewrite fmap_cons; by apply nlen_segs_pos).
        cbn [length] in Hbuf0. lia. }
      cbn [fst snd]. change (0 + 1) with (length [slash]).
      erewrite run_bind by (by apply (run_poke [slash] buf1)). cbn [app]. done.
  - cbn [length Nat.eqb].
    assert (l ≠ []) as Hne by (intros ->; done).
    destruct l as [|e l']; [done|]. step.
    change (0 + S (length body)) with (length (c :: body)).
    erewrite run_bind; cycle 1.
    { apply run_poke. intros Hnil. apply (f_equal length) in Hnil.
      rewrite length_drop in Hnil. cbn [length] in Hnil, Hbody. lia. }
    rewrite drop_drop. rewrite <- app_assoc. cbn [app].
    replace (length (c :: body) + 1) with (S (length body) + 1) by done. done.
Qed.

End PnameMkname.

Module PnameAppend.
Import Pname PnameRepr PnameLists PnameMem PnameScan PnameJoin PnameMkname.

(** ** The segments are well formed *)

Lemma seg_end_le mem ps2 pend : ps2 <= pend -> seg_end mem ps2 pend <= pend.
Proof.
  revert ps2. induction mem as [|c mem IH]; intros ps2 Hle; simpl; [done|].
  destruct (negb (is_sep c)); simpl; [|done].
  destruct (Nat.ltb_spec ps2 pend); [|done]. apply IH. lia.
Qed.

Lemma strlen_drop m k : k <= strlen m -> strlen (drop k m) = strlen m - k.
Proof.
  revert k. induction m as [|c m IH]; intros k; simpl.
  - intros _. by rewrite drop_nil.
  - destruct (Ascii.eqb_spec c NUL) as [->|Hc].
    + intros Hk. assert (k = 0) as -> by lia. simpl.
      by destruct (Ascii.eqb_spec NUL NUL).
    + destruct k as [|k]; simpl.
      * by destruct (Ascii.eqb_spec c NUL).
      * intros Hk. apply IH. lia.
Qed.

Lemma scan_segs_from_ok fuel m : forall ps1,
  Forall seg_ok (scan_segs_from fuel m (strlen m) ps1).
Proof.
  induction fuel as [|fuel IH]; intros ps1; cbn [scan_segs_from]; [constructor|].
  pose proof (skip_seps_ge (drop ps1 m) ps1) as Hskip.
  set (ps1' := skip_seps (drop ps1 m) ps1) in *.
  destruct (Nat.leb_spec (strlen m) ps1') as [Hle|Hlt]; [constructor|].
  pose proof (seg_end_ge (drop ps1' m) ps1' (strlen m)) as Hge.
  pose proof (seg_end_le (drop ps1' m) ps1' (strlen m) ltac:(lia)) as Hend.
  set (ps2 := seg_end (drop ps1' m) ps1' (strlen m)) in *.
  destruct ((ps1' + 1 <? ps2) || negb (Ascii.eqb (nth ps1' m NUL) dot)); [|apply IH].
  constructor; [|apply IH].
  unfold seg_ok. cbn [fst snd]. rewrite strlen_drop by lia. lia.
Qed.

Lemma scan_segs_ok m : Forall seg_ok (scan_segs m).
Proof.
  unfold scan_segs. cbv zeta. destruct (is_sep (nth 0 m NUL)).
  - constructor; [|apply scan_segs_from_ok]. unfold seg_ok. simpl. lia.
  - apply scan_segs_from_ok.
Qed.

Lemma Forall_removelast {A} (P : A -> Prop) l : Forall P l -> Forall P (removelast l).
Proof.
  intros H. destruct l as [|x l _] using rev_ind; [done|].
  rewrite removelast_last. by apply Forall_app in H as [? _].
Qed.

Lemma join_step_ok l1 s : Forall seg_ok l1 -> seg_ok s -> Forall seg_ok (join_step l1 s).
Proof.
  intros Hl1 Hs. unfold join_step. destruct (is_dotdot s).
  - destruct (last l1) as [s1|]; [|done].
    destruct (negb (is_root s1)); [|done]. by apply Forall_removelast.
  - apply Forall_app. split; [by destruct (is_root s)|]. by constructor.
Qed.

Lemma join_segs_ok l2 : forall l1,
  Forall seg_ok l1 -> Forall seg_ok l2 -> Forall seg_ok (join_segs l1 l2).
Proof.
  unfold join_segs.
  induction l2 as [|s l2 IH]; intros l1 Hl1 Hl2; simpl; [done|].
  apply Forall_cons in Hl2 as [Hs Hl2]. apply IH; [|done]. by apply join_step_ok.
Qed.

(** ** [pname_append], whatever the allocator does *)

Lemma pname_append_spec ok junk p1 p2 σ n :
  exists n' b,
    allocs ok n n' b ∧ n' <= n + append_allocs p1 p2 ∧
    if b then
      n' = n + append_allocs p1 p2 ∧
      pname_append ok junk p1 p2 (mkHeap σ n)
      = match join_segs (scan_segs p1) (scan_segs p2) with
        | [] => None
        | segs => Some (Some (mkname_block junk segs), mkHeap σ n')
        end
    else pname_append ok junk p1 p2 (mkHeap σ n) = Some (None, mkHeap σ n').
Proof.
  unfold pname_append.
  destruct (pname_create_spec ok p1 σ n) as (pn1 & σ1 & n1 & b1 & Hc1 & Ha1 & Hb1 & H1).
  destruct b1; cycle 1.
  { destruct H1 as [-> ->]. exists n1, false. split; [done|].
    split; [unfold append_allocs; lia|].
    erewrite run_bind by exact Hc1. done. }
  destruct H1 as (Hpn1 & l1 & Hl1 & Hs1 & Hnd1 & Hnull1 & Hfresh1 & Hframe1 & ->).
  destruct (pname_create_spec ok p2 σ1 (n + S (length l1)))
    as (pn2 & σ2 & n2 & b2 & Hc2 & Ha2 & Hb2 & H2).
  destruct b2; cycle 1.
  { destruct H2 as [-> ->].
    destruct (pname_delete_spec σ1 n2 pn1 _ l1 Hl1 Hnd1 Hnull1)
      as (σ' & Hdel & Hfreed & Hframe').
    exists n2, false. split; [by eapply allocs_trans|].
    split; [unfold append_allocs; rewrite <- Hs1, length_fmap; lia|].
    erewrite run_bind by exact Hc1.
    destruct (Nat.eqb_spec pn1 NULL) as [?|_]; [done|].
    erewrite run_bind by exact Hc2. rewrite Nat.eqb_refl.
    erewrite run_bind by exact Hdel. unfold StateErr.ret. do 3 f_equal.
    apply map_eq. intros a. destruct (decide (a ∈ pn1 :: l1.*1)) as [Ha|Ha].
    - rewrite Hfreed by done. by rewrite Hfresh1.
    - rewrite Hframe' by done. by apply Hframe1. }
  destruct H2 as (Hpn2 & l2 & Hl2 & Hs2 & Hnd2 & Hnull2 & Hfresh2 & Hframe2 & ->).
  (* the two lists are apart *)
  assert (forall a, a ∈ pn1 :: l1.*1 -> a ∉ pn2 :: l2.*1) as Hapart.
  { intros a Hin1 Hin2. apply Hfresh2 in Hin2.
    eapply is_list_live in Hin1 as [x Hx]; [|exact Hl1]. congruence. }
  assert (forall a, a ∈ pn2 :: l2.*1 -> σ !! a = None) as Hfresh2'.
  { intros a Ha. rewrite <- Hframe1; [by apply Hfresh2|].
    intros Hin1. by apply (Hapart a Hin1). }
  assert (is_list σ2 pn1 (p1, strlen p1) l1) as Hl1'.
  { eapply is_list_frame; [|exact Hl1]. intros a Ha. apply Hframe2. by apply Hapart. }
  assert (NoDup (pn1 :: pn2 :: l1.*1 ++ l2.*1)) as Hnd.
  { assert (pn1 :: pn2 :: l1.*1 ++ l2.*1 ≡ₚ (pn1 :: l1.*1) ++ (pn2 :: l2.*1)) as ->
      by solve_Permutation.
    apply NoDup_app. done. }
  assert (NULL ∉ pn1 :: pn2 :: l1.*1 ++ l2.*1) as Hnull.
  { rewrite !not_elem_of_cons, not_elem_of_app.
    rewrite !not_elem_of_cons in Hnull1, Hnull2. tauto. }
  destruct (pname_join_spec σ2 (n + S (length l1) + S (length l2)) pn1 _ l1 pn2 _ l2 Hl1' Hl2 Hnd Hnull)
    as (σ3 & l1' & Hjoin & Hl1j & Hl2j & Hsegs & Hsub & Hfreed3 & Hframe3).
  assert (forall a, a ∈ l1'.*1 -> a ∈ l1.*1 ++ l2.*1) as Hin'.
  { intros a Ha. by eapply elem_of_submseteq. }
  assert (NoDup (pn1 :: pn2 :: l1'.*1)) as Hnd'.
  { eapply NoDup_submseteq_mono; [|exact Hnd]. by do 2 apply submseteq_skip. }
  assert (NULL ∉ pn1 :: pn2 :: l1'.*1) as Hnull'.
  { rewrite !not_elem_of_cons in *. rewrite not_elem_of_app in Hnull.
    destruct Hnull as (? & ? & ? & ?). repeat split; try done.
    intros Hin. apply Hin' in Hin. apply elem_of_app in Hin as [?|?]; done. }
  assert (Forall seg_ok (l1'.*2)) as Hok'.
  { rewrite Hsegs, Hs1, Hs2. apply join_segs_ok; apply scan_segs_ok. }
  assert (NoDup (pn1 :: l1'.*1)) as Hnd1'.
  { eapply NoDup_submseteq_mono; [|exact Hnd']. apply submseteq_skip.
    apply submseteq_cons. done. }
  assert (NULL ∉ pn1 :: l1'.*1) as Hnull1'.
  { rewrite !not_elem_of_cons in *. tauto. }
  pose proof (pname_mkname_spec ok junk σ3 (n + S (length l1) + S (length l2))
                pn1 _ l1' Hl1j Hnd1' ltac:(rewrite not_elem_of_cons in Hnull1'; tauto) Hok')
    as Hmk.
  (* the nodes are given back *)
  destruct (pname_delete_spec σ3 (S (n + S (length l1) + S (length l2))) pn1 _ l1' Hl1j Hnd1' Hnull1')
    as (σ4 & Hdel1 & Hfreed4 & Hframe4).
  assert (is_list σ4 pn2 (p2, strlen p2) []) as Hl2d.
  { eapply is_list_frame; [|exact Hl2j]. intros a Ha. simpl in Ha.
    apply list_elem_of_singleton in Ha as ->. apply Hframe4.
    pose proof Hnd' as Hx. rewrite !NoDup_cons, !not_elem_of_cons in Hx.
    destruct Hx as ((? & ?) & ? & ?). rewrite not_elem_of_cons. split; [congruence|done]. }
  destruct (pname_delete_spec σ4 (S (n + S (length l1) + S (length l2))) pn2 _ [] Hl2d)
    as (σ5 & Hdel2 & Hfreed5 & Hframe5).
  { simpl. apply NoDup_singleton. }
  { simpl. rewrite not_elem_of_cons. split; [done|apply not_elem_of_nil]. }
  simpl in Hfreed5, Hframe5.
  assert (σ5 = σ) as Hσ.
  { apply map_eq. intros a.
    destruct (decide (a = pn2)) as [->|Hapn2].
    { rewrite Hfreed5 by (by apply list_elem_of_singleton).
      symmetry. apply Hfresh2'. apply elem_of_cons. by left. }
    rewrite Hframe5 by (by rewrite list_elem_of_singleton).
    assert (a ∈ l1.*1 ++ l2.*1 -> σ !! a = None) as Hold_fresh.
    { intros [Ha|Ha]%elem_of_app.
      - apply Hfresh1. apply elem_of_cons. by right.
      - apply Hfresh2'. apply elem_of_cons. by right. }
    destruct (decide (a ∈ pn1 :: l1'.*1)) as [Ha|Ha].
    { rewrite Hfreed4 by done. symmetry.
      apply elem_of_cons in Ha as [->|Ha].
      - apply Hfresh1. apply elem_of_cons. by left.
      - by apply Hold_fresh, Hin'. }
    rewrite Hframe4 by done. rewrite not_elem_of_cons in Ha. destruct Ha as [Hapn1 Hal1'].
    destruct (decide (a ∈ l1.*1 ++ l2.*1)) as [Hold|Hold].
    { rewrite Hfreed3 by done. symmetry. by apply Hold_fresh. }
    rewrite Hframe3 by (rewrite !not_elem_of_cons; done).
    rewrite not_elem_of_app in Hold. destruct Hold as [Hol1 Hol2].
    rewrite Hframe2 by (rewrite not_elem_of_cons; done).
    apply Hframe1. rewrite not_elem_of_cons. done. }
  assert (allocs ok n (n + S (length l1) + S (length l2)) true) as Ha12.
  { by eapply allocs_trans. }
  assert (pname_append ok junk p1 p2 (mkHeap σ n)
          = bind (pname_mkname ok junk pn1)
              (fun ps => pname_delete pn1 >> pname_delete pn2 >> ret ps)
              (mkHeap σ3 (n + S (length l1) + S (length l2)))) as Hrun.
  { unfold pname_append. erewrite run_bind by exact Hc1.
    destruct (Nat.eqb_spec pn1 NULL) as [?|_]; [done|].
    erewrite run_bind by exact Hc2.
    destruct (Nat.eqb_spec pn2 NULL) as [?|_]; [done|].
    erewrite run_bind by exact Hjoin. done. }
  fold (pname_append ok junk p1 p2). rewrite Hrun. clear Hrun.
  destruct (ok (n + S (length l1) + S (length l2))) eqn:Hoks; cycle 1.
  { (* no memory for the string *)
    exists (S (n + S (length l1) + S (length l2))), false. split.
    { eapply allocs_trans; [exact Ha12|]. by apply allocs_fail. }
    split; [unfold append_allocs; rewrite <- Hs1, <- Hs2, !length_fmap; lia|].
    erewrite run_bind by exact Hmk. erewrite run_bind by exact Hdel1.
    erewrite run_bind by exact Hdel2. by rewrite Hσ. }
  exists (S (n + S (length l1) + S (length l2))), true. split.
  { eapply allocs_trans; [exact Ha12|]. apply allocs_step; [done|apply allocs_refl]. }
  assert (S (n + S (length l1) + S (length l2)) = n + append_allocs p1 p2) as Hcount.
  { unfold append_allocs. rewrite <- Hs1, <- Hs2, !length_fmap. lia. }
  split; [lia|]. split; [done|].
  rewrite <- Hs1, <- Hs2, <- Hsegs.
  destruct l1' as [|e l1'].
  - unfold bind. by rewrite Hmk.
  - erewrite run_bind by exact Hmk. rewrite fmap_cons.
    erewrite run_bind by exact Hdel1.
    erewrite run_bind by exact Hdel2. by rewrite Hσ.
Qed.

End PnameAppend.

Module PnameText.
Import Pname PnameRepr PnameSpec PnameLists PnameMem PnameScan PnameJoin PnameMkname PnameAppend.

(** ** [pname_scan] splits the path as the specification says *)

Lemma skip_seps_shift mem p : skip_seps mem p = p + lead_seps mem.
Proof.
  revert p. induction mem as [|c mem IH]; intros p; simpl; [lia|].
  destruct (is_sep c); [|lia]. rewrite IH. lia.
Qed.

Lemma skip_seps_app l t p :
  is_sep (hd NUL t) = false -> skip_seps (l ++ t) p = p + lead_seps l.
Proof.
  intros Ht. revert p. induction l as [|c l IH]; intros p; simpl.
  - destruct t as [|c t]; simpl in *; [lia|]. rewrite Ht. lia.
  - destruct (is_sep c); [|lia]. rewrite IH. lia.
Qed.

Lemma lead_seps_le l : lead_seps l <= length l.
Proof. induction l as [|c l IH]; simpl; [done|]. destruct (is_sep c); lia. Qed.

Lemma lead_seps_stop l : is_sep (hd NUL (drop (lead_seps l) l)) = false.
Proof.
  induction l as [|c l IH]; simpl; [done|]. by destruct (is_sep c) eqn:Hc.
Qed.

Lemma pieces_skip_sep c l : is_sep c = true -> pieces (c :: l) = pieces l.
Proof. intros Hc. unfold pieces. simpl. by rewrite Hc. Qed.

Lemma pieces_lead_seps l : pieces (drop (lead_seps l) l) = pieces l.
Proof.
  induction l as [|c l IH]; cbn [lead_seps]; [done|].
  destruct (is_sep c) eqn:Hc; [|done].
  change (drop (S (lead_seps l)) (c :: l)) with (drop (lead_seps l) l).
  rewrite IH. symmetry. by apply pieces_skip_sep.
Qed.

Lemma seg_end_app l t p pend :
  p + length l = pend -> seg_end (l ++ t) p pend = p + span_len l.
Proof.
  revert p. induction l as [|c l IH]; intros p Hp; simpl in *.
  - destruct t as [|c t]; simpl; [lia|].
    destruct (Nat.ltb_spec p pend); [lia|]. rewrite andb_false_r. lia.
  - destruct (is_sep c); simpl; [lia|].
    destruct (Nat.ltb_spec p pend); [|lia]. rewrite IH by lia. lia.
Qed.

Lemma span_len_le l : span_len l <= length l.
Proof. induction l as [|c l IH]; simpl; [done|]. destruct (is_sep c); lia. Qed.

Lemma spec_split_span l : forall cur,
  spec_split l cur
  = (cur ++ take (span_len l) l) ::
    match drop (span_len l) l with
    | [] => []
    | _ :: l' => spec_split l' []
    end.
Proof.
  induction l as [|c l IH]; intros cur; simpl.
  - by rewrite app_nil_r.
  - destruct (is_sep c) eqn:Hc; simpl.
    + by rewrite app_nil_r.
    + rewrite IH. by rewrite <- app_assoc.
Qed.

Lemma pieces_nil : pieces [] = [].
Proof. done. Qed.

Lemma filter_cons_if {A} (f : A -> bool) x l :
  List.filter f (x :: l) = if f x then x :: List.filter f l else List.filter f l.
Proof. done. Qed.

(** The first piece, and the pieces behind the separator that ends it. *)
Lemma pieces_span l :
  pieces l
  = (if keep_seg (take (span_len l) l) then [take (span_len l) l] else []) ++
    pieces (drop (S (span_len l)) l).
Proof.
  unfold pieces at 1. rewrite spec_split_span, filter_cons_if. cbn [app].
  destruct (keep_seg (take (span_len l) l)); cbn [app]; [f_equal|];
    (replace (S (span_len l)) with (span_len l + 1) by lia;
     rewrite <- drop_drop; destruct (drop (span_len l) l) as [|c l']; [done|];
     cbn [drop Nat.add]; by rewrite drop_0).
Qed.

Lemma strlen_nth_nul m : nth (strlen m) m NUL = NUL.
Proof.
  induction m as [|c m IH]; simpl; [done|].
  by destruct (Ascii.eqb_spec c NUL) as [->|Hc].
Qed.

Lemma cstring_length m : length (cstring m) = strlen m.
Proof. unfold cstring. rewrite length_take. pose proof (strlen_le m). lia. Qed.

Lemma hd_drop {A} (d : A) l k : hd d (drop k l) = nth k l d.
Proof.
  revert k. induction l as [|x l IH]; intros [|k]; simpl; done.
Qed.

(** The memory from [ps1] on: the rest of the string, and what lies
    behind it, which starts with the NUL. *)
Lemma drop_memory m ps1 :
  ps1 <= strlen m ->
  drop ps1 m = drop ps1 (cstring m) ++ drop (strlen m) m ∧
  is_sep (hd NUL (drop (strlen m) m)) = false.
Proof.
  intros Hle. split.
  - rewrite <- (take_drop (strlen m) m) at 1. fold (cstring m).
    rewrite drop_app_le; [done|]. by rewrite cstring_length.
  - by rewrite hd_drop, strlen_nth_nul.
Qed.

Lemma scan_segs_from_end fuel m pend ps1 :
  pend < ps1 -> scan_segs_from fuel m pend ps1 = [].
Proof.
  intros Hlt. destruct fuel as [|fuel]; [done|]. cbn [scan_segs_from].
  pose proof (skip_seps_ge (drop ps1 m) ps1).
  destruct (Nat.leb_spec pend (skip_seps (drop ps1 m) ps1)); [done|lia].
Qed.

Lemma keep_seg_span l :
  0 < span_len l ->
  keep_seg (take (span_len l) l)
  = (1 <? span_len l) || negb (Ascii.eqb (hd NUL l) dot).
Proof.
  destruct l as [|c l]; cbn [span_len hd]; [lia|]. destruct (is_sep c); [lia|]. intros _.
  unfold keep_seg. change (take (S (span_len l)) (c :: l)) with (c :: take (span_len l) l).
  rewrite (bool_decide_eq_false_2 (c :: take (span_len l) l = [])) by done.
  cbn [negb andb].
  destruct (span_len l) as [|k] eqn:Hk.
  - rewrite take_0. change (1 <? 1) with false. cbn [orb].
    destruct (Ascii.eqb_spec c dot) as [->|Hc].
    + by rewrite bool_decide_eq_true_2.
    + rewrite bool_decide_eq_false_2; [done|]. intros [= ?]. done.
  - change (1 <? S (S k)) with true. cbn [orb].
    destruct l as [|c' l]; [simpl in Hk; lia|].
    change (take (S k) (c' :: l)) with (c' :: take k l).
    by rewrite bool_decide_eq_false_2.
Qed.

Lemma scan_segs_from_texts m fuel : forall ps1,
  strlen m - ps1 < fuel ->
  map seg_text (scan_segs_from fuel m (strlen m) ps1)
  = pieces (drop ps1 (cstring m)).
Proof.
  induction fuel as [|fuel IH]; intros ps1 Hfuel; [lia|].
  destruct (decide (strlen m < ps1)) as [Hgt|Hle].
  { rewrite scan_segs_from_end by done.
    rewrite drop_ge by (rewrite cstring_length; lia). done. }
  cbn [scan_segs_from].
  destruct (drop_memory m ps1 ltac:(lia)) as [Hmem Htl].
  set (rest := drop ps1 (cstring m)) in *.
  assert (length rest = strlen m - ps1) as Hrest.
  { unfold rest. by rewrite length_drop, cstring_length. }
  rewrite Hmem, skip_seps_app by done.
  pose proof (lead_seps_le rest) as Hk.
  rewrite <- (pieces_lead_seps rest).
  set (ps1' := ps1 + lead_seps rest) in *.
  assert (drop (lead_seps rest) rest = drop ps1' (cstring m)) as Hrest'.
  { unfold rest, ps1'. rewrite drop_drop. done. }
  rewrite Hrest'.
  destruct (Nat.leb_spec (strlen m) ps1') as [Hend|Hlt].
  { rewrite drop_ge by (rewrite cstring_length; lia). done. }
  destruct (drop_memory m ps1' ltac:(lia)) as [Hmem' _].
  pose proof (lead_seps_stop rest) as Hstop. rewrite Hrest' in Hstop.
  set (rest' := drop ps1' (cstring m)) in *.
  assert (length rest' = strlen m - ps1') as Hlen'.
  { unfold rest'. by rewrite length_drop, cstring_length. }
  rewrite Hmem', seg_end_app by lia.
  pose proof (span_len_le rest') as Hj.
  assert (0 < span_len rest') as Hpos.
  { destruct rest' as [|c r]; [simpl in Hlen'; lia|]. simpl in Hstop |- *.
    rewrite Hstop. lia. }
  assert (nth ps1' m NUL = hd NUL rest') as Hhd.
  { rewrite <- hd_drop, Hmem'. destruct rest'; [simpl in Hlen'; lia|done]. }
  rewrite (pieces_span rest'), keep_seg_span by done.
  rewrite Hhd.
  replace (ps1' + 1 <? ps1' + span_len rest') with (1 <? span_len rest'); cycle 1.
  { destruct (Nat.ltb_spec 1 (span_len rest')), (Nat.ltb_spec (ps1' + 1) (ps1' + span_len rest')); lia || done. }
  assert (drop (S (span_len rest')) rest' = drop (ps1' + span_len rest' + 1) (cstring m)) as Hnext.
  { unfold rest'. rewrite drop_drop. f_equal. lia. }
  rewrite Hnext.
  destruct ((1 <? span_len rest') || negb (Ascii.eqb (hd NUL rest') dot)).
  - cbn [map app]. f_equal; [|apply IH; lia].
    unfold seg_text. cbn [fst snd].
    replace (ps1' + span_len rest' - ps1') with (span_len rest') by lia.
    by rewrite take_app_le.
  - apply IH. lia.
Qed.

Lemma is_sep_nth_cstring m : is_sep (nth 0 (cstring m) NUL) = is_sep (nth 0 m NUL).
Proof.
  unfold cstring. destruct m as [|c m]; simpl; [done|].
  by destruct (Ascii.eqb_spec c NUL) as [->|Hc].
Qed.

(** The texts of the segments [pname_scan] links are the segments of the
    path as the specification decomposes it. *)
Lemma scan_segs_texts m : map seg_text (scan_segs m) = spec_segments (cstring m).
Proof.
  unfold scan_segs, spec_segments. cbv zeta. rewrite is_sep_nth_cstring.
  fold (pieces (cstring m)).
  destruct (is_sep (nth 0 m NUL)) eqn:Hsep.
  - cbn [map app]. f_equal.
    rewrite scan_segs_from_texts by lia.
    destruct (cstring m) as [|c l] eqn:Hc.
    + done.
    + rewrite <- is_sep_nth_cstring, Hc in Hsep. simpl in Hsep.
      by rewrite pieces_skip_sep.
  - cbn [app]. rewrite scan_segs_from_texts by lia. by rewrite drop_0.
Qed.

End PnameText.

Module PnameRefine.
Import Pname PnameRepr PnameSpec PnameLists PnameMem PnameScan PnameJoin PnameMkname PnameAppend PnameText.

(** ** The segments of a path hold no separator *)

Lemma spec_split_no_sep l : forall cur,
  no_sep cur -> Forall no_sep (spec_split l cur).
Proof.
  induction l as [|c l IH]; intros cur Hcur; simpl.
  - by constructor.
  - destruct (is_sep c) eqn:Hc.
    + constructor; [done|]. apply IH. constructor.
    + apply IH. apply Forall_app. split; [done|]. by constructor.
Qed.

Lemma spec_split_Forall (P : ascii -> Prop) l : forall cur,
  Forall P l -> Forall P cur -> Forall (Forall P) (spec_split l cur).
Proof.
  induction l as [|c l IH]; intros cur Hl Hcur; simpl.
  - by constructor.
  - apply Forall_cons in Hl as [Hc Hl]. destruct (is_sep c).
    + constructor; [done|]. apply IH; [done|constructor].
    + apply IH; [done|]. apply Forall_app. split; [done|]. by constructor.
Qed.

Lemma Forall_filter_bool {A} (P : A -> Prop) (f : A -> bool) l :
  Forall P l -> Forall P (List.filter f l).
Proof.
  induction 1 as [|x l Hx _ IH]; simpl; [constructor|].
  destruct (f x); [by constructor|done].
Qed.

Lemma Forall_filter_keep {A} (f : A -> bool) l :
  Forall (fun x => f x = true) (List.filter f l).
Proof.
  induction l as [|x l IH]; simpl; [constructor|].
  destruct (f x) eqn:Hx; [by constructor|done].
Qed.

Lemma keep_seg_nonempty t : keep_seg t = true -> t ≠ [].
Proof.
  unfold keep_seg. intros H ->. by rewrite bool_decide_eq_true_2 in H.
Qed.

Lemma pieces_wf l : Forall (fun t => t ≠ [] ∧ no_sep t) (pieces l).
Proof.
  unfold pieces. apply Forall_and. split.
  - eapply Forall_impl; [apply Forall_filter_keep|]. apply keep_seg_nonempty.
  - apply Forall_filter_bool, spec_split_no_sep. constructor.
Qed.

Lemma spec_segments_wf path : Forall text_wf (spec_segments path).
Proof.
  unfold spec_segments. apply Forall_app. split.
  - destruct (is_sep (nth 0 path NUL)); repeat constructor.
  - fold (pieces path). eapply Forall_impl; [apply pieces_wf|].
    intros t Ht. by right.
Qed.

Lemma spec_segments_no_nul path :
  Forall (fun c => c ≠ NUL) path ->
  Forall (Forall (fun c => c ≠ NUL)) (spec_segments path).
Proof.
  intros Hp. unfold spec_segments. apply Forall_app. split.
  - destruct (is_sep (nth 0 path NUL)); repeat constructor. done.
  - apply Forall_filter_bool, spec_split_Forall; [done|constructor].
Qed.

Lemma spec_join_step_Forall (P : text -> Prop) base seg :
  Forall P base -> P seg -> Forall P (spec_join_step base seg).
Proof.
  intros Hb Hs. unfold spec_join_step.
  destruct (bool_decide (seg = root_seg)); [by repeat constructor|].
  destruct (bool_decide (seg = dotdot)).
  - destruct (last base) as [t|]; [|done].
    destruct (bool_decide (t = root_seg)); [done|]. by apply Forall_removelast.
  - apply Forall_app. split; [done|]. by constructor.
Qed.

Lemma spec_join_Forall (P : text -> Prop) addition : forall base,
  Forall P base -> Forall P addition -> Forall P (spec_join base addition).
Proof.
  unfold spec_join.
  induction addition as [|s l IH]; intros base Hb Ha; simpl; [done|].
  apply Forall_cons in Ha as [Hs Ha]. apply IH; [|done].
  by apply spec_join_step_Forall.
Qed.

(** ** The tests of the code on a segment, on its text *)

Lemma nth_take_lt {A} (d : A) l : forall i k, i < k -> nth i (take k l) d = nth i l d.
Proof.
  induction l as [|x l IH]; intros i k Hi.
  - by rewrite take_nil.
  - destruct k as [|k]; [lia|]. destruct i as [|i]; [done|]. simpl. apply IH. lia.
Qed.

Lemma seg_text_nth s i : i < s.2 -> nth i (seg_text s) NUL = nth i s.1 NUL.
Proof. intros Hi. by apply nth_take_lt. Qed.

Lemma text_wf_root t : text_wf t -> is_root_seg t = Ascii.eqb (nth 0 t NUL) slash.
Proof.
  unfold is_root_seg. intros [->|[Hne Hns]]; [done|].
  destruct t as [|c t]; [done|]. apply Forall_cons in Hns as [Hc _]. simpl.
  assert (c ≠ slash) as Hcs.
  { intros ->. done. }
  rewrite bool_decide_eq_false_2 by (intros [= ? ?]; done).
  symmetry. by apply Ascii.eqb_neq.
Qed.

Lemma seg_wf_pos s : seg_wf s -> 0 < s.2.
Proof.
  intros [Hok Hwf]. pose proof (seg_text_length s Hok) as Hlen.
  destruct Hwf as [Hr|[Hne _]].
  - rewrite Hr in Hlen. simpl in Hlen. lia.
  - destruct (seg_text s); [done|]. simpl in Hlen. lia.
Qed.

Lemma is_root_text s : seg_wf s -> is_root s = is_root_seg (seg_text s).
Proof.
  intros Hwf. pose proof (seg_wf_pos s Hwf) as Hpos. destruct Hwf as [Hok Hwf].
  rewrite (text_wf_root _ Hwf), seg_text_nth by done. done.
Qed.

Lemma is_dotdot_text s : seg_wf s -> is_dotdot s = bool_decide (seg_text s = dotdot).
Proof.
  intros [Hok Hwf]. pose proof (seg_text_length s Hok) as Hlen.
  unfold is_dotdot. destruct (Nat.eqb_spec s.2 2) as [H2|H2]; cycle 1.
  { simpl. rewrite bool_decide_eq_false_2; [done|]. intros Heq.
    rewrite Heq in Hlen. simpl in Hlen. lia. }
  rewrite <- !(seg_text_nth s) by lia.
  destruct (seg_text s) as [|a [|b [|c t]]]; simpl in Hlen; try lia.
  cbn [nth andb]. unfold dotdot.
  destruct (Ascii.eqb_spec a dot) as [->|Ha]; cbn [andb].
  - destruct (Ascii.eqb_spec b dot) as [->|Hb].
    + by rewrite bool_decide_eq_true_2.
    + rewrite bool_decide_eq_false_2; [done|]. intros [= ?]. done.
  - rewrite bool_decide_eq_false_2; [done|]. intros [= ? ?]. done.
Qed.

Lemma Forall_map_inv {A B} (P : B -> Prop) (f : A -> B) l :
  Forall P (map f l) -> Forall (fun x => P (f x)) l.
Proof.
  induction l as [|x l IH]; simpl; intros H; [constructor|].
  apply Forall_cons in H as [Hx H]. constructor; [done|]. by apply IH.
Qed.

Lemma scan_segs_wf m : Forall seg_wf (scan_segs m).
Proof.
  apply Forall_and. split; [apply scan_segs_ok|].
  apply Forall_map_inv. rewrite scan_segs_texts. apply spec_segments_wf.
Qed.

(** ** [pname_join] follows the rule of the specification *)

Lemma map_removelast {A B} (f : A -> B) l : map f (removelast l) = removelast (map f l).
Proof.
  induction l as [|x l _] using rev_ind; [done|].
  rewrite map_app. simpl. by rewrite !removelast_last.
Qed.

Lemma last_map {A B} (f : A -> B) l : last (map f l) = f <$> last l.
Proof.
  induction l as [|x l _] using rev_ind; [done|].
  rewrite map_app. simpl. by rewrite !last_snoc.
Qed.

Lemma join_step_text l s :
  Forall seg_wf l -> seg_wf s ->
  map seg_text (join_step l s) = spec_join_step (map seg_text l) (seg_text s).
Proof.
  intros Hl Hs. unfold join_step, spec_join_step.
  rewrite (is_dotdot_text s Hs), (is_root_text s Hs). unfold is_root_seg.
  destruct (bool_decide_reflect (seg_text s = dotdot)) as [Hdd|Hdd].
  - rewrite Hdd. rewrite (bool_decide_eq_false_2 (dotdot = root_seg)) by done.
    rewrite last_map. destruct (last l) as [s1|] eqn:Hlast; [|done]. simpl.
    assert (seg_wf s1) as Hs1.
    { apply last_Some in Hlast as [l' ->]. apply Forall_app in Hl as [_ Hl].
      by apply Forall_cons in Hl as [? _]. }
    rewrite (is_root_text s1 Hs1). unfold is_root_seg.
    repeat case_bool_decide; simpl; try done. apply map_removelast.
  - repeat case_bool_decide; simpl; try done. by rewrite map_app.
Qed.

Lemma join_step_wf l s : Forall seg_wf l -> seg_wf s -> Forall seg_wf (join_step l s).
Proof.
  intros Hl Hs. unfold join_step. destruct (is_dotdot s).
  - destruct (last l) as [s1|]; [|done].
    destruct (negb (is_root s1)); [|done]. by apply Forall_removelast.
  - apply Forall_app. split; [by destruct (is_root s)|]. by constructor.
Qed.

Lemma join_segs_wf l2 : forall l1,
  Forall seg_wf l1 -> Forall seg_wf l2 -> Forall seg_wf (join_segs l1 l2).
Proof.
  unfold join_segs.
  induction l2 as [|s l2 IH]; intros l1 Hl1 Hl2; simpl; [done|].
  apply Forall_cons in Hl2 as [Hs Hl2]. apply IH; [|done]. by apply join_step_wf.
Qed.

Lemma join_segs_text l2 : forall l1,
  Forall seg_wf l1 -> Forall seg_wf l2 ->
  map seg_text (join_segs l1 l2) = spec_join (map seg_text l1) (map seg_text l2).
Proof.
  unfold join_segs, spec_join.
  induction l2 as [|s l2 IH]; intros l1 Hl1 Hl2; simpl; [done|].
  apply Forall_cons in Hl2 as [Hs Hl2].
  rewrite IH; [|by apply join_step_wf|done]. by rewrite join_step_text.
Qed.

(** ** [pname_mkname] on the texts *)

Lemma mkname_segs_text l :
  Forall seg_wf l -> mkname_segs l = serialize (map seg_text l).
Proof.
  intros Hl. unfold mkname_segs, serialize, mkname_body.
  assert (concat (map (fun s => if is_root s then [] else slash :: seg_text s) l)
          = concat (map (fun t => if is_root_seg t then [] else slash :: t) (map seg_text l)))
    as ->; [|done].
  induction Hl as [|s l Hs _ IH]; [done|]. simpl. by rewrite IH, (is_root_text s Hs).
Qed.

Lemma nlen_segs_text l : Forall seg_wf l -> nlen_segs l = text_nlen (map seg_text l).
Proof.
  induction 1 as [|s l [Hs _] _ IH]; [done|]. unfold nlen_segs, text_nlen in *.
  simpl. by rewrite IH, seg_text_length.
Qed.

Lemma mkname_block_text junk l :
  Forall seg_wf l -> mkname_block junk l = text_block junk (map seg_text l).
Proof.
  intros Hl. unfold mkname_block, text_block.
  by rewrite mkname_segs_text, nlen_segs_text.
Qed.

(** ** [pname_append] is the function the specification describes *)

Lemma first_fail_None ok k : forall n,
  (forall i, n <= i < n + k -> ok i = true) -> first_fail ok n k = None.
Proof.
  induction k as [|k IH]; intros n H; simpl; [done|].
  rewrite H by lia. rewrite IH; [done|]. intros i Hi. apply H. lia.
Qed.

Lemma first_fail_Some ok k : forall n n',
  allocs ok n n' false -> n' <= n + k -> first_fail ok n k = Some (n' - 1 - n).
Proof.
  induction k as [|k IH]; intros n n' (Hlt & Hfail & Hok) Hle; [lia|]. simpl.
  destruct (ok n) eqn:Hn.
  - assert (n ≠ n' - 1) as Hne by (intros ->; congruence).
    rewrite (IH (S n) n').
    + simpl. f_equal. lia.
    + simpl. split; [lia|]. split; [done|]. intros i Hi. apply Hok. lia.
    + lia.
  - f_equal. destruct (decide (n = n' - 1)) as [->|Hne]; [lia|].
    rewrite Hok in Hn by lia. done.
Qed.

Lemma seg_texts_nil (l : list seg) : map seg_text l = [] -> l = [].
Proof. by destruct l. Qed.

Lemma pname_append_refines ok junk psPath1 psPath2 h :
  pname_append ok junk psPath1 psPath2 h = append_result ok junk psPath1 psPath2 h.
Proof.
  destruct h as [σ n].
  destruct (pname_append_spec ok junk psPath1 psPath2 σ n) as (n' & b & Hallocs & Hbound & H).
  pose proof (scan_segs_wf psPath1) as Hwf1. pose proof (scan_segs_wf psPath2) as Hwf2.
  pose proof (join_segs_wf _ _ Hwf1 Hwf2) as Hwf.
  pose proof (join_segs_text _ _ Hwf1 Hwf2) as Htext.
  rewrite !scan_segs_texts in Htext.
  assert (append_allocs psPath1 psPath2
          = length (spec_segments (cstring psPath1)) +
            length (spec_segments (cstring psPath2)) + 3) as Hcount.
  { unfold append_allocs. by rewrite <- !scan_segs_texts, !length_map. }
  unfold append_result. cbv zeta. cbn [nalloc nodes]. rewrite <- Hcount.
  destruct b.
  - destruct H as [-> ->]. simpl in Hallocs. destruct Hallocs as [_ Hok].
    rewrite first_fail_None by done. rewrite <- Htext.
    destruct (join_segs (scan_segs psPath1) (scan_segs psPath2)) as [|s l] eqn:Hj; [done|].
    rewrite <- Hj in *. rewrite mkname_block_text by done.
    destruct (map seg_text (join_segs (scan_segs psPath1) (scan_segs psPath2))) eqn:Hm; [|done].
    apply seg_texts_nil in Hm. congruence.
  - rewrite H, (first_fail_Some ok _ n n') by done.
    destruct Hallocs as (Hlt & _). do 3 f_equal. lia.
Qed.

End PnameRefine.

Module PnameFacts.
Import Pname PnameRepr PnameSpec PnameLists PnameMem PnameScan PnameJoin PnameMkname PnameAppend PnameText PnameRefine.

(** ** The string in the block *)

Lemma cstring_no_nul m : Forall (fun c => c ≠ NUL) (cstring m).
Proof. unfold cstring. by apply strlen_take_no_nul. Qed.

Lemma join_paths_no_nul base addition :
  Forall (Forall (fun c => c ≠ NUL)) (spec_join_paths (cstring base) (cstring addition)).
Proof.
  unfold spec_join_paths.
  apply spec_join_Forall; apply spec_segments_no_nul, cstring_no_nul.
Qed.

Lemma join_paths_wf base addition : Forall text_wf (spec_join_paths base addition).
Proof. unfold spec_join_paths. apply spec_join_Forall; apply spec_segments_wf. Qed.

(** The body of the string: nothing without a name, else a ['/'] and
    the names with ['/'] between them. *)
Lemma serialize_body segs :
  concat (map (fun t => if is_root_seg t then [] else slash :: t) segs)
  = match List.filter (fun t => negb (is_root_seg t)) segs with
    | [] => []
    | names => slash :: intercalate names
    end.
Proof.
  induction segs as [|t segs IH]; [done|]. cbn [map concat List.filter].
  destruct (is_root_seg t); cbn [negb app]; [done|]. rewrite IH.
  destruct (List.filter (fun t => negb (is_root_seg t)) segs) as [|n names].
  - by rewrite app_nil_r.
  - done.
Qed.

Lemma serialize_intercalate segs :
  serialize segs = slash :: intercalate (List.filter (fun t => negb (is_root_seg t)) segs).
Proof.
  unfold serialize. rewrite serialize_body.
  by destruct (List.filter (fun t => negb (is_root_seg t)) segs).
Qed.

Lemma intercalate_Forall (P : ascii -> Prop) names :
  P slash -> Forall (Forall P) names -> Forall P (intercalate names).
Proof.
  intros Hs. induction 1 as [|t names Ht _ IH]; [constructor|].
  destruct names as [|n names]; [done|]. cbn [intercalate].
  apply Forall_app. split; [done|]. by constructor.
Qed.

Lemma serialize_Forall (P : ascii -> Prop) segs :
  P slash -> Forall (fun t => is_root_seg t = false -> Forall P t) segs ->
  Forall P (serialize segs).
Proof.
  intros Hs Hsegs. rewrite serialize_intercalate. constructor; [done|].
  apply intercalate_Forall; [done|].
  induction Hsegs as [|t segs Ht _ IH]; [constructor|]. cbn [List.filter].
  destruct (is_root_seg t) eqn:Hr; cbn [negb]; [done|]. constructor; [by apply Ht|done].
Qed.

Lemma cstring_text_block junk segs :
  Forall (Forall (fun c => c ≠ NUL)) segs ->
  cstring (text_block junk segs) = serialize segs.
Proof.
  intros Hsegs. unfold text_block. apply cstring_app_nul.
  apply serialize_Forall; [done|]. eapply Forall_impl; [exact Hsegs|]. done.
Qed.

(** ** When memory is found *)

Lemma pname_append_ok ok junk psPath1 psPath2 h :
  (forall i, ok i = true) ->
  spec_join_paths (cstring psPath1) (cstring psPath2) ≠ [] ->
  pname_append ok junk psPath1 psPath2 h
  = Some (Some (text_block junk (spec_join_paths (cstring psPath1) (cstring psPath2))),
          mkHeap (nodes h)
            (nalloc h + (length (spec_segments (cstring psPath1)) +
                         length (spec_segments (cstring psPath2)) + 3))).
Proof.
  intros Hok Hne. rewrite pname_append_refines. unfold append_result. cbv zeta.
  rewrite first_fail_None by (intros; apply Hok).
  fold (spec_join_paths (cstring psPath1) (cstring psPath2)).
  by destruct (spec_join_paths (cstring psPath1) (cstring psPath2)).
Qed.

Lemma first_fail_all ok k : forall n i,
  first_fail ok n k = None -> i < k -> ok (n + i) = true.
Proof.
  induction k as [|k IH]; intros n i Hff Hi; [lia|]. simpl in Hff.
  destruct (ok n) eqn:Hn; [|done].
  destruct (first_fail ok (S n) k) eqn:Hk; [done|].
  destruct i as [|i]; [by rewrite Nat.add_0_r|].
  replace (n + S i) with (S n + i) by lia. apply IH; [done|lia].
Qed.

(** ** A path that starts at the root keeps its root *)

Lemma spec_join_step_rooted base seg :
  hd [] base = root_seg -> hd [] (spec_join_step base seg) = root_seg.
Proof.
  intros Hb. unfold spec_join_step, text in *.
  case_bool_decide as Hr; [by rewrite Hr|].
  case_bool_decide as Hd.
  - destruct (last base) as [t|] eqn:Hlast; [|done].
    case_bool_decide as Ht; [done|].
    destruct base as [|b0 [|b1 base]]; [done| |].
    + simpl in Hb, Hlast. congruence.
    + done.
  - destruct base; done.
Qed.

Lemma spec_join_rooted addition : forall base,
  hd [] base = root_seg -> hd [] (spec_join base addition) = root_seg.
Proof.
  unfold spec_join. induction addition as [|s l IH]; intros base Hb; simpl; [done|].
  apply IH. by apply spec_join_step_rooted.
Qed.

(** An addition that starts with the root marker: the base is of no
    account. *)
Lemma spec_join_absolute base rest :
  spec_join base (root_seg :: rest) = spec_join [root_seg] rest.
Proof. unfold spec_join. simpl. unfold spec_join_step at 2. by rewrite bool_decide_eq_true_2. Qed.

Lemma spec_segments_absolute path :
  is_sep (nth 0 path NUL) = true ->
  spec_segments path = root_seg :: List.filter keep_seg (spec_split path []).
Proof. intros H. unfold spec_segments. by rewrite H. Qed.

(** ** Either separator *)

Lemma sep_equiv_is_sep c c' : sep_equiv c c' -> is_sep c = is_sep c'.
Proof. intros [->|[-> ->]]; done. Qed.

Lemma sep_equiv_nul c c' : sep_equiv c c' -> Ascii.eqb c NUL = Ascii.eqb c' NUL.
Proof.
  intros [->|[H H']]; [done|].
  destruct (Ascii.eqb_spec c NUL) as [->|_]; [done|].
  destruct (Ascii.eqb_spec c' NUL) as [->|_]; done.
Qed.

Lemma sep_equiv_cstring p p' :
  Forall2 sep_equiv p p' -> Forall2 sep_equiv (cstring p) (cstring p').
Proof.
  unfold cstring. induction 1 as [|c c' p p' Hc _ IH]; [constructor|]. simpl.
  rewrite (sep_equiv_nul c c' Hc). destruct (Ascii.eqb c' NUL); [constructor|].
  simpl. by constructor.
Qed.

Lemma sep_equiv_split p p' :
  Forall2 sep_equiv p p' -> forall cur, spec_split p cur = spec_split p' cur.
Proof.
  induction 1 as [|c c' p p' Hc _ IH]; intros cur; [done|]. simpl.
  rewrite (sep_equiv_is_sep c c' Hc). destruct (is_sep c') eqn:Hs.
  - by rewrite IH.
  - destruct Hc as [->|[_ ?]]; [apply IH|congruence].
Qed.

Lemma sep_equiv_segments p p' :
  Forall2 sep_equiv p p' -> spec_segments p = spec_segments p'.
Proof.
  intros H. unfold spec_segments. rewrite (sep_equiv_split p p') by done.
  f_equal. destruct H as [|c c' p p' Hc _]; [done|]. simpl.
  by rewrite (sep_equiv_is_sep c c' Hc).
Qed.

End PnameFacts.

(* ===================================================================== *)
(** * Part V: the path resolver and its specification *)
(* ===================================================================== *)

Module PnameClaims.
Import Pname PnameRepr PnameSpec PnameLists PnameMem PnameScan PnameJoin PnameMkname PnameAppend PnameText PnameRefine PnameFacts.

(** C1, at the input of the specification: [pname_append] of ["rel/path"]
    and ["../../x"] returns ["/x"], where the serialization of the
    specification, with a ['/'] in front only for a root segment, gives
    ["x"]. *)
Lemma pname_append_relative_counterexample :
  exists buf h',
    pname_append (fun _ => true) (fun _ => NUL) (chars "rel/path") (chars "../../x")
      (mkHeap ∅ 0) = Some (Some buf, h') ∧
    cstring buf = chars "/x" ∧
    spec_serialize (spec_join_paths (chars "rel/path") (chars "../../x")) = chars "x".
Proof. eexists _, _. split; [vm_compute; reflexivity|]. split; reflexivity. Qed.

(** C1, as amended: when every allocation finds memory and a segment is
    left, [pname_append] returns the string made of a ['/'] and of the
    segments that are left, the root marker apart, with ['/'] between
    them; the ['/'] in front is written whether a root segment is present
    or not.  The heap is left as it was. *)
Theorem pname_append_serializes ok junk psPath1 psPath2 h :
  (forall i, ok i = true) ->
  spec_join_paths (cstring psPath1) (cstring psPath2) ≠ [] ->
  exists buf h',
    pname_append ok junk psPath1 psPath2 h = Some (Some buf, h') ∧
    nodes h' = nodes h ∧
    cstring buf
    = slash :: intercalate (List.filter (fun t => negb (is_root_seg t))
                              (spec_join_paths (cstring psPath1) (cstring psPath2))).
Proof.
  intros Hok Hne. eexists _, _. split; [by apply pname_append_ok|]. split; [done|].
  rewrite cstring_text_block by apply join_paths_no_nul.
  apply serialize_intercalate.
Qed.

Lemma pname_append_serializes_witness :
  exists buf h',
    pname_append (fun _ => true) (fun _ => NUL) (chars "rel/path") (chars "../../x")
      (mkHeap ∅ 0) = Some (Some buf, h') ∧
    nodes h' = ∅ ∧ cstring buf = chars "/x".
Proof.
  destruct (pname_append_serializes (fun _ => true) (fun _ => NUL)
              (chars "rel/path") (chars "../../x") (mkHeap ∅ 0))
    as (buf & h' & Hrun & Hh & Hbuf).
  - reflexivity.
  - vm_compute. discriminate.
  - exists buf, h'. split; [exact Hrun|]. split; [exact Hh|].
    rewrite Hbuf. vm_compute. reflexivity.
Defined.

(** C2: [pname_join] takes the segments of the second list in turn, and
    for each [".."] removes the last segment of the first list when there
    is one and it is not the root marker, and drops the [".."] without
    more otherwise; it never fails.  Hence ["/usr/local"] and ["../bin"]
    give ["/usr/bin"], and ["/"] and [".."] give ["/"]. *)
Theorem pname_join_dotdot σ n pn1 sent1 l1 pn2 sent2 l2 :
  is_list σ pn1 sent1 l1 -> is_list σ pn2 sent2 l2 ->
  NoDup (pn1 :: pn2 :: l1.*1 ++ l2.*1) ->
  (NULL ∉ pn1 :: pn2 :: l1.*1 ++ l2.*1) ->
  Forall seg_wf (l1.*2) -> Forall seg_wf (l2.*2) ->
  (exists σ' l1',
    pname_join pn1 pn2 (mkHeap σ n) = Some (tt, mkHeap σ' n) ∧
    is_list σ' pn1 sent1 l1' ∧ is_list σ' pn2 sent2 [] ∧
    map seg_text (l1'.*2) = spec_join (map seg_text (l1.*2)) (map seg_text (l2.*2))) ∧
  (forall base,
    spec_join_step base dotdot
    = match last base with
      | Some t => if bool_decide (t = root_seg) then base else removelast base
      | None => base
      end) ∧
  (forall ok junk h, (forall i, ok i = true) ->
    (exists buf h',
      pname_append ok junk (chars "/usr/local") (chars "../bin") h = Some (Some buf, h') ∧
      cstring buf = chars "/usr/bin") ∧
    (exists buf h',
      pname_append ok junk (chars "/") (chars "..") h = Some (Some buf, h') ∧
      cstring buf = chars "/")).
Proof.
  intros Hl1 Hl2 Hnd Hnull Hwf1 Hwf2. split; [|split].
  - destruct (pname_join_spec σ n pn1 sent1 l1 pn2 sent2 l2)
      as (σ' & l1' & Hrun & Hl1' & Hl2' & Hsegs & _); [done..|].
    exists σ', l1'. split; [done|]. split; [done|]. split; [done|].
    rewrite Hsegs. by apply join_segs_text.
  - intros base. reflexivity.
  - intros ok junk h Hok. split.
    + eexists _, _. split; [apply pname_append_ok; [done|vm_compute; discriminate]|].
      rewrite cstring_text_block by apply join_paths_no_nul. vm_compute. reflexivity.
    + eexists _, _. split; [apply pname_append_ok; [done|vm_compute; discriminate]|].
      rewrite cstring_text_block by apply join_paths_no_nul. vm_compute. reflexivity.
Qed.

Lemma pname_join_dotdot_witness :
  exists σ' l1',
    pname_join 1 4 (mkHeap heap_usr_dotdot 0) = Some (tt, mkHeap σ' 0) ∧
    is_list σ' 1 (chars "/usr", 4) l1' ∧
    map seg_text (l1'.*2) = [root_seg].
Proof.
  destruct (pname_join_dotdot heap_usr_dotdot 0
              1 (chars "/usr", 4) [(2, (rootdir, 1)); (3, (chars "usr", 3))]
              4 (chars "..", 2) [(5, (chars "..", 2))])
    as [(σ' & l1' & Hrun & Hl1' & _ & Htexts) _].
  - exists 2, 3. split; [vm_compute; reflexivity|]. simpl.
    split; [reflexivity|]. exists 3. split; [vm_compute; reflexivity|].
    split; [reflexivity|]. exists 1. split; [vm_compute; reflexivity|]. split; reflexivity.
  - exists 5, 5. split; [vm_compute; reflexivity|]. simpl.
    split; [reflexivity|]. exists 4. split; [vm_compute; reflexivity|]. split; reflexivity.
  - apply (bool_decide_unpack _). vm_compute. exact I.
  - apply (bool_decide_unpack _). vm_compute. exact I.
  - apply Forall_cons; split; [split; [vm_compute; lia|by left]|].
    apply Forall_cons; split; [|constructor].
    split; [vm_compute; lia|]. right. split; [discriminate|]. repeat constructor.
  - apply Forall_cons; split; [|constructor].
    split; [vm_compute; lia|]. right. split; [discriminate|]. repeat constructor.
  - exists σ', l1'. split; [exact Hrun|]. split; [exact Hl1'|]. exact Htexts.
Defined.

(** C3: an addition that begins with a separator replaces the base: when
    memory is found, [pname_append] returns for it the same string with
    any two bases, the one it returns with the empty base.  For the lists
    of segments: a root marker taken off the second list leaves of the
    first list nothing. *)
Theorem pname_append_absolute ok junk base base' addition h h' :
  (forall i, ok i = true) ->
  is_sep (nth 0 addition NUL) = true ->
  (exists buf buf' g g',
    pname_append ok junk base addition h = Some (Some buf, g) ∧
    pname_append ok junk base' addition h' = Some (Some buf', g') ∧
    cstring buf = cstring buf' ∧
    cstring buf = serialize (spec_join [] (spec_segments (cstring addition)))) ∧
  (forall l1 l1' l2, join_segs l1 ((rootdir, 1) :: l2) = join_segs l1' ((rootdir, 1) :: l2)).
Proof.
  intros Hok Hsep. split; [|done].
  assert (forall b, spec_join_paths (cstring b) (cstring addition)
                    = spec_join [] (spec_segments (cstring addition))) as Hindep.
  { intros b. unfold spec_join_paths.
    rewrite (spec_segments_absolute (cstring addition)) by (by rewrite is_sep_nth_cstring).
    by rewrite !spec_join_absolute. }
  assert (spec_join [] (spec_segments (cstring addition)) ≠ []) as Hne.
  { rewrite (spec_segments_absolute (cstring addition)) by (by rewrite is_sep_nth_cstring).
    rewrite spec_join_absolute. intros Hnil.
    pose proof (spec_join_rooted (List.filter keep_seg (spec_split (cstring addition) []))
                  [root_seg] eq_refl) as Hhd.
    rewrite Hnil in Hhd. discriminate. }
  eexists _, _, _, _.
  split; [apply pname_append_ok; [done|by rewrite Hindep]|].
  split; [apply pname_append_ok; [done|by rewrite Hindep]|].
  rewrite !cstring_text_block by apply join_paths_no_nul.
  by rewrite !Hindep.
Qed.

Lemma pname_append_absolute_witness :
  exists buf buf' g g',
    pname_append (fun _ => true) (fun _ => NUL) (chars "/a") (chars "/b") (mkHeap ∅ 0)
    = Some (Some buf, g) ∧
    pname_append (fun _ => true) (fun _ => NUL) (chars "x/y") (chars "/b") (mkHeap ∅ 0)
    = Some (Some buf', g') ∧
    cstring buf = cstring buf' ∧ cstring buf = chars "/b".
Proof.
  destruct (pname_append_absolute (fun _ => true) (fun _ => NUL)
              (chars "/a") (chars "x/y") (chars "/b") (mkHeap ∅ 0) (mkHeap ∅ 0))
    as [(buf & buf' & g & g' & H1 & H2 & H3 & H4) _].
  - reflexivity.
  - reflexivity.
  - exists buf, buf', g, g'. split; [exact H1|]. split; [exact H2|]. split; [exact H3|].
    rewrite H4. vm_compute. reflexivity.
Defined.

(** C8: if one of the calls of [pfs_malloc] that [pname_append] makes
    finds no memory, be it for a sentinel, for the node of a segment or
    for the string, [pname_append] returns NULL, no string, and the heap
    holds the nodes it held before: every node made on the way is freed. *)
Theorem pname_append_out_of_memory ok junk psPath1 psPath2 h i :
  i < append_allocs psPath1 psPath2 ->
  ok (nalloc h + i) = false ->
  exists n', pname_append ok junk psPath1 psPath2 h = Some (None, mkHeap (nodes h) n').
Proof.
  intros Hi Hfail. rewrite pname_append_refines. unfold append_result. cbv zeta.
  unfold append_allocs in Hi.
  rewrite <- !scan_segs_texts, !length_map.
  destruct (first_fail ok (nalloc h)
              (length (scan_segs psPath1) + length (scan_segs psPath2) + 3)) as [j|] eqn:Hff.
  - by eexists.
  - exfalso. assert (ok (nalloc h + i) = true) as Hok; [|congruence].
    eapply first_fail_all; [exact Hff|lia].
Qed.

Lemma pname_append_out_of_memory_witness :
  exists n',
    pname_append (fun k => negb (k =? 2)) (fun _ => NUL) (chars "a") (chars "b/c")
      (mkHeap ∅ 0) = Some (None, mkHeap ∅ n').
Proof.
  apply (pname_append_out_of_memory (fun k => negb (k =? 2)) (fun _ => NUL)
           (chars "a") (chars "b/c") (mkHeap ∅ 0) 2).
  - vm_compute. lia.
  - reflexivity.
Defined.

(** C9: [pname_append] makes no difference between ['\'] and ['/'] in its
    inputs: two pairs of paths that differ only in which separator stands
    where give the same result; and there is no ['\'] in a string it
    returns. *)
Theorem pname_append_backslash ok junk p1 p1' p2 p2' h :
  Forall2 sep_equiv p1 p1' -> Forall2 sep_equiv p2 p2' ->
  pname_append ok junk p1 p2 h = pname_append ok junk p1' p2' h ∧
  (forall buf h', pname_append ok junk p1 p2 h = Some (Some buf, h') ->
                  Forall (fun c => c ≠ backslash) (cstring buf)).
Proof.
  intros H1 H2. split.
  - rewrite !pname_append_refines. unfold append_result.
    by rewrite (sep_equiv_segments (cstring p1) (cstring p1')),
               (sep_equiv_segments (cstring p2) (cstring p2'))
      by (by apply sep_equiv_cstring).
  - intros buf h'. rewrite pname_append_refines. unfold append_result. cbv zeta.
    destruct (first_fail _ _ _); [done|].
    fold (spec_join_paths (cstring p1) (cstring p2)).
    pose proof (join_paths_no_nul p1 p2) as Hnul.
    pose proof (join_paths_wf (cstring p1) (cstring p2)) as Hwf.
    destruct (spec_join_paths (cstring p1) (cstring p2)) as [|t ts] eqn:Hsegs; [done|].
    intros [= <- _]. rewrite cstring_text_block by done.
    apply serialize_Forall; [done|].
    eapply Forall_impl; [exact Hwf|]. intros s [->|[_ Hs]] Hr; [done|].
    eapply Forall_impl; [exact Hs|]. intros c Hc ->. done.
Qed.

Lemma pname_append_backslash_witness :
  pname_append (fun _ => true) (fun _ => NUL) (chars "\a\\b") (chars "c\d") (mkHeap ∅ 0)
  = pname_append (fun _ => true) (fun _ => NUL) (chars "/a/\b") (chars "c/d") (mkHeap ∅ 0) ∧
  exists buf h',
    pname_append (fun _ => true) (fun _ => NUL) (chars "\a\\b") (chars "c\d") (mkHeap ∅ 0)
    = Some (Some buf, h') ∧
    cstring buf = chars "/a/b/c/d" ∧ Forall (fun c => c ≠ backslash) (cstring buf).
Proof.
  destruct (pname_append_backslash (fun _ => true) (fun _ => NUL)
              (chars "\a\\b") (chars "/a/\b") (chars "c\d") (chars "c/d") (mkHeap ∅ 0))
    as [Heq Hno].
  - repeat (constructor; [first [by left | by right]|]). constructor.
  - repeat (constructor; [first [by left | by right]|]). constructor.
  - split; [exact Heq|].
    eexists _, _. split; [vm_compute; reflexivity|]. split; [reflexivity|].
    eapply Hno. vm_compute. reflexivity.
Defined.

End PnameClaims.

(* ===================================================================== *)
(** * Part VI: the receive buffer of the UART device *)
(* ===================================================================== *)

Module UartRing.
Import Uart UartSpec.
Local Open Scope Z_scope.

(** ** Indices *)

Lemma land_mask x : Z.land (wrap_int x) (NDATA - 1) = x mod NDATA.
Proof.
  change (NDATA - 1) with (Z.ones 9). rewrite Z.land_ones by lia.
  unfold wrap_int, NDATA. change (2 ^ 9) with 512.
  Z.to_euclidean_division_equations. lia.
Qed.

Lemma pending_range d : 0 <= pending d < NDATA.
Proof. unfold pending, NDATA. apply Z.mod_pos_bound. lia. Qed.

Lemma pending_full d : dev_wf d -> (full d <-> pending d = NDATA - 1).
Proof.
  intros (Hr & Hw & _). unfold full, pending, NDATA in *.
  Z.to_euclidean_division_equations. lia.
Qed.

Lemma wend_full d :
  dev_wf d -> (wptr d = (rptr d - 1) mod NDATA <-> pending d = NDATA - 1).
Proof.
  intros (Hr & Hw & _). unfold pending, NDATA in *.
  Z.to_euclidean_division_equations. lia.
Qed.

Lemma pending_push d :
  dev_wf d -> pending d ≠ NDATA - 1 ->
  ((wptr d + 1) mod NDATA - rptr d) mod NDATA = pending d + 1.
Proof.
  intros (Hr & Hw & _). unfold pending, NDATA in *.
  Z.to_euclidean_division_equations. lia.
Qed.

Lemma pending_pop d :
  dev_wf d -> pending d ≠ 0 ->
  (wptr d - (rptr d + 1) mod NDATA) mod NDATA = pending d - 1.
Proof.
  intros (Hr & Hw & _). unfold pending, NDATA in *.
  Z.to_euclidean_division_equations. lia.
Qed.

Lemma pending_empty d : dev_wf d -> (rptr d = wptr d <-> pending d = 0).
Proof.
  intros (Hr & Hw & _). unfold pending, NDATA in *.
  Z.to_euclidean_division_equations. lia.
Qed.

(** ** The bytes in the buffer *)

Lemma ring_from_snoc a n : forall i,
  0 <= i < NDATA ->
  ring_from a i (S n)
  = ring_from a i n ++ [nth (Z.to_nat ((i + Z.of_nat n) mod NDATA)) a 0].
Proof.
  induction n as [|n IH]; intros i Hi.
  - simpl. by rewrite Z.add_0_r, Z.mod_small.
  - change (ring_from a i (S (S n)))
      with (nth (Z.to_nat i) a 0 :: ring_from a ((i + 1) mod NDATA) (S n)).
    rewrite IH by (apply Z.mod_pos_bound; unfold NDATA; lia).
    cbn [ring_from app].
    assert (((i + 1) mod NDATA + Z.of_nat n) mod NDATA = (i + Z.of_nat (S n)) mod NDATA)
      as ->; [|done].
    rewrite Zplus_mod_idemp_l. f_equal. lia.
Qed.

Lemma ring_from_insert a w c n : forall i,
  0 <= i < NDATA -> 0 <= w < NDATA -> (n <= Z.to_nat ((w - i) mod NDATA))%nat ->
  ring_from (<[Z.to_nat w := c]> a) i n = ring_from a i n.
Proof.
  induction n as [|n IH]; intros i Hi Hw Hn; [done|]. cbn [ring_from].
  assert (i ≠ w) as Hne.
  { intros ->. rewrite Z.sub_diag in Hn. change (Z.to_nat (0 mod NDATA)) with 0%nat in Hn. lia. }
  f_equal.
  - rewrite !nth_lookup, list_lookup_insert_ne; [done|lia].
  - apply IH; [apply Z.mod_pos_bound; unfold NDATA; lia|done|].
    revert Hn. unfold NDATA in *. Z.to_euclidean_division_equations. lia.
Qed.

Lemma queued_length d : length (queued d) = Z.to_nat (pending d).
Proof.
  unfold queued. generalize (Z.to_nat (pending d)) (rptr d).
  intros n. induction n as [|n IH]; intros i; simpl; [done|]. by rewrite IH.
Qed.

Lemma dev_empty_wf m : dev_wf (dev_empty m).
Proof.
  unfold dev_wf, dev_empty. cbn [rptr wptr data]. rewrite repeat_length.
  unfold NDATA. lia.
Qed.

Section Flags.

Variable IOC_MD_ECHO : Z.

(** ** [uart_input] *)

(** The loop takes bytes off the FIFO until the buffer holds
    [NDATA - 1] bytes or the FIFO is empty. *)
Lemma input_loop_spec wend rx : forall d tx,
  dev_wf d -> wend = (rptr d - 1) mod NDATA ->
  let k := Nat.min (length rx) (Z.to_nat (NDATA - 1 - pending d)) in
  exists d',
    input_loop IOC_MD_ECHO wend rx d tx
    = Some (d', drop k rx,
            tx ++ (if has_flag (mode d) IOC_MD_ECHO then take k rx else [])) ∧
    dev_wf d' ∧ rptr d' = rptr d ∧ mode d' = mode d ∧ tout d' = tout d ∧
    uart d' = uart d ∧
    pending d' = pending d + Z.of_nat k ∧
    queued d' = queued d ++ take k rx.
Proof.
  induction rx as [|c rx IH]; intros d tx Hwf Hwend; cbv zeta.
  - exists d. simpl. rewrite Z.add_0_r, !app_nil_r.
    by destruct (has_flag _ _); rewrite ?app_nil_r.
  - pose proof (pending_range d) as Hp. pose proof (wend_full d Hwf) as Hfull.
    cbn [input_loop]. destruct (Z.eqb_spec (wptr d) wend) as [Heq|Hne].
    + assert (pending d = NDATA - 1) as Hpd by (apply Hfull; congruence).
      rewrite Hpd, Z.sub_diag, Nat.min_0_r. exists d.
      rewrite drop_0, take_0, Z.add_0_r, !app_nil_r.
      by destruct (has_flag _ _); rewrite ?app_nil_r.
    + assert (pending d ≠ NDATA - 1) as Hpd by (intros H; apply Hne; subst wend; by apply Hfull).
      destruct Hwf as (Hr & Hw & Hlen).
      unfold array_set. rewrite Hlen, Z2Nat.id by (unfold NDATA; lia).
      replace ((0 <=? wptr d) && (wptr d <? NDATA)) with true by lia.
      set (d1 := set_wptr _ _).
      assert (dev_wf d1) as Hwf1.
      { subst d1. unfold dev_wf. cbn [rptr wptr data set_wptr set_data].
        rewrite land_mask, length_insert. split; [done|]. split; [|done].
        apply Z.mod_pos_bound. unfold NDATA. lia. }
      assert (pending d1 = pending d + 1) as Hp1.
      { subst d1. unfold pending at 1. cbn [rptr wptr data set_wptr set_data].
        rewrite land_mask. by apply pending_push. }
      destruct (IH d1 (if has_flag (mode d) IOC_MD_ECHO then tx ++ [c] else tx) Hwf1)
        as (d' & Hrun & Hwf' & Hr' & Hm' & Ht' & Hu' & Hp' & Hq'); [done|].
      exists d'. rewrite Hrun. clear Hrun IH.
      replace (Z.to_nat (NDATA - 1 - pending d))
        with (S (Z.to_nat (NDATA - 1 - pending d1))) by lia.
      cbn [length]. rewrite <- Nat.succ_min_distr. cbn [drop take].
      split.
      { f_equal. f_equal. change (mode d1) with (mode d).
        destruct (has_flag (mode d) IOC_MD_ECHO); [by rewrite <- app_assoc|done]. }
      split; [done|]. split; [done|]. split; [done|]. split; [done|]. split; [done|].
      split; [lia|].
      rewrite Hq'. rewrite (cons_middle c), app_assoc. f_equal.
      unfold queued. rewrite Hp1. change (rptr d1) with (rptr d).
      replace (Z.to_nat (pending d + 1)) with (S (Z.to_nat (pending d))) by lia.
      rewrite ring_from_snoc by done.
      subst d1. cbn [data set_wptr set_data]. f_equal.
      * apply ring_from_insert; [done..|]. unfold pending. lia.
      * f_equal. rewrite Z2Nat.id by lia.
        replace ((rptr d + pending d) mod NDATA) with (wptr d).
        2:{ unfold pending, NDATA in *. Z.to_euclidean_division_equations. lia. }
        rewrite nth_lookup, list_lookup_insert_eq; [done|lia].
Qed.

(** [uart_input] queues the bytes of the FIFO behind those in the buffer,
    as many as go in; the read index stays, and the RTS and the receive
    interrupt are switched off when the buffer is full afterwards. *)
Lemma uart_input_spec d h :
  dev_wf d ->
  let k := Nat.min (length (rx_fifo h)) (Z.to_nat (NDATA - 1 - pending d)) in
  exists d' h',
    uart_input IOC_MD_ECHO d h = Some (d', h') ∧
    dev_wf d' ∧ rptr d' = rptr d ∧ mode d' = mode d ∧ tout d' = tout d ∧
    uart d' = uart d ∧
    pending d' = pending d + Z.of_nat k ∧
    queued d' = queued d ++ take k (rx_fifo h) ∧
    rx_fifo h' = drop k (rx_fifo h) ∧
    tx_out h' = tx_out h ++ (if has_flag (mode d) IOC_MD_ECHO then take k (rx_fifo h) else []) ∧
    hw_calls h' = hw_calls h ∧
    cr_rts h' = (if pending d' =? NDATA - 1 then false else cr_rts h) ∧
    imsc_rxim h' = (if pending d' =? NDATA - 1 then false else imsc_rxim h).
Proof.
  intros Hwf k. unfold uart_input. cbv zeta. rewrite land_mask.
  destruct (input_loop_spec ((rptr d - 1) mod NDATA) (rx_fifo h) d (tx_out h) Hwf eq_refl)
    as (d' & Hrun & Hwf' & Hr' & Hm' & Ht' & Hu' & Hp' & Hq').
  rewrite Hrun. fold k in Hp', Hq' |- *.
  pose proof (wend_full d' Hwf') as Hfull. rewrite Hr' in Hfull.
  destruct (Z.eqb_spec (wptr d') ((rptr d - 1) mod NDATA)) as [Heq|Hne].
  - eexists _, _. split; [done|].
    destruct (Z.eqb_spec (pending d') (NDATA - 1)) as [Hpd|Hpd]; [|by apply Hfull in Heq].
    repeat (split; [done|]). done.
  - eexists _, _. split; [done|].
    destruct (Z.eqb_spec (pending d') (NDATA - 1)) as [Hpd|Hpd]; [by apply Hfull in Hpd|].
    repeat (split; [done|]). done.
Qed.

End Flags.

End UartRing.

Module UartRead.
Import Uart UartSpec UartRing.
Local Open Scope Z_scope.

(** ** Taking a byte out of the buffer *)

Lemma queued_cons d c rest :
  dev_wf d -> queued d = c :: rest ->
  rptr d ≠ wptr d ∧
  array_get (data d) (rptr d) = Some c ∧
  let d' := set_rptr (Z.land (wrap_int (rptr d + 1)) (NDATA - 1)) d in
  dev_wf d' ∧ queued d' = rest ∧ pending d' = pending d - 1.
Proof.
  intros Hwf Hq. pose proof (pending_range d) as Hp.
  assert (pending d ≠ 0) as Hne.
  { intros H0. unfold queued in Hq. by rewrite H0 in Hq. }
  split; [by rewrite (pending_empty d Hwf)|].
  unfold queued in Hq.
  replace (Z.to_nat (pending d)) with (S (Z.to_nat (pending d - 1))) in Hq by lia.
  cbn [ring_from] in Hq. injection Hq as Hc Hrest.
  destruct Hwf as (Hr & Hw & Hlen). split.
  { unfold array_get. replace (0 <=? rptr d) with true by lia.
    rewrite nth_lookup in Hc.
    destruct (data d !! Z.to_nat (rptr d)) as [x|] eqn:Hx; [simpl in Hc; by subst|].
    apply lookup_ge_None in Hx. unfold NDATA in *. lia. }
  cbv zeta. rewrite land_mask.
  assert (pending (set_rptr ((rptr d + 1) mod NDATA) d) = pending d - 1) as Hp'.
  { unfold pending at 1. cbn [rptr wptr set_rptr]. by apply pending_pop. }
  split; [|split; [|done]].
  - unfold dev_wf. cbn [rptr wptr data set_rptr]. split; [|done].
    apply Z.mod_pos_bound. unfold NDATA. lia.
  - unfold queued. by rewrite Hp'.
Qed.

Lemma wait_loop_ready ECHO tend script d h t :
  rptr d ≠ wptr d ->
  wait_loop ECHO tend script d h t = Some (d, h, mkEnv t script).
Proof.
  intros Hne. destruct script as [|[dt arrived] script]; simpl;
    by destruct (Z.eqb_spec (rptr d) (wptr d)).
Qed.

Lemma array_set_ok (a : list Z) i c :
  0 <= i < Z.of_nat (length a) ->
  array_set a i c = Some (<[Z.to_nat i := c]> a).
Proof. intros Hi. unfold array_set. by replace ((0 <=? i) && (i <? Z.of_nat (length a))) with true by lia. Qed.

Lemma insert_take_drop_Z (a : list Z) (i : nat) c :
  (i < length a)%nat -> <[i := c]> a = take i a ++ c :: drop (S i) a.
Proof. intros Hi. by apply insert_take_drop. Qed.

Lemma queued_nil d : dev_wf d -> queued d = [] -> rptr d = wptr d.
Proof.
  intros Hwf Hq. apply pending_empty; [done|].
  pose proof (queued_length d) as Hlen. rewrite Hq in Hlen. simpl in Hlen.
  pose proof (pending_range d). lia.
Qed.

Lemma pending_queued_nil d : pending d = 0 -> queued d = [].
Proof. intros H. apply length_zero_iff_nil. by rewrite queued_length, H. Qed.

Lemma queued_ready d :
  dev_wf d -> rptr d ≠ wptr d -> exists c q, queued d = c :: q.
Proof.
  intros Hwf Hne. destruct (queued d) as [|c q] eqn:Hq; [|by exists c, q].
  by apply queued_nil in Hq.
Qed.

(** ** The looks at the clock *)

Lemma elapsed_cons dt arr sc : elapsed ((dt, arr) :: sc) = dt + elapsed sc.
Proof. reflexivity. Qed.

Lemma arrivals_cons dt (arr : list Z) sc : arrivals ((dt, arr) :: sc) = arr ++ arrivals sc.
Proof. reflexivity. Qed.

Lemma arrivals_app sc1 sc2 : arrivals (sc1 ++ sc2) = arrivals sc1 ++ arrivals sc2.
Proof. unfold arrivals. by rewrite fmap_app, concat_app. Qed.

Lemma elapsed_app sc1 sc2 : elapsed (sc1 ++ sc2) = elapsed sc1 + elapsed sc2.
Proof.
  induction sc1 as [|[dt arr] sc1 IH]; [done|].
  rewrite <- app_comm_cons, !elapsed_cons, IH. lia.
Qed.

Lemma elapsed_nonneg sc : Forall (fun p : Z * list Z => 0 <= p.1) sc -> 0 <= elapsed sc.
Proof.
  induction 1 as [|[dt arr] sc Hp _ IH]; [done|]. rewrite elapsed_cons. simpl in Hp. lia.
Qed.

Section Flags.

Variables IOC_MD_ECHO IOC_MD_NBLOCK IOC_MD_ANY IOC_MD_CHR IOC_MD_TLF : Z.

(** A turn of the loop that has to wait goes on, after the wait, as a
    turn that finds a byte at once. *)
Lemma read_loop_wait tend n d h e nread buffer d1 h1 e1 :
  rptr d = wptr d ->
  has_flag (mode d) IOC_MD_NBLOCK ||
  has_flag (mode d) IOC_MD_ANY && (0 <? nread) = false ->
  wait_loop IOC_MD_ECHO tend (script e) d h (now e) = Some (d1, h1, e1) ->
  rptr d1 ≠ wptr d1 ->
  read_loop IOC_MD_ECHO IOC_MD_NBLOCK IOC_MD_ANY IOC_MD_CHR IOC_MD_TLF
    (S n) tend d h e nread buffer
  = read_loop IOC_MD_ECHO IOC_MD_NBLOCK IOC_MD_ANY IOC_MD_CHR IOC_MD_TLF
      (S n) tend d1 h1 e1 nread buffer.
Proof.
  intros Heq Hgo Hwait Hne. cbn [Uart.read_loop].
  rewrite Hgo, andb_false_r, Hwait.
  destruct (Z.eqb_spec (rptr d1) (wptr d1)) as [|_]; [done|]. cbn [andb].
  rewrite wait_loop_ready by done. destruct e1 as [t1 sc1]. cbn [now script].
  by destruct (Z.eqb_spec (rptr d1) (wptr d1)).
Qed.

(** A wait loses no byte: what is queued and in the FIFO after it is
    what was there before it and what has arrived in its looks at the
    clock. *)
Lemma wait_loop_conserves tend : forall sc d h t d1 h1 e1,
  dev_wf d ->
  wait_loop IOC_MD_ECHO tend sc d h t = Some (d1, h1, e1) ->
  dev_wf d1 ∧ mode d1 = mode d ∧
  exists used,
    sc = used ++ script e1 ∧
    now e1 = t + elapsed used ∧
    queued d1 ++ rx_fifo h1 = queued d ++ rx_fifo h ++ arrivals used.
Proof.
  induction sc as [|[dt arrived] sc IH]; intros d h t d1 h1 e1 Hwf Hrun;
    cbn [wait_loop] in Hrun; destruct (rptr d =? wptr d); cbn [negb] in Hrun.
  - done.
  - injection Hrun as <- <- <-. split; [done|]. split; [done|]. exists [].
    cbn [app script now]. split; [done|]. split; [unfold elapsed; simpl; lia|].
    unfold arrivals. simpl. by rewrite app_nil_r.
  - destruct (time_reached tend (t + dt)).
    + injection Hrun as <- <- <-. split; [done|]. split; [done|].
      exists [(dt, arrived)]. cbn [app script now rx_fifo set_rx_tx].
      split; [done|]. split; [rewrite elapsed_cons; unfold elapsed; simpl; lia|].
      rewrite arrivals_cons. unfold arrivals. simpl. by rewrite app_nil_r.
    + destruct (uart_input_spec IOC_MD_ECHO d
                  (set_rx_tx (rx_fifo h ++ arrived) (tx_out h) h) Hwf)
        as (d' & h' & Hin & Hwf' & _ & Hm' & _ & _ & _ & Hq' & Hrx' & _).
      rewrite Hin in Hrun. apply IH in Hrun as (Hwf1 & Hm1 & used & Hsc & Hnow & Hq); [|done].
      split; [done|]. split; [by rewrite Hm1|]. exists ((dt, arrived) :: used).
      split; [by rewrite Hsc at 1|]. split; [rewrite elapsed_cons; lia|].
      rewrite Hq, Hq', Hrx', arrivals_cons. cbn [rx_fifo set_rx_tx].
      rewrite <- !app_assoc. f_equal.
      rewrite (app_assoc (take _ _)), take_drop. by rewrite <- app_assoc.
  - injection Hrun as <- <- <-. split; [done|]. split; [done|]. exists [].
    cbn [app script now]. split; [done|]. split; [unfold elapsed; simpl; lia|].
    unfold arrivals. simpl. by rewrite app_nil_r.
Qed.

(** A wait with nothing queued and nothing in the FIFO, when bytes are
    to come before the time is out: it ends at the first look at the
    clock that finds some, with those that go into the buffer queued. *)
Lemma wait_loop_arrival tend rest : forall sc d h t,
  dev_wf d -> pending d = 0 -> rx_fifo h = [] ->
  arrivals sc ≠ [] ->
  Forall (fun p : Z * list Z => 0 <= p.1) sc ->
  (forall te, tend = Some te -> t + elapsed sc < te) ->
  exists d1 h1 used sc1,
    wait_loop IOC_MD_ECHO tend (sc ++ rest) d h t
    = Some (d1, h1, mkEnv (t + elapsed used) (sc1 ++ rest)) ∧
    sc = used ++ sc1 ∧
    dev_wf d1 ∧ mode d1 = mode d ∧ queued d1 ≠ [] ∧
    queued d1 ++ rx_fifo h1 ++ arrivals sc1 = arrivals sc ∧
    (rx_fifo h1 = [] ∨ length (queued d1) = 511%nat) ∧
    Forall (fun p : Z * list Z => 0 <= p.1) sc1.
Proof.
  induction sc as [|[dt arrived] sc IH]; intros d h t Hwf Hp Hrx Harr Hpos Htime; [done|].
  apply Forall_cons in Hpos as [Hdt Hpos]. cbn [fst] in Hdt.
  pose proof (elapsed_nonneg sc Hpos) as Hel.
  rewrite elapsed_cons in Htime. rewrite arrivals_cons in Harr.
  rewrite <- app_comm_cons. cbn [wait_loop].
  rewrite (proj2 (pending_empty d Hwf) Hp), Z.eqb_refl. cbn [negb].
  assert (time_reached tend (t + dt) = false) as ->.
  { destruct tend as [te|]; [|done]. cbn [time_reached].
    specialize (Htime te eq_refl). lia. }
  set (h0 := set_rx_tx (rx_fifo h ++ arrived) (tx_out h) h).
  destruct (uart_input_spec IOC_MD_ECHO d h0 Hwf)
    as (d' & h' & Hin & Hwf' & _ & Hm' & _ & _ & Hp' & Hq' & Hrx' & _).
  assert (rx_fifo h0 = arrived) as Hrx0 by (subst h0; cbn [rx_fifo set_rx_tx]; by rewrite Hrx).
  rewrite Hrx0, Hp in Hp', Hq', Hrx'. rewrite (pending_queued_nil d Hp), app_nil_l in Hq'.
  rewrite Hin. destruct arrived as [|a arrived].
  - cbn [length Nat.min take drop] in Hp', Hq', Hrx'.
    destruct (IH d' h' (t + dt)) as (d1 & h1 & used & sc1 & Hrun & Hsc & Hrest);
      [done|lia|done|done|done|intros te Hte; specialize (Htime te Hte); lia|].
    exists d1, h1, ((dt, []) :: used), sc1. rewrite Hrun, elapsed_cons.
    split; [do 3 f_equal; lia|]. split; [by rewrite Hsc|].
    destruct Hrest as (? & Hm1 & ? & ? & ? & ?). rewrite Hm1, arrivals_cons.
    by repeat (split; [done|]).
  - assert (queued d' ≠ []) as Hne.
    { rewrite Hq'. unfold NDATA. cbn [length].
      replace (Z.to_nat (512 - 1 - 0)) with (S 510) by lia.
      by rewrite <- Nat.succ_min_distr. }
    exists d', h', [(dt, a :: arrived)], sc.
    rewrite wait_loop_ready.
    2:{ intros Heq. apply pending_empty in Heq; [|done]. apply Hne.
        by apply pending_queued_nil. }
    split; [do 3 f_equal; rewrite elapsed_cons; unfold elapsed; simpl; lia|].
    split; [done|]. split; [done|]. split; [done|]. split; [done|].
    split; [rewrite Hq', Hrx', arrivals_cons, !app_assoc; f_equal; apply take_drop|].
    split; [|done].
    destruct (decide (length (a :: arrived) <= 511)%nat) as [Hle|Hgt].
    + left. rewrite Hrx'. apply drop_ge. unfold NDATA. lia.
    + right. rewrite Hq', length_take. unfold NDATA. lia.
Qed.

(** ** Reading up to the terminator *)

Lemma read_loop_terminator tend h e pre : forall n d nread buffer post,
  dev_wf d -> has_flag (mode d) IOC_MD_CHR = true ->
  queued d = pre ++ Z.land (mode d) 255 :: post ->
  Forall (fun c => c ≠ Z.land (mode d) 255) pre ->
  (length pre < n)%nat ->
  0 <= nread -> nread + Z.of_nat (length pre) < Z.of_nat (length buffer) ->
  exists d',
    read_loop IOC_MD_ECHO IOC_MD_NBLOCK IOC_MD_ANY IOC_MD_CHR IOC_MD_TLF
      n tend d h e nread buffer
    = Some (mkRead (nread + Z.of_nat (length pre) + 1)
              (take (Z.to_nat nread) buffer ++ pre ++
               stored_terminator IOC_MD_TLF (mode d) ::
               drop (Z.to_nat nread + length pre + 1) buffer)
              d' h e) ∧
    dev_wf d' ∧ queued d' = post ∧ wptr d' = wptr d ∧ mode d' = mode d ∧
    tout d' = tout d ∧ uart d' = uart d ∧ data d' = data d ∧
    rptr d' = (rptr d + Z.of_nat (length pre) + 1) mod NDATA.
Proof.
  induction pre as [|c pre IH]; intros n d nread buffer post Hwf Hchr Hq Hpre Hn Hnr Hbuf.
  - destruct n as [|n]; [simpl in Hn; lia|]. cbn [length app] in Hq, Hbuf.
    destruct (queued_cons d _ _ Hwf Hq) as (Hne & Hget & Hwf' & Hq' & _).
    cbn [Uart.read_loop].
    destruct (Z.eqb_spec (rptr d) (wptr d)) as [|_]; [done|]. cbn [andb].
    rewrite wait_loop_ready by done. destruct e as [t sc]. cbn [now script].
    destruct (Z.eqb_spec (rptr d) (wptr d)) as [|_]; [done|].
    rewrite Hget, array_set_ok by lia.
    set (d' := set_rptr _ d) in *. change (mode d') with (mode d).
    rewrite Hchr, Z.eqb_refl. cbn [andb].
    exists d'. split.
    { f_equal. cbn [length app]. rewrite Z.add_0_r, Nat.add_0_r.
      f_equal. unfold stored_terminator.
      rewrite Nat.add_1_r, <- insert_take_drop by lia.
      destruct (has_flag (mode d) IOC_MD_TLF); [|done].
      by rewrite list_insert_insert_eq. }
    split; [done|]. split; [done|]. split; [done|]. split; [done|].
    split; [done|]. split; [done|]. split; [done|].
    subst d'. cbn [rptr set_rptr length]. rewrite land_mask. f_equal. lia.
  - destruct n as [|n]; [simpl in Hn; lia|]. cbn [length app] in Hq, Hbuf, Hn.
    apply Forall_cons in Hpre as [Hc Hpre].
    destruct (queued_cons d _ _ Hwf Hq) as (Hne & Hget & Hwf' & Hq' & _).
    cbn [Uart.read_loop].
    destruct (Z.eqb_spec (rptr d) (wptr d)) as [|_]; [done|]. cbn [andb].
    rewrite wait_loop_ready by done. destruct e as [t sc]. cbn [now script].
    destruct (Z.eqb_spec (rptr d) (wptr d)) as [|_]; [done|].
    rewrite Hget, array_set_ok by lia.
    set (d1 := set_rptr _ d) in *. change (mode d1) with (mode d).
    destruct (Z.eqb_spec c (Z.land (mode d) 255)) as [|_]; [done|].
    rewrite andb_false_r.
    destruct (IH n d1 (nread + 1) (<[Z.to_nat nread := c]> buffer) post)
      as (d' & Hrun & Hwfd' & Hqd' & Hw' & Hm' & Ht' & Hu' & Hd' & Hr'); try done; try lia.
    { rewrite length_insert. lia. }
    exists d'. split.
    { rewrite Hrun. f_equal. cbn [length]. f_equal; [lia|].
      change (mode d1) with (mode d).
      replace (Z.to_nat (nread + 1)) with (S (Z.to_nat nread)) by lia.
      rewrite (take_S_r _ _ c) by (apply list_lookup_insert_eq; lia).
      rewrite take_insert_ge by lia. rewrite drop_insert_lt by lia.
      rewrite <- app_assoc. cbn [app]. repeat (f_equal; try lia). }
    split; [done|]. split; [done|]. split; [done|]. split; [done|].
    split; [done|]. split; [done|]. split; [done|].
    rewrite Hr'. subst d1. cbn [rptr set_rptr length]. rewrite land_mask.
    unfold NDATA. Z.to_euclidean_division_equations. lia.
Qed.

(** ** Reading while bytes arrive *)

(** Whatever comes, the loop of [uart_read] loses no byte: the bytes
    [consumed] that it takes out of the buffer are the oldest of those
    that were queued, in the FIFO, or arrived while it waited.  It
    counts them and stores them in the buffer of the caller, the
    terminator as the mode word says, and the terminator is never
    followed by another byte. *)
Lemma read_loop_consumes tend : forall n d h e nread buffer r,
  dev_wf d -> 0 <= nread <= Z.of_nat (length buffer) ->
  read_loop IOC_MD_ECHO IOC_MD_NBLOCK IOC_MD_ANY IOC_MD_CHR IOC_MD_TLF
    n tend d h e nread buffer = Some r ->
  exists consumed used,
    script e = used ++ script (rd_env r) ∧
    now (rd_env r) = now e + elapsed used ∧
    queued d ++ rx_fifo h ++ arrivals used
    = consumed ++ queued (rd_dev r) ++ rx_fifo (rd_hw r) ∧
    (length consumed <= n)%nat ∧
    rd_nread r = nread + Z.of_nat (length consumed) ∧
    rd_nread r <= Z.of_nat (length buffer) ∧
    rd_buffer r
    = take (Z.to_nat nread) buffer ++
      map (stored IOC_MD_CHR IOC_MD_TLF (mode d)) consumed ++
      drop (Z.to_nat nread + length consumed) buffer ∧
    dev_wf (rd_dev r) ∧ mode (rd_dev r) = mode d ∧
    (has_flag (mode d) IOC_MD_CHR = true ->
     Forall (fun c => c ≠ Z.land (mode d) 255) (removelast consumed)).
Proof.
  assert (forall (d d1 : pfs_dev_uart) h h1 e e1 used nread (buffer : list Z) n,
            0 <= nread <= Z.of_nat (length buffer) ->
            dev_wf d1 -> mode d1 = mode d ->
            script e = used ++ script e1 -> now e1 = now e + elapsed used ->
            queued d1 ++ rx_fifo h1 = queued d ++ rx_fifo h ++ arrivals used ->
            let r := mkRead nread buffer d1 h1 e1 in
            exists consumed used,
              script e = used ++ script (rd_env r) ∧
              now (rd_env r) = now e + elapsed used ∧
              queued d ++ rx_fifo h ++ arrivals used
              = consumed ++ queued (rd_dev r) ++ rx_fifo (rd_hw r) ∧
              (length consumed <= n)%nat ∧
              rd_nread r = nread + Z.of_nat (length consumed) ∧
              rd_nread r <= Z.of_nat (length buffer) ∧
              rd_buffer r
              = take (Z.to_nat nread) buffer ++
                map (stored IOC_MD_CHR IOC_MD_TLF (mode d)) consumed ++
                drop (Z.to_nat nread + length consumed) buffer ∧
              dev_wf (rd_dev r) ∧ mode (rd_dev r) = mode d ∧
              (has_flag (mode d) IOC_MD_CHR = true ->
               Forall (fun c => c ≠ Z.land (mode d) 255) (removelast consumed))) as Hstop.
  { intros d d1 h h1 e e1 used nread buffer n Hnr Hwf1 Hm1 Hsc Hnow Hq.
    exists [], used. cbn [rd_nread rd_buffer rd_dev rd_hw rd_env length map app removelast].
    rewrite Nat.add_0_r, Z.add_0_r, take_drop.
    split; [done|]. split; [done|]. split; [by rewrite Hq|].
    split; [lia|]. split; [done|]. split; [lia|]. by repeat (split; [done|]). }
  assert (forall d h e, script e = [] ++ script e ∧ now e = now e + elapsed [] ∧
            queued d ++ rx_fifo h = queued d ++ rx_fifo h ++ arrivals []) as Hrefl.
  { intros d h e. split; [done|]. split; [unfold elapsed; simpl; lia|].
    unfold arrivals. simpl. by rewrite app_nil_r. }
  induction n as [|n IH]; intros d h e nread buffer r Hwf Hnr Hrun.
  - cbn [Uart.read_loop] in Hrun. injection Hrun as <-.
    destruct (Hrefl d h e) as (? & ? & ?). by eapply Hstop.
  - cbn [Uart.read_loop] in Hrun.
    destruct ((rptr d =? wptr d) &&
              (has_flag (mode d) IOC_MD_NBLOCK ||
               has_flag (mode d) IOC_MD_ANY && (0 <? nread))).
    { injection Hrun as <-. destruct (Hrefl d h e) as (? & ? & ?). by eapply Hstop. }
    destruct (wait_loop IOC_MD_ECHO tend (script e) d h (now e)) as [[[d1 h1] e1]|] eqn:Hwait;
      [|done].
    destruct (wait_loop_conserves _ _ _ _ _ _ _ _ Hwf Hwait)
      as (Hwf1 & Hm1 & used1 & Hsc1 & Hnow1 & Hq1).
    destruct (Z.eqb_spec (rptr d1) (wptr d1)) as [|Hne].
    { injection Hrun as <-. by eapply Hstop. }
    destruct (queued_ready d1 Hwf1 Hne) as (c & q & Hqd1).
    destruct (queued_cons d1 _ _ Hwf1 Hqd1) as (_ & Hget & Hwf2 & Hq2 & _).
    rewrite Hget in Hrun.
    destruct (array_set buffer nread c) as [buffer1|] eqn:Hset; [|done].
    unfold array_set in Hset.
    destruct ((0 <=? nread) && (nread <? Z.of_nat (length buffer))) eqn:Hin; [|done].
    injection Hset as <-.
    set (d2 := set_rptr _ d1) in *. change (mode d2) with (mode d1) in Hrun.
    rewrite Hm1 in Hrun.
    assert (queued d ++ rx_fifo h ++ arrivals used1 = c :: queued d2 ++ rx_fifo h1) as Hq.
    { by rewrite <- Hq1, Hqd1, Hq2. }
    destruct (has_flag (mode d) IOC_MD_CHR && (c =? Z.land (mode d) 255)) eqn:Hterm.
    + injection Hrun as <-. exists [c], used1.
      cbn [rd_nread rd_buffer rd_dev rd_hw rd_env length map app removelast].
      split; [done|]. split; [done|]. split; [done|]. split; [lia|].
      split; [lia|]. split; [lia|]. split; [|split; [done|split; [done|by intros _]]].
      unfold stored. rewrite Hterm. unfold stored_terminator.
      rewrite Nat.add_1_r, <- insert_take_drop by lia.
      destruct (has_flag (mode d) IOC_MD_TLF); [by rewrite list_insert_insert_eq|].
      apply andb_true_iff in Hterm as [_ Hc]. apply Z.eqb_eq in Hc. by rewrite Hc.
    + apply IH in Hrun; [|done|rewrite length_insert; lia].
      destruct Hrun as (consumed & used & Hsc & Hnow & Hcons & Hlen & Hn & Hle & Hbuf &
                        Hwfr & Hmr & Hno).
      rewrite length_insert in Hle. change (mode d2) with (mode d1) in Hbuf, Hmr, Hno.
      rewrite Hm1 in Hbuf, Hmr, Hno.
      exists (c :: consumed), (used1 ++ used). cbn [length map].
      split; [by rewrite <- app_assoc, <- Hsc|].
      split; [rewrite elapsed_app; lia|].
      split.
      { transitivity ((queued d ++ rx_fifo h ++ arrivals used1) ++ arrivals used).
        { by rewrite arrivals_app, <- !app_assoc. }
        rewrite Hq, <- !app_comm_cons. f_equal. by rewrite <- Hcons, <- app_assoc. }
      split; [lia|]. split; [lia|]. split; [done|]. split; [|split; [done|split; [done|]]].
      * rewrite Hbuf.
        replace (Z.to_nat (nread + 1)) with (S (Z.to_nat nread)) by lia.
        rewrite (take_S_r _ _ c) by (apply list_lookup_insert_eq; lia).
        rewrite take_insert_ge by lia. rewrite drop_insert_lt by lia.
        rewrite <- app_assoc. cbn [app]. unfold stored at 2. rewrite Hterm.
        by replace (S (Z.to_nat nread) + length consumed)%nat
          with (Z.to_nat nread + S (length consumed))%nat by lia.
      * intros Hchr. specialize (Hno Hchr). destruct consumed as [|c' consumed]; [done|].
        cbn [removelast] in *. constructor; [|done].
        rewrite Hchr in Hterm. cbn [andb] in Hterm. by apply Z.eqb_neq.
Qed.

(** A turn of the loop when the next byte is queued, in the FIFO with
    nothing queued before it, or yet to come: after the wait, if there
    is one, the byte is the oldest queued. *)
Lemma read_loop_fetch tend rest n d h e sc nread buffer k c s :
  dev_wf d ->
  has_flag (mode d) IOC_MD_NBLOCK = false -> has_flag (mode d) IOC_MD_ANY = false ->
  script e = sc ++ rest ->
  queued d ++ rx_fifo h ++ arrivals sc = c :: s ->
  (rx_fifo h = [] ∨ (k < length (queued d))%nat) -> (k < 511)%nat ->
  Forall (fun p : Z * list Z => 0 <= p.1) sc ->
  (forall te, tend = Some te -> now e + elapsed sc < te) ->
  exists d1 h1 e1 used sc1 q,
    read_loop IOC_MD_ECHO IOC_MD_NBLOCK IOC_MD_ANY IOC_MD_CHR IOC_MD_TLF
      (S n) tend d h e nread buffer
    = read_loop IOC_MD_ECHO IOC_MD_NBLOCK IOC_MD_ANY IOC_MD_CHR IOC_MD_TLF
        (S n) tend d1 h1 e1 nread buffer ∧
    dev_wf d1 ∧ mode d1 = mode d ∧
    sc = used ++ sc1 ∧ script e1 = sc1 ++ rest ∧ now e1 = now e + elapsed used ∧
    queued d1 = c :: q ∧ q ++ rx_fifo h1 ++ arrivals sc1 = s ∧
    (rx_fifo h1 = [] ∨ (k < length (queued d1))%nat) ∧
    Forall (fun p : Z * list Z => 0 <= p.1) sc1.
Proof.
  intros Hwf Hnb Hany Hsc Hstream Hfifo Hk Hpos Htime.
  destruct (queued d) as [|c' q] eqn:Hq.
  - destruct Hfifo as [Hrx|Hlt]; [|simpl in Hlt; lia].
    rewrite Hrx, !app_nil_l in Hstream.
    assert (pending d = 0) as Hp.
    { pose proof (queued_length d) as Hl. rewrite Hq in Hl. simpl in Hl.
      pose proof (pending_range d). lia. }
    destruct (wait_loop_arrival tend rest sc d h (now e))
      as (d1 & h1 & used & sc1 & Hwait & Hused & Hwf1 & Hm1 & Hne & Hq1 & Hfull & Hpos1);
      [done|done|done|by rewrite Hstream|done|done|].
    destruct (queued d1) as [|c1 q1] eqn:Hqd1; [done|].
    rewrite Hstream in Hq1. rewrite <- app_comm_cons in Hq1. injection Hq1 as -> Hq1.
    exists d1, h1, (mkEnv (now e + elapsed used) (sc1 ++ rest)), used, sc1, q1.
    split.
    { apply read_loop_wait; [by apply pending_empty|by rewrite Hnb, Hany|by rewrite Hsc|].
      intros Heq. apply pending_empty in Heq; [|done].
      apply pending_queued_nil in Heq. by rewrite Hqd1 in Heq. }
    split; [done|]. split; [done|]. split; [done|]. split; [done|]. split; [done|].
    split; [done|]. split; [done|]. split; [|done].
    destruct Hfull as [?|Hfull]; [by left|right; rewrite ?Hqd1 in *; lia].
  - rewrite <- app_comm_cons in Hstream. injection Hstream as -> Hstream.
    exists d, h, e, [], sc, q. rewrite Hq.
    split; [done|]. split; [done|]. split; [done|]. split; [done|]. split; [done|].
    split; [unfold elapsed; simpl; lia|]. by repeat (split; [done|]).
Qed.

(** Reading up to a terminator that is queued, in the FIFO, or arrives
    before the time is out: the loop waits as often as it has to, and
    stops at the terminator. *)
Lemma read_loop_arrives tend rest pre : forall n d h e sc nread buffer post,
  dev_wf d -> has_flag (mode d) IOC_MD_CHR = true ->
  has_flag (mode d) IOC_MD_NBLOCK = false -> has_flag (mode d) IOC_MD_ANY = false ->
  script e = sc ++ rest ->
  queued d ++ rx_fifo h ++ arrivals sc = pre ++ Z.land (mode d) 255 :: post ->
  (rx_fifo h = [] ∨ (length pre < length (queued d))%nat) -> (length pre < 511)%nat ->
  Forall (fun c => c ≠ Z.land (mode d) 255) pre ->
  Forall (fun p : Z * list Z => 0 <= p.1) sc ->
  (forall te, tend = Some te -> now e + elapsed sc < te) ->
  (length pre < n)%nat ->
  0 <= nread -> nread + Z.of_nat (length pre) < Z.of_nat (length buffer) ->
  exists r used sc1,
    read_loop IOC_MD_ECHO IOC_MD_NBLOCK IOC_MD_ANY IOC_MD_CHR IOC_MD_TLF
      n tend d h e nread buffer = Some r ∧
    rd_nread r = nread + Z.of_nat (length pre) + 1 ∧
    rd_buffer r
    = take (Z.to_nat nread) buffer ++ pre ++
      stored_terminator IOC_MD_TLF (mode d) ::
      drop (Z.to_nat nread + length pre + 1) buffer ∧
    dev_wf (rd_dev r) ∧ mode (rd_dev r) = mode d ∧
    sc = used ++ sc1 ∧ script (rd_env r) = sc1 ++ rest ∧
    now (rd_env r) = now e + elapsed used ∧
    queued (rd_dev r) ++ rx_fifo (rd_hw r) ++ arrivals sc1 = post.
Proof.
  induction pre as [|p pre IH];
    intros n d h e sc nread buffer post Hwf Hchr Hnb Hany Hsc Hstream Hfifo Hk Hpre Hpos
      Htime Hn Hnr Hbuf;
    (destruct n as [|n]; [simpl in Hn; lia|]); cbn [length app] in *;
    destruct (read_loop_fetch tend rest n d h e sc nread buffer _ _ _
                Hwf Hnb Hany Hsc Hstream Hfifo Hk Hpos Htime)
      as (d1 & h1 & e1 & used & sc1 & q & -> & Hwf1 & Hm1 & Hused & Hsc1 & Hnow1 & Hq1 &
          Hs1 & Hfifo1 & Hpos1);
    destruct (queued_cons d1 _ _ Hwf1 Hq1) as (Hne & Hget & Hwf2 & Hq2 & _);
    cbn [Uart.read_loop];
    (destruct (Z.eqb_spec (rptr d1) (wptr d1)) as [|_]; [done|]); cbn [andb];
    rewrite wait_loop_ready by done; destruct e1 as [t1 s1]; cbn [now script] in *;
    (destruct (Z.eqb_spec (rptr d1) (wptr d1)) as [|_]; [done|]);
    rewrite Hget, array_set_ok by lia;
    set (d2 := set_rptr _ d1) in *; change (mode d2) with (mode d1); rewrite Hm1.
  - rewrite Hchr, Z.eqb_refl. cbn [andb]. eexists _, used, sc1. split; [done|].
    cbn [rd_nread rd_buffer rd_dev rd_hw rd_env now script].
    split; [lia|]. split.
    { unfold stored_terminator. rewrite Nat.add_0_r, Nat.add_1_r, <- insert_take_drop by lia.
      destruct (has_flag (mode d) IOC_MD_TLF); [|done].
      by rewrite list_insert_insert_eq. }
    split; [done|]. split; [done|]. split; [done|]. split; [done|]. split; [done|].
    by rewrite Hq2.
  - apply Forall_cons in Hpre as [Hp Hpre].
    destruct (Z.eqb_spec p (Z.land (mode d) 255)) as [|_]; [done|].
    rewrite andb_false_r.
    destruct (IH n d2 h1 (mkEnv t1 s1) sc1 (nread + 1) (<[Z.to_nat nread := p]> buffer) post)
      as (r & used' & sc2 & Hrun & Hn' & Hb' & Hwfr & Hmr & Hused' & Hscr & Hnowr & Hqr);
      try done; try lia.
    { change (mode d2) with (mode d1). by rewrite Hm1. }
    { change (mode d2) with (mode d1). by rewrite Hm1. }
    { change (mode d2) with (mode d1). by rewrite Hm1. }
    { change (mode d2) with (mode d1). by rewrite Hm1, Hq2. }
    { rewrite Hq2. destruct Hfifo1 as [?|Hlt]; [by left|]. right.
      rewrite Hq1 in Hlt. cbn [length] in Hlt. lia. }
    { change (mode d2) with (mode d1). by rewrite Hm1. }
    { cbn [now]. intros te Hte. specialize (Htime te Hte).
      rewrite Hused, elapsed_app in Htime. lia. }
    { rewrite length_insert. lia. }
    exists r, (used ++ used'), sc2. split; [done|].
    change (mode d2) with (mode d1) in Hb', Hmr. rewrite Hm1 in Hb', Hmr.
    split; [lia|]. split.
    { rewrite Hb'.
      replace (Z.to_nat (nread + 1)) with (S (Z.to_nat nread)) by lia.
      rewrite (take_S_r _ _ p) by (apply list_lookup_insert_eq; lia).
      rewrite take_insert_ge by lia. rewrite drop_insert_lt by lia.
      rewrite <- app_assoc. cbn [app]. repeat (f_equal; try lia). }
    split; [done|]. split; [done|].
    split; [by rewrite Hused, Hused', app_assoc|]. split; [done|].
    split; [cbn [now] in Hnowr; rewrite elapsed_app; lia|]. done.
Qed.

End Flags.

End UartRead.

(* ===================================================================== *)
(** * Part VII: opening and creating the UART device *)
(* ===================================================================== *)

Module UartOpen.
Import Uart UartSpec.
Local Open Scope Z_scope.

Lemma gpio_pins_app l1 l2 : gpio_pins (l1 ++ l2) = gpio_pins l1 ++ gpio_pins l2.
Proof. unfold gpio_pins. apply omap_app. Qed.

(** One pin: checked, then given to [gpio_set_function]. *)
Lemma claim_pin_spec uid func pin w :
  exists w',
    claim_pin uid func pin w
    = Some (negb (0 <=? pin) || uart_pin_valid uid func pin, w') ∧
    uart_dev w' = uart_dev w ∧ devs w' = devs w ∧ uarts w' = uarts w ∧
    nmalloc w' = nmalloc w ∧
    sdk w' = sdk w ++
             (if (0 <=? pin) && uart_pin_valid uid func pin
              then [call_gpio_set_function pin] else []).
Proof.
  unfold claim_pin, bind, call, ret.
  destruct (0 <=? pin), (uart_pin_valid uid func pin); simpl;
    eexists; (split; [reflexivity|]); simpl; by rewrite ?app_nil_r.
Qed.

Lemma claim_cts_spec uid pin w :
  exists w',
    claim_cts uid pin w
    = Some (negb (0 <=? pin) || uart_pin_valid uid 2 pin, w') ∧
    uart_dev w' = uart_dev w ∧ devs w' = devs w ∧
    nmalloc w' = nmalloc w ∧
    (forall i, i ≠ uid -> uarts w' i = uarts w i) ∧
    cr_rts (uarts w' uid) = cr_rts (uarts w uid) ∧
    imsc_rxim (uarts w' uid) = imsc_rxim (uarts w uid) ∧
    rx_fifo (uarts w' uid) = rx_fifo (uarts w uid) ∧
    tx_out (uarts w' uid) = tx_out (uarts w uid) ∧
    sdk w' = sdk w ++
             (if (0 <=? pin) && uart_pin_valid uid 2 pin
              then [call_gpio_set_function pin] else []).
Proof.
  unfold claim_cts, bind, call, on_uart, ret, fun_set.
  destruct (0 <=? pin), (uart_pin_valid uid 2 pin); simpl;
    eexists; (split; [reflexivity|]); simpl; rewrite ?app_nil_r, ?Z.eqb_refl;
    repeat (split; [done|]); try done;
    (split; [|done]); intros i Hi; by destruct (Z.eqb_spec i uid).
Qed.

Lemma claim_cts_calls uid pin w :
  exists w' more,
    claim_cts uid pin w
    = Some (negb (0 <=? pin) || uart_pin_valid uid 2 pin, w') ∧
    hw_calls (uarts w' uid) = hw_calls (uarts w uid) ++ more.
Proof.
  unfold claim_cts, bind, call, on_uart, ret, fun_set.
  destruct (0 <=? pin), (uart_pin_valid uid 2 pin); simpl;
    eexists _, _; (split; [reflexivity|]); simpl; rewrite ?Z.eqb_refl; simpl;
    try reflexivity; by rewrite app_nil_r.
Qed.

Lemma valid_prefix_requested uid sc :
  (valid_prefix uid (requested sc)).*2
  = pin_claimed uid 0 (sc_tx sc) ++
    if pin_go uid 0 (sc_tx sc) then
      pin_claimed uid 1 (sc_rx sc) ++
      if pin_go uid 1 (sc_rx sc) then
        pin_claimed uid 2 (sc_cts sc) ++
        if pin_go uid 2 (sc_cts sc) then pin_claimed uid 3 (sc_rts sc) else []
      else []
    else [].
Proof.
  unfold requested, pin_claimed, pin_go. cbn [List.filter fst snd].
  destruct (0 <=? sc_tx sc), (0 <=? sc_rx sc), (0 <=? sc_cts sc), (0 <=? sc_rts sc);
    cbn [valid_prefix fst snd negb orb andb];
    destruct (uart_pin_valid uid 0 (sc_tx sc)), (uart_pin_valid uid 1 (sc_rx sc)),
             (uart_pin_valid uid 2 (sc_cts sc)), (uart_pin_valid uid 3 (sc_rts sc));
    reflexivity.
Qed.

Lemma all_valid_requested uid sc :
  all_valid uid sc
  = pin_go uid 0 (sc_tx sc) && pin_go uid 1 (sc_rx sc) &&
    pin_go uid 2 (sc_cts sc) && pin_go uid 3 (sc_rts sc).
Proof.
  unfold all_valid, requested, pin_go. cbn [List.filter fst snd].
  destruct (0 <=? sc_tx sc), (0 <=? sc_rx sc), (0 <=? sc_cts sc), (0 <=? sc_rts sc);
    cbn [forallb fst snd negb orb andb];
    destruct (uart_pin_valid uid 0 (sc_tx sc)), (uart_pin_valid uid 1 (sc_rx sc)),
             (uart_pin_valid uid 2 (sc_cts sc)), (uart_pin_valid uid 3 (sc_rts sc));
    reflexivity.
Qed.

Lemma gpio_pins_claimed uid func pin :
  gpio_pins (if (0 <=? pin) && uart_pin_valid uid func pin
             then [call_gpio_set_function pin] else [])
  = pin_claimed uid func pin.
Proof. unfold pin_claimed. by destruct ((0 <=? pin) && uart_pin_valid uid func pin). Qed.

Section Sdk.

Variables UART_PARITY_NONE UART_PARITY_EVEN UART_PARITY_ODD : Z.
Variable uart_init : Z -> Z -> Z.
Variable uopen_end : bool.

(** [uopen] on a device that is there: what it returns, which pins it
    gives to [gpio_set_function], and what it leaves of the state. *)
Lemma uopen_spec uid sc w pud :
  0 <= uid < NUM_UARTS ->
  devs w !! uart_dev w uid = Some pud ->
  exists r w' new,
    uopen UART_PARITY_NONE UART_PARITY_EVEN UART_PARITY_ODD uart_init uopen_end uid sc w
    = Some (r, w') ∧
    uart_dev w' = uart_dev w ∧
    devs w' = <[uart_dev w uid := set_wptr 0 (set_rptr 0 (set_uart uid pud))]> (devs w) ∧
    nmalloc w' = nmalloc w ∧
    (forall i, i ≠ uid -> uarts w' i = uarts w i) ∧
    sdk w' = sdk w ++ new ∧
    gpio_pins new
    = (if uart_init uid (sc_baud sc) =? 0 then []
       else (valid_prefix uid (requested sc)).*2) ∧
    r = negb (uart_init uid (sc_baud sc) =? 0) && all_valid uid sc &&
        format_valid UART_PARITY_NONE UART_PARITY_EVEN UART_PARITY_ODD sc && uopen_end.
Proof.
  intros Huid Hpud. rewrite valid_prefix_requested, all_valid_requested.
  unfold uopen, get_uart_dev.
  replace ((0 <=? uid) && (uid <? NUM_UARTS)) with true by (unfold NUM_UARTS in *; lia).
  unfold bind at 1. unfold bind at 1. unfold load_dev at 1. rewrite Hpud.
  unfold bind at 1. unfold store_dev at 1. rewrite Hpud.
  unfold bind at 1. unfold on_uart at 1.
  set (w1 := mkWorld _ _ _ _ _).
  assert (forall i, i ≠ uid -> uarts w1 i = uarts w i) as Hu1.
  { intros i Hi. subst w1. cbn [uarts]. unfold fun_set. by destruct (Z.eqb_spec i uid). }
  destruct (uart_init uid (sc_baud sc) =? 0) eqn:Hinit.
  { exists false, w1, []. rewrite app_nil_r. by repeat (split; [done|]). }
  cbn [negb andb].
  destruct (claim_pin_spec uid 0 (sc_tx sc) w1) as (w2 & Hrun2 & Hd2 & Hv2 & Hu2 & Hn2 & Hs2).
  unfold bind at 1. rewrite Hrun2. fold (pin_go uid 0 (sc_tx sc)).
  destruct (pin_go uid 0 (sc_tx sc)); cbn [negb andb].
  2:{ exists false, w2. eexists. split; [done|]. rewrite Hd2, Hv2, Hn2, Hu2, Hs2.
      repeat (split; [done|]). by rewrite gpio_pins_claimed, app_nil_r. }
  destruct (claim_pin_spec uid 1 (sc_rx sc) w2) as (w3 & Hrun3 & Hd3 & Hv3 & Hu3 & Hn3 & Hs3).
  unfold bind at 1. rewrite Hrun3. fold (pin_go uid 1 (sc_rx sc)).
  destruct (pin_go uid 1 (sc_rx sc)); cbn [negb andb].
  2:{ exists false, w3. eexists. split; [done|].
      rewrite Hd3, Hv3, Hn3, Hu3, Hs3, Hd2, Hv2, Hn2, Hu2, Hs2, <- app_assoc.
      repeat (split; [done|]). by rewrite gpio_pins_app, !gpio_pins_claimed, app_nil_r. }
  destruct (claim_cts_spec uid (sc_cts sc) w3)
    as (w4 & Hrun4 & Hd4 & Hv4 & Hn4 & Hu4 & _ & _ & _ & _ & Hs4).
  unfold bind at 1. rewrite Hrun4. fold (pin_go uid 2 (sc_cts sc)).
  destruct (pin_go uid 2 (sc_cts sc)); cbn [negb andb].
  2:{ exists false, w4. eexists. split; [done|].
      rewrite Hd4, Hv4, Hn4, Hs4, Hd3, Hv3, Hn3, Hs3, Hd2, Hv2, Hn2, Hs2, <- !app_assoc.
      repeat (split; [done|]).
      split; [intros i Hi; by rewrite Hu4, Hu3, Hu2, Hu1|].
      split; [done|]. by rewrite !gpio_pins_app, !gpio_pins_claimed, ?app_nil_r. }
  destruct (claim_pin_spec uid 3 (sc_rts sc) w4) as (w5 & Hrun5 & Hd5 & Hv5 & Hu5 & Hn5 & Hs5).
  unfold bind at 1. rewrite Hrun5. fold (pin_go uid 3 (sc_rts sc)).
  destruct (pin_go uid 3 (sc_rts sc)); cbn [negb andb].
  2:{ exists false, w5. eexists. split; [done|].
      rewrite Hd5, Hv5, Hn5, Hs5, Hd4, Hv4, Hn4, Hs4, Hd3, Hv3, Hn3, Hs3,
        Hd2, Hv2, Hn2, Hs2, <- !app_assoc.
      repeat (split; [done|]).
      split; [intros i Hi; by rewrite Hu5, Hu4, Hu3, Hu2, Hu1|].
      split; [done|]. by rewrite !gpio_pins_app, !gpio_pins_claimed, ?app_nil_r. }
  unfold bind, call, on_uart, ret. cbn [uart_dev devs uarts sdk nmalloc].
  unfold format_valid.
  destruct (Z.ltb_spec (sc_data sc) 5), (Z.ltb_spec 8 (sc_data sc)); cbn [orb];
    try (replace (5 <=? sc_data sc) with false by lia);
    try (replace (5 <=? sc_data sc) with true by lia);
    try (replace (sc_data sc <=? 8) with false by lia);
    try (replace (sc_data sc <=? 8) with true by lia); cbn [andb].
  1-3: (eexists false, _, _; split; [done|]; cbn [uart_dev devs uarts sdk nmalloc];
      rewrite Hd5, Hv5, Hn5, Hs5, Hd4, Hv4, Hn4, Hs4, Hd3, Hv3, Hn3, Hs3,
        Hd2, Hv2, Hn2, Hs2, <- !app_assoc;
      repeat (split; [done|]);
      (split; [intros i Hi; unfold fun_set; destruct (Z.eqb_spec i uid); [done|];
               by rewrite Hu5, Hu4, Hu3, Hu2, Hu1|]);
      (split; [done|]); split; [|done];
      rewrite !gpio_pins_app, !gpio_pins_claimed; cbn; by rewrite ?app_nil_r).
  destruct (Z.ltb_spec (sc_stop sc) 1), (Z.ltb_spec 2 (sc_stop sc)); cbn [orb];
    try (replace (1 <=? sc_stop sc) with false by lia);
    try (replace (1 <=? sc_stop sc) with true by lia);
    try (replace (sc_stop sc <=? 2) with false by lia);
    try (replace (sc_stop sc <=? 2) with true by lia); cbn [andb].
  1-3: (eexists false, _, _; split; [done|]; cbn [uart_dev devs uarts sdk nmalloc];
      rewrite Hd5, Hv5, Hn5, Hs5, Hd4, Hv4, Hn4, Hs4, Hd3, Hv3, Hn3, Hs3,
        Hd2, Hv2, Hn2, Hs2, <- !app_assoc;
      repeat (split; [done|]);
      (split; [intros i Hi; unfold fun_set; destruct (Z.eqb_spec i uid); [done|];
               by rewrite Hu5, Hu4, Hu3, Hu2, Hu1|]);
      (split; [done|]); split; [|done];
      rewrite !gpio_pins_app, !gpio_pins_claimed; cbn; by rewrite ?app_nil_r).
  destruct (sc_parity sc =? UART_PARITY_NONE), (sc_parity sc =? UART_PARITY_EVEN),
    (sc_parity sc =? UART_PARITY_ODD); cbn [negb andb orb];
    (eexists _, _, _; split; [done|]; cbn [uart_dev devs uarts sdk nmalloc];
      rewrite Hd5, Hv5, Hn5, Hs5, Hd4, Hv4, Hn4, Hs4, Hd3, Hv3, Hn3, Hs3,
        Hd2, Hv2, Hn2, Hs2, <- !app_assoc;
      repeat (split; [done|]);
      (split; [intros i Hi; unfold fun_set; destruct (Z.eqb_spec i uid); [done|];
               by rewrite Hu5, Hu4, Hu3, Hu2, Hu1|]);
      (split; [done|]); split; [|done];
      rewrite !gpio_pins_app, !gpio_pins_claimed; cbn; by rewrite ?app_nil_r).
Qed.

(** [uopen] on a device that is there begins with [uart_init] on its
    UART, at the baud rate asked for. *)
Lemma uopen_init_call uid sc w pud :
  0 <= uid < NUM_UARTS ->
  devs w !! uart_dev w uid = Some pud ->
  exists r w' more,
    uopen UART_PARITY_NONE UART_PARITY_EVEN UART_PARITY_ODD uart_init uopen_end uid sc w
    = Some (r, w') ∧
    hw_calls (uarts w' uid)
    = hw_calls (uarts w uid) ++ call_uart_init (sc_baud sc) :: more.
Proof.
  intros Huid Hpud. unfold uopen, get_uart_dev.
  replace ((0 <=? uid) && (uid <? NUM_UARTS)) with true by (unfold NUM_UARTS in *; lia).
  unfold bind at 1. unfold bind at 1. unfold load_dev at 1. rewrite Hpud.
  unfold bind at 1. unfold store_dev at 1. rewrite Hpud.
  unfold bind at 1. unfold on_uart at 1.
  set (w1 := mkWorld _ _ _ _ _).
  assert (hw_calls (uarts w1 uid)
          = hw_calls (uarts w uid) ++ [call_uart_init (sc_baud sc)]) as H1.
  { subst w1. cbn [uarts devs]. unfold fun_set. by rewrite Z.eqb_refl. }
  match goal with
  | |- exists r w' more, ?m w1 = _ ∧ _ =>
      enough (exists r w' more,
                m w1 = Some (r, w') ∧
                hw_calls (uarts w' uid) = hw_calls (uarts w1 uid) ++ more)
        as (r & w' & more & Hrun & Hc)
  end.
  { exists r, w', more. split; [done|]. by rewrite Hc, H1, <- app_assoc. }
  clearbody w1. clear H1.
  destruct (uart_init uid (sc_baud sc) =? 0).
  { exists false, w1, []. by rewrite app_nil_r. }
  destruct (claim_pin_spec uid 0 (sc_tx sc) w1) as (w2 & Hrun2 & _ & _ & Hu2 & _).
  unfold bind at 1. rewrite Hrun2.
  destruct (negb (0 <=? sc_tx sc) || uart_pin_valid uid 0 (sc_tx sc)); cbn [negb].
  2:{ exists false, w2, []. by rewrite Hu2, app_nil_r. }
  destruct (claim_pin_spec uid 1 (sc_rx sc) w2) as (w3 & Hrun3 & _ & _ & Hu3 & _).
  unfold bind at 1. rewrite Hrun3.
  destruct (negb (0 <=? sc_rx sc) || uart_pin_valid uid 1 (sc_rx sc)); cbn [negb].
  2:{ exists false, w3, []. by rewrite Hu3, Hu2, app_nil_r. }
  destruct (claim_cts_calls uid (sc_cts sc) w3) as (w4 & more4 & Hrun4 & Hc4).
  unfold bind at 1. rewrite Hrun4.
  destruct (negb (0 <=? sc_cts sc) || uart_pin_valid uid 2 (sc_cts sc)); cbn [negb].
  2:{ exists false, w4, more4. by rewrite Hc4, Hu3, Hu2. }
  destruct (claim_pin_spec uid 3 (sc_rts sc) w4) as (w5 & Hrun5 & _ & _ & Hu5 & _).
  unfold bind at 1. rewrite Hrun5.
  destruct (negb (0 <=? sc_rts sc) || uart_pin_valid uid 3 (sc_rts sc)); cbn [negb].
  2:{ exists false, w5, more4. by rewrite Hu5, Hc4, Hu3, Hu2. }
  unfold bind, call, on_uart, ret. cbn [uart_dev devs uarts sdk nmalloc].
  assert (hw_calls (uarts w5 uid) = hw_calls (uarts w1 uid) ++ more4) as Hc5.
  { by rewrite Hu5, Hc4, Hu3, Hu2. }
  destruct ((sc_data sc <? 5) || (8 <? sc_data sc));
    [|destruct ((sc_stop sc <? 1) || (2 <? sc_stop sc));
      [|destruct (negb (sc_parity sc =? UART_PARITY_NONE) &&
                  negb (sc_parity sc =? UART_PARITY_EVEN) &&
                  negb (sc_parity sc =? UART_PARITY_ODD))]];
    eexists _, _, _; (split; [reflexivity|]);
    cbn [uart_dev devs uarts sdk nmalloc]; unfold fun_set; rewrite ?Z.eqb_refl;
    cbn [hw_calls add_call set_rts_rxim]; rewrite Hc5, <- ?app_assoc; reflexivity.
Qed.

End Sdk.

End UartOpen.

(* ===================================================================== *)
(** * Part VIII: the UART device and its specification *)
(* ===================================================================== *)

Module UartClaims.
Import Uart UartSpec UartRing UartRead UartOpen.
Local Open Scope Z_scope.

Lemma ioctl_count_spec EINVAL PN PE PO pfs_error set_baud d h v :
  uart_ioctl EINVAL PN PE PO pfs_error set_baud d h IOC_RQ_COUNT (arg_int v)
  = Some (0, arg_int (pending d), d, h).
Proof. unfold uart_ioctl. by rewrite land_mask. Qed.

(** C4: the receive buffer is full exactly when [NDATA - 1] bytes are
    queued unread.  [uart_input] takes bytes off the FIFO until the FIFO
    is empty or the buffer is full, and the request [IOC_RQ_COUNT] then
    reports the bytes queued: those that were, and those received, up to
    [NDATA - 1]; in particular [k] after [k < NDATA - 1] bytes received
    into an empty buffer.  The request [IOC_RQ_PURGE] sets both indices
    to 0, and the count is 0 after it. *)
Theorem ring_buffer_full_count_purge IOC_MD_ECHO EINVAL PN PE PO pfs_error set_baud
  d h v argp :
  dev_wf d ->
  (full d <-> pending d = NDATA - 1) ∧
  (exists d' h',
    uart_input IOC_MD_ECHO d h = Some (d', h') ∧
    rptr d' = rptr d ∧
    pending d' = Z.min (pending d + Z.of_nat (length (rx_fifo h))) (NDATA - 1) ∧
    (pending d = 0 -> Z.of_nat (length (rx_fifo h)) < NDATA - 1 ->
     pending d' = Z.of_nat (length (rx_fifo h))) ∧
    (rx_fifo h' ≠ [] -> full d') ∧
    (pending d' < NDATA - 1 -> rx_fifo h' = []) ∧
    uart_ioctl EINVAL PN PE PO pfs_error set_baud d' h' IOC_RQ_COUNT (arg_int v)
    = Some (0, arg_int (pending d'), d', h')) ∧
  (exists d0,
    uart_ioctl EINVAL PN PE PO pfs_error set_baud d h IOC_RQ_PURGE argp
    = Some (0, argp, d0, h) ∧
    rptr d0 = 0 ∧ wptr d0 = 0 ∧
    uart_ioctl EINVAL PN PE PO pfs_error set_baud d0 h IOC_RQ_COUNT (arg_int v)
    = Some (0, arg_int 0, d0, h)).
Proof.
  intros Hwf. split; [by apply pending_full|]. split.
  - destruct (uart_input_spec IOC_MD_ECHO d h Hwf)
      as (d' & h' & Hrun & Hwf' & Hr & _ & _ & _ & Hp & _ & Hrx & _).
    pose proof (pending_range d) as Hpd.
    exists d', h'. split; [done|]. split; [done|].
    assert (pending d' = Z.min (pending d + Z.of_nat (length (rx_fifo h))) (NDATA - 1))
      as Hmin by lia.
    split; [done|]. split; [lia|]. split; [|split].
    + intros Hne. apply pending_full; [done|].
      destruct (decide (pending d' = NDATA - 1)) as [|Hlt]; [done|]. exfalso. apply Hne.
      rewrite Hrx. apply drop_ge. lia.
    + intros Hlt. rewrite Hrx. apply drop_ge. lia.
    + apply ioctl_count_spec.
  - exists (set_wptr 0 (set_rptr 0 d)). split; [by destruct argp|].
    split; [done|]. split; [done|]. apply ioctl_count_spec.
Qed.

Lemma ring_buffer_full_count_purge_witness :
  exists d' h',
    uart_input 1024 (dev_empty 0) (hw_idle [104; 105; 33]) = Some (d', h') ∧
    pending d' = 3 ∧ rx_fifo h' = [] ∧
    uart_ioctl 22 0 1 2 (fun _ => -1) (fun _ b => b) d' h' IOC_RQ_COUNT (arg_int 0)
    = Some (0, arg_int 3, d', h').
Proof.
  destruct (ring_buffer_full_count_purge 1024 22 0 1 2 (fun _ => -1) (fun _ b => b)
              (dev_empty 0) (hw_idle [104; 105; 33]) 0 (arg_int 0))
    as (_ & (d' & h' & Hrun & _ & Hp & _ & _ & Hrx & Hcount) & _).
  - apply dev_empty_wf.
  - exists d', h'. split; [exact Hrun|].
    assert (pending d' = 3) as Hp3 by (rewrite Hp; reflexivity).
    split; [exact Hp3|]. split; [apply Hrx; rewrite Hp3; reflexivity|].
    rewrite Hcount, Hp3. reflexivity.
Defined.

Section Sdk.

Variables IOC_MD_ECHO IOC_MD_NBLOCK IOC_MD_ANY IOC_MD_CHR IOC_MD_TLF IOC_MD_CR : Z.
Variables UART_PARITY_NONE UART_PARITY_EVEN UART_PARITY_ODD : Z.
Variable uart_init : Z -> Z -> Z.
Variable pfs_malloc_ok : nat -> bool.
Variable heap_junk : nat -> nat -> Z.
Variable uopen_end : bool.

(** C6, as amended: [uopen] takes the requested pins in the order
    transmit, receive, clear-to-send, ready-to-send, and checks each just
    before it gives it to [gpio_set_function]: the pins so committed are
    the requested pins that come before the first one that is not valid,
    and [uopen] fails when there is one that is not valid. *)
Theorem uopen_commits_valid_prefix uid sc w pud :
  0 <= uid < NUM_UARTS ->
  devs w !! uart_dev w uid = Some pud ->
  uart_init uid (sc_baud sc) ≠ 0 ->
  exists r w' new,
    uopen UART_PARITY_NONE UART_PARITY_EVEN UART_PARITY_ODD uart_init uopen_end uid sc w
    = Some (r, w') ∧
    sdk w' = sdk w ++ new ∧
    gpio_pins new = (valid_prefix uid (requested sc)).*2 ∧
    (all_valid uid sc = false -> r = false).
Proof.
  intros Huid Hpud Hinit.
  destruct (uopen_spec UART_PARITY_NONE UART_PARITY_EVEN UART_PARITY_ODD uart_init
              uopen_end uid sc w pud Huid Hpud)
    as (r & w' & new & Hrun & _ & _ & _ & _ & Hsdk & Hpins & Hr).
  exists r, w', new. split; [done|]. split; [done|].
  destruct (Z.eqb_spec (uart_init uid (sc_baud sc)) 0) as [|_]; [done|].
  split; [done|]. intros Hall. rewrite Hr, Hall. by rewrite andb_false_r.
Qed.

(** C10: when there is a device for [uid] already, [pfs_dev_uart_create]
    runs [uopen] on it and returns it, whatever [uopen] finds: the table
    [uart_dev] is as before, the device is still allocated, with its
    indices at 0, and no memory is asked for.

    The state it leaves is the state [uopen] leaves, so that the device
    is configured again where it is: [uart_init] is called on its UART
    at the baud rate asked for, and the pins asked for are given to
    [gpio_set_function] up to the first that is not valid.  The result
    [r] of [uopen] is not looked at, and the pointer returned is not
    NULL. *)
Theorem pfs_dev_uart_create_existing uid sc w pud :
  0 <= uid <= 1 ->
  uart_dev w uid ≠ Pname.NULL ->
  devs w !! uart_dev w uid = Some pud ->
  exists w',
    pfs_dev_uart_create IOC_MD_TLF IOC_MD_CR UART_PARITY_NONE UART_PARITY_EVEN
      UART_PARITY_ODD uart_init pfs_malloc_ok heap_junk uopen_end uid sc w
    = Some (uart_dev w uid, w') ∧
    uart_dev w' = uart_dev w ∧
    devs w' !! uart_dev w uid = Some (set_wptr 0 (set_rptr 0 (set_uart uid pud))) ∧
    nmalloc w' = nmalloc w ∧
    exists r new more,
      uopen UART_PARITY_NONE UART_PARITY_EVEN UART_PARITY_ODD uart_init uopen_end uid sc w
      = Some (r, w') ∧
      r = negb (uart_init uid (sc_baud sc) =? 0) && all_valid uid sc &&
          format_valid UART_PARITY_NONE UART_PARITY_EVEN UART_PARITY_ODD sc && uopen_end ∧
      devs w' = <[uart_dev w uid := set_wptr 0 (set_rptr 0 (set_uart uid pud))]> (devs w) ∧
      (forall i, i ≠ uid -> uarts w' i = uarts w i) ∧
      hw_calls (uarts w' uid)
      = hw_calls (uarts w uid) ++ call_uart_init (sc_baud sc) :: more ∧
      sdk w' = sdk w ++ new ∧
      gpio_pins new
      = (if uart_init uid (sc_baud sc) =? 0 then []
         else (valid_prefix uid (requested sc)).*2).
Proof.
  intros Huid Hnn Hpud.
  destruct (uopen_spec UART_PARITY_NONE UART_PARITY_EVEN UART_PARITY_ODD uart_init
              uopen_end uid sc w pud)
    as (r & w' & new & Hrun & Hud & Hdevs & Hnm & Hother & Hsdk & Hpins & Hr);
    [unfold NUM_UARTS; lia|done|].
  destruct (uopen_init_call UART_PARITY_NONE UART_PARITY_EVEN UART_PARITY_ODD uart_init
              uopen_end uid sc w pud)
    as (r0 & w0 & more & Hrun0 & Hcalls); [unfold NUM_UARTS; lia|done|].
  rewrite Hrun in Hrun0. injection Hrun0 as <- <-.
  exists w'. unfold pfs_dev_uart_create.
  replace ((uid <? 0) || (1 <? uid)) with false by lia.
  unfold bind at 1. unfold get_uart_dev at 1.
  replace ((0 <=? uid) && (uid <? NUM_UARTS)) with true by (unfold NUM_UARTS; lia).
  destruct (Nat.eqb_spec (uart_dev w uid) Pname.NULL) as [|_]; [done|]. cbn [negb].
  unfold bind. rewrite Hrun. unfold get_uart_dev.
  replace ((0 <=? uid) && (uid <? NUM_UARTS)) with true by (unfold NUM_UARTS; lia).
  rewrite Hud. split; [done|]. split; [done|].
  split; [rewrite Hdevs; apply lookup_insert_eq|]. split; [done|].
  exists r, new, more. by repeat (split; [done|]).
Qed.

(** C7: with the terminator asked for in the mode word, every
    [uart_read] stops at the first byte equal to the low byte of the mode
    word that it takes out of the buffer.

    - When that byte is queued, or in the FIFO where [uart_input] finds
      it, as the read begins: the read returns without a look at the
      clock, in any mode; the bytes before the terminator are in the
      buffer of the caller, then the terminator, or a newline in its
      place when the mode word asks for that; the number returned counts
      them all, and what follows the terminator stays queued.
    - When that byte comes later, in one of the looks at the clock [sc]
      that a read that blocks makes before its time is out, and the
      bytes before it go into the receive buffer: the read waits for it,
      as often as it has to, and returns just the same; it has not
      looked at the clock more often than it had to, and what follows
      the terminator is queued, in the FIFO or yet to come.
    - Whatever comes, and in whatever mode: when the read returns, the
      bytes [consumed] that it has taken out of the buffer are the
      oldest of those that were there or have arrived, none of them but
      the last is the terminator, the number returned counts them all,
      and they are in the buffer of the caller, the terminator as the
      mode word says. *)
Theorem uart_read_terminator d h e buffer length :
  dev_wf d ->
  has_flag (mode d) IOC_MD_CHR = true ->
  (forall pre post,
    queued d ++
      take (Nat.min (List.length (rx_fifo h)) (Z.to_nat (NDATA - 1 - pending d))) (rx_fifo h)
    = pre ++ Z.land (mode d) 255 :: post ->
    Forall (fun c => c ≠ Z.land (mode d) 255) pre ->
    Z.of_nat (List.length pre) < length ->
    length <= Z.of_nat (List.length buffer) ->
    exists r,
      uart_read IOC_MD_ECHO IOC_MD_NBLOCK IOC_MD_ANY IOC_MD_CHR IOC_MD_TLF d h e buffer length
      = Some r ∧
      rd_nread r = Z.of_nat (List.length pre) + 1 ∧
      rd_buffer r
      = pre ++ stored_terminator IOC_MD_TLF (mode d) :: drop (List.length pre + 1) buffer ∧
      queued (rd_dev r) = post ∧
      rd_env r = e) ∧
  (forall sc rest pre post,
    has_flag (mode d) IOC_MD_NBLOCK = false ->
    has_flag (mode d) IOC_MD_ANY = false ->
    script e = sc ++ rest ->
    Forall (fun p : Z * list Z => 0 <= p.1) sc ->
    (0 < tout d -> elapsed sc < tout d) ->
    queued d ++ rx_fifo h ++ arrivals sc = pre ++ Z.land (mode d) 255 :: post ->
    Forall (fun c => c ≠ Z.land (mode d) 255) pre ->
    Z.of_nat (List.length pre) < NDATA - 1 ->
    Z.of_nat (List.length pre) < length ->
    length <= Z.of_nat (List.length buffer) ->
    exists r used sc1,
      uart_read IOC_MD_ECHO IOC_MD_NBLOCK IOC_MD_ANY IOC_MD_CHR IOC_MD_TLF d h e buffer length
      = Some r ∧
      rd_nread r = Z.of_nat (List.length pre) + 1 ∧
      rd_buffer r
      = pre ++ stored_terminator IOC_MD_TLF (mode d) :: drop (List.length pre + 1) buffer ∧
      sc = used ++ sc1 ∧
      rd_env r = mkEnv (now e + elapsed used) (sc1 ++ rest) ∧
      queued (rd_dev r) ++ rx_fifo (rd_hw r) ++ arrivals sc1 = post) ∧
  (forall r,
    uart_read IOC_MD_ECHO IOC_MD_NBLOCK IOC_MD_ANY IOC_MD_CHR IOC_MD_TLF d h e buffer length
    = Some r ->
    exists consumed used,
      script e = used ++ script (rd_env r) ∧
      queued d ++ rx_fifo h ++ arrivals used
      = consumed ++ queued (rd_dev r) ++ rx_fifo (rd_hw r) ∧
      Forall (fun c => c ≠ Z.land (mode d) 255) (removelast consumed) ∧
      rd_nread r = Z.of_nat (List.length consumed) ∧
      rd_buffer r
      = map (stored IOC_MD_CHR IOC_MD_TLF (mode d)) consumed ++
        drop (List.length consumed) buffer).
Proof.
  intros Hwf Hchr.
  destruct (uart_input_spec IOC_MD_ECHO d h Hwf)
    as (d1 & h1 & Hrun & Hwf1 & _ & Hm1 & _ & _ & Hp1 & Hq1 & Hrx1 & _).
  assert (queued d1 ++ rx_fifo h1 = queued d ++ rx_fifo h) as Hall.
  { by rewrite Hq1, Hrx1, <- app_assoc, take_drop. }
  unfold uart_read. rewrite Hrun. split; [|split].
  - intros pre post Hq Hpre Hlen Hbuf. rewrite Hq in Hq1.
    destruct (read_loop_terminator IOC_MD_ECHO IOC_MD_NBLOCK IOC_MD_ANY IOC_MD_CHR IOC_MD_TLF
                (if 0 <? tout d then Some (now e + tout d) else None) h1 e pre
                (Z.to_nat length) d1 0 buffer post)
      as (d' & Hloop & Hwf' & Hq' & _); try done; try lia.
    + by rewrite Hm1.
    + by rewrite Hm1.
    + by rewrite Hm1.
    + rewrite Hloop. eexists. split; [done|]. cbn [rd_nread rd_buffer rd_dev rd_env].
      rewrite Hm1. split; [lia|]. done.
  - intros sc rest pre post Hnb Hany Hsc Hpos Htime Hstream Hpre Hfit Hlen Hbuf.
    destruct (read_loop_arrives IOC_MD_ECHO IOC_MD_NBLOCK IOC_MD_ANY IOC_MD_CHR IOC_MD_TLF
                (if 0 <? tout d then Some (now e + tout d) else None) rest pre
                (Z.to_nat length) d1 h1 e sc 0 buffer post)
      as (r & used & sc1 & Hloop & Hn & Hb & _ & _ & Hused & Hscr & Hnow & Hpost);
      try done; try lia; try (by rewrite Hm1).
    + by rewrite Hm1, <- Hstream, !app_assoc, Hall.
    + destruct (decide (rx_fifo h1 = [])) as [|Hne]; [by left|]. right.
      rewrite queued_length, Hp1.
      assert (List.length (rx_fifo h1) ≠ 0%nat) as Hl by (by destruct (rx_fifo h1)).
      rewrite Hrx1, length_drop in Hl. pose proof (pending_range d). unfold NDATA in *. lia.
    + unfold NDATA in Hfit. lia.
    + intros te Hte. destruct (Z.ltb_spec 0 (tout d)) as [Hto|]; [|done].
      injection Hte as <-. specialize (Htime Hto). lia.
    + rewrite Hloop. exists (mkRead (rd_nread r) (rd_buffer r) (rd_dev r)
                               (set_rts_rxim true (rd_hw r)) (rd_env r)), used, sc1.
      cbn [rd_nread rd_buffer rd_dev rd_hw rd_env rx_fifo set_rts_rxim].
      rewrite Hm1 in Hb. split; [done|]. split; [lia|]. split; [done|]. split; [done|].
      split; [|done]. destruct (rd_env r) as [t s]. cbn [now script] in *. by subst.
  - intros r Hr.
    destruct (read_loop _ _ _ _ _ _ _ _ _ _ _ _) as [r0|] eqn:Hloop; [|done].
    injection Hr as <-. cbn [rd_nread rd_buffer rd_dev rd_hw rd_env rx_fifo set_rts_rxim].
    apply read_loop_consumes in Hloop; [|done|lia].
    destruct Hloop as (consumed & used & Hsc & _ & Hcons & _ & Hn & _ & Hb & _ & _ & Hno).
    exists consumed, used. rewrite Hm1 in Hb, Hno.
    split; [done|]. split; [by rewrite <- Hcons, !app_assoc, Hall|].
    split; [by apply Hno|]. split; [lia|]. done.
Qed.

End Sdk.

Lemma uopen_commits_valid_prefix_witness :
  exists w' new,
    uopen 0 1 2 (fun _ b => b) true 0 (mkSC 115200 0 8 1 0 2 (-1) (-1)) world_uart0
    = Some (false, w') ∧
    sdk w' = new ∧ gpio_pins new = [0].
Proof.
  destruct (uopen_commits_valid_prefix 0 1 2 (fun _ b => b) true 0
              (mkSC 115200 0 8 1 0 2 (-1) (-1)) world_uart0 (dev_empty 0))
    as (r & w' & new & Hrun & Hsdk & Hpins & Hr).
  - unfold NUM_UARTS. lia.
  - vm_compute. reflexivity.
  - vm_compute. discriminate.
  - exists w', new. rewrite (Hr eq_refl) in Hrun.
    split; [exact Hrun|]. split; [exact Hsdk|]. exact Hpins.
Defined.

(** C6, at a transmit pin that is valid and a receive pin that is not:
    creating the device fails, and the transmit pin has been given to
    [gpio_set_function]. *)
Lemma pfs_dev_uart_create_counterexample :
  exists w',
    pfs_dev_uart_create 512 269 0 1 2 (fun _ b => b) (fun _ => true) (fun _ _ => 0) true
      0 (mkSC 115200 0 8 1 0 2 (-1) (-1)) world_empty
    = Some (Pname.NULL, w') ∧
    uart_pin_valid 0 0 0 = true ∧ uart_pin_valid 0 1 2 = false ∧
    sdk w' = [call_gpio_set_function 0].
Proof. eexists. split; [vm_compute; reflexivity|]. repeat split. Qed.

Lemma pfs_dev_uart_create_existing_witness :
  exists w' new more,
    pfs_dev_uart_create 512 269 0 1 2 (fun _ b => b) (fun _ => true) (fun _ _ => 0) true
      0 (mkSC 115200 0 9 1 0 2 (-1) (-1)) world_uart0
    = Some (1%nat, w') ∧
    uopen 0 1 2 (fun _ b => b) true 0 (mkSC 115200 0 9 1 0 2 (-1) (-1)) world_uart0
    = Some (false, w') ∧
    uart_dev w' = uart_dev world_uart0 ∧ nmalloc w' = 1%nat ∧
    hw_calls (uarts w' 0) = call_uart_init 115200 :: more ∧
    sdk w' = new ∧ gpio_pins new = [0].
Proof.
  destruct (pfs_dev_uart_create_existing 512 269 0 1 2 (fun _ b => b) (fun _ => true)
              (fun _ _ => 0) true 0 (mkSC 115200 0 9 1 0 2 (-1) (-1)) world_uart0
              (dev_empty 0))
    as (w' & Hrun & Hud & _ & Hn & r & new & more & Hopen & Hr & _ & _ & Hcalls & Hsdk &
        Hpins).
  - lia.
  - vm_compute. discriminate.
  - vm_compute. reflexivity.
  - exists w', new, more. split; [exact Hrun|].
    split; [rewrite Hopen, Hr; reflexivity|].
    split; [exact Hud|]. split; [exact Hn|]. split; [exact Hcalls|].
    split; [exact Hsdk|]. exact Hpins.
Defined.

Lemma uart_read_terminator_witness :
  (exists r,
    uart_read 1024 2048 4096 256 512 (dev_empty (256 + 512 + 13))
      (hw_idle [104; 105; 13; 120]) (mkEnv 0 []) (repeat 0 8%nat) 8
    = Some r ∧
    rd_nread r = 3 ∧
    rd_buffer r = [104; 105; 10; 0; 0; 0; 0; 0] ∧
    queued (rd_dev r) = [120]) ∧
  (exists r used sc1 consumed,
    uart_read 1024 2048 4096 256 512 (dev_empty (256 + 512 + 13))
      (hw_idle [104; 105]) (mkEnv 0 [(5, []); (7, [13; 120]); (1, [33])])
      (repeat 0 8%nat) 8
    = Some r ∧
    rd_nread r = 3 ∧
    rd_buffer r = [104; 105; 10; 0; 0; 0; 0; 0] ∧
    [(5, []); (7, [13; 120])] = used ++ sc1 ∧
    rd_env r = mkEnv (0 + elapsed used) (sc1 ++ [(1, [33])]) ∧
    queued (rd_dev r) ++ rx_fifo (rd_hw r) ++ arrivals sc1 = [120] ∧
    rd_nread r = Z.of_nat (List.length consumed) ∧
    rd_buffer r = map (stored 256 512 (256 + 512 + 13)) consumed ++
                  drop (List.length consumed) (repeat 0 8%nat)).
Proof.
  split.
  - destruct (uart_read_terminator 1024 2048 4096 256 512 (dev_empty (256 + 512 + 13))
                (hw_idle [104; 105; 13; 120]) (mkEnv 0 []) (repeat 0 8%nat) 8)
      as (Hthere & _ & _).
    + apply dev_empty_wf.
    + reflexivity.
    + destruct (Hthere [104; 105] [120]) as (r & Hrun & Hn & Hb & Hq & _).
      * vm_compute. reflexivity.
      * repeat constructor; discriminate.
      * simpl. lia.
      * simpl. lia.
      * exists r. split; [exact Hrun|]. split; [exact Hn|]. split; [exact Hb|]. exact Hq.
  - destruct (uart_read_terminator 1024 2048 4096 256 512 (dev_empty (256 + 512 + 13))
                (hw_idle [104; 105]) (mkEnv 0 [(5, []); (7, [13; 120]); (1, [33])])
                (repeat 0 8%nat) 8)
      as (_ & Hcomes & Hevery).
    + apply dev_empty_wf.
    + reflexivity.
    + destruct (Hcomes [(5, []); (7, [13; 120])] [(1, [33])] [104; 105] [120])
        as (r & used & sc1 & Hrun & Hn & Hb & Hused & He & Hq).
      * reflexivity.
      * reflexivity.
      * reflexivity.
      * repeat constructor; simpl; lia.
      * simpl. lia.
      * vm_compute. reflexivity.
      * repeat constructor; discriminate.
      * simpl. unfold NDATA. lia.
      * simpl. lia.
      * simpl. lia.
      * destruct (Hevery r Hrun) as (consumed & _ & _ & _ & _ & Hn' & Hb').
        exists r, used, sc1, consumed.
        split; [exact Hrun|]. split; [exact Hn|]. split; [exact Hb|].
        split; [exact Hused|]. split; [exact He|]. split; [exact Hq|].
        split; [exact Hn'|]. exact Hb'.
Defined.

End UartClaims.

(* ===================================================================== *)
(** * Part IX: creating the flash filesystem *)
(* ===================================================================== *)

Module FfsClaims.
Import Ffs.

Lemma fresh_not_null (X : gset Pname.ptr) : fresh ({[Pname.NULL]} ∪ X) ≠ Pname.NULL.
Proof.
  intros H. apply (is_fresh ({[Pname.NULL]} ∪ X)). rewrite H. set_solver.
Qed.

Lemma fresh_not_in {A} (m : gmap Pname.ptr A) :
  m !! fresh ({[Pname.NULL]} ∪ dom m) = None.
Proof.
  apply not_elem_of_dom. intros H.
  apply (is_fresh ({[Pname.NULL]} ∪ dom m)). set_solver.
Qed.

Section Lfs.

Variables lfs_config lfs_t flash : Type.
Variable lfs_mount : lfs_config -> lfs_t -> flash -> Z * lfs_t * flash.
Variable lfs_format : lfs_config -> lfs_t -> flash -> Z * lfs_t * flash.
Variable pfs_malloc_ok : nat -> bool.
Variable heap_junk : nat -> ffs_pfs lfs_config lfs_t.

(** C5: when there is memory for it, [pfs_ffs_create] mounts with the
    configuration it is given; it formats, once, when mounting fails, and
    mounts again when formatting succeeds.  It returns the filesystem
    when the first mount succeeds, or the mount after formatting;
    otherwise it frees it and returns NULL.  ([lfs_format] returns 0 or a
    negative error.) *)
Theorem pfs_ffs_create_mount_format_remount c w r1 b1 f1 rf bf ff r2 b2 f2 :
  pfs_malloc_ok (nmalloc w) = true ->
  lfs_mount c (base (heap_junk (nmalloc w))) (disk w) = (r1, b1, f1) ->
  lfs_format c b1 f1 = (rf, bf, ff) ->
  lfs_mount c bf ff = (r2, b2, f2) ->
  (rf <= 0)%Z ->
  let p := fresh ({[Pname.NULL]} ∪ dom (objs w)) in
  p ≠ Pname.NULL ∧
  exists w',
    pfs_ffs_create lfs_mount lfs_format pfs_malloc_ok heap_junk c w
    = Some (if ((0 <=? r1) || ((rf =? 0) && (0 <=? r2)))%Z then p else Pname.NULL, w') ∧
    lfs_calls w'
    = lfs_calls w ++
      (if (0 <=? r1)%Z then [call_lfs_mount]
       else if (rf =? 0)%Z then [call_lfs_mount; call_lfs_format; call_lfs_mount]
       else [call_lfs_mount; call_lfs_format]) ∧
    objs w'
    = (if (0 <=? r1)%Z then <[p := mkFfs b1 c]> (objs w)
       else if ((rf =? 0) && (0 <=? r2))%Z then <[p := mkFfs b2 c]> (objs w)
       else objs w) ∧
    disk w'
    = (if (0 <=? r1)%Z then f1 else if (rf =? 0)%Z then f2 else ff).
Proof.
  intros Hok Hm1 Hf Hm2 Hrf p. split; [apply fresh_not_null|].
  unfold pfs_ffs_create, bind, Ffs.pfs_malloc. rewrite Hok. fold p.
  destruct (Nat.eqb_spec p Pname.NULL) as [Hp|_]; [by apply fresh_not_null in Hp|].
  unfold set_cfg. cbn [objs disk lfs_calls nmalloc]. rewrite lookup_insert_eq.
  unfold lfs at 1. cbn [objs disk lfs_calls nmalloc base cfg].
  rewrite lookup_insert_eq. cbn [base cfg]. rewrite Hm1.
  pose proof (fresh_not_in (objs w)) as Hfresh. fold p in Hfresh.
  destruct (Z.ltb_spec r1 0) as [Hneg|Hpos].
  - replace (0 <=? r1)%Z with false by lia. cbn [orb].
    unfold lfs at 1. cbn [objs disk lfs_calls nmalloc base cfg].
    rewrite lookup_insert_eq. cbn [base cfg]. rewrite Hf.
    destruct (Z.eqb_spec rf 0) as [->|Hne]; cbn [andb].
    + unfold lfs at 1. cbn [objs disk lfs_calls nmalloc base cfg].
      rewrite lookup_insert_eq. cbn [base cfg]. rewrite Hm2.
      destruct (Z.ltb_spec r2 0) as [Hneg2|Hpos2].
      * replace (0 <=? r2)%Z with false by lia.
        unfold Ffs.pfs_free, ret.
        destruct (Nat.eqb_spec p Pname.NULL) as [Hp|_]; [by apply fresh_not_null in Hp|].
        cbn [objs disk lfs_calls nmalloc]. rewrite lookup_insert_eq.
        eexists. split; [done|]. cbn [objs disk lfs_calls nmalloc].
        rewrite <- !app_assoc. split; [done|]. split; [|done].
        rewrite !insert_insert_eq, delete_insert_eq. by apply delete_id.
      * replace (0 <=? r2)%Z with true by lia. unfold ret.
        eexists. split; [done|]. cbn [objs disk lfs_calls nmalloc].
        rewrite <- !app_assoc. split; [done|]. split; [|done].
        by rewrite !insert_insert_eq.
    + unfold ret, Ffs.pfs_free.
      destruct (Nat.eqb_spec p Pname.NULL) as [Hp|_]; [by apply fresh_not_null in Hp|].
      cbn [objs disk lfs_calls nmalloc]. replace (rf <? 0)%Z with true by lia.
      cbn [objs disk lfs_calls nmalloc]. rewrite lookup_insert_eq.
      eexists. split; [done|]. cbn [objs disk lfs_calls nmalloc].
      rewrite <- !app_assoc. split; [done|]. split; [|done].
      rewrite !insert_insert_eq, delete_insert_eq. by apply delete_id.
  - replace (0 <=? r1)%Z with true by lia. cbn [orb]. unfold ret.
    replace (r1 <? 0)%Z with false by lia.
    eexists. split; [done|]. cbn [objs disk lfs_calls nmalloc].
    split; [done|]. split; [|done]. by rewrite !insert_insert_eq.
Qed.

End Lfs.

Lemma pfs_ffs_create_mount_format_remount_witness :
  exists w',
    pfs_ffs_create toy_mount toy_format (fun _ => true) (fun _ => mkFfs false tt) tt
      (mkWorld ∅ false [] 0)
    = Some (1, w') ∧
    lfs_calls w' = [call_lfs_mount; call_lfs_format; call_lfs_mount] ∧
    objs w' = {[ 1 := mkFfs true tt ]} ∧
    disk w' = true.
Proof.
  destruct (pfs_ffs_create_mount_format_remount unit bool bool toy_mount toy_format
              (fun _ => true) (fun _ => mkFfs false tt) tt (mkWorld ∅ false [] 0)
              (-84)%Z false false 0%Z false true 0%Z true true)
    as (_ & w' & Hrun & Hcalls & Hobjs & Hdisk).
  - reflexivity.
  - reflexivity.
  - reflexivity.
  - reflexivity.
  - lia.
  - exists w'. split; [exact Hrun|]. split; [exact Hcalls|]. split; [exact Hobjs|].
    exact Hdisk.
Defined.

End FfsClaims.

(* ===================================================================== *)
(** * Part X: more on the path resolver *)
(* ===================================================================== *)

Module PnameProperties.
Import Pname PnameRepr PnameSpec PnameLists PnameMem PnameScan PnameJoin PnameMkname PnameAppend PnameText PnameRefine PnameFacts.

(** ** The lists *)

Lemma is_list_usr : is_list heap_usr_dotdot 1 (chars "/usr", 4) [(2, (rootdir, 1)); (3, (chars "usr", 3))].
Proof.
  exists 2, 3. split; [vm_compute; reflexivity|]. simpl.
  split; [reflexivity|]. exists 3. split; [vm_compute; reflexivity|].
  split; [reflexivity|]. exists 1. split; [vm_compute; reflexivity|]. split; reflexivity.
Qed.

Lemma is_list_dotdot : is_list heap_usr_dotdot 4 (chars "..", 2) [(5, (chars "..", 2))].
Proof.
  exists 5, 5. split; [vm_compute; reflexivity|]. simpl.
  split; [reflexivity|]. exists 4. split; [vm_compute; reflexivity|]. split; reflexivity.
Qed.

Lemma seg_wf_usr : Forall seg_wf [(rootdir, 1); (chars "usr", 3)].
Proof.
  apply Forall_cons; split; [split; [vm_compute; lia|by left]|].
  apply Forall_cons; split; [|constructor].
  split; [vm_compute; lia|]. right. split; [discriminate|]. repeat constructor.
Qed.

(** X6: [pname_link] puts a node at the end of a list: the nodes that
    were in the list stay in their order, and no other node of the heap
    is touched. *)
Theorem pname_link_appends σ n pn sent l pe nd :
  is_list σ pn sent l -> NoDup (pe :: pn :: l.*1) ->
  σ !! pe = Some nd ->
  exists σ',
    pname_link pn pe (mkHeap σ n) = Some (tt, mkHeap σ' n) ∧
    is_list σ' pn sent (l ++ [(pe, (name nd, len nd))]) ∧
    (forall p, p ∉ pe :: pn :: l.*1 -> σ' !! p = σ !! p).
Proof. apply pname_link_spec. Qed.

Lemma pname_link_appends_witness :
  exists σ',
    pname_link 1 5 (mkHeap heap_usr_dotdot 0) = Some (tt, mkHeap σ' 0) ∧
    is_list σ' 1 (chars "/usr", 4)
      [(2, (rootdir, 1)); (3, (chars "usr", 3)); (5, (chars "..", 2))].
Proof.
  destruct (pname_link_appends heap_usr_dotdot 0 1 (chars "/usr", 4)
              [(2, (rootdir, 1)); (3, (chars "usr", 3))] 5
              (mkPNAME 4 4 (chars "..") 2)) as (σ' & Hrun & Hl & _).
  - apply is_list_usr.
  - apply (bool_decide_unpack _). vm_compute. exact I.
  - vm_compute. reflexivity.
  - exists σ'. split; [exact Hrun|]. exact Hl.
Defined.

(** X7: [pname_unlink] takes a node out of a list, wherever it is: the
    other nodes stay linked in their order, the node keeps its segment
    and has both its links set to NULL, and it is the node returned. *)
Theorem pname_unlink_removes σ n pn sent l1 pe s l2 :
  is_list σ pn sent (l1 ++ (pe, s) :: l2) ->
  NoDup (pn :: (l1 ++ (pe, s) :: l2).*1) ->
  exists σ',
    pname_unlink pe (mkHeap σ n) = Some (pe, mkHeap σ' n) ∧
    is_list σ' pn sent (l1 ++ l2) ∧
    σ' !! pe = Some (mkPNAME NULL NULL s.1 s.2) ∧
    (forall p, p ∉ pn :: (l1 ++ (pe, s) :: l2).*1 -> σ' !! p = σ !! p).
Proof. apply pname_unlink_spec. Qed.

Lemma pname_unlink_removes_witness :
  exists σ',
    pname_unlink 2 (mkHeap heap_usr_dotdot 0) = Some (2, mkHeap σ' 0) ∧
    is_list σ' 1 (chars "/usr", 4) [(3, (chars "usr", 3))].
Proof.
  destruct (pname_unlink_removes heap_usr_dotdot 0 1 (chars "/usr", 4)
              [] 2 (rootdir, 1) [(3, (chars "usr", 3))]) as (σ' & Hrun & Hl & _).
  - apply is_list_usr.
  - apply (bool_decide_unpack _). vm_compute. exact I.
  - exists σ'. split; [exact Hrun|]. exact Hl.
Defined.

(** X8: [pname_clean] frees every node of a list and leaves the sentinel
    with an empty list; [pname_delete] frees the sentinel too.  Nothing
    else in the heap changes, and no memory is asked for. *)
Theorem pname_delete_frees σ n pn sent l :
  is_list σ pn sent l -> NoDup (pn :: l.*1) -> NULL ∉ pn :: l.*1 ->
  (exists σ',
    pname_clean pn (mkHeap σ n) = Some (tt, mkHeap σ' n) ∧
    is_list σ' pn sent [] ∧
    (forall a, a ∈ l.*1 -> σ' !! a = None) ∧
    (forall a, a ∉ pn :: l.*1 -> σ' !! a = σ !! a)) ∧
  (exists σ',
    pname_delete pn (mkHeap σ n) = Some (tt, mkHeap σ' n) ∧
    (forall a, a ∈ pn :: l.*1 -> σ' !! a = None) ∧
    (forall a, a ∉ pn :: l.*1 -> σ' !! a = σ !! a)).
Proof.
  intros Hl Hnd Hnull. split.
  - apply (pname_clean_spec σ n pn sent l); [done..|].
    intros H. apply Hnull. by apply elem_of_cons; right.
  - by apply (pname_delete_spec σ n pn sent l).
Qed.

Lemma pname_delete_frees_witness :
  exists σ',
    pname_delete 1 (mkHeap heap_usr_dotdot 0) = Some (tt, mkHeap σ' 0) ∧
    σ' !! 1 = None ∧ σ' !! 2 = None ∧ σ' !! 3 = None ∧
    σ' !! 4 = heap_usr_dotdot !! 4 ∧ σ' !! 5 = heap_usr_dotdot !! 5.
Proof.
  destruct (pname_delete_frees heap_usr_dotdot 0 1 (chars "/usr", 4)
              [(2, (rootdir, 1)); (3, (chars "usr", 3))]) as [_ (σ' & Hrun & Hfreed & Hframe)].
  - apply is_list_usr.
  - apply (bool_decide_unpack _). vm_compute. exact I.
  - apply (bool_decide_unpack _). vm_compute. exact I.
  - exists σ'. split; [exact Hrun|].
    split; [apply Hfreed; apply (bool_decide_unpack _); vm_compute; exact I|].
    split; [apply Hfreed; apply (bool_decide_unpack _); vm_compute; exact I|].
    split; [apply Hfreed; apply (bool_decide_unpack _); vm_compute; exact I|].
    split; apply Hframe; apply (bool_decide_unpack _); vm_compute; exact I.
Defined.

(** X9: [pname_create] makes of a path the list of its segments: the
    pieces between runs of ['/'] and ['\'], without the empty ones and
    the single dots, behind the root marker when the path starts with a
    separator.  It asks for one node per segment and one for the
    sentinel, and touches nothing else.  When a call of [pfs_malloc]
    fails it returns NULL and has freed what it had made. *)
Theorem pname_create_segments ok m h :
  exists pn h' b,
    pname_create ok m h = Some (pn, h') ∧
    allocs ok (nalloc h) (nalloc h') b ∧
    if b then
      pn ≠ NULL ∧
      exists l,
        is_list (nodes h') pn (m, strlen m) l ∧
        map seg_text (l.*2) = spec_segments (cstring m) ∧
        nalloc h' = nalloc h + S (length l) ∧
        (forall a, a ∈ pn :: l.*1 -> nodes h !! a = None) ∧
        (forall a, a ∉ pn :: l.*1 -> nodes h' !! a = nodes h !! a)
    else pn = NULL ∧ nodes h' = nodes h.
Proof.
  destruct h as [σ n].
  destruct (pname_create_spec ok m σ n) as (pn & σ' & n' & b & Hrun & Hal & _ & H).
  exists pn, (mkHeap σ' n'), b. split; [done|]. split; [done|].
  destruct b; [|done].
  destruct H as (Hpn & l & Hl & Hsegs & _ & _ & Hfresh & Hframe & Hn).
  split; [done|]. exists l. split; [done|]. split; [|done].
  rewrite Hsegs. apply scan_segs_texts.
Qed.

(** X10: [pname_join] asks for no memory and loses none: a node of
    either list is afterwards in the first list or freed, the second
    list is empty, and no other node of the heap is touched. *)
Theorem pname_join_frees σ n pn1 sent1 l1 pn2 sent2 l2 :
  is_list σ pn1 sent1 l1 -> is_list σ pn2 sent2 l2 ->
  NoDup (pn1 :: pn2 :: l1.*1 ++ l2.*1) ->
  (NULL ∉ pn1 :: pn2 :: l1.*1 ++ l2.*1) ->
  exists σ' l1',
    pname_join pn1 pn2 (mkHeap σ n) = Some (tt, mkHeap σ' n) ∧
    is_list σ' pn1 sent1 l1' ∧ is_list σ' pn2 sent2 [] ∧
    l1'.*1 ⊆+ l1.*1 ++ l2.*1 ∧
    (forall a, a ∈ l1.*1 ++ l2.*1 -> (a ∉ l1'.*1) -> σ' !! a = None) ∧
    (forall a, a ∉ pn1 :: pn2 :: l1.*1 ++ l2.*1 -> σ' !! a = σ !! a).
Proof.
  intros Hl1 Hl2 Hnd Hnull.
  destruct (pname_join_spec σ n pn1 sent1 l1 pn2 sent2 l2)
    as (σ' & l1' & Hrun & Hl1' & Hl2' & _ & Hsub & Hfreed & Hframe); [done..|].
  by exists σ', l1'.
Qed.

Lemma pname_join_frees_witness :
  exists σ' l1',
    pname_join 1 4 (mkHeap heap_usr_dotdot 0) = Some (tt, mkHeap σ' 0) ∧
    is_list σ' 1 (chars "/usr", 4) l1' ∧ is_list σ' 4 (chars "..", 2) [].
Proof.
  destruct (pname_join_frees heap_usr_dotdot 0
              1 (chars "/usr", 4) [(2, (rootdir, 1)); (3, (chars "usr", 3))]
              4 (chars "..", 2) [(5, (chars "..", 2))])
    as (σ' & l1' & Hrun & Hl1' & Hl2' & _).
  - apply is_list_usr.
  - apply is_list_dotdot.
  - apply (bool_decide_unpack _). vm_compute. exact I.
  - apply (bool_decide_unpack _). vm_compute. exact I.
  - exists σ', l1'. split; [exact Hrun|]. split; [exact Hl1'|]. exact Hl2'.
Defined.

(** X11: for a list that is not empty, and with memory for the string,
    [pname_mkname] returns a block of [nlen + 1] bytes, [nlen] being the
    sum of the lengths of the segments plus one each; the string in it
    is a ['/'] and the text of each segment that is not the root marker,
    in order.  The lists are as they were. *)
Theorem pname_mkname_string ok junk σ n pn sent l :
  is_list σ pn sent l -> NoDup (pn :: l.*1) -> (NULL ∉ l.*1) ->
  Forall seg_wf (l.*2) -> l ≠ [] -> ok n = true ->
  exists buf,
    pname_mkname ok junk pn (mkHeap σ n) = Some (Some buf, mkHeap σ (S n)) ∧
    length buf = nlen_segs (l.*2) + 1 ∧
    cstring buf = serialize (map seg_text (l.*2)).
Proof.
  intros Hl Hnd Hnull Hwf Hne Hok.
  assert (Forall seg_ok (l.*2)) as Hsok.
  { eapply Forall_impl; [exact Hwf|]. by intros s [? _]. }
  rewrite (pname_mkname_spec ok junk σ n pn sent l) by done. rewrite Hok.
  destruct l as [|x l']; [done|]. set (l := x :: l') in *.
  eexists. split; [done|]. split.
  - pose proof (mkname_body_length (l.*2) Hsok) as Hlen.
    assert (length (mkname_segs (l.*2)) <= nlen_segs (l.*2)) as Hlen'.
    { pose proof (nlen_segs_pos (l.*2)) as Hpos.
      unfold mkname_segs. destruct (mkname_body (l.*2)) eqn:Hb; [|done].
      cbn [length]. apply Hpos. by subst l. }
    rewrite length_app. cbn [length]. rewrite length_drop, length_map, length_seq. lia.
  - fold (mkname_block junk (l.*2)). rewrite mkname_block_text by done.
    apply cstring_text_block.
    apply List.Forall_map. eapply Forall_impl; [exact Hsok|].
    intros s Hs. by apply strlen_take_no_nul.
Qed.

Lemma pname_mkname_string_witness :
  exists buf,
    pname_mkname (fun _ => true) (fun _ => NUL) 1 (mkHeap heap_usr_dotdot 0)
    = Some (Some buf, mkHeap heap_usr_dotdot 1) ∧
    length buf = 7 ∧ cstring buf = chars "/usr".
Proof.
  destruct (pname_mkname_string (fun _ => true) (fun _ => NUL) heap_usr_dotdot 0
              1 (chars "/usr", 4) [(2, (rootdir, 1)); (3, (chars "usr", 3))])
    as (buf & Hrun & Hlen & Hstr).
  - apply is_list_usr.
  - apply (bool_decide_unpack _). vm_compute. exact I.
  - apply (bool_decide_unpack _). vm_compute. exact I.
  - apply seg_wf_usr.
  - discriminate.
  - reflexivity.
  - exists buf. split; [exact Hrun|]. split; [exact Hlen|]. exact Hstr.
Defined.

(** X12: for a list that is empty, and with memory for the string,
    [pname_mkname] asks for a block of one byte and writes two, the
    ['/'] and the NUL: the second is written behind the block, so the
    call has no defined result.  [pname_append] comes to that when no
    segment is left, as for ["a"] and [".."]. *)
Theorem pname_mkname_empty_overflow ok junk σ n pn sent :
  is_list σ pn sent [] -> ok n = true ->
  pname_mkname ok junk pn (mkHeap σ n) = None ∧
  pname_append (fun _ => true) junk (chars "a") (chars "..") (mkHeap σ n) = None.
Proof.
  intros Hl Hok. split.
  - rewrite (pname_mkname_spec ok junk σ n pn sent []); [by rewrite Hok|done|..].
    + repeat constructor. set_solver.
    + set_solver.
    + constructor.
  - rewrite pname_append_refines. reflexivity.
Qed.

Lemma pname_mkname_empty_overflow_witness :
  pname_mkname (fun _ => true) (fun _ => NUL) 1
    (mkHeap {[ 1 := mkPNAME 1 1 [] 0 ]} 0) = None.
Proof.
  apply (pname_mkname_empty_overflow (fun _ => true) (fun _ => NUL)
           {[ 1 := mkPNAME 1 1 [] 0 ]} 0 1 ([], 0)).
  - exists 1, 1. split; [vm_compute; reflexivity|]. split; reflexivity.
  - reflexivity.
Defined.

(** X13: [pname_append] is the function the specification describes, for
    all paths and whatever calls of [pfs_malloc] fail: NULL at the first
    call that fails; else the string of the segments that are left of
    the first path after the segments of the second are applied to them
    in turn, in a block of their lengths plus one each, plus one; and no
    defined result when no segment is left.  In every case the heap
    holds afterwards the nodes it held before. *)
Theorem pname_append_is_append_result ok junk psPath1 psPath2 h :
  pname_append ok junk psPath1 psPath2 h = append_result ok junk psPath1 psPath2 h ∧
  (forall r h', pname_append ok junk psPath1 psPath2 h = Some (r, h') -> nodes h' = nodes h).
Proof.
  split; [apply pname_append_refines|].
  intros r h'. rewrite pname_append_refines. unfold append_result. cbv zeta.
  destruct (first_fail _ _ _); [by intros [= _ <-]|].
  destruct (spec_join _ _); [done|]. by intros [= _ <-].
Qed.

(** ** The string returned is a path in its normal form *)

Lemma spec_split_name n rest : forall cur,
  no_sep n -> spec_split (n ++ rest) cur = spec_split rest (cur ++ n).
Proof.
  induction n as [|c n IH]; intros cur Hn; [by rewrite app_nil_r|].
  apply Forall_cons in Hn as [Hc Hn]. cbn [app spec_split]. rewrite Hc.
  rewrite IH by done. by rewrite <- app_assoc.
Qed.

Lemma spec_split_intercalate names :
  Forall no_sep names -> names ≠ [] -> spec_split (intercalate names) [] = names.
Proof.
  induction 1 as [|t names Ht Hnames IH]; intros Hne; [done|].
  destruct names as [|t' names].
  - cbn [intercalate]. rewrite <- (app_nil_r t) at 1. by rewrite spec_split_name.
  - change (intercalate (t :: t' :: names)) with (t ++ slash :: intercalate (t' :: names)).
    rewrite spec_split_name by done. cbn [spec_split app].
    change (is_sep slash) with true. cbv iota. by rewrite IH.
Qed.

Lemma filter_all {A} (f : A -> bool) l :
  Forall (fun x => f x = true) l -> List.filter f l = l.
Proof.
  induction 1 as [|x l Hx _ IH]; [done|]. cbn [List.filter]. by rewrite Hx, IH.
Qed.

(** A segment of a path, as [pname_scan] makes them. *)
Lemma spec_segments_kept path :
  Forall (fun t => t = root_seg ∨ (keep_seg t = true ∧ no_sep t)) (spec_segments path).
Proof.
  unfold spec_segments. apply Forall_app. split.
  - destruct (is_sep (nth 0 path NUL)); repeat constructor.
  - assert (Forall (fun t => keep_seg t = true ∧ no_sep t)
              (List.filter keep_seg (spec_split path []))) as H.
    { apply Forall_and. split; [apply Forall_filter_keep|].
      apply Forall_filter_bool, spec_split_no_sep. constructor. }
    eapply Forall_impl; [exact H|]. intros t Ht. by right.
Qed.

Lemma names_kept segs :
  Forall (fun t => t = root_seg ∨ (keep_seg t = true ∧ no_sep t)) segs ->
  Forall (fun t => keep_seg t = true ∧ no_sep t ∧ is_root_seg t = false)
         (List.filter (fun t => negb (is_root_seg t)) segs).
Proof.
  induction 1 as [|t segs Ht _ IH]; [constructor|]. cbn [List.filter].
  destruct (is_root_seg t) eqn:Hr; cbn [negb]; [done|]. constructor; [|done].
  destruct Ht as [->|[? ?]]; [|done].
  unfold is_root_seg in Hr. by rewrite bool_decide_eq_true_2 in Hr.
Qed.

Lemma segments_serialize segs :
  Forall (fun t => t = root_seg ∨ (keep_seg t = true ∧ no_sep t)) segs ->
  spec_segments (serialize segs)
  = root_seg :: List.filter (fun t => negb (is_root_seg t)) segs.
Proof.
  intros Hsegs. apply names_kept in Hsegs. rewrite serialize_intercalate.
  set (names := List.filter (fun t => negb (is_root_seg t)) segs) in *.
  unfold spec_segments. cbn [nth]. change (is_sep slash) with true. cbv iota.
  cbn [app spec_split]. change (is_sep slash) with true. cbv iota.
  cbn [List.filter]. change (keep_seg []) with false. cbv iota. f_equal.
  destruct names as [|t names'] eqn:Hnames; [done|]. rewrite <- Hnames in *.
  rewrite spec_split_intercalate.
  - apply filter_all. eapply Forall_impl; [exact Hsegs|]. by intros t0 (? & _).
  - eapply Forall_impl; [exact Hsegs|]. by intros t0 (_ & ? & _).
  - by rewrite Hnames.
Qed.

(** X14: the string that [pname_append] returns is a path in its normal
    form: appending the empty path to it gives the same string again. *)
Theorem pname_append_normal_form ok junk psPath1 psPath2 h buf h1 :
  (forall i, ok i = true) ->
  pname_append ok junk psPath1 psPath2 h = Some (Some buf, h1) ->
  exists buf' h2,
    pname_append ok junk buf [] h1 = Some (Some buf', h2) ∧
    cstring buf' = cstring buf.
Proof.
  intros Hok Hrun.
  pose proof (join_paths_no_nul psPath1 psPath2) as Hnul.
  assert (Forall (fun t => t = root_seg ∨ (keep_seg t = true ∧ no_sep t))
            (spec_join_paths (cstring psPath1) (cstring psPath2))) as Hkept.
  { unfold spec_join_paths. apply spec_join_Forall; apply spec_segments_kept. }
  rewrite pname_append_refines in Hrun. unfold append_result in Hrun. cbv zeta in Hrun.
  rewrite first_fail_None in Hrun by (intros; apply Hok).
  fold (spec_join_paths (cstring psPath1) (cstring psPath2)) in Hrun.
  set (segs := spec_join_paths (cstring psPath1) (cstring psPath2)) in *.
  destruct segs as [|t segs'] eqn:Hsegs; [done|]. rewrite <- Hsegs in *.
  injection Hrun as <- _.
  assert (cstring (text_block junk segs) = serialize segs) as Hstr
    by (by apply cstring_text_block).
  assert (spec_join_paths (cstring (text_block junk segs)) (cstring [])
          = root_seg :: List.filter (fun t => negb (is_root_seg t)) segs) as Hsegs2.
  { unfold spec_join_paths. rewrite Hstr, segments_serialize by done. reflexivity. }
  eexists _, _. split.
  - apply pname_append_ok; [done|]. by rewrite Hsegs2.
  - rewrite cstring_text_block by apply join_paths_no_nul.
    rewrite Hsegs2, Hstr, !serialize_intercalate. f_equal. f_equal.
    cbn [List.filter]. change (is_root_seg root_seg) with true. cbn [negb].
    apply filter_all. eapply Forall_impl; [apply names_kept, Hkept|].
    intros t0 (_ & _ & ->). done.
Qed.

Lemma pname_append_normal_form_witness :
  exists buf h1 buf' h2,
    pname_append (fun _ => true) (fun _ => NUL) (chars "a/./b") (chars "../c") (mkHeap ∅ 0)
    = Some (Some buf, h1) ∧
    pname_append (fun _ => true) (fun _ => NUL) buf [] h1 = Some (Some buf', h2) ∧
    cstring buf' = cstring buf ∧ cstring buf = chars "/a/c".
Proof.
  assert (exists buf h1,
            pname_append (fun _ => true) (fun _ => NUL) (chars "a/./b") (chars "../c")
              (mkHeap ∅ 0) = Some (Some buf, h1) ∧ cstring buf = chars "/a/c")
    as (buf & h1 & Hrun & Hstr).
  { eexists _, _. split; [vm_compute; reflexivity|]. reflexivity. }
  destruct (pname_append_normal_form (fun _ => true) (fun _ => NUL)
              (chars "a/./b") (chars "../c") (mkHeap ∅ 0) buf h1)
    as (buf' & h2 & Hrun' & Hsame).
  - reflexivity.
  - exact Hrun.
  - exists buf, h1, buf', h2. split; [exact Hrun|]. split; [exact Hrun'|].
    split; [exact Hsame|]. exact Hstr.
Defined.

End PnameProperties.

(* ===================================================================== *)
(** * Part XI: more on the UART device *)
(* ===================================================================== *)

Module UartFacts.
Import Uart UartSpec UartRing UartRead UartOpen.
Local Open Scope Z_scope.

Section Flags.

Variables IOC_MD_ECHO IOC_MD_NBLOCK IOC_MD_ANY IOC_MD_CHR IOC_MD_TLF : Z.

(** Without a terminator, the loop of [uart_read] copies the bytes
    queued, oldest first, until it has [n] of them or none is left. *)
Lemma read_loop_drain tend h e : forall n d nread buffer,
  dev_wf d -> has_flag (mode d) IOC_MD_CHR = false ->
  ((n <= length (queued d))%nat ∨ has_flag (mode d) IOC_MD_NBLOCK = true ∨
   (has_flag (mode d) IOC_MD_ANY = true ∧ 0 < nread + Z.of_nat (length (queued d)))) ->
  0 <= nread ->
  nread + Z.of_nat (Nat.min n (length (queued d))) <= Z.of_nat (length buffer) ->
  exists d',
    read_loop IOC_MD_ECHO IOC_MD_NBLOCK IOC_MD_ANY IOC_MD_CHR IOC_MD_TLF
      n tend d h e nread buffer
    = Some (mkRead (nread + Z.of_nat (Nat.min n (length (queued d))))
              (take (Z.to_nat nread) buffer ++
               take (Nat.min n (length (queued d))) (queued d) ++
               drop (Z.to_nat nread + Nat.min n (length (queued d))) buffer)
              d' h e) ∧
    dev_wf d' ∧ queued d' = drop (Nat.min n (length (queued d))) (queued d) ∧
    mode d' = mode d ∧ tout d' = tout d ∧ uart d' = uart d.
Proof.
  induction n as [|n IH]; intros d nread buffer Hwf Hchr Hstop Hnr Hbuf.
  - exists d. cbn [Uart.read_loop Nat.min take].
    by rewrite app_nil_l, Z.add_0_r, Nat.add_0_r, take_drop.
  - destruct (queued d) as [|c rest] eqn:Hq.
    + pose proof (queued_nil d Hwf Hq) as Heq. exists d.
      cbn [Uart.read_loop]. rewrite Heq, Z.eqb_refl. cbn [andb length] in *.
      rewrite Nat.min_0_r.
      assert (has_flag (mode d) IOC_MD_NBLOCK ||
              has_flag (mode d) IOC_MD_ANY && (0 <? nread) = true) as ->.
      { destruct Hstop as [?|[->|[-> ?]]]; [lia|done|].
        rewrite orb_true_iff. right. cbn [andb]. lia. }
      cbn [take]. by rewrite app_nil_l, Z.add_0_r, Nat.add_0_r, take_drop.
    + destruct (queued_cons d _ _ Hwf Hq) as (Hne & Hget & Hwf' & Hq' & _).
      cbn [length] in Hbuf, Hstop |- *. rewrite <- Nat.succ_min_distr in Hbuf |- *.
      cbn [Uart.read_loop].
      destruct (Z.eqb_spec (rptr d) (wptr d)) as [|_]; [done|]. cbn [andb].
      rewrite wait_loop_ready by done. destruct e as [t sc]. cbn [now script].
      destruct (Z.eqb_spec (rptr d) (wptr d)) as [|_]; [done|].
      rewrite Hget, array_set_ok by lia.
      set (d1 := set_rptr _ d) in *. change (mode d1) with (mode d).
      rewrite Hchr. cbn [andb].
      destruct (IH d1 (nread + 1) (<[Z.to_nat nread := c]> buffer))
        as (d' & Hrun & Hwfd' & Hqd' & Hm' & Ht' & Hu'); try done.
      { rewrite Hq'. destruct Hstop as [?|[?|[? ?]]]; [left; lia|by right; left|].
        right. right. split; [done|lia]. }
      { lia. }
      { rewrite Hq', length_insert. lia. }
      exists d'. rewrite Hq' in Hrun, Hqd'. split.
      { rewrite Hrun. f_equal.
        replace (nread + 1 + Z.of_nat (n `min` length rest))
          with (nread + Z.of_nat (S (n `min` length rest))) by lia.
        f_equal.
        replace (Z.to_nat (nread + 1)) with (S (Z.to_nat nread)) by lia.
        rewrite (take_S_r _ _ c) by (apply list_lookup_insert_eq; lia).
        rewrite take_insert_ge by lia. rewrite drop_insert_lt by lia.
        rewrite <- app_assoc. cbn [app take].
        by replace (S (Z.to_nat nread) + n `min` length rest)%nat
          with (Z.to_nat nread + S (n `min` length rest))%nat by lia. }
      split; [done|]. split; [done|]. split; [done|]. split; done.
Qed.

(** Waiting keeps the device as the code keeps it. *)
Lemma wait_loop_wf tend script : forall d h t d1 h1 e1,
  dev_wf d ->
  wait_loop IOC_MD_ECHO tend script d h t = Some (d1, h1, e1) ->
  dev_wf d1 ∧ mode d1 = mode d.
Proof.
  induction script as [|[dt arrived] script IH]; intros d h t d1 h1 e1 Hwf Hrun;
    cbn [wait_loop] in Hrun; destruct (rptr d =? wptr d); cbn [negb] in Hrun;
    try (by injection Hrun as <- _ _); [done|].
  destruct (time_reached tend (t + dt)); [by injection Hrun as <- _ _|].
  destruct (uart_input_spec IOC_MD_ECHO d (set_rx_tx (rx_fifo h ++ arrived) (tx_out h) h) Hwf)
    as (d' & h' & Hin & Hwf' & _ & Hm' & _).
  rewrite Hin in Hrun. apply IH in Hrun as [? Hm]; [|done]. split; [done|].
  by rewrite Hm.
Qed.


Lemma set_rptr_wf d :
  dev_wf d -> dev_wf (set_rptr (Z.land (wrap_int (rptr d + 1)) (NDATA - 1)) d).
Proof.
  intros (Hr & Hw & Hlen). unfold dev_wf. cbn [rptr wptr data set_rptr].
  rewrite land_mask. split; [|done]. apply Z.mod_pos_bound. unfold NDATA. lia.
Qed.

(** What the loop of [uart_read] does to the buffer of the caller,
    whatever comes: it writes from [nread] on, one byte for each it
    counts, and with a terminator asked for no byte but the last is the
    terminator. *)
Lemma read_loop_safe tend : forall n d h e nread buffer r,
  dev_wf d -> 0 <= nread <= Z.of_nat (length buffer) ->
  read_loop IOC_MD_ECHO IOC_MD_NBLOCK IOC_MD_ANY IOC_MD_CHR IOC_MD_TLF
    n tend d h e nread buffer = Some r ->
  nread <= rd_nread r <= nread + Z.of_nat n ∧
  rd_nread r <= Z.of_nat (length buffer) ∧
  length (rd_buffer r) = length buffer ∧
  take (Z.to_nat nread) (rd_buffer r) = take (Z.to_nat nread) buffer ∧
  drop (Z.to_nat (rd_nread r)) (rd_buffer r) = drop (Z.to_nat (rd_nread r)) buffer ∧
  mode (rd_dev r) = mode d ∧
  (has_flag (mode d) IOC_MD_CHR = true ->
   forall i, (Z.to_nat nread <= i)%nat -> (S i < Z.to_nat (rd_nread r))%nat ->
             rd_buffer r !! i ≠ Some (Z.land (mode d) 255)).
Proof.
  assert (forall (d d' : pfs_dev_uart) h e nread (buffer : list Z) n,
            0 <= nread <= Z.of_nat (length buffer) -> mode d' = mode d ->
            let r := mkRead nread buffer d' h e in
            nread <= rd_nread r <= nread + Z.of_nat n ∧
            rd_nread r <= Z.of_nat (length buffer) ∧
            length (rd_buffer r) = length buffer ∧
            take (Z.to_nat nread) (rd_buffer r) = take (Z.to_nat nread) buffer ∧
            drop (Z.to_nat (rd_nread r)) (rd_buffer r) = drop (Z.to_nat (rd_nread r)) buffer ∧
            mode (rd_dev r) = mode d ∧
            (has_flag (mode d) IOC_MD_CHR = true ->
             forall i, (Z.to_nat nread <= i)%nat -> (S i < Z.to_nat (rd_nread r))%nat ->
                       rd_buffer r !! i ≠ Some (Z.land (mode d) 255))) as Hstop.
  { intros d d' h e nread buffer n Hnr Hm. cbn [rd_nread rd_buffer rd_dev].
    split; [lia|]. split; [lia|]. split; [done|]. split; [done|]. split; [done|].
    split; [done|]. intros _ i Hi Hi'. lia. }
  induction n as [|n IH]; intros d h e nread buffer r Hwf Hnr Hrun.
  - cbn [Uart.read_loop] in Hrun. injection Hrun as <-. by apply Hstop.
  - cbn [Uart.read_loop] in Hrun.
    destruct ((rptr d =? wptr d) &&
              (has_flag (mode d) IOC_MD_NBLOCK ||
               has_flag (mode d) IOC_MD_ANY && (0 <? nread))).
    { injection Hrun as <-. by apply Hstop. }
    destruct (wait_loop IOC_MD_ECHO tend (script e) d h (now e)) as [[[d1 h1] e1]|] eqn:Hwait;
      [|done].
    destruct (wait_loop_wf _ _ _ _ _ _ _ _ Hwf Hwait) as [Hwf1 Hm1].
    destruct (rptr d1 =? wptr d1).
    { injection Hrun as <-. by apply Hstop. }
    destruct (array_get (data d1) (rptr d1)) as [c|]; [|done].
    destruct (array_set buffer nread c) as [buffer1|] eqn:Hset; [|done].
    unfold array_set in Hset.
    destruct ((0 <=? nread) && (nread <? Z.of_nat (length buffer))) eqn:Hin; [|done].
    injection Hset as <-.
    pose proof (set_rptr_wf d1 Hwf1) as Hwf2.
    set (d2 := set_rptr _ d1) in *. change (mode d2) with (mode d1) in Hrun.
    rewrite Hm1 in Hrun.
    destruct (has_flag (mode d) IOC_MD_CHR && (c =? Z.land (mode d) 255)) eqn:Hterm.
    + injection Hrun as <-. cbn [rd_nread rd_buffer rd_dev].
      split; [lia|]. split; [lia|].
      assert (forall b : list Z, length b = length buffer ->
                take (Z.to_nat nread) b = take (Z.to_nat nread) buffer ->
                drop (Z.to_nat (nread + 1)) b = drop (Z.to_nat (nread + 1)) buffer ->
                length (if has_flag (mode d) IOC_MD_TLF then <[Z.to_nat nread := 10]> b else b)
                = length buffer ∧
                take (Z.to_nat nread)
                  (if has_flag (mode d) IOC_MD_TLF then <[Z.to_nat nread := 10]> b else b)
                = take (Z.to_nat nread) buffer ∧
                drop (Z.to_nat (nread + 1))
                  (if has_flag (mode d) IOC_MD_TLF then <[Z.to_nat nread := 10]> b else b)
                = drop (Z.to_nat (nread + 1)) buffer) as Hb.
      { intros b Hl Ht Hd. destruct (has_flag (mode d) IOC_MD_TLF); [|done].
        rewrite length_insert, take_insert_ge, drop_insert_lt by lia. done. }
      destruct (Hb (<[Z.to_nat nread := c]> buffer)) as (Hl & Ht & Hd).
      { by rewrite length_insert. }
      { by rewrite take_insert_ge by lia. }
      { by rewrite drop_insert_lt by lia. }
      split; [done|]. split; [done|]. split; [done|]. split; [done|].
      intros _ i Hi Hi'. lia.
    + apply IH in Hrun; [|done|rewrite length_insert; lia].
      destruct Hrun as (Hn & Hlen & Hl & Ht & Hd & Hm & Hno).
      rewrite length_insert in Hlen, Hl. change (mode d2) with (mode d1) in Hm, Hno.
      rewrite Hm1 in Hm, Hno.
      replace (Z.to_nat (nread + 1)) with (S (Z.to_nat nread)) in Ht, Hno by lia.
      split; [lia|]. split; [done|]. split; [done|]. split; [|split; [|split; [done|]]].
      * transitivity (take (Z.to_nat nread) (take (S (Z.to_nat nread)) (rd_buffer r))).
        { by rewrite take_take, Nat.min_l by lia. }
        rewrite Ht, take_take, Nat.min_l by lia. apply take_insert_ge. lia.
      * rewrite Hd. apply drop_insert_lt. lia.
      * intros Hchr i Hi Hi'.
        destruct (decide (i = Z.to_nat nread)) as [->|Hne]; [|apply Hno; [done|lia|done]].
        rewrite <- (lookup_take_lt _ (S (Z.to_nat nread))) by lia.
        rewrite Ht, lookup_take_lt, list_lookup_insert_eq by lia.
        rewrite Hchr in Hterm. cbn [andb] in Hterm.
        intros [= ->]. by rewrite Z.eqb_refl in Hterm.
Qed.

End Flags.

End UartFacts.

Module UartProperties.
Import Uart UartSpec UartRing UartRead UartOpen UartFacts.
Local Open Scope Z_scope.

(** X15: a pin that [uart_pin_valid] accepts for one of the four
    functions is one of the pins 0 to 29, the UART is 0 or 1, the
    function is the pin number modulo 4, and the other UART does not
    have that pin for that function. *)
Theorem uart_pin_valid_function uid func pin :
  0 <= func <= 3 ->
  uart_pin_valid uid func pin = true ->
  (uid = 0 ∨ uid = 1) ∧ 0 <= pin <= 29 ∧ pin mod 4 = func ∧
  uart_pin_valid (1 - uid) func pin = false.
Proof.
  intros Hf H. unfold uart_pin_valid in *.
  destruct ((pin <? 0) || (29 <? pin)) eqn:Hrange; [done|].
  destruct (Z.eqb_spec uid 0) as [->|Hu0].
  - destruct ((pin - func =? 0) || (pin - func =? 12) || (pin - func =? 16) ||
              (pin - func =? 28)) eqn:Hpin; [|done].
    split; [by left|]. split; [lia|]. split; [Z.to_euclidean_division_equations; lia|].
    cbn [Z.sub Z.eqb Z.opp Z.add Z.pos_sub].
    by replace ((pin - func =? 4) || (pin - func =? 8) || (pin - func =? 20) ||
                (pin - func =? 24)) with false by lia.
  - destruct (Z.eqb_spec uid 1) as [->|Hu1]; [|done].
    destruct ((pin - func =? 4) || (pin - func =? 8) || (pin - func =? 20) ||
              (pin - func =? 24)) eqn:Hpin; [|done].
    split; [by right|]. split; [lia|]. split; [Z.to_euclidean_division_equations; lia|].
    cbn [Z.sub Z.eqb Z.opp Z.add Z.pos_sub].
    by replace ((pin - func =? 0) || (pin - func =? 12) || (pin - func =? 16) ||
                (pin - func =? 28)) with false by lia.
Qed.

Lemma uart_pin_valid_function_witness :
  (1 = 0 ∨ 1 = 1) ∧ 0 <= 5 <= 29 ∧ 5 mod 4 = 1 ∧ uart_pin_valid (1 - 1) 1 5 = false.
Proof. apply (uart_pin_valid_function 1 1 5); [lia|reflexivity]. Defined.

Section Sdk.

Variables IOC_MD_ECHO IOC_MD_NBLOCK IOC_MD_ANY IOC_MD_CHR IOC_MD_TLF IOC_MD_CR : Z.
Variable EINVAL : Z.
Variables UART_PARITY_NONE UART_PARITY_EVEN UART_PARITY_ODD : Z.
Variable pfs_error : Z -> Z.
Variable uart_init : Z -> Z -> Z.
Variable uart_set_baudrate : Z -> Z -> Z.
Variable pfs_malloc_ok : nat -> bool.
Variable heap_junk : nat -> nat -> Z.
Variable uopen_end : bool.

(** X16: [uart_input] queues the bytes of the FIFO behind those in the
    buffer, in the order in which they came, as many as go in: the bytes
    queued before stay, the read index stays, and what does not go in
    stays in the FIFO.  With [IOC_MD_ECHO] the bytes taken are sent back,
    and RTS and the receive interrupt are switched off just when the
    buffer is full afterwards. *)
Theorem uart_input_queues d h :
  dev_wf d ->
  let k := Nat.min (length (rx_fifo h)) (Z.to_nat (NDATA - 1 - pending d)) in
  exists d' h',
    uart_input IOC_MD_ECHO d h = Some (d', h') ∧
    dev_wf d' ∧ rptr d' = rptr d ∧ mode d' = mode d ∧
    queued d' = queued d ++ take k (rx_fifo h) ∧
    rx_fifo h' = drop k (rx_fifo h) ∧
    tx_out h' = tx_out h ++ (if has_flag (mode d) IOC_MD_ECHO then take k (rx_fifo h) else []) ∧
    cr_rts h' = (if pending d' =? NDATA - 1 then false else cr_rts h) ∧
    imsc_rxim h' = (if pending d' =? NDATA - 1 then false else imsc_rxim h).
Proof.
  intros Hwf k.
  destruct (uart_input_spec IOC_MD_ECHO d h Hwf)
    as (d' & h' & Hrun & Hwf' & Hr & Hm & _ & _ & _ & Hq & Hrx & Htx & _ & Hrts & Hrxim).
  exists d', h'. by repeat (split; [done|]).
Qed.

(** X17: a read that does not block, with no terminator asked for,
    returns at once what there is: the bytes queued and those in the
    FIFO that go into the buffer, oldest first, up to [length] of them.
    It does not look at the clock, what it does not return stays queued,
    and it leaves RTS and the receive interrupt switched on. *)
Theorem uart_read_nonblocking d h e buffer length :
  dev_wf d ->
  has_flag (mode d) IOC_MD_CHR = false ->
  has_flag (mode d) IOC_MD_NBLOCK = true ->
  0 <= length <= Z.of_nat (List.length buffer) ->
  let avail :=
    queued d ++
    take (Nat.min (List.length (rx_fifo h)) (Z.to_nat (NDATA - 1 - pending d))) (rx_fifo h) in
  let m := Nat.min (Z.to_nat length) (List.length avail) in
  exists r,
    uart_read IOC_MD_ECHO IOC_MD_NBLOCK IOC_MD_ANY IOC_MD_CHR IOC_MD_TLF d h e buffer length
    = Some r ∧
    rd_nread r = Z.of_nat m ∧
    rd_buffer r = take m avail ++ drop m buffer ∧
    queued (rd_dev r) = drop m avail ∧
    rd_env r = e ∧
    cr_rts (rd_hw r) = true ∧ imsc_rxim (rd_hw r) = true.
Proof.
  intros Hwf Hchr Hnb Hlen avail m.
  destruct (uart_input_spec IOC_MD_ECHO d h Hwf)
    as (d1 & h1 & Hrun & Hwf1 & _ & Hm1 & _ & _ & _ & Hq1 & _).
  fold avail in Hq1. unfold uart_read. rewrite Hrun.
  destruct (read_loop_drain IOC_MD_ECHO IOC_MD_NBLOCK IOC_MD_ANY IOC_MD_CHR IOC_MD_TLF
              (if 0 <? tout d then Some (now e + tout d) else None) h1 e
              (Z.to_nat length) d1 0 buffer)
    as (d' & Hloop & Hwf' & Hq' & _); try done.
  - by rewrite Hm1.
  - right. left. by rewrite Hm1.
  - rewrite Hq1. lia.
  - rewrite Hq1 in Hloop, Hq'. fold m in Hloop, Hq'. rewrite Hloop.
    eexists. split; [done|]. cbn [rd_nread rd_buffer rd_dev rd_env rd_hw].
    split; [lia|]. split; [done|]. split; [done|]. done.
Qed.

(** X18: a read that blocks, with nothing queued and nothing in the
    FIFO, waits: when the bytes come before the time is out, and
    [IOC_MD_ANY] is set, it returns them, up to [length] of them; the
    clock has been looked at once. *)
Theorem uart_read_waits d h e buffer length dt arrived rest :
  dev_wf d ->
  has_flag (mode d) IOC_MD_CHR = false ->
  has_flag (mode d) IOC_MD_NBLOCK = false ->
  has_flag (mode d) IOC_MD_ANY = true ->
  pending d = 0 -> rx_fifo h = [] ->
  script e = (dt, arrived) :: rest ->
  (tout d <= 0 ∨ dt < tout d) ->
  arrived ≠ [] -> (List.length arrived <= 511)%nat ->
  0 < length <= Z.of_nat (List.length buffer) ->
  let m := Nat.min (Z.to_nat length) (List.length arrived) in
  exists r,
    uart_read IOC_MD_ECHO IOC_MD_NBLOCK IOC_MD_ANY IOC_MD_CHR IOC_MD_TLF d h e buffer length
    = Some r ∧
    rd_nread r = Z.of_nat m ∧
    rd_buffer r = take m arrived ++ drop m buffer ∧
    queued (rd_dev r) = drop m arrived ∧
    rd_env r = mkEnv (now e + dt) rest.
Proof.
  intros Hwf Hchr Hnb Hany Hp Hrx Hscript Htime Harr Hlen511 Hlen m.
  destruct (uart_input_spec IOC_MD_ECHO d h Hwf)
    as (d1 & h1 & Hrun & Hwf1 & _ & Hm1 & Ht1 & _ & Hp1 & Hq1 & Hrx1 & _).
  rewrite Hrx in Hp1, Hq1, Hrx1. cbn [List.length Nat.min take drop] in Hp1, Hq1, Hrx1.
  rewrite Z.add_0_r in Hp1. rewrite app_nil_r in Hq1.
  unfold uart_read. rewrite Hrun.
  set (tend := if 0 <? tout d then Some (now e + tout d) else None).
  set (h2 := set_rx_tx (rx_fifo h1 ++ arrived) (tx_out h1) h1).
  destruct (uart_input_spec IOC_MD_ECHO d1 h2 Hwf1)
    as (d3 & h3 & Hrun3 & Hwf3 & _ & Hm3 & _ & _ & Hp3 & Hq3 & _).
  assert (rx_fifo h2 = arrived) as Hrx2 by (subst h2; cbn [rx_fifo set_rx_tx]; by rewrite Hrx1).
  rewrite Hrx2 in Hp3, Hq3.
  assert (Nat.min (List.length arrived) (Z.to_nat (NDATA - 1 - pending d1))
          = List.length arrived) as Hk.
  { rewrite Hp1, Hp. unfold NDATA. lia. }
  rewrite Hk, firstn_all in Hq3. rewrite Hk in Hp3.
  assert (queued d1 = []) as Hq1nil.
  { apply length_zero_iff_nil. rewrite queued_length, Hp1, Hp. reflexivity. }
  rewrite Hq1nil, app_nil_l in Hq3.
  assert (rptr d3 ≠ wptr d3) as Hne3.
  { rewrite (pending_empty d3 Hwf3), Hp3, Hp1, Hp.
    destruct arrived; [done|]. cbn [List.length]. lia. }
  assert (time_reached tend (now e + dt) = false) as Htr.
  { subst tend. destruct (Z.ltb_spec 0 (tout d)); [|done]. cbn [time_reached]. lia. }
  assert (wait_loop IOC_MD_ECHO tend (script e) d1 h1 (now e)
          = Some (d3, h3, mkEnv (now e + dt) rest)) as Hwait.
  { rewrite Hscript. cbn [wait_loop].
    rewrite (proj2 (pending_empty d1 Hwf1)) by (by rewrite Hp1, Hp).
    rewrite Z.eqb_refl. cbn [negb]. fold h2. rewrite Htr, Hrun3.
    by apply wait_loop_ready. }
  replace (Z.to_nat length) with (S (Z.to_nat length - 1)) by lia.
  rewrite (read_loop_wait IOC_MD_ECHO IOC_MD_NBLOCK IOC_MD_ANY IOC_MD_CHR IOC_MD_TLF
             tend _ d1 h1 e 0 buffer d3 h3 (mkEnv (now e + dt) rest)); [| | |done|done].
  2:{ apply pending_empty; [done|]. by rewrite Hp1, Hp. }
  2:{ rewrite Hm1, Hnb, Hany. reflexivity. }
  replace (S (Z.to_nat length - 1)) with (Z.to_nat length) by lia.
  destruct (read_loop_drain IOC_MD_ECHO IOC_MD_NBLOCK IOC_MD_ANY IOC_MD_CHR IOC_MD_TLF
              tend h3 (mkEnv (now e + dt) rest) (Z.to_nat length) d3 0 buffer)
    as (d' & Hloop & Hwf' & Hq' & _); try done.
  - by rewrite Hm3, Hm1.
  - right. right. rewrite Hm3, Hm1. split; [done|]. rewrite Hq3.
    destruct arrived; [done|]. cbn [List.length]. lia.
  - rewrite Hq3. lia.
  - rewrite Hq3 in Hloop, Hq'. fold m in Hloop, Hq'. rewrite Hloop.
    eexists. split; [done|]. cbn [rd_nread rd_buffer rd_dev rd_env rd_hw].
    split; [lia|]. split; [done|]. split; done.
Qed.


(** X20: [uopen] returns [false] when [uart_init] finds no baud rate,
    when a requested pin is not valid, and when the format is not valid;
    otherwise it comes to its closing brace, where there is no [return].
    It sets both indices of the device to 0, and leaves the table of the
    devices and the other UART alone. *)
Theorem uopen_result uid sc w pud :
  0 <= uid < NUM_UARTS ->
  devs w !! uart_dev w uid = Some pud ->
  exists r w',
    uopen UART_PARITY_NONE UART_PARITY_EVEN UART_PARITY_ODD uart_init uopen_end uid sc w
    = Some (r, w') ∧
    r = negb (uart_init uid (sc_baud sc) =? 0) && all_valid uid sc &&
        format_valid UART_PARITY_NONE UART_PARITY_EVEN UART_PARITY_ODD sc && uopen_end ∧
    uart_dev w' = uart_dev w ∧
    devs w' = <[uart_dev w uid := set_wptr 0 (set_rptr 0 (set_uart uid pud))]> (devs w) ∧
    (forall i, i ≠ uid -> uarts w' i = uarts w i) ∧
    nmalloc w' = nmalloc w.
Proof.
  intros Huid Hpud.
  destruct (uopen_spec UART_PARITY_NONE UART_PARITY_EVEN UART_PARITY_ODD uart_init
              uopen_end uid sc w pud Huid Hpud)
    as (r & w' & new & Hrun & Hud & Hdevs & Hnm & Hu & _ & _ & Hr).
  exists r, w'. by repeat (split; [done|]).
Qed.

(** X21: [uart_ioctl] with [IOC_RQ_SCFG] accepts the formats that [uopen]
    accepts.  For another it returns what [pfs_error (EINVAL)] returns
    and changes nothing; for one of them it sets the baud rate, unless it
    is 0, and writes back the rate set, then sets the format, and
    returns 0.  The device is as it was either way. *)
Theorem uart_ioctl_config d h sc :
  exists sc' h',
    uart_ioctl EINVAL UART_PARITY_NONE UART_PARITY_EVEN UART_PARITY_ODD pfs_error
      uart_set_baudrate d h IOC_RQ_SCFG (arg_config sc)
    = Some (if format_valid UART_PARITY_NONE UART_PARITY_EVEN UART_PARITY_ODD sc
            then 0 else pfs_error EINVAL,
            arg_config sc', d, h') ∧
    if format_valid UART_PARITY_NONE UART_PARITY_EVEN UART_PARITY_ODD sc then
      hw_calls h'
      = hw_calls h ++
        (if sc_baud sc =? 0 then [] else [call_uart_set_baudrate (sc_baud sc)]) ++
        [call_uart_set_format (sc_data sc) (sc_stop sc) (sc_parity sc)] ∧
      sc' = (if sc_baud sc =? 0 then sc
             else set_sc_baud (uart_set_baudrate (uart d) (sc_baud sc)) sc) ∧
      rx_fifo h' = rx_fifo h ∧ tx_out h' = tx_out h
    else sc' = sc ∧ h' = h.
Proof.
  unfold uart_ioctl, format_valid.
  destruct (Z.ltb_spec (sc_data sc) 5), (Z.ltb_spec 8 (sc_data sc)); cbn [orb];
    try (replace (5 <=? sc_data sc) with false by lia);
    try (replace (5 <=? sc_data sc) with true by lia);
    try (replace (sc_data sc <=? 8) with false by lia);
    try (replace (sc_data sc <=? 8) with true by lia); cbn [andb];
    try (by eexists _, _).
  destruct (Z.ltb_spec (sc_stop sc) 1), (Z.ltb_spec 2 (sc_stop sc)); cbn [orb];
    try (replace (1 <=? sc_stop sc) with false by lia);
    try (replace (1 <=? sc_stop sc) with true by lia);
    try (replace (sc_stop sc <=? 2) with false by lia);
    try (replace (sc_stop sc <=? 2) with true by lia); cbn [andb];
    try (by eexists _, _).
  destruct (sc_parity sc =? UART_PARITY_NONE), (sc_parity sc =? UART_PARITY_EVEN),
    (sc_parity sc =? UART_PARITY_ODD); cbn [negb andb orb];
    try (by eexists _, _);
    (destruct (sc_baud sc =? 0); cbn [negb]; eexists _, _; (split; [done|]);
     cbn [hw_calls add_call rx_fifo tx_out]; rewrite <- ?app_assoc; done).
Qed.

(** X22: no request but [IOC_RQ_PURGE] touches the bytes queued: the
    indices and the buffer are after [uart_ioctl] as before, and so are
    the FIFO and the bytes sent. *)
Theorem uart_ioctl_keeps_queue d h request argp r argp' d' h' :
  uart_ioctl EINVAL UART_PARITY_NONE UART_PARITY_EVEN UART_PARITY_ODD pfs_error
    uart_set_baudrate d h request argp = Some (r, argp', d', h') ->
  request ≠ IOC_RQ_PURGE ->
  rptr d' = rptr d ∧ wptr d' = wptr d ∧ data d' = data d ∧ queued d' = queued d ∧
  rx_fifo h' = rx_fifo h ∧ tx_out h' = tx_out h.
Proof.
  intros Hrun Hreq. unfold uart_ioctl in Hrun.
  assert (rptr d' = rptr d ∧ wptr d' = wptr d ∧ data d' = data d ∧
          rx_fifo h' = rx_fifo h ∧ tx_out h' = tx_out h) as (Hr & Hw & Hd & Hrx & Htx).
  { destruct request; [| done | | | |]; destruct argp as [v|sc]; try done;
      try (by injection Hrun as _ _ <- <-).
    destruct ((sc_data sc <? 5) || (8 <? sc_data sc)); [by injection Hrun as _ _ <- <-|].
    destruct ((sc_stop sc <? 1) || (2 <? sc_stop sc)); [by injection Hrun as _ _ <- <-|].
    destruct (negb (sc_parity sc =? UART_PARITY_NONE) &&
              negb (sc_parity sc =? UART_PARITY_EVEN) &&
              negb (sc_parity sc =? UART_PARITY_ODD)); [by injection Hrun as _ _ <- <-|].
    destruct (negb (sc_baud sc =? 0)); by injection Hrun as _ _ <- <-. }
  repeat (split; [done|]). split; [|done].
  unfold queued, pending. by rewrite Hr, Hw, Hd.
Qed.


(** X26: whatever arrives and whenever, a read that returns has counted
    at most [length] bytes, has written that many bytes at the start of
    the buffer of the caller and nothing behind them, and has switched
    RTS and the receive interrupt on; with a terminator asked for, no
    byte it has copied but the last is the terminator. *)
Theorem uart_read_safe d h e buffer length r :
  dev_wf d -> 0 <= length ->
  uart_read IOC_MD_ECHO IOC_MD_NBLOCK IOC_MD_ANY IOC_MD_CHR IOC_MD_TLF d h e buffer length
  = Some r ->
  0 <= rd_nread r <= length ∧
  rd_nread r <= Z.of_nat (List.length buffer) ∧
  List.length (rd_buffer r) = List.length buffer ∧
  drop (Z.to_nat (rd_nread r)) (rd_buffer r) = drop (Z.to_nat (rd_nread r)) buffer ∧
  cr_rts (rd_hw r) = true ∧ imsc_rxim (rd_hw r) = true ∧
  (has_flag (mode d) IOC_MD_CHR = true ->
   forall i, (S i < Z.to_nat (rd_nread r))%nat ->
             rd_buffer r !! i ≠ Some (Z.land (mode d) 255)).
Proof.
  intros Hwf Hlen Hrun. unfold uart_read in Hrun.
  destruct (uart_input_spec IOC_MD_ECHO d h Hwf)
    as (d1 & h1 & Hin & Hwf1 & _ & Hm1 & _).
  rewrite Hin in Hrun.
  destruct (read_loop _ _ _ _ _ _ _ _ _ _ _ _) as [r0|] eqn:Hloop; [|done].
  injection Hrun as <-. cbn [rd_nread rd_buffer rd_dev rd_hw set_rts_rxim cr_rts imsc_rxim].
  apply read_loop_safe in Hloop as (Hn & Hb & Hl & _ & Hd & _ & Hno); [|done|lia].
  split; [lia|]. split; [done|]. split; [done|]. split; [done|]. split; [done|].
  split; [done|]. intros Hchr i Hi. rewrite <- Hm1. apply Hno; [by rewrite Hm1|lia|done].
Qed.

(** X27: the interrupt handlers [irq_uart0] and [irq_uart1] do nothing
    when there is no device for their UART; when there is one, they
    queue the bytes of the FIFO of its UART as [uart_input] does, and
    leave the table, the other devices and the calls made alone. *)
Theorem irq_uart_queues uid w :
  0 <= uid < NUM_UARTS ->
  (uart_dev w uid = Pname.NULL -> irq_uart IOC_MD_ECHO uid w = Some (tt, w)) ∧
  (forall pud,
    uart_dev w uid ≠ Pname.NULL ->
    devs w !! uart_dev w uid = Some pud -> dev_wf pud ->
    let k := Nat.min (List.length (rx_fifo (uarts w (uart pud))))
               (Z.to_nat (NDATA - 1 - pending pud)) in
    exists w' pud',
      irq_uart IOC_MD_ECHO uid w = Some (tt, w') ∧
      devs w' = <[uart_dev w uid := pud']> (devs w) ∧
      queued pud' = queued pud ++ take k (rx_fifo (uarts w (uart pud))) ∧
      rx_fifo (uarts w' (uart pud)) = drop k (rx_fifo (uarts w (uart pud))) ∧
      uart_dev w' = uart_dev w ∧ sdk w' = sdk w ∧ nmalloc w' = nmalloc w).
Proof.
  intros Huid.
  assert ((0 <=? uid) && (uid <? NUM_UARTS) = true) as Hrange by (unfold NUM_UARTS in *; lia).
  unfold irq_uart, bind, get_uart_dev. rewrite Hrange. split.
  - intros ->. reflexivity.
  - intros pud Hnn Hpud Hwf.
    destruct (Nat.eqb_spec (uart_dev w uid) Pname.NULL) as [|_]; [done|]. cbn [negb].
    unfold load_dev. rewrite Hpud.
    destruct (uart_input_spec IOC_MD_ECHO pud (uarts w (uart pud)) Hwf)
      as (pud' & h' & Hin & _ & _ & _ & _ & _ & _ & Hq & Hrx & _).
    rewrite Hin. unfold store_dev, on_uart. rewrite Hpud.
    cbn [uart_dev devs uarts sdk nmalloc].
    eexists _, pud'. split; [done|]. cbn [uart_dev devs uarts sdk nmalloc].
    split; [done|]. split; [done|].
    split; [unfold fun_set; by rewrite Z.eqb_refl|]. done.
Qed.

End Sdk.

Lemma uart_read_safe_witness :
  exists r,
    uart_read 1024 2048 4096 256 512 (dev_empty (256 + 13)) (hw_idle [104; 13; 120])
      (mkEnv 0 []) (repeat 0 4%nat) 4
    = Some r ∧
    0 <= rd_nread r <= 4 ∧ cr_rts (rd_hw r) = true ∧
    rd_buffer r !! 0%nat ≠ Some 13.
Proof.
  destruct (uart_read 1024 2048 4096 256 512 (dev_empty (256 + 13)) (hw_idle [104; 13; 120])
              (mkEnv 0 []) (repeat 0 4%nat) 4) as [r|] eqn:Hrun;
    [|vm_compute in Hrun; discriminate].
  destruct (uart_read_safe 1024 2048 4096 256 512 (dev_empty (256 + 13))
              (hw_idle [104; 13; 120]) (mkEnv 0 []) (repeat 0 4%nat) 4 r)
    as (Hn & _ & _ & _ & Hrts & _ & Hno).
  - apply dev_empty_wf.
  - lia.
  - exact Hrun.
  - exists r. split; [reflexivity|]. split; [exact Hn|]. split; [exact Hrts|].
    apply (Hno eq_refl).
    assert (rd_nread r = 2) as ->; [|simpl; lia].
    vm_compute in Hrun. injection Hrun as <-. reflexivity.
Defined.

Lemma irq_uart_queues_witness :
  let w := mkWorld (fun i => if i =? 0 then 1%nat else Pname.NULL) {[ 1%nat := dev_empty 0 ]}
             (fun _ => hw_idle [104; 105]) [] 1 in
  irq_uart 1024 1 w = Some (tt, w) ∧
  exists w' pud',
    irq_uart 1024 0 w = Some (tt, w') ∧
    devs w' = <[1%nat := pud']> (devs w) ∧
    queued pud' = [104; 105] ∧
    rx_fifo (uarts w' 0) = [] ∧
    uart_dev w' = uart_dev w.
Proof.
  intros w. split.
  - destruct (irq_uart_queues 1024 1 w) as [Hnone _].
    + unfold NUM_UARTS. lia.
    + apply Hnone. reflexivity.
  - destruct (irq_uart_queues 1024 0 w) as [_ Hdev].
    + unfold NUM_UARTS. lia.
    + destruct (Hdev (dev_empty 0)) as (w' & pud' & Hrun & Hdevs & Hq & Hrx & Hud & _).
      * vm_compute. discriminate.
      * vm_compute. reflexivity.
      * apply dev_empty_wf.
      * exists w', pud'. split; [exact Hrun|]. split; [exact Hdevs|].
        split; [rewrite Hq; vm_compute; reflexivity|].
        split; [|exact Hud].
        change (uart (dev_empty 0)) with 0 in Hrx. rewrite Hrx. vm_compute. reflexivity.
Defined.

Lemma uart_input_queues_witness :
  exists d' h',
    uart_input 1024 (dev_empty 1024) (hw_idle [104; 105]) = Some (d', h') ∧
    queued d' = [104; 105] ∧ rx_fifo h' = [] ∧ tx_out h' = [104; 105] ∧ cr_rts h' = true.
Proof.
  destruct (uart_input_queues 1024 (dev_empty 1024) (hw_idle [104; 105]))
    as (d' & h' & Hrun & Hwf & _ & _ & Hq & Hrx & Htx & Hrts & _).
  - apply dev_empty_wf.
  - exists d', h'. split; [exact Hrun|]. split; [exact Hq|]. split; [exact Hrx|].
    split; [exact Htx|]. rewrite Hrts.
    assert (pending d' = 2) as ->; [|reflexivity].
    pose proof (queued_length d') as Hlen. rewrite Hq in Hlen.
    pose proof (pending_range d'). simpl in Hlen. lia.
Defined.

Lemma uart_read_nonblocking_witness :
  exists r,
    uart_read 1024 2048 4096 256 512 (dev_empty 2048) (hw_idle [104; 105; 33])
      (mkEnv 0 []) (repeat 0 2%nat) 2
    = Some r ∧
    rd_nread r = 2 ∧ rd_buffer r = [104; 105] ∧ queued (rd_dev r) = [33].
Proof.
  destruct (uart_read_nonblocking 1024 2048 4096 256 512 (dev_empty 2048)
              (hw_idle [104; 105; 33]) (mkEnv 0 []) (repeat 0 2%nat) 2)
    as (r & Hrun & Hn & Hb & Hq & _).
  - apply dev_empty_wf.
  - reflexivity.
  - reflexivity.
  - simpl. lia.
  - exists r. split; [exact Hrun|]. split; [exact Hn|]. split; [exact Hb|]. exact Hq.
Defined.

Lemma uart_read_waits_witness :
  exists r,
    uart_read 1024 2048 4096 256 512 (dev_empty 4096) (hw_idle [])
      (mkEnv 0 [(250, [104; 105])]) (repeat 0 4%nat) 4
    = Some r ∧
    rd_nread r = 2 ∧ rd_buffer r = [104; 105; 0; 0] ∧ rd_env r = mkEnv 250 [].
Proof.
  destruct (uart_read_waits 1024 2048 4096 256 512 (dev_empty 4096) (hw_idle [])
              (mkEnv 0 [(250, [104; 105])]) (repeat 0 4%nat) 4 250 [104; 105] [])
    as (r & Hrun & Hn & Hb & _ & He).
  - apply dev_empty_wf.
  - reflexivity.
  - reflexivity.
  - reflexivity.
  - reflexivity.
  - reflexivity.
  - reflexivity.
  - left. simpl. lia.
  - discriminate.
  - simpl. lia.
  - simpl. lia.
  - exists r. split; [exact Hrun|]. split; [exact Hn|]. split; [exact Hb|]. exact He.
Defined.


Lemma uopen_result_witness :
  exists w',
    uopen 0 1 2 (fun _ b => b) true 0 (mkSC 115200 0 8 1 0 1 (-1) (-1)) world_uart0
    = Some (true, w') ∧
    uart_dev w' = uart_dev world_uart0.
Proof.
  destruct (uopen_result 0 1 2 (fun _ b => b) true 0
              (mkSC 115200 0 8 1 0 1 (-1) (-1)) world_uart0 (dev_empty 0))
    as (r & w' & Hrun & Hr & Hud & _).
  - unfold NUM_UARTS. lia.
  - vm_compute. reflexivity.
  - exists w'. rewrite Hr in Hrun. split; [exact Hrun|]. exact Hud.
Defined.

Lemma uart_ioctl_keeps_queue_witness :
  rptr (set_mode 7 (dev_empty 0)) = rptr (dev_empty 0) ∧
  wptr (set_mode 7 (dev_empty 0)) = wptr (dev_empty 0) ∧
  data (set_mode 7 (dev_empty 0)) = data (dev_empty 0) ∧
  queued (set_mode 7 (dev_empty 0)) = queued (dev_empty 0) ∧
  rx_fifo (hw_idle [1]) = rx_fifo (hw_idle [1]) ∧ tx_out (hw_idle [1]) = tx_out (hw_idle [1]).
Proof.
  apply (uart_ioctl_keeps_queue 22 0 1 2 (fun _ => -1) (fun _ b => b)
           (dev_empty 0) (hw_idle [1]) IOC_RQ_MODE (arg_int 7) 0 (arg_int 7)).
  - reflexivity.
  - discriminate.
Defined.


End UartProperties.

(* ===================================================================== *)
(** * Part XII: more on creating the flash filesystem *)
(* ===================================================================== *)

Module FfsProperties.
Import Ffs.

Section Lfs.

Variables lfs_config lfs_t flash : Type.
Variable lfs_mount : lfs_config -> lfs_t -> flash -> Z * lfs_t * flash.
Variable lfs_format : lfs_config -> lfs_t -> flash -> Z * lfs_t * flash.
Variable pfs_malloc_ok : nat -> bool.
Variable heap_junk : nat -> ffs_pfs lfs_config lfs_t.

(** X24: without memory for the filesystem, [pfs_ffs_create] returns
    NULL at once: LFS is not called, and the flash memory is neither
    mounted nor formatted. *)
Theorem pfs_ffs_create_no_memory c w :
  pfs_malloc_ok (nmalloc w) = false ->
  pfs_ffs_create lfs_mount lfs_format pfs_malloc_ok heap_junk c w
  = Some (Pname.NULL, mkWorld (objs w) (disk w) (lfs_calls w) (S (nmalloc w))).
Proof.
  intros Hok. unfold pfs_ffs_create, bind, Ffs.pfs_malloc. by rewrite Hok.
Qed.

(** X25: whatever LFS answers, [pfs_ffs_create] calls it at most three
    times: it mounts; it formats just when that mount has failed; and it
    mounts again just when the format has returned 0.  It returns NULL
    just when there is no memory, or the last answer of LFS is negative,
    and then no filesystem is left allocated. *)
Theorem pfs_ffs_create_calls c w r1 b1 f1 rf bf ff r2 b2 f2 :
  lfs_mount c (base (heap_junk (nmalloc w))) (disk w) = (r1, b1, f1) ->
  lfs_format c b1 f1 = (rf, bf, ff) ->
  lfs_mount c bf ff = (r2, b2, f2) ->
  exists p w',
    pfs_ffs_create lfs_mount lfs_format pfs_malloc_ok heap_junk c w = Some (p, w') ∧
    nmalloc w' = S (nmalloc w) ∧
    lfs_calls w'
    = lfs_calls w ++
      (if pfs_malloc_ok (nmalloc w) then
         call_lfs_mount ::
         (if (r1 <? 0)%Z then
            call_lfs_format :: (if (rf =? 0)%Z then [call_lfs_mount] else [])
          else [])
       else []) ∧
    (p = Pname.NULL <->
     pfs_malloc_ok (nmalloc w) = false ∨
     ((if (r1 <? 0)%Z then if (rf =? 0)%Z then r2 else rf else r1) < 0)%Z) ∧
    (p = Pname.NULL -> objs w' = objs w).
Proof.
  intros Hm1 Hf Hm2.
  destruct (pfs_malloc_ok (nmalloc w)) eqn:Hok.
  2:{ rewrite pfs_ffs_create_no_memory by done. eexists _, _. split; [done|].
      cbn [objs disk lfs_calls nmalloc]. rewrite app_nil_r.
      split; [done|]. split; [done|]. split; [|done]. split; [by left|done]. }
  unfold pfs_ffs_create, bind, Ffs.pfs_malloc. rewrite Hok.
  set (p := fresh ({[Pname.NULL]} ∪ dom (objs w))).
  pose proof (FfsClaims.fresh_not_null (dom (objs w))) as Hp. fold p in Hp.
  pose proof (FfsClaims.fresh_not_in (objs w)) as Hfresh. fold p in Hfresh.
  destruct (Nat.eqb_spec p Pname.NULL) as [|_]; [done|].
  unfold set_cfg. cbn [objs disk lfs_calls nmalloc]. rewrite lookup_insert_eq.
  unfold lfs at 1. cbn [objs disk lfs_calls nmalloc base cfg].
  rewrite lookup_insert_eq. cbn [base cfg]. rewrite Hm1.
  destruct (Z.ltb_spec r1 0) as [Hneg|Hpos].
  - unfold lfs at 1. cbn [objs disk lfs_calls nmalloc base cfg].
    rewrite lookup_insert_eq. cbn [base cfg]. rewrite Hf.
    destruct (Z.eqb_spec rf 0) as [->|Hne].
    + unfold lfs at 1. cbn [objs disk lfs_calls nmalloc base cfg].
      rewrite lookup_insert_eq. cbn [base cfg]. rewrite Hm2.
      destruct (Z.ltb_spec r2 0) as [Hneg2|Hpos2].
      * unfold Ffs.pfs_free, ret.
        destruct (Nat.eqb_spec p Pname.NULL) as [|_]; [done|].
        cbn [objs disk lfs_calls nmalloc]. rewrite lookup_insert_eq.
        eexists _, _. split; [done|]. cbn [objs disk lfs_calls nmalloc].
        split; [done|]. split; [by rewrite <- !app_assoc|].
        split; [split; [by right|done]|].
        intros _. rewrite !insert_insert_eq, delete_insert_eq. by apply delete_id.
      * unfold ret. eexists _, _. split; [done|]. cbn [objs disk lfs_calls nmalloc].
        split; [done|]. split; [by rewrite <- !app_assoc|].
        split; [|done]. split; [done|]. intros [?|?]; [done|lia].
    + unfold ret at 1. destruct (Z.ltb_spec rf 0) as [Hnegf|Hposf].
      * unfold Ffs.pfs_free, ret.
        destruct (Nat.eqb_spec p Pname.NULL) as [|_]; [done|].
        cbn [objs disk lfs_calls nmalloc]. rewrite lookup_insert_eq.
        eexists _, _. split; [done|]. cbn [objs disk lfs_calls nmalloc].
        split; [done|]. split; [by rewrite <- !app_assoc|].
        split; [split; [by right|done]|].
        intros _. rewrite !insert_insert_eq, delete_insert_eq. by apply delete_id.
      * unfold ret. eexists _, _. split; [done|]. cbn [objs disk lfs_calls nmalloc].
        split; [done|]. split; [by rewrite <- !app_assoc|].
        split; [|done]. split; [done|]. intros [?|?]; [done|lia].
  - unfold ret. destruct (Z.ltb_spec r1 0) as [|_]; [lia|].
    eexists _, _. split; [done|]. cbn [objs disk lfs_calls nmalloc].
    split; [done|]. split; [done|]. split; [|done]. split; [done|].
    intros [?|?]; [done|lia].
Qed.

End Lfs.

Lemma pfs_ffs_create_no_memory_witness :
  pfs_ffs_create toy_mount toy_format (fun _ => false) (fun _ => mkFfs false tt) tt
    (mkWorld ∅ false [] 0)
  = Some (Pname.NULL, mkWorld ∅ false [] 1).
Proof.
  apply (pfs_ffs_create_no_memory unit bool bool toy_mount toy_format (fun _ => false)
           (fun _ => mkFfs false tt) tt (mkWorld ∅ false [] 0)).
  reflexivity.
Defined.

Lemma pfs_ffs_create_calls_witness :
  (exists p w',
    pfs_ffs_create toy_mount toy_format (fun _ => true) (fun _ => mkFfs false tt) tt
      (mkWorld ∅ false [] 0)
    = Some (p, w') ∧
    nmalloc w' = 1 ∧
    lfs_calls w' = [call_lfs_mount; call_lfs_format; call_lfs_mount] ∧
    (p = Pname.NULL <-> true = false ∨ (0 < 0)%Z)) ∧
  (exists p w',
    pfs_ffs_create toy_mount toy_format (fun _ => true) (fun _ => mkFfs false tt) tt
      (mkWorld ∅ true [] 0)
    = Some (p, w') ∧
    nmalloc w' = 1 ∧
    lfs_calls w' = [call_lfs_mount] ∧
    (p = Pname.NULL <-> true = false ∨ (0 < 0)%Z)).
Proof.
  split.
  - destruct (pfs_ffs_create_calls unit bool bool toy_mount toy_format (fun _ => true)
                (fun _ => mkFfs false tt) tt (mkWorld ∅ false [] 0)
                (-84)%Z false false 0%Z false true 0%Z true true)
      as (p & w' & Hrun & Hn & Hcalls & Hnull & _).
    + reflexivity.
    + reflexivity.
    + reflexivity.
    + exists p, w'. split; [exact Hrun|]. split; [exact Hn|]. split; [exact Hcalls|].
      exact Hnull.
  - destruct (pfs_ffs_create_calls unit bool bool toy_mount toy_format (fun _ => true)
                (fun _ => mkFfs false tt) tt (mkWorld ∅ true [] 0)
                0%Z true true 0%Z false true 0%Z true true)
      as (p & w' & Hrun & Hn & Hcalls & Hnull & _).
    + reflexivity.
    + reflexivity.
    + reflexivity.
    + exists p, w'. split; [exact Hrun|]. split; [exact Hn|]. split; [exact Hcalls|].
      exact Hnull.
Defined.

End FfsProperties.

(* ===================================================================== *)
(** * Part XIII: the media functions of FatFs *)
(* ===================================================================== *)

Module DiskFacts.
Import Disk DiskSpec.
Local Open Scope Z_scope.

(** ** Bits *)

Lemma testbit_small b k n : 0 <= b < 2 ^ k -> k <= n -> Z.testbit b n = false.
Proof.
  intros Hb Hn. destruct (decide (b = 0)) as [->|Hnz]; [apply Z.testbit_0_l|].
  apply Z.bits_above_log2; [lia|].
  assert (Z.log2 b < k); [|lia]. apply Z.log2_lt_pow2; lia.
Qed.

Lemma lor_add a b k :
  0 <= k -> 0 <= b < 2 ^ k -> Z.lor (a * 2 ^ k) b = a * 2 ^ k + b.
Proof.
  intros Hk Hb.
  assert (Z.land (a * 2 ^ k) b = 0) as Hland.
  { apply Z.bits_inj'. intros n Hn. rewrite Z.land_spec, Z.bits_0.
    destruct (Z.lt_ge_cases n k) as [Hlt|Hge].
    - by rewrite Z.mul_pow2_bits_low.
    - by rewrite (testbit_small b k n), andb_false_r. }
  by rewrite <- Z.lxor_lor, <- Z.add_nocarry_lxor.
Qed.

Lemma shiftl_u32 a k :
  0 <= k -> wrap_u32 (Z.shiftl (wrap_u32 a) k) = (a * 2 ^ k) mod 4294967296.
Proof.
  intros Hk. unfold wrap_u32. rewrite Z.shiftl_mul_pow2 by done.
  by rewrite Z.mul_mod_idemp_l.
Qed.

Lemma lor_add_mult m a b k :
  0 <= k -> m = a * 2 ^ k -> 0 <= b < 2 ^ k -> Z.lor m b = m + b.
Proof. intros Hk -> Hb. by apply lor_add. Qed.

(** The bytes of a first sector, lowest first. *)
Lemma lba_of_entry_bytes mbr k :
  0 <= k ->
  (forall i, 0 <= byte_at mbr i < 256) ->
  lba_of_entry mbr (446 + Z.shiftl k 4) = (entry mbr k).2.
Proof.
  intros Hk Hbytes. unfold lba_of_entry, entry. cbn [snd].
  rewrite (Z.shiftl_mul_pow2 k 4) by lia. replace (446 + k * 2 ^ 4) with (446 + 16 * k) by lia.
  pose proof (Hbytes (446 + 16 * k + 8)) as H8. pose proof (Hbytes (446 + 16 * k + 9)) as H9.
  pose proof (Hbytes (446 + 16 * k + 10)) as H10. pose proof (Hbytes (446 + 16 * k + 11)) as H11.
  set (b8 := byte_at mbr (446 + 16 * k + 8)) in *.
  set (b9 := byte_at mbr (446 + 16 * k + 9)) in *.
  set (b10 := byte_at mbr (446 + 16 * k + 10)) in *.
  set (b11 := byte_at mbr (446 + 16 * k + 11)) in *.
  rewrite !Z.shiftl_mul_pow2 by lia.
  rewrite (lor_add_mult (b11 * 2 ^ 24) b11 (b10 * 2 ^ 16) 24) by lia.
  rewrite (lor_add_mult _ (b11 * 256 + b10) (b9 * 2 ^ 8) 16) by lia.
  rewrite (lor_add_mult _ (b11 * 65536 + b10 * 256 + b9) b8 8) by lia.
  unfold wrap_u32. rewrite Z.mod_small by lia. lia.
Qed.

(** ** The loops of [disk_read] and [disk_write] on a card that keeps
      what is written *)

Lemma write_at_ok buff off bytes :
  (off + length bytes <= length buff)%nat ->
  write_at buff off bytes = Some (take off buff ++ bytes ++ drop (off + length bytes) buff).
Proof.
  intros H. unfold write_at.
  by destruct (Nat.leb_spec (off + length bytes) (length buff)); [|lia].
Qed.

Lemma sectors_length c n : forall first,
  (forall lba, length (c lba) = 512%nat) ->
  length (sectors c first n) = (512 * n)%nat.
Proof.
  induction n as [|n IH]; intros first Hc; [done|]. cbn [sectors].
  rewrite length_app, Hc, IH by done. lia.
Qed.

Lemma read_loop_array c n : forall i sector buff off,
  (forall lba, length (c lba) = 512%nat) ->
  i + Z.of_nat n <= 2147483647 ->
  (off + 512 * n <= length buff)%nat ->
  read_loop array_read n i sector buff off c
  = Some (RES_OK, take off buff ++ sectors c sector n ++ drop (off + 512 * n) buff, c).
Proof.
  induction n as [|n IH]; intros i sector buff off Hc Hi Hlen.
  - cbn [read_loop sectors app]. by rewrite Nat.mul_0_r, Nat.add_0_r, take_drop.
  - cbn [read_loop sectors]. unfold array_read at 1.
    rewrite write_at_ok by (rewrite Hc; lia). cbn [negb].
    destruct (Z.eqb_spec i 2147483647) as [->|_]; [lia|].
    rewrite IH; [|done|lia|].
    2:{ rewrite !length_app, length_take, length_drop, Hc. lia. }
    f_equal. f_equal.
    rewrite Hc. set (blk := c sector) in *.
    assert (length blk = 512%nat) as Hblk by apply Hc.
    assert (length (take off buff ++ blk) = (off + 512)%nat) as Hpre.
    { rewrite length_app, length_take. lia. }
    rewrite (app_assoc (take off buff) blk).
    rewrite (take_app_length' (take off buff ++ blk)) by done.
    rewrite drop_app_ge by lia. rewrite Hpre, drop_drop.
    rewrite <- !app_assoc.
    by replace (off + 512 + (off + 512 + 512 * n - (off + 512)))%nat
      with (off + 512 * S n)%nat by lia.
Qed.

Lemma write_loop_array n : forall c i sector buff off,
  i + Z.of_nat n <= 2147483647 ->
  (off + 512 * n <= length buff)%nat ->
  write_loop array_write n i sector buff off c
  = Some (RES_OK, written c sector buff off n).
Proof.
  induction n as [|n IH]; intros c i sector buff off Hi Hlen; [done|].
  cbn [write_loop written]. unfold read_at.
  destruct (Nat.leb_spec (off + 512) (length buff)); [|lia].
  unfold array_write at 1. cbn [negb].
  destruct (Z.eqb_spec i 2147483647) as [->|_]; [lia|].
  rewrite IH; [done|lia|lia].
Qed.

Lemma written_other n : forall c sector buff off lba,
  0 <= sector < 4294967296 ->
  (forall j, (j < n)%nat -> lba ≠ wrap_u32 (sector + Z.of_nat j)) ->
  written c sector buff off n lba = c lba.
Proof.
  induction n as [|n IH]; intros c sector buff off lba Hs Hne; [done|]. cbn [written].
  rewrite IH.
  - destruct (Z.eqb_spec lba sector) as [->|_]; [|done].
    exfalso. apply (Hne 0%nat); [lia|].
    unfold wrap_u32. rewrite Z.add_0_r, Z.mod_small; lia.
  - unfold wrap_u32. apply Z.mod_pos_bound. lia.
  - intros j Hj. specialize (Hne (S j) ltac:(lia)). intros Heq. apply Hne. rewrite Heq.
    unfold wrap_u32. rewrite Zplus_mod_idemp_l. f_equal. lia.
Qed.

Lemma take_plus {A} a b : forall l : list A,
  take (a + b) l = take a l ++ take b (drop a l).
Proof.
  induction a as [|a IH]; intros [|x l]; cbn [Nat.add take drop app]; try done.
  - by rewrite take_nil.
  - by rewrite IH.
Qed.

(** Reading back what was written: the sectors are, in order, the bytes
    of the buffer. *)
Lemma sectors_written n : forall c sector buff off,
  0 <= sector < 4294967296 ->
  Z.of_nat n <= 4294967296 ->
  (off + 512 * n <= length buff)%nat ->
  sectors (written c sector buff off n) sector n = take (512 * n) (drop off buff).
Proof.
  induction n as [|n IH]; intros c sector buff off Hs Hn Hlen; [done|].
  cbn [sectors written].
  rewrite written_other.
  - rewrite Z.eqb_refl. rewrite IH; [| |lia|lia].
    2:{ unfold wrap_u32. apply Z.mod_pos_bound. lia. }
    replace (512 * S n)%nat with (512 + 512 * n)%nat by lia.
    by rewrite take_plus, drop_drop.
  - unfold wrap_u32. apply Z.mod_pos_bound. lia.
  - intros j Hj. unfold wrap_u32. rewrite Zplus_mod_idemp_l.
    intros Heq. rewrite <- (Z.mod_small sector 4294967296) in Heq at 1 by lia.
    revert Heq. Z.to_euclidean_division_equations. lia.
Qed.

Lemma written_length n : forall c sector buff off lba,
  (forall i, length (c i) = 512%nat) ->
  (off + 512 * n <= length buff)%nat ->
  length (written c sector buff off n lba) = 512%nat.
Proof.
  induction n as [|n IH]; intros c sector buff off lba Hc Hlen; [apply Hc|].
  cbn [written]. apply IH; [|lia].
  intros i. destruct (i =? sector); [|apply Hc].
  rewrite length_take, length_drop. lia.
Qed.

(** The partition that the loop of [disk_initialize] finds. *)
Lemma partition_loop_base mbr :
  (forall i, 0 <= byte_at mbr i < 256) ->
  partition_loop 4 0 mbr 0 = fat32_base mbr.
Proof.
  intros Hb. unfold partition_loop, fat32_base, entries.
  rewrite !Z.add_0_l.
  rewrite (lba_of_entry_bytes mbr 0), (lba_of_entry_bytes mbr 1),
    (lba_of_entry_bytes mbr (1 + 1)), (lba_of_entry_bytes mbr (1 + 1 + 1)) by (done || lia).
  change (1 + 1 + 1) with 3. change (1 + 1) with 2.
  change (446 + Z.shiftl 0 4 + 4) with (446 + 16 * 0 + 4).
  change (446 + Z.shiftl 1 4 + 4) with (446 + 16 * 1 + 4).
  change (446 + Z.shiftl 2 4 + 4) with (446 + 16 * 2 + 4).
  change (446 + Z.shiftl 3 4 + 4) with (446 + 16 * 3 + 4).
  cbn [List.filter fst snd].
  change (byte_at mbr (446 + 16 * 0 + 4)) with (entry mbr 0).1.
  change (byte_at mbr (446 + 16 * 1 + 4)) with (entry mbr 1).1.
  change (byte_at mbr (446 + 16 * 2 + 4)) with (entry mbr 2).1.
  change (byte_at mbr (446 + 16 * 3 + 4)) with (entry mbr 3).1.
  generalize (entry mbr 0) (entry mbr 1) (entry mbr 2) (entry mbr 3).
  intros [t0 l0] [t1 l1] [t2 l2] [t3 l3]. cbn [fst snd].
  destruct (t0 =? 12), (t1 =? 12), (t2 =? 12), (t3 =? 12); cbn [andb];
    rewrite ?Z.eqb_refl; cbn [negb andb];
    repeat (match goal with
            | |- context [?l =? 0] => destruct (Z.eqb_spec l 0) as [->|?]
            end; cbn [negb andb]; rewrite ?Z.eqb_refl); try done.
Qed.

(** The loop of [disk_read] stops at the first sector that cannot be
    read. *)
Lemma read_loop_faulty bad k : forall n i sector buff off log,
  (k < n)%nat -> i + Z.of_nat n <= 2147483647 ->
  (off + 512 * n <= length buff)%nat ->
  0 <= sector < 4294967296 ->
  (forall j, (j < k)%nat -> bad (wrap_u32 (sector + Z.of_nat j)) = false) ->
  bad (wrap_u32 (sector + Z.of_nat k)) = true ->
  read_loop (faulty_read bad) n i sector buff off log
  = Some (RES_ERROR,
          take off buff ++ repeat 0 (512 * k) ++ drop (off + 512 * k) buff,
          log ++ map (fun j => wrap_u32 (sector + Z.of_nat j)) (seq 0 (S k))).
Proof.
  assert (forall sector, 0 <= sector < 4294967296 -> wrap_u32 (sector + Z.of_nat 0) = sector)
    as Hw0.
  { intros sector Hs. unfold wrap_u32. rewrite Z.add_0_r. by apply Z.mod_small. }
  induction k as [|k IH]; intros n i sector buff off log Hk Hi Hlen Hs Hgood Hbad;
    (destruct n as [|n]; [lia|]); cbn [read_loop]; unfold faulty_read at 1.
  - rewrite Hw0 in Hbad by done. rewrite Hbad. cbn [negb].
    rewrite write_at_ok by (cbn [length]; lia). cbn [length seq map app repeat].
    rewrite (Hw0 sector Hs), Nat.mul_0_r, !Nat.add_0_r. done.
  - pose proof (Hgood 0%nat ltac:(lia)) as H0. rewrite Hw0 in H0 by done. rewrite H0.
    cbn [negb]. rewrite write_at_ok by (rewrite repeat_length; lia).
    rewrite repeat_length.
    destruct (Z.eqb_spec i 2147483647) as [->|_]; [lia|].
    rewrite (IH n); [|lia|lia| | | |].
    + f_equal. f_equal.
      * assert (length (take off buff ++ repeat 0 512) = (off + 512)%nat) as Hpre.
        { rewrite length_app, length_take, repeat_length. lia. }
        rewrite (app_assoc (take off buff)).
        rewrite (take_app_length' (take off buff ++ repeat 0 512)) by done.
        rewrite drop_app_ge by lia. rewrite Hpre, drop_drop.
        replace (512 * S k)%nat with (512 + 512 * k)%nat by lia.
        rewrite repeat_app, <- !app_assoc. do 3 f_equal.
        apply (f_equal (fun m => repeat 0 (512 * k) ++ drop m buff)). lia.
      * rewrite <- app_assoc. f_equal.
        change (seq 0 (S (S k))) with (0%nat :: seq 1 (S k)).
        rewrite map_cons, (Hw0 sector Hs). cbn [app]. f_equal.
        rewrite <- seq_shift, map_map. apply map_ext. intros j.
        unfold wrap_u32. rewrite Zplus_mod_idemp_l. f_equal. lia.
    + rewrite !length_app, length_take, repeat_length, length_drop. lia.
    + unfold wrap_u32. apply Z.mod_pos_bound. lia.
    + intros j Hj. specialize (Hgood (S j) ltac:(lia)). rewrite <- Hgood.
      unfold wrap_u32. rewrite Zplus_mod_idemp_l. f_equal. f_equal. lia.
    + rewrite <- Hbad. unfold wrap_u32. rewrite Zplus_mod_idemp_l. f_equal. f_equal. lia.
Qed.

End DiskFacts.

Module DiskProperties.
Import Disk DiskSpec DiskFacts.
Local Open Scope Z_scope.

(** X1: for a date and time in their ranges, [get_fattime] packs the
    fields side by side: the seconds halved in bits 0 to 4, the minutes in
    bits 5 to 10, the hours in bits 11 to 15, the day in bits 16 to 20,
    the month in bits 21 to 24, and in bits 25 to 31 the year modulo 128;
    every field but the year can be read back.  With the clock not
    running, the time is 0. *)
Theorem get_fattime_packs dt :
  2000 <= year dt <= 2100 -> 1 <= month dt <= 12 -> 1 <= day dt <= 31 ->
  0 <= hour dt <= 23 -> 0 <= min dt <= 59 -> 0 <= sec dt <= 59 ->
  let t := get_fattime true dt in
  t = (year dt mod 128) * 2 ^ 25 + month dt * 2 ^ 21 + day dt * 2 ^ 16 +
      hour dt * 2 ^ 11 + min dt * 2 ^ 5 + sec dt / 2 ∧
  t / 2 ^ 25 = year dt mod 128 ∧
  (t / 2 ^ 21) mod 16 = month dt ∧
  (t / 2 ^ 16) mod 32 = day dt ∧
  (t / 2 ^ 11) mod 32 = hour dt ∧
  (t / 2 ^ 5) mod 64 = min dt ∧
  t mod 32 = sec dt / 2 ∧
  get_fattime false dt = 0.
Proof.
  intros Hy Hmo Hd Hh Hmi Hs t.
  assert (t = (year dt mod 128) * 2 ^ 25 + month dt * 2 ^ 21 + day dt * 2 ^ 16 +
              hour dt * 2 ^ 11 + min dt * 2 ^ 5 + sec dt / 2) as Ht.
  { subst t. unfold get_fattime.
    replace ((2000 <=? year dt) && (year dt <=? 2100) && (1 <=? month dt) &&
             (month dt <=? 12) && (1 <=? day dt) && (day dt <=? 31) &&
             (0 <=? hour dt) && (hour dt <=? 23) && (0 <=? min dt) &&
             (min dt <=? 59) && (0 <=? sec dt) && (sec dt <=? 59)) with true by lia.
    cbv zeta. rewrite !shiftl_u32 by lia.
    replace 4294967296 with (128 * 2 ^ 25) at 1 by lia.
    rewrite Z.mul_mod_distr_r by lia.
    rewrite (Z.mod_small (month dt * 2 ^ 21)), (Z.mod_small (day dt * 2 ^ 16)),
      (Z.mod_small (hour dt * 2 ^ 11)), (Z.mod_small (min dt * 2 ^ 5)) by lia.
    unfold wrap_u32. rewrite (Z.mod_small (sec dt)) by lia.
    rewrite Z.shiftr_div_pow2 by lia. change (2 ^ 1) with 2.
    pose proof (Z.mod_pos_bound (year dt) 128 ltac:(lia)) as HY.
    set (Y := year dt mod 128) in *.
    assert (0 <= sec dt / 2 < 32) as Hs2 by (Z.to_euclidean_division_equations; lia).
    set (S2 := sec dt / 2) in *.
    rewrite (lor_add_mult (Y * 2 ^ 25) Y (month dt * 2 ^ 21) 25) by lia.
    rewrite (lor_add_mult _ (Y * 16 + month dt) (day dt * 2 ^ 16) 21) by lia.
    rewrite (lor_add_mult _ ((Y * 16 + month dt) * 32 + day dt) (hour dt * 2 ^ 11) 16) by lia.
    rewrite (lor_add_mult _ (((Y * 16 + month dt) * 32 + day dt) * 32 + hour dt)
               (min dt * 2 ^ 5) 11) by lia.
    rewrite (lor_add_mult _ ((((Y * 16 + month dt) * 32 + day dt) * 32 + hour dt) * 64 + min dt)
               S2 5) by lia.
    done. }
  split; [done|]. clearbody t.
  pose proof (Z.mod_pos_bound (year dt) 128 ltac:(lia)) as HY.
  assert (0 <= sec dt / 2 < 32) as Hs2 by (Z.to_euclidean_division_equations; lia).
  set (Y := year dt mod 128) in *. set (S2 := sec dt / 2) in *.
  repeat (split; [subst t; Z.to_euclidean_division_equations; lia|]). reflexivity.
Qed.

Lemma get_fattime_packs_witness :
  get_fattime true (mkDate 2023 10 30 1 12 34 56) / 2 ^ 25 = 103 ∧
  (get_fattime true (mkDate 2023 10 30 1 12 34 56) / 2 ^ 21) mod 16 = 10 ∧
  get_fattime true (mkDate 2023 10 30 1 12 34 56) mod 32 = 28.
Proof.
  destruct (get_fattime_packs (mkDate 2023 10 30 1 12 34 56))
    as (_ & Hy & Hm & _ & _ & _ & Hs & _); try (simpl; lia).
  split; [exact Hy|]. split; [exact Hm|]. exact Hs.
Defined.

(** X2: on a card that keeps its sectors, [disk_read] of [count]
    sectors puts into the buffer, one after the other, the sectors
    numbered from [sector + lba_base] on, and leaves the rest of the
    buffer and the state as they were. *)
Theorem disk_read_sectors STA_NOINIT buff sector count (s : state array_card) :
  Z.land (iStat s) STA_NOINIT = 0 ->
  0 < count <= 2147483647 ->
  (forall lba, length (card s lba) = 512%nat) ->
  (512 * Z.to_nat count <= length buff)%nat ->
  disk_read array_read STA_NOINIT (Some buff) sector count s
  = Some (RES_OK,
          Some (sectors (card s) (wrap_u32 (sector + lba_base s)) (Z.to_nat count) ++
                drop (512 * Z.to_nat count) buff),
          s).
Proof.
  intros Hst Hcount Hc Hlen. unfold disk_read. rewrite Hst. cbn [Z.eqb negb].
  destruct (Z.eqb_spec count 0) as [|_]; [lia|].
  rewrite read_loop_array by (done || lia). by destruct s.
Qed.

Lemma disk_read_sectors_witness :
  disk_read array_read 1 (Some (repeat 7 1024%nat)) 5 2
    (mkState 100 0 (fun lba => repeat lba 512%nat))
  = Some (RES_OK, Some (repeat 105 512%nat ++ repeat 106 512%nat),
          mkState 100 0 (fun lba => repeat lba 512%nat)).
Proof.
  rewrite (disk_read_sectors 1 (repeat 7 1024%nat) 5 2
             (mkState 100 0 (fun lba => repeat lba 512%nat))).
  - vm_compute. reflexivity.
  - reflexivity.
  - lia.
  - intros lba. apply repeat_length.
  - vm_compute. lia.
Defined.

(** X3: on a card that keeps its sectors, what [disk_write] writes
    [disk_read] reads back: after [count] sectors are written from a
    buffer, reading [count] sectors from the same sector number gives the
    bytes of that buffer; the other sectors of the card are as they
    were. *)
Theorem disk_write_read_round_trip STA_NOINIT buff buff2 sector count
  (s : state array_card) :
  Z.land (iStat s) STA_NOINIT = 0 ->
  0 < count <= 2147483647 ->
  (forall lba, length (card s lba) = 512%nat) ->
  (512 * Z.to_nat count <= length buff)%nat ->
  (512 * Z.to_nat count <= length buff2)%nat ->
  exists s',
    disk_write array_write STA_NOINIT (Some buff) sector count s = Some (RES_OK, s') ∧
    disk_read array_read STA_NOINIT (Some buff2) sector count s'
    = Some (RES_OK,
            Some (take (512 * Z.to_nat count) buff ++ drop (512 * Z.to_nat count) buff2),
            s') ∧
    (forall lba,
      (forall j, (j < Z.to_nat count)%nat ->
                 lba ≠ wrap_u32 (wrap_u32 (sector + lba_base s) + Z.of_nat j)) ->
      card s' lba = card s lba).
Proof.
  intros Hst Hcount Hc Hlen Hlen2.
  assert (0 <= wrap_u32 (sector + lba_base s) < 4294967296) as Hsec.
  { unfold wrap_u32. apply Z.mod_pos_bound. lia. }
  eexists. split; [|split].
  - unfold disk_write. rewrite Hst. cbn [Z.eqb negb].
    destruct (Z.eqb_spec count 0) as [|_]; [lia|].
    by rewrite write_loop_array by lia.
  - rewrite disk_read_sectors; cbn [lba_base iStat card]; [|done|lia| |done].
    + by rewrite sectors_written by lia.
    + intros lba. by apply written_length.
  - intros lba Hne. cbn [card]. by apply written_other.
Qed.

Lemma disk_write_read_round_trip_witness :
  exists s',
    disk_write array_write 1 (Some (repeat 7 512%nat ++ repeat 8 512%nat)) 5 2
      (mkState 100 0 (fun lba => repeat lba 512%nat)) = Some (RES_OK, s') ∧
    disk_read array_read 1 (Some (repeat 0 1024%nat)) 5 2 s'
    = Some (RES_OK, Some (repeat 7 512%nat ++ repeat 8 512%nat), s').
Proof.
  destruct (disk_write_read_round_trip 1 (repeat 7 512%nat ++ repeat 8 512%nat)
              (repeat 0 1024%nat) 5 2 (mkState 100 0 (fun lba => repeat lba 512%nat)))
    as (s' & Hw & Hr & _).
  - reflexivity.
  - lia.
  - intros lba. apply repeat_length.
  - vm_compute. lia.
  - vm_compute. lia.
  - exists s'. split; [exact Hw|]. rewrite Hr. reflexivity.
Defined.

(** X28: [disk_read] stops at the first sector that cannot be read: it
    returns [RES_ERROR], the sectors before that one are in the buffer,
    and the sectors after it are not asked for. *)
Theorem disk_read_stops_at_error STA_NOINIT bad k buff sector count (s : state (list Z)) :
  Z.land (iStat s) STA_NOINIT = 0 ->
  (k < Z.to_nat count)%nat -> count <= 2147483647 ->
  (512 * Z.to_nat count <= length buff)%nat ->
  (forall j, (j < k)%nat ->
             bad (wrap_u32 (wrap_u32 (sector + lba_base s) + Z.of_nat j)) = false) ->
  bad (wrap_u32 (wrap_u32 (sector + lba_base s) + Z.of_nat k)) = true ->
  disk_read (faulty_read bad) STA_NOINIT (Some buff) sector count s
  = Some (RES_ERROR,
          Some (repeat 0 (512 * k) ++ drop (512 * k) buff),
          mkState (lba_base s) (iStat s)
            (card s ++
             map (fun j => wrap_u32 (wrap_u32 (sector + lba_base s) + Z.of_nat j))
               (seq 0 (S k)))).
Proof.
  intros Hst Hk Hcount Hlen Hgood Hbad. unfold disk_read. rewrite Hst. cbn [Z.eqb negb].
  destruct (Z.eqb_spec count 0) as [->|_]; [simpl in Hk; lia|].
  rewrite (read_loop_faulty bad k); [done|done|lia|lia| |done|done].
  unfold wrap_u32. apply Z.mod_pos_bound. lia.
Qed.

Lemma disk_read_stops_at_error_witness :
  disk_read (faulty_read (fun lba => lba =? 11)) 1 (Some (repeat 7 2048%nat)) 10 4
    (mkState 0 0 [])
  = Some (RES_ERROR, Some (repeat 0 512%nat ++ repeat 7 1536%nat), mkState 0 0 [10; 11]).
Proof.
  rewrite (disk_read_stops_at_error 1 (fun lba => lba =? 11) 1 (repeat 7 2048%nat) 10 4
             (mkState 0 0 [])).
  - vm_compute. reflexivity.
  - reflexivity.
  - simpl. lia.
  - lia.
  - vm_compute. lia.
  - intros j Hj. assert (j = 0%nat) as -> by lia. reflexivity.
  - reflexivity.
Defined.

Section SdSpi.

Variable sd_card : Type.
Variable sd_spi_init : sd_card -> bool * sd_card.
Variable sd_spi_read : sd_card -> Z -> bool * list Z * sd_card.
Variable sd_spi_write : sd_card -> Z -> list Z -> bool * sd_card.
Variable STA_NOINIT : Z.

(** X4: when the card answers and its first sector is read,
    [disk_initialize] returns 0, and sets [lba_base]: with the signature
    [55 AA] at the end of the first sector, to the first sector of the
    first partition of type [0x0C] of the table that does not start at 0;
    to 0 when there is no such partition, or no signature. *)
Theorem disk_initialize_partition mbr s c1 sec0 c2 :
  sd_spi_init (card s) = (true, c1) ->
  sd_spi_read c1 0 = (true, sec0, c2) ->
  length sec0 = 512%nat -> length mbr = 512%nat ->
  (forall i, 0 <= byte_at sec0 i < 256) ->
  disk_initialize sd_spi_init sd_spi_read STA_NOINIT mbr s
  = Some (0, mkState
               (if (byte_at sec0 510 =? 85) && (byte_at sec0 511 =? 170)
                then fat32_base sec0 else 0)
               0 c2).
Proof.
  intros Hinit Hread Hlen Hmbr Hbytes. unfold disk_initialize. rewrite Hinit.
  unfold disk_read. cbn [iStat lba_base card]. rewrite Z.land_0_l. cbn [Z.eqb negb].
  change (Z.to_nat 1) with 1%nat. cbn [read_loop]. rewrite Z.add_0_l.
  change (wrap_u32 0) with 0. rewrite Hread.
  rewrite write_at_ok by (rewrite Hlen, Hmbr; lia). cbn [negb Z.eqb].
  rewrite Hlen, take_0, drop_ge, app_nil_r by (rewrite Hmbr; lia). cbn [app].
  cbn [iStat lba_base card].
  destruct ((byte_at sec0 510 =? 85) && (byte_at sec0 511 =? 170)); [|done].
  by rewrite partition_loop_base.
Qed.

(** X5: when the card does not answer, or its first sector cannot be
    read, [disk_initialize] returns [STA_NOINIT], and from then on
    [disk_read] and [disk_write] answer [RES_NOTRDY] and leave the
    buffer and the card alone. *)
Theorem disk_not_ready_after_failed_initialize mbr s :
  STA_NOINIT ≠ 0 ->
  length mbr = 512%nat ->
  (sd_spi_init (card s)).1 = false ∨
  ((sd_spi_read (sd_spi_init (card s)).2 0).1.1 = false ∧
   (length (sd_spi_read (sd_spi_init (card s)).2 0).1.2 <= 512)%nat) ->
  exists s',
    disk_initialize sd_spi_init sd_spi_read STA_NOINIT mbr s = Some (STA_NOINIT, s') ∧
    disk_status s' = STA_NOINIT ∧
    forall buff sector count,
      disk_read sd_spi_read STA_NOINIT buff sector count s' = Some (RES_NOTRDY, buff, s') ∧
      disk_write sd_spi_write STA_NOINIT buff sector count s' = Some (RES_NOTRDY, s').
Proof.
  intros Hsta Hmbr Hfail.
  assert (forall s' : state sd_card, iStat s' = STA_NOINIT ->
            forall buff sector count,
              disk_read sd_spi_read STA_NOINIT buff sector count s' = Some (RES_NOTRDY, buff, s') ∧
              disk_write sd_spi_write STA_NOINIT buff sector count s' = Some (RES_NOTRDY, s'))
    as Hnot.
  { intros s' Hs' buff sector count. unfold disk_read, disk_write.
    rewrite Hs', Z.land_diag. by destruct (Z.eqb_spec STA_NOINIT 0). }
  unfold disk_initialize.
  destruct (sd_spi_init (card s)) as [ok c1] eqn:Hinit. cbn [fst snd] in Hfail.
  destruct ok.
  - destruct Hfail as [|[Hread Hlen]]; [done|].
    unfold disk_read. cbn [iStat lba_base card]. rewrite Z.land_0_l. cbn [Z.eqb negb].
    change (Z.to_nat 1) with 1%nat. cbn [read_loop]. rewrite Z.add_0_l.
    change (wrap_u32 0) with 0.
    destruct (sd_spi_read c1 0) as [[ok bytes] c2]. cbn [fst snd] in Hread, Hlen. subst ok.
    rewrite write_at_ok by (rewrite Hmbr; lia). cbn [negb].
    eexists. split; [done|]. split; [done|]. by apply Hnot.
  - eexists. split; [done|]. split; [done|]. by apply Hnot.
Qed.

End SdSpi.

Lemma disk_initialize_partition_witness :
  disk_initialize (fun c : array_card => (true, c)) array_read 1 (repeat 0 512%nat)
    (mkState 0 1 (fun lba => if lba =? 0 then mbr_example else repeat 0 512%nat))
  = Some (0, mkState 2048 0 (fun lba => if lba =? 0 then mbr_example else repeat 0 512%nat)).
Proof.
  rewrite (disk_initialize_partition array_card (fun c => (true, c)) array_read 1
             (repeat 0 512%nat)
             (mkState 0 1 (fun lba => if lba =? 0 then mbr_example else repeat 0 512%nat))
             (fun lba => if lba =? 0 then mbr_example else repeat 0 512%nat)
             mbr_example
             (fun lba => if lba =? 0 then mbr_example else repeat 0 512%nat)).
  - reflexivity.
  - reflexivity.
  - reflexivity.
  - reflexivity.
  - reflexivity.
  - intros i. unfold byte_at.
    assert (Forall (fun b => 0 <= b < 256) mbr_example) as Hall.
    { apply (bool_decide_unpack _). vm_compute. exact I. }
    rewrite nth_lookup.
    destruct (mbr_example !! Z.to_nat i) as [b|] eqn:Hb; cbn [default]; [|lia].
    by apply (Forall_lookup_1 _ _ _ _ Hall Hb).
Defined.

Lemma disk_not_ready_after_failed_initialize_witness :
  exists s',
    disk_initialize (fun c : unit => (true, c)) dead_read 1 (repeat 0 512%nat) (mkState 0 0 tt)
    = Some (1, s') ∧
    disk_read dead_read 1 (Some [0]) 0 1 s' = Some (RES_NOTRDY, Some [0], s').
Proof.
  destruct (disk_not_ready_after_failed_initialize unit (fun c => (true, c)) dead_read
              (fun c _ _ => (true, c)) 1 (repeat 0 512%nat) (mkState 0 0 tt))
    as (s' & Hinit & _ & Hnot).
  - lia.
  - reflexivity.
  - right. split; [reflexivity|]. simpl. lia.
  - exists s'. split; [exact Hinit|]. apply Hnot.
Defined.

End DiskProperties.
